(** * namedzone: typed projection of a named.conf syntax tree

    A shallow embedding of the Go package [namedzone]: the model of
    [types.go], the codecs of [parse_helpers.go], the decode pass
    ([FromFile]) and the encode pass ([Apply]) of [load.go], [Save] and the
    accessors of [api.go]; followed by the properties of the two passes, of
    the accessors and of the codecs.

    The package works on the syntax tree of package [namedconf], which is
    not part of it: the tree is modelled by the fields the package reads,
    and the constructors and the writer it calls are an interface
    ([Adapter]).

    Go strings are byte strings and are modelled by [string]; Go slices are
    modelled by lists (a nil slice and an empty slice are both [[]]: the
    package only ever ranges over slices or tests [len(x) > 0]); Go pointers
    to scalars and records are modelled by [option]; Go [int] is modelled by
    [Z] (64-bit platform). *)

From Stdlib Require Import String Ascii List ZArith Lia Bool Arith.
From Stdlib Require Import DecimalString DecimalPos.
Import ListNotations.
Open Scope string_scope.
Set Warnings "-register-all".

(** String concatenation, written apart from list concatenation. *)
Infix "+++" := String.append (right associativity, at level 60).
Open Scope list_scope.

(* ================================================================= *)
(** ** The fragment of Go's [strings] and [strconv] that the package uses *)

Module GoStrings.

(** [strings.HasPrefix(s, p)]. *)
Fixpoint HasPrefix (s p : string) {struct p} : bool :=
  match p with
  | EmptyString => true
  | String c p' =>
      match s with
      | EmptyString => false
      | String d s' => Ascii.eqb c d && HasPrefix s' p'
      end
  end.

Fixpoint drop (n : nat) (s : string) : string :=
  match n with
  | O => s
  | S n' => match s with EmptyString => EmptyString | String _ r => drop n' r end
  end.

Fixpoint take (n : nat) (s : string) : string :=
  match n with
  | O => EmptyString
  | S n' => match s with EmptyString => EmptyString | String c r => String c (take n' r) end
  end.

Fixpoint rev (s : string) : string :=
  match s with
  | EmptyString => EmptyString
  | String c r => rev r ++ String c EmptyString
  end.

(** [strings.HasSuffix(s, p)]. *)
Definition HasSuffix (s p : string) : bool := HasPrefix (rev s) (rev p).

(** [strings.TrimPrefix(s, p)]. *)
Definition TrimPrefix (s p : string) : string :=
  if HasPrefix s p then drop (String.length p) s else s.

(** [strings.TrimSuffix(s, p)]. *)
Definition TrimSuffix (s p : string) : string :=
  if HasSuffix s p then take (String.length s - String.length p) s else s.

Definition bytes (l : list nat) : string :=
  fold_right (fun n acc => String (ascii_of_nat n) acc) EmptyString l.

(** The UTF-8 encodings of the runes for which [unicode.IsSpace] holds:
    the six ASCII ones, U+0085, U+00A0, U+1680, U+2000..U+200A, U+2028,
    U+2029, U+202F, U+205F and U+3000.  Every encoding starts with a lead
    byte, so scanning a byte string for them position by position agrees
    with Go's rune-by-rune decoding. *)
Definition spaceRunes : list string :=
  map bytes
    [ [9]; [10]; [11]; [12]; [13]; [32];
      [194; 133]; [194; 160]; [225; 154; 128];
      [226; 128; 128]; [226; 128; 129]; [226; 128; 130]; [226; 128; 131];
      [226; 128; 132]; [226; 128; 133]; [226; 128; 134]; [226; 128; 135];
      [226; 128; 136]; [226; 128; 137]; [226; 128; 138];
      [226; 128; 168]; [226; 128; 169]; [226; 128; 175];
      [226; 129; 159]; [227; 128; 128] ].

(** Width in bytes of the white-space rune that starts [s]; [0] when [s]
    does not start with one. *)
Definition spaceWidth (s : string) : nat :=
  match find (HasPrefix s) spaceRunes with
  | Some r => String.length r
  | None => 0
  end.

(** The same test at the end of a string, on the reversed string. *)
Definition spaceWidthRev (r : string) : nat :=
  match find (fun w => HasPrefix r (rev w)) spaceRunes with
  | Some w => String.length w
  | None => 0
  end.

Fixpoint trimLeftN (width : string -> nat) (n : nat) (s : string) : string :=
  match n with
  | O => s
  | S n' =>
      match width s with
      | O => s
      | S w => trimLeftN width n' (drop (S w) s)
      end
  end.

(** [strings.TrimSpace(s)]: white-space runes are removed from both ends.
    At most [length s] runes can be removed from either end. *)
Definition TrimLeftSpace (s : string) : string := trimLeftN spaceWidth (String.length s) s.
Definition TrimRightSpace (s : string) : string :=
  rev (trimLeftN spaceWidthRev (String.length s) (rev s)).
Definition TrimSpace (s : string) : string := TrimRightSpace (TrimLeftSpace s).

(** [strings.Fields(s)]: the maximal runs of bytes that lie outside every
    white-space rune.  [skip] counts the remaining bytes of the white-space
    rune being crossed, [cur] is the field being collected. *)
Fixpoint fieldsAux (skip : nat) (cur : string) (s : string) : list string :=
  match s with
  | EmptyString => if String.eqb cur "" then [] else [cur]
  | String c r =>
      match skip with
      | S k => fieldsAux k cur r
      | O =>
          match spaceWidth s with
          | O => fieldsAux 0 (cur ++ String c "") r
          | S w => (if String.eqb cur "" then [] else [cur]) ++ fieldsAux w "" r
          end
      end
  end.

Definition Fields (s : string) : list string := fieldsAux 0 "" s.

(** [strings.Split(s, sep)] for a non-empty separator. *)
Fixpoint splitAux (sep : string) (skip : nat) (cur : string) (s : string) : list string :=
  match s with
  | EmptyString => [cur]
  | String c r =>
      match skip with
      | S k => splitAux sep k cur r
      | O =>
          if HasPrefix s sep
          then cur :: splitAux sep (String.length sep - 1) "" r
          else splitAux sep 0 (cur ++ String c "") r
      end
  end.

Definition Split (s sep : string) : list string := splitAux sep 0 "" s.

(** [strings.Index(s, sub)]; [None] stands for [-1]. *)
Fixpoint Index (s sub : string) : option nat :=
  if HasPrefix s sub then Some 0
  else match s with
       | EmptyString => None
       | String _ r => option_map S (Index r sub)
       end.

Definition Contains (s sub : string) : bool :=
  match Index s sub with Some _ => true | None => false end.

(** [strings.Count(s, c)] for a one-byte [c]. *)
Fixpoint Count (s : string) (c : ascii) : nat :=
  match s with
  | EmptyString => 0
  | String d r => (if Ascii.eqb d c then 1 else 0) + Count r c
  end.

Fixpoint mem (c : ascii) (chars : string) : bool :=
  match chars with
  | EmptyString => false
  | String d r => Ascii.eqb c d || mem c r
  end.

(** [strings.ContainsAny(s, chars)] for ASCII [chars]. *)
Fixpoint ContainsAny (s chars : string) : bool :=
  match s with
  | EmptyString => false
  | String c r => mem c chars || ContainsAny r chars
  end.

Fixpoint trimLeftSet (cutset : string) (s : string) : string :=
  match s with
  | EmptyString => EmptyString
  | String c r => if mem c cutset then trimLeftSet cutset r else s
  end.

(** [strings.Trim(s, cutset)] for an ASCII [cutset]. *)
Definition Trim (s cutset : string) : string :=
  rev (trimLeftSet cutset (rev (trimLeftSet cutset s))).

(** [strings.Join(elems, sep)]. *)
Fixpoint Join (elems : list string) (sep : string) : string :=
  match elems with
  | [] => ""
  | [e] => e
  | e :: rest => e ++ sep ++ Join rest sep
  end.

Definition lowerByte (c : ascii) : ascii :=
  let n := nat_of_ascii c in
  if Nat.leb 65 n && Nat.leb n 90 then ascii_of_nat (n + 32) else c.

(** [strings.ToLower(s)] on the ASCII letters.  The package only compares
    the result with the words [yes] and [no], and no rune outside ASCII
    lower-cases to one of their letters. *)
Fixpoint ToLower (s : string) : string :=
  match s with
  | EmptyString => EmptyString
  | String c r => String (lowerByte c) (ToLower r)
  end.

Definition isDigit (c : ascii) : bool :=
  let n := nat_of_ascii c in Nat.leb 48 n && Nat.leb n 57.

Definition digitVal (c : ascii) : Z := Z.of_nat (nat_of_ascii c - 48).

Fixpoint allDigits (s : string) : bool :=
  match s with
  | EmptyString => true
  | String c r => isDigit c && allDigits r
  end.

Fixpoint digitsValue (acc : Z) (s : string) : Z :=
  match s with
  | EmptyString => acc
  | String c r => digitsValue (10 * acc + digitVal c)%Z r
  end.

Definition maxInt : Z := (2 ^ 63 - 1)%Z.
Definition minInt : Z := (- 2 ^ 63)%Z.

(** [strconv.Atoi(s)]: the value and whether [err == nil].  A syntax error
    yields [0]; a value out of the range of [int] yields the nearest bound. *)
Definition Atoi (s : string) : Z * bool :=
  let '(neg, body) :=
    match s with
    | String "-" r => (true, r)
    | String "+" r => (false, r)
    | _ => (false, s)
    end in
  if String.eqb body "" || negb (allDigits body) then (0%Z, false)
  else
    let v := digitsValue 0 body in
    let v := if neg then (- v)%Z else v in
    if (v <? minInt)%Z then (minInt, false)
    else if (maxInt <? v)%Z then (maxInt, false)
    else (v, true).

(** [strconv.Itoa(n)]. *)
Definition Itoa (n : Z) : string := NilZero.string_of_int (Z.to_int n).

(** Longest prefix of [s] whose bytes satisfy [p], and what follows it. *)
Fixpoint span (p : ascii -> bool) (s : string) : string * string :=
  match s with
  | EmptyString => (EmptyString, EmptyString)
  | String c r =>
      if p c then let '(a, b) := span p r in (String c a, b)
      else (EmptyString, s)
  end.

End GoStrings.

(* ================================================================= *)
(** ** The syntax tree of package [namedconf], as this package sees it

    [nc.Node] is an interface; the package inspects nodes only through the
    type assertions to a statement pointer and to a raw-fragment pointer,
    and reads the fields
    [Keyword], [HeadRaw], [Body] of a statement and [Text] of a raw
    fragment. *)

Inductive Stmt : Type :=
| mkStmt (keyword headRaw : string) (body : list Node)
with Node : Type :=
| StmtNode (s : Stmt)
| RawNode (text : string).

Definition Keyword (s : Stmt) : string := let '(mkStmt k _ _) := s in k.
Definition HeadRaw (s : Stmt) : string := let '(mkStmt _ h _) := s in h.
Definition Body (s : Stmt) : list Node := let '(mkStmt _ _ b) := s in b.

(** [nc.File]: the package reads and replaces its [Nodes]. *)
Record File : Type := mkFile { Nodes : list Node }.

(** What the package calls in package [namedconf]: the two statement
    constructors used by the encode pass, and the method that writes a tree
    to a path ([None] for a nil error, else its message).  Their code is
    outside this package: they are an interface. *)
Class Adapter : Type := {
  NewSimpleStmt : string -> Stmt;
  NewBlockStmt : string -> list Node -> Stmt;
  SaveFile : File -> string -> option string
}.

(** The word a header line starts with: its longest prefix of lower-case
    letters and hyphens. *)
Definition isWordByte (c : ascii) : bool :=
  let n := nat_of_ascii c in (Nat.leb 97 n && Nat.leb n 122) || Nat.eqb n 45.

Definition leadWord (line : string) : string := fst (GoStrings.span isWordByte line).

(** A header line is well headed when it is a non-empty word, alone or
    followed by a blank. *)
Definition wellHeaded (line : string) : bool :=
  let '(w, rest) := GoStrings.span isWordByte line in
  negb (String.eqb w "") && (String.eqb rest "" || GoStrings.HasPrefix rest " ").

(** A reference adapter: the keyword is the leading word, the header text
    is the line as given, a block keeps the body it is handed, and writing
    succeeds. *)
Definition refAdapter : Adapter := {|
  NewSimpleStmt := fun line => mkStmt (leadWord line) line [];
  NewBlockStmt := fun head body => mkStmt (leadWord head) head body;
  SaveFile := fun _ _ => None
|}.

(** The double quote, and a string in double quotes. *)
Definition dq : string := String "034"%char EmptyString.
Definition quoted (s : string) : string := dq +++ s +++ dq.

(* ================================================================= *)
(** ** The typed model ([types.go]) *)

Module MatchTerm.
Inductive t : Type := mk {
  Not : bool;
  Address : string;
  Key : string;
  ACLRef : string;
  Nested : list t
}.
Definition zero : t := mk false "" "" "" [].
End MatchTerm.

Module Include.
Record t : Type := mk { Path : string; stmt : option Stmt }.
End Include.

Module ACL.
Record t : Type := mk { Name : string; Elements : list MatchTerm.t; stmt : option Stmt }.
End ACL.

Module Key.
Record t : Type := mk { Name : string; Algorithm : string; Secret : string; stmt : option Stmt }.
End Key.

Module KeyStore.
Record t : Type := mk { Name : string; PKCS11URI : string; stmt : option Stmt }.
End KeyStore.

Module RemoteServerItem.
Record t : Type := mk { Address : string; Port : option Z; Key : string; TLS : string }.
Definition zero : t := mk "" None "" "".
Definition set_Address v x := mk v (Port x) (Key x) (TLS x).
Definition set_Port v x := mk (Address x) v (Key x) (TLS x).
Definition set_Key v x := mk (Address x) (Port x) v (TLS x).
Definition set_TLS v x := mk (Address x) (Port x) (Key x) v.
End RemoteServerItem.

Module RemoteServers.
Record t : Type := mk { Name : string; Servers : list RemoteServerItem.t; stmt : option Stmt }.
End RemoteServers.

Module TLS.
Record t : Type := mk {
  Name : string; CAFile : string; CertFile : string; KeyFile : string;
  CipherSuites : string; Ciphers : string; DHParamFile : string;
  PreferServer : option bool; Protocols : list string; RemoteHost : string;
  SessionTickets : option bool; stmt : option Stmt
}.
Definition set_CAFile v x := mk (Name x) v (CertFile x) (KeyFile x) (CipherSuites x) (Ciphers x) (DHParamFile x) (PreferServer x) (Protocols x) (RemoteHost x) (SessionTickets x) (stmt x).
Definition set_CertFile v x := mk (Name x) (CAFile x) v (KeyFile x) (CipherSuites x) (Ciphers x) (DHParamFile x) (PreferServer x) (Protocols x) (RemoteHost x) (SessionTickets x) (stmt x).
Definition set_KeyFile v x := mk (Name x) (CAFile x) (CertFile x) v (CipherSuites x) (Ciphers x) (DHParamFile x) (PreferServer x) (Protocols x) (RemoteHost x) (SessionTickets x) (stmt x).
Definition set_CipherSuites v x := mk (Name x) (CAFile x) (CertFile x) (KeyFile x) v (Ciphers x) (DHParamFile x) (PreferServer x) (Protocols x) (RemoteHost x) (SessionTickets x) (stmt x).
Definition set_Ciphers v x := mk (Name x) (CAFile x) (CertFile x) (KeyFile x) (CipherSuites x) v (DHParamFile x) (PreferServer x) (Protocols x) (RemoteHost x) (SessionTickets x) (stmt x).
Definition set_DHParamFile v x := mk (Name x) (CAFile x) (CertFile x) (KeyFile x) (CipherSuites x) (Ciphers x) v (PreferServer x) (Protocols x) (RemoteHost x) (SessionTickets x) (stmt x).
Definition set_PreferServer v x := mk (Name x) (CAFile x) (CertFile x) (KeyFile x) (CipherSuites x) (Ciphers x) (DHParamFile x) v (Protocols x) (RemoteHost x) (SessionTickets x) (stmt x).
Definition set_Protocols v x := mk (Name x) (CAFile x) (CertFile x) (KeyFile x) (CipherSuites x) (Ciphers x) (DHParamFile x) (PreferServer x) v (RemoteHost x) (SessionTickets x) (stmt x).
Definition set_RemoteHost v x := mk (Name x) (CAFile x) (CertFile x) (KeyFile x) (CipherSuites x) (Ciphers x) (DHParamFile x) (PreferServer x) (Protocols x) v (SessionTickets x) (stmt x).
Definition set_SessionTickets v x := mk (Name x) (CAFile x) (CertFile x) (KeyFile x) (CipherSuites x) (Ciphers x) (DHParamFile x) (PreferServer x) (Protocols x) (RemoteHost x) v (stmt x).
End TLS.

Module HTTP.
Record t : Type := mk {
  Name : string; Endpoints : list string; ListenerClients : option Z;
  StreamsPerConnection : option Z; stmt : option Stmt
}.
Definition set_Endpoints v x := mk (Name x) v (ListenerClients x) (StreamsPerConnection x) (stmt x).
Definition set_ListenerClients v x := mk (Name x) (Endpoints x) v (StreamsPerConnection x) (stmt x).
Definition set_StreamsPerConnection v x := mk (Name x) (Endpoints x) (ListenerClients x) v (stmt x).
End HTTP.

Module ControlInet.
Record t : Type := mk {
  Address : string; Port : option Z; Allow : list MatchTerm.t;
  Keys : list string; ReadOnly : option bool
}.
End ControlInet.

Module ControlUnix.
Record t : Type := mk {
  Path : string; Perm : Z; Owner : Z; Group : Z;
  Keys : list string; ReadOnly : option bool
}.
End ControlUnix.

Module Controls.
Record t : Type := mk { Inet : list ControlInet.t; Unix : list ControlUnix.t; stmt : option Stmt }.
End Controls.

Module LogFileDest.
Record t : Type := mk {
  Path : string; Versions : option Z; Size : string; Suffix : string; Severity : string
}.
Definition set_Versions v x := mk (Path x) v (Size x) (Suffix x) (Severity x).
Definition set_Size v x := mk (Path x) (Versions x) v (Suffix x) (Severity x).
Definition set_Suffix v x := mk (Path x) (Versions x) (Size x) v (Severity x).
Definition set_Severity v x := mk (Path x) (Versions x) (Size x) (Suffix x) v.
End LogFileDest.

Module LogSyslogDest.
Record t : Type := mk { Facility : string }.
End LogSyslogDest.

Module LogChannel.
Record t : Type := mk {
  Name : string; File : option LogFileDest.t; Syslog : option LogSyslogDest.t;
  Stderr : bool; Null : bool; Severity : string;
  PrintTime : option bool; PrintCategory : option bool;
  PrintSeverity : option bool; Buffered : option bool
}.
Definition set_File v x := mk (Name x) v (Syslog x) (Stderr x) (Null x) (Severity x) (PrintTime x) (PrintCategory x) (PrintSeverity x) (Buffered x).
Definition set_Syslog v x := mk (Name x) (File x) v (Stderr x) (Null x) (Severity x) (PrintTime x) (PrintCategory x) (PrintSeverity x) (Buffered x).
Definition set_Stderr v x := mk (Name x) (File x) (Syslog x) v (Null x) (Severity x) (PrintTime x) (PrintCategory x) (PrintSeverity x) (Buffered x).
Definition set_Null v x := mk (Name x) (File x) (Syslog x) (Stderr x) v (Severity x) (PrintTime x) (PrintCategory x) (PrintSeverity x) (Buffered x).
Definition set_Severity v x := mk (Name x) (File x) (Syslog x) (Stderr x) (Null x) v (PrintTime x) (PrintCategory x) (PrintSeverity x) (Buffered x).
Definition set_PrintTime v x := mk (Name x) (File x) (Syslog x) (Stderr x) (Null x) (Severity x) v (PrintCategory x) (PrintSeverity x) (Buffered x).
Definition set_PrintCategory v x := mk (Name x) (File x) (Syslog x) (Stderr x) (Null x) (Severity x) (PrintTime x) v (PrintSeverity x) (Buffered x).
Definition set_PrintSeverity v x := mk (Name x) (File x) (Syslog x) (Stderr x) (Null x) (Severity x) (PrintTime x) (PrintCategory x) v (Buffered x).
Definition set_Buffered v x := mk (Name x) (File x) (Syslog x) (Stderr x) (Null x) (Severity x) (PrintTime x) (PrintCategory x) (PrintSeverity x) v.
End LogChannel.

Module LogCategory.
Record t : Type := mk { Name : string; Channels : list string }.
End LogCategory.

Module Logging.
Record t : Type := mk {
  Channels : list LogChannel.t; Categories : list LogCategory.t; stmt : option Stmt
}.
End Logging.

Module Listen.
Record t : Type := mk { Port : option Z; TLS : string; HTTP : string; Addrs : list MatchTerm.t }.
Definition zero : t := mk None "" "" [].
Definition set_Port v x := mk v (TLS x) (HTTP x) (Addrs x).
Definition set_TLS v x := mk (Port x) v (HTTP x) (Addrs x).
Definition set_HTTP v x := mk (Port x) (TLS x) v (Addrs x).
Definition set_Addrs v x := mk (Port x) (TLS x) (HTTP x) v.
End Listen.

Module Forwarder.
Record t : Type := mk { Address : string; Port : option Z; TLS : string }.
Definition set_Port v x := mk (Address x) v (TLS x).
Definition set_TLS v x := mk (Address x) (Port x) v.
End Forwarder.

Module TrustAnchorItem.
Record t : Type := mk { Name : string; DS : string; DNSKey : string }.
End TrustAnchorItem.

Module TrustAnchors.
Record t : Type := mk { Items : list TrustAnchorItem.t; stmt : option Stmt }.
End TrustAnchors.

Module RRsetOrder.
Record t : Type := mk { Name : string; Type_ : string; Order : string }.
Definition zero : t := mk "" "" "".
Definition set_Name v x := mk v (Type_ x) (Order x).
Definition set_Type v x := mk (Name x) v (Order x).
Definition set_Order v x := mk (Name x) (Type_ x) v.
End RRsetOrder.

Module RawKV.
Record t : Type := mk { Name : string; Raw : string }.
End RawKV.

Module Options.
Record t : Type := mk {
  Directory : string; Recursion : option bool;
  AllowQuery : list MatchTerm.t; AllowTransfer : list MatchTerm.t;
  AllowUpdate : list MatchTerm.t;
  ListenOn : option Listen.t; ListenOnV6 : option Listen.t;
  Forwarders : list Forwarder.t; Forward : string; DNSSECValidation : string;
  RRsetOrder : list RRsetOrder.t; Other : list RawKV.t; stmt : option Stmt
}.
Definition zero : t := mk "" None [] [] [] None None [] "" "" [] [] None.
Definition set_Directory v x := mk v (Recursion x) (AllowQuery x) (AllowTransfer x) (AllowUpdate x) (ListenOn x) (ListenOnV6 x) (Forwarders x) (Forward x) (DNSSECValidation x) (RRsetOrder x) (Other x) (stmt x).
Definition set_Recursion v x := mk (Directory x) v (AllowQuery x) (AllowTransfer x) (AllowUpdate x) (ListenOn x) (ListenOnV6 x) (Forwarders x) (Forward x) (DNSSECValidation x) (RRsetOrder x) (Other x) (stmt x).
Definition set_AllowQuery v x := mk (Directory x) (Recursion x) v (AllowTransfer x) (AllowUpdate x) (ListenOn x) (ListenOnV6 x) (Forwarders x) (Forward x) (DNSSECValidation x) (RRsetOrder x) (Other x) (stmt x).
Definition set_AllowTransfer v x := mk (Directory x) (Recursion x) (AllowQuery x) v (AllowUpdate x) (ListenOn x) (ListenOnV6 x) (Forwarders x) (Forward x) (DNSSECValidation x) (RRsetOrder x) (Other x) (stmt x).
Definition set_AllowUpdate v x := mk (Directory x) (Recursion x) (AllowQuery x) (AllowTransfer x) v (ListenOn x) (ListenOnV6 x) (Forwarders x) (Forward x) (DNSSECValidation x) (RRsetOrder x) (Other x) (stmt x).
Definition set_ListenOn v x := mk (Directory x) (Recursion x) (AllowQuery x) (AllowTransfer x) (AllowUpdate x) v (ListenOnV6 x) (Forwarders x) (Forward x) (DNSSECValidation x) (RRsetOrder x) (Other x) (stmt x).
Definition set_ListenOnV6 v x := mk (Directory x) (Recursion x) (AllowQuery x) (AllowTransfer x) (AllowUpdate x) (ListenOn x) v (Forwarders x) (Forward x) (DNSSECValidation x) (RRsetOrder x) (Other x) (stmt x).
Definition set_Forwarders v x := mk (Directory x) (Recursion x) (AllowQuery x) (AllowTransfer x) (AllowUpdate x) (ListenOn x) (ListenOnV6 x) v (Forward x) (DNSSECValidation x) (RRsetOrder x) (Other x) (stmt x).
Definition set_Forward v x := mk (Directory x) (Recursion x) (AllowQuery x) (AllowTransfer x) (AllowUpdate x) (ListenOn x) (ListenOnV6 x) (Forwarders x) v (DNSSECValidation x) (RRsetOrder x) (Other x) (stmt x).
Definition set_DNSSECValidation v x := mk (Directory x) (Recursion x) (AllowQuery x) (AllowTransfer x) (AllowUpdate x) (ListenOn x) (ListenOnV6 x) (Forwarders x) (Forward x) v (RRsetOrder x) (Other x) (stmt x).
Definition set_RRsetOrder v x := mk (Directory x) (Recursion x) (AllowQuery x) (AllowTransfer x) (AllowUpdate x) (ListenOn x) (ListenOnV6 x) (Forwarders x) (Forward x) (DNSSECValidation x) v (Other x) (stmt x).
Definition set_Other v x := mk (Directory x) (Recursion x) (AllowQuery x) (AllowTransfer x) (AllowUpdate x) (ListenOn x) (ListenOnV6 x) (Forwarders x) (Forward x) (DNSSECValidation x) (RRsetOrder x) v (stmt x).
End Options.

(** [ZoneType] is a string type; the eight named constants are ordinary
    values of it. *)
Definition ZoneType : Type := string.
Definition ZonePrimary : ZoneType := "primary".
Definition ZoneSecondary : ZoneType := "secondary".
Definition ZoneStub : ZoneType := "stub".
Definition ZoneMirror : ZoneType := "mirror".
Definition ZoneRedirect : ZoneType := "redirect".
Definition ZoneForward : ZoneType := "forward".
Definition ZoneStaticStub : ZoneType := "static-stub".
Definition ZoneHint : ZoneType := "hint".

Module Zone.
Record t : Type := mk {
  Name : string; Class : string; Type_ : ZoneType; File : string;
  PrimariesRef : string; Primaries : list RemoteServerItem.t;
  Forwarders : list Forwarder.t; Forward : string;
  AllowUpdate : list MatchTerm.t; AllowTransfer : list MatchTerm.t;
  AlsoNotify : list RemoteServerItem.t;
  DNSSECPolicy : string; stmt : option Stmt
}.
Definition set_Type v x := mk (Name x) (Class x) v (File x) (PrimariesRef x) (Primaries x) (Forwarders x) (Forward x) (AllowUpdate x) (AllowTransfer x) (AlsoNotify x) (DNSSECPolicy x) (stmt x).
Definition set_File v x := mk (Name x) (Class x) (Type_ x) v (PrimariesRef x) (Primaries x) (Forwarders x) (Forward x) (AllowUpdate x) (AllowTransfer x) (AlsoNotify x) (DNSSECPolicy x) (stmt x).
Definition set_PrimariesRef v x := mk (Name x) (Class x) (Type_ x) (File x) v (Primaries x) (Forwarders x) (Forward x) (AllowUpdate x) (AllowTransfer x) (AlsoNotify x) (DNSSECPolicy x) (stmt x).
Definition set_Primaries v x := mk (Name x) (Class x) (Type_ x) (File x) (PrimariesRef x) v (Forwarders x) (Forward x) (AllowUpdate x) (AllowTransfer x) (AlsoNotify x) (DNSSECPolicy x) (stmt x).
Definition set_Forwarders v x := mk (Name x) (Class x) (Type_ x) (File x) (PrimariesRef x) (Primaries x) v (Forward x) (AllowUpdate x) (AllowTransfer x) (AlsoNotify x) (DNSSECPolicy x) (stmt x).
Definition set_Forward v x := mk (Name x) (Class x) (Type_ x) (File x) (PrimariesRef x) (Primaries x) (Forwarders x) v (AllowUpdate x) (AllowTransfer x) (AlsoNotify x) (DNSSECPolicy x) (stmt x).
Definition set_AllowUpdate v x := mk (Name x) (Class x) (Type_ x) (File x) (PrimariesRef x) (Primaries x) (Forwarders x) (Forward x) v (AllowTransfer x) (AlsoNotify x) (DNSSECPolicy x) (stmt x).
Definition set_AllowTransfer v x := mk (Name x) (Class x) (Type_ x) (File x) (PrimariesRef x) (Primaries x) (Forwarders x) (Forward x) (AllowUpdate x) v (AlsoNotify x) (DNSSECPolicy x) (stmt x).
Definition set_AlsoNotify v x := mk (Name x) (Class x) (Type_ x) (File x) (PrimariesRef x) (Primaries x) (Forwarders x) (Forward x) (AllowUpdate x) (AllowTransfer x) v (DNSSECPolicy x) (stmt x).
Definition set_DNSSECPolicy v x := mk (Name x) (Class x) (Type_ x) (File x) (PrimariesRef x) (Primaries x) (Forwarders x) (Forward x) (AllowUpdate x) (AllowTransfer x) (AlsoNotify x) v (stmt x).
End Zone.

Module View.
Record t : Type := mk {
  Name : string; Class : string;
  MatchClients : list MatchTerm.t; MatchDestinations : list MatchTerm.t;
  Recursion : option bool; TrustAnchors : option TrustAnchors.t;
  Zones : list Zone.t; Includes : list Include.t; stmt : option Stmt
}.
Definition set_Class v x := mk (Name x) v (MatchClients x) (MatchDestinations x) (Recursion x) (TrustAnchors x) (Zones x) (Includes x) (stmt x).
Definition set_MatchClients v x := mk (Name x) (Class x) v (MatchDestinations x) (Recursion x) (TrustAnchors x) (Zones x) (Includes x) (stmt x).
Definition set_MatchDestinations v x := mk (Name x) (Class x) (MatchClients x) v (Recursion x) (TrustAnchors x) (Zones x) (Includes x) (stmt x).
Definition set_Recursion v x := mk (Name x) (Class x) (MatchClients x) (MatchDestinations x) v (TrustAnchors x) (Zones x) (Includes x) (stmt x).
Definition set_TrustAnchors v x := mk (Name x) (Class x) (MatchClients x) (MatchDestinations x) (Recursion x) v (Zones x) (Includes x) (stmt x).
Definition set_Zones v x := mk (Name x) (Class x) (MatchClients x) (MatchDestinations x) (Recursion x) (TrustAnchors x) v (Includes x) (stmt x).
Definition set_Includes v x := mk (Name x) (Class x) (MatchClients x) (MatchDestinations x) (Recursion x) (TrustAnchors x) (Zones x) v (stmt x).
End View.

(** [Config]: the root of the model, with its back-reference [ast] to the
    tree it was decoded from. *)
Module Config.
Record t : Type := mk {
  Includes : list Include.t; ACLs : list ACL.t; Keys : list Key.t;
  KeyStores : list KeyStore.t; RemoteServers : list RemoteServers.t;
  TLS : list TLS.t; HTTP : list HTTP.t;
  Controls : option Controls.t; Logging : option Logging.t;
  Options : option Options.t;
  TrustAnchors : list TrustAnchors.t; Views : list View.t; Zones : list Zone.t;
  ast : option File
}.
Definition zero : t := mk [] [] [] [] [] [] [] None None None [] [] [] None.
Definition set_Includes v x := mk v (ACLs x) (Keys x) (KeyStores x) (RemoteServers x) (TLS x) (HTTP x) (Controls x) (Logging x) (Options x) (TrustAnchors x) (Views x) (Zones x) (ast x).
Definition set_ACLs v x := mk (Includes x) v (Keys x) (KeyStores x) (RemoteServers x) (TLS x) (HTTP x) (Controls x) (Logging x) (Options x) (TrustAnchors x) (Views x) (Zones x) (ast x).
Definition set_Keys v x := mk (Includes x) (ACLs x) v (KeyStores x) (RemoteServers x) (TLS x) (HTTP x) (Controls x) (Logging x) (Options x) (TrustAnchors x) (Views x) (Zones x) (ast x).
Definition set_KeyStores v x := mk (Includes x) (ACLs x) (Keys x) v (RemoteServers x) (TLS x) (HTTP x) (Controls x) (Logging x) (Options x) (TrustAnchors x) (Views x) (Zones x) (ast x).
Definition set_RemoteServers v x := mk (Includes x) (ACLs x) (Keys x) (KeyStores x) v (TLS x) (HTTP x) (Controls x) (Logging x) (Options x) (TrustAnchors x) (Views x) (Zones x) (ast x).
Definition set_TLS v x := mk (Includes x) (ACLs x) (Keys x) (KeyStores x) (RemoteServers x) v (HTTP x) (Controls x) (Logging x) (Options x) (TrustAnchors x) (Views x) (Zones x) (ast x).
Definition set_HTTP v x := mk (Includes x) (ACLs x) (Keys x) (KeyStores x) (RemoteServers x) (TLS x) v (Controls x) (Logging x) (Options x) (TrustAnchors x) (Views x) (Zones x) (ast x).
Definition set_Controls v x := mk (Includes x) (ACLs x) (Keys x) (KeyStores x) (RemoteServers x) (TLS x) (HTTP x) v (Logging x) (Options x) (TrustAnchors x) (Views x) (Zones x) (ast x).
Definition set_Logging v x := mk (Includes x) (ACLs x) (Keys x) (KeyStores x) (RemoteServers x) (TLS x) (HTTP x) (Controls x) v (Options x) (TrustAnchors x) (Views x) (Zones x) (ast x).
Definition set_Options v x := mk (Includes x) (ACLs x) (Keys x) (KeyStores x) (RemoteServers x) (TLS x) (HTTP x) (Controls x) (Logging x) v (TrustAnchors x) (Views x) (Zones x) (ast x).
Definition set_TrustAnchors v x := mk (Includes x) (ACLs x) (Keys x) (KeyStores x) (RemoteServers x) (TLS x) (HTTP x) (Controls x) (Logging x) (Options x) v (Views x) (Zones x) (ast x).
Definition set_Views v x := mk (Includes x) (ACLs x) (Keys x) (KeyStores x) (RemoteServers x) (TLS x) (HTTP x) (Controls x) (Logging x) (Options x) (TrustAnchors x) v (Zones x) (ast x).
Definition set_Zones v x := mk (Includes x) (ACLs x) (Keys x) (KeyStores x) (RemoteServers x) (TLS x) (HTTP x) (Controls x) (Logging x) (Options x) (TrustAnchors x) (Views x) v (ast x).
Definition set_ast v x := mk (Includes x) (ACLs x) (Keys x) (KeyStores x) (RemoteServers x) (TLS x) (HTTP x) (Controls x) (Logging x) (Options x) (TrustAnchors x) (Views x) (Zones x) v.
End Config.

(* ================================================================= *)
(** ** Token helpers ([parse_helpers.go]) *)

Import GoStrings.

Definition trimQuotes (s : string) : string := Trim (TrimSpace s) dq.

Definition boolWord (b : bool) : string := if b then "yes" else "no".

Definition quoteEach (ss : list string) : list string := map quoted ss.

Definition parseBoolPtr (raw : string) : option bool :=
  match Fields raw with
  | [] => None
  | w0 :: _ =>
      let w := ToLower w0 in
      if String.eqb w "yes" then Some true
      else if String.eqb w "no" then Some false
      else None
  end.

Definition parseIntPtr (raw : string) : option Z :=
  match Fields raw with
  | [] => None
  | w0 :: _ => let '(n, ok) := Atoi w0 in if ok then Some n else None
  end.

(** The header text of a body statement as every parser reads it:
    [strings.TrimSpace(strings.TrimSuffix(st.HeadRaw, ";"))]. *)
Definition rawOf (st : Stmt) : string := TrimSpace (TrimSuffix (HeadRaw st) ";").

Definition parseStringList (raw : string) : list string :=
  let raw := TrimSpace raw in
  let raw := if HasPrefix raw "{" then TrimSuffix (TrimPrefix raw "{") "}" else raw in
  fold_left
    (fun out p =>
       let p := TrimSpace p in
       if String.eqb p "" then out else out ++ [trimQuotes p])
    (Split raw ";") [].

(** The byte classes of the two header regular expressions. *)
Definition isReSpace (c : ascii) : bool :=
  let n := nat_of_ascii c in
  Nat.eqb n 9 || Nat.eqb n 10 || Nat.eqb n 12 || Nat.eqb n 13 || Nat.eqb n 32.

Definition isLetter (c : ascii) : bool :=
  let n := nat_of_ascii c in
  (Nat.leb 97 n && Nat.leb n 122) || (Nat.leb 65 n && Nat.leb n 90).

Definition notQuote (c : ascii) : bool := negb (Ascii.eqb c "034"%char).

(** The anchored prefix shared by both expressions: one or more bytes of
    [a-z-], one or more of the class [\s], a double quote, one or more bytes
    other than a double quote (the captured name), a double quote.  Returns
    the captured name and what follows the closing quote.  Each repetition
    is followed by a byte outside its class, so the greedy match is the only
    match. *)
Definition matchHeadName (h : string) : option (string * string) :=
  let '(kw, r1) := span isWordByte h in
  if String.eqb kw "" then None else
  let '(ws, r2) := span isReSpace r1 in
  if String.eqb ws "" then None else
  match r2 with
  | String "034"%char r3 =>
      let '(name, r4) := span notQuote r3 in
      if String.eqb name "" then None else
      match r4 with
      | String "034"%char r5 => Some (name, r5)
      | _ => None
      end
  | _ => None
  end.

(** [rxHeadName.FindStringSubmatch(h)], reduced to its capture group. *)
Definition rxHeadName (h : string) : option string :=
  option_map fst (matchHeadName h).

(** [rxHeadClass.FindStringSubmatch(h)], reduced to its capture group. *)
Definition rxHeadClass (h : string) : option string :=
  match matchHeadName h with
  | None => None
  | Some (_, r5) =>
      let '(ws, r6) := span isReSpace r5 in
      if String.eqb ws "" then None else
      let '(cls, _) := span isLetter r6 in
      if String.eqb cls "" then None else Some cls
  end.

Definition headNameAfter (s : Stmt) (kw : string) : string :=
  let h := TrimSpace (HeadRaw s) in
  match rxHeadName h with
  | Some name => name
  | None =>
      match Fields h with
      | _ :: f1 :: _ => trimQuotes f1
      | _ => ""
      end
  end.

Definition headClassAfter (s : Stmt) (kw : string) : string :=
  let h := TrimSpace (HeadRaw s) in
  match rxHeadClass h with
  | Some cls => cls
  | None => ""
  end.

(** *** Rrset-order rules *)

(** The loop [for i := 0; i < len(f); i++] with its inner [i++]: a
    qualifier word consumes the word after it when there is one. *)
Fixpoint scanRRsetOrder (ro : RRsetOrder.t) (f : list string) : RRsetOrder.t :=
  match f with
  | [] => ro
  | w :: rest =>
      if String.eqb w "type" then
        match rest with
        | v :: rest' => scanRRsetOrder (RRsetOrder.set_Type v ro) rest'
        | [] => ro
        end
      else if String.eqb w "name" then
        match rest with
        | v :: rest' => scanRRsetOrder (RRsetOrder.set_Name (trimQuotes v) ro) rest'
        | [] => ro
        end
      else if String.eqb w "order" then
        match rest with
        | v :: rest' => scanRRsetOrder (RRsetOrder.set_Order v ro) rest'
        | [] => ro
        end
      else scanRRsetOrder ro rest
  end.

Definition parseRRsetOrder (st : Stmt) : list RRsetOrder.t :=
  match Body st with
  | RawNode text :: _ =>
      fold_left
        (fun out p =>
           let p := TrimSpace p in
           if String.eqb p "" then out else
           let f := Fields p in
           let ro := scanRRsetOrder RRsetOrder.zero f in
           let ro :=
             if String.eqb (RRsetOrder.Order ro) "" && negb (Nat.eqb (List.length f) 0)
             then RRsetOrder.set_Order (last f "") ro else ro in
           out ++ [ro])
        (Split (TrimSpace text) ";") []
  | _ => []
  end.

Definition serializeRRsetOrder (l : list RRsetOrder.t) : string :=
  Join
    (map (fun ro =>
            Join ((if String.eqb (RRsetOrder.Type_ ro) "" then []
                   else ["type " +++ RRsetOrder.Type_ ro])
                  ++ (if String.eqb (RRsetOrder.Name ro) "" then []
                      else ["name " +++ quoted (RRsetOrder.Name ro)])
                  ++ ["order " +++ RRsetOrder.Order ro]) " ")
         l) "; " +++ ";".

(** *** Address match lists *)

(** The start of [parseMatchListFromBodyRaw]: trim, and when the text
    starts with an opening brace remove it and one closing brace at the
    end. *)
Definition stripBraces (raw : string) : string :=
  let raw := TrimSpace raw in
  if HasPrefix raw "{"
  then TrimSpace (TrimSuffix (TrimPrefix raw "{") "}") else raw.

(** The body of its loop over the pieces between semicolons; [nested] is
    the function itself, called on a piece that starts with an opening
    brace. *)
Definition matchListLoop (nested : string -> list MatchTerm.t)
  (out : list MatchTerm.t) (p : string) : list MatchTerm.t :=
  let p := TrimSpace p in
  if String.eqb p "" then out else
  let '(neg, p) :=
    if HasPrefix p "!" then (true, TrimSpace (TrimPrefix p "!"))
    else (false, p) in
  if HasPrefix p "key " then
    out ++ [MatchTerm.mk neg "" (trimQuotes (TrimPrefix p "key ")) "" []]
  else if HasPrefix p "{" then
    out ++ [MatchTerm.mk neg "" "" "" (nested p)]
  else if Contains p "/" || Nat.ltb 1 (Count p ":") || Nat.eqb (Count p ".") 3 then
    out ++ [MatchTerm.mk neg p "" "" []]
  else
    out ++ [MatchTerm.mk neg "" "" (trimQuotes p) []].

(** [parseMatchListFromBodyRaw] calls itself on a piece that starts with
    an opening brace.  The recursion is on [fuel]; the piece is shorter
    than [raw], see [parseMatchListFuel_enough]. *)
Fixpoint parseMatchListFuel (fuel : nat) (raw : string) : list MatchTerm.t :=
  match fuel with
  | O => []
  | S fuel' =>
      fold_left (matchListLoop (parseMatchListFuel fuel')) (Split (stripBraces raw) ";") []
  end.

Definition parseMatchListFromBodyRaw (raw : string) : list MatchTerm.t :=
  parseMatchListFuel (S (String.length raw)) raw.

Definition parseMatchList (raw : string) : list MatchTerm.t :=
  if negb (Contains raw "{") then [] else parseMatchListFromBodyRaw raw.

Definition parseMatchListFromBody (s : Stmt) : list MatchTerm.t :=
  match Body s with
  | [] => []
  | RawNode text :: _ => parseMatchListFromBodyRaw text
  | body =>
      fold_left
        (fun out n =>
           match n with
           | StmtNode st => out ++ [MatchTerm.mk false (rawOf st) "" "" []]
           | RawNode _ => out
           end)
        body []
  end.

Definition needsQuotes (s : string) : bool := ContainsAny s ".-* ".

(** One element of [serializeMatchList]: the optional [!], the first
    populated alternative of the [switch], and the closing semicolon. *)
Fixpoint serializeMatchTerm (t : MatchTerm.t) : string :=
  match t with
  | MatchTerm.mk neg address key aclref nested =>
      (if neg then "!" else "")
      +++ match nested with
          | _ :: _ => "{ " +++ Join (map serializeMatchTerm nested) " " +++ " }"
          | [] =>
              if negb (String.eqb key "") then "key " +++ quoted key
              else if negb (String.eqb address "") then address
              else if negb (String.eqb aclref "") then
                (if needsQuotes aclref then quoted aclref else aclref)
              else ""
          end
      +++ ";"
  end.

Definition serializeMatchList (terms : list MatchTerm.t) : string :=
  "{ " +++ Join (map serializeMatchTerm terms) " " +++ " }".

(** *** Listen clauses and forwarders *)

Fixpoint scanListen (L : Listen.t) (fields : list string) : Listen.t :=
  match fields with
  | [] => L
  | w :: rest =>
      if String.eqb w "port" then
        match rest with
        | v :: rest' =>
            let '(n, ok) := Atoi v in
            scanListen (if ok then Listen.set_Port (Some n) L else L) rest'
        | [] => L
        end
      else if String.eqb w "tls" then
        match rest with
        | v :: rest' => scanListen (Listen.set_TLS (trimQuotes v) L) rest'
        | [] => L
        end
      else if String.eqb w "http" then
        match rest with
        | v :: rest' => scanListen (Listen.set_HTTP (trimQuotes v) L) rest'
        | [] => L
        end
      else scanListen L rest
  end.

Definition parseListen (raw : string) : Listen.t :=
  let '(L, raw) :=
    match Index raw "{" with
    | Some lb =>
        (Listen.set_Addrs (parseMatchListFromBodyRaw (TrimSpace (drop lb raw))) Listen.zero,
         TrimSpace (take lb raw))
    | None => (Listen.zero, raw)
    end in
  scanListen L (Fields raw).

Definition serializeListen (l : Listen.t) : string :=
  let pre :=
    (match Listen.Port l with Some n => ["port " +++ Itoa n] | None => [] end)
    ++ (if String.eqb (Listen.TLS l) "" then [] else ["tls " +++ quoted (Listen.TLS l)])
    ++ (if String.eqb (Listen.HTTP l) "" then [] else ["http " +++ quoted (Listen.HTTP l)]) in
  TrimSpace (Join pre " ") +++ " " +++ serializeMatchList (Listen.Addrs l).

Fixpoint scanForwarder (it : Forwarder.t) (fields : list string) : Forwarder.t :=
  match fields with
  | [] => it
  | w :: rest =>
      if String.eqb w "port" then
        match rest with
        | v :: rest' =>
            let '(n, ok) := Atoi v in
            scanForwarder (if ok then Forwarder.set_Port (Some n) it else it) rest'
        | [] => it
        end
      else if String.eqb w "tls" then
        match rest with
        | v :: rest' => scanForwarder (Forwarder.set_TLS (trimQuotes v) it) rest'
        | [] => it
        end
      else scanForwarder it rest
  end.

Definition parseForwarders (raw : string) : list Forwarder.t :=
  let raw := TrimSpace raw in
  let raw :=
    if HasPrefix raw "{"
    then TrimSpace (TrimSuffix (TrimPrefix raw "{") "}") else raw in
  fold_left
    (fun items p =>
       let p := TrimSpace p in
       if String.eqb p "" then items else
       match Fields p with
       | [] => items
       | f0 :: rest => items ++ [scanForwarder (Forwarder.mk f0 None "") rest]
       end)
    (Split raw ";") [].

Definition serializeForwarders (ff : list Forwarder.t) : string :=
  "{ "
  +++ Join (map (fun f =>
                   Forwarder.Address f
                   +++ (match Forwarder.Port f with Some n => " port " +++ Itoa n | None => "" end)
                   +++ (if String.eqb (Forwarder.TLS f) "" then ""
                        else " tls " +++ quoted (Forwarder.TLS f)))
                ff) "; "
  +++ "; }".

(** *** Remote-server items *)

Fixpoint scanRemoteServerItem (it : RemoteServerItem.t) (fields : list string)
  : RemoteServerItem.t :=
  match fields with
  | [] => it
  | w :: rest =>
      if String.eqb w "port" then
        match rest with
        | v :: rest' =>
            let '(n, ok) := Atoi v in
            scanRemoteServerItem
              (if ok then RemoteServerItem.set_Port (Some n) it else it) rest'
        | [] => it
        end
      else if String.eqb w "key" then
        match rest with
        | v :: rest' =>
            scanRemoteServerItem (RemoteServerItem.set_Key (trimQuotes v) it) rest'
        | [] => it
        end
      else if String.eqb w "tls" then
        match rest with
        | v :: rest' =>
            scanRemoteServerItem (RemoteServerItem.set_TLS (trimQuotes v) it) rest'
        | [] => it
        end
      else scanRemoteServerItem it rest
  end.

Definition parseRemoteServerItem (raw : string) : RemoteServerItem.t :=
  match Fields raw with
  | [] => RemoteServerItem.zero
  | f0 :: rest =>
      scanRemoteServerItem (RemoteServerItem.set_Address f0 RemoteServerItem.zero) rest
  end.

Definition serializeRemoteServerItem (it : RemoteServerItem.t) : string :=
  RemoteServerItem.Address it
  +++ (match RemoteServerItem.Port it with Some n => " port " +++ Itoa n | None => "" end)
  +++ (if String.eqb (RemoteServerItem.Key it) "" then ""
       else " key " +++ quoted (RemoteServerItem.Key it))
  +++ (if String.eqb (RemoteServerItem.TLS it) "" then ""
       else " tls " +++ quoted (RemoteServerItem.TLS it)).

Definition parseRemoteServerListBody (raw : string) : list RemoteServerItem.t :=
  let raw := TrimSpace raw in
  let raw :=
    if HasPrefix raw "{"
    then TrimSpace (TrimSuffix (TrimPrefix raw "{") "}") else raw in
  fold_left
    (fun items line =>
       let line := TrimSpace line in
       if String.eqb line "" then items else items ++ [parseRemoteServerItem line])
    (Split raw ";") [].

Definition serializeRemoteServerList (items : list RemoteServerItem.t) : string :=
  "{ " +++ Join (map serializeRemoteServerItem items) "; " +++ "; }".

(** *** Control channels *)

(** The loop of [parseControlInet] over [fields[1:]]: only [port] followed
    by another word is acted on. *)
Fixpoint scanInetPort (port : option Z) (fields : list string) : option Z :=
  match fields with
  | [] => port
  | w :: rest =>
      if String.eqb w "port" then
        match rest with
        | v :: rest' =>
            let '(n, ok) := Atoi v in
            scanInetPort (if ok then Some n else port) rest'
        | [] => port
        end
      else scanInetPort port rest
  end.

(** [parseControlInet]: each marker is searched in what is left of the
    line, and the line is cut before the marker once its group is read.
    [parts[1]] exists because [strings.Contains] has just held, see
    [Split_at_least_two]. *)
Definition parseControlInet (raw : string) : ControlInet.t :=
  let raw := TrimPrefix raw "inet " in
  let '(allow, raw) :=
    match Index raw " allow " with
    | Some idx =>
        (parseMatchList (drop (idx + String.length " allow ") raw),
         TrimSpace (take idx raw))
    | None => ([], raw)
    end in
  let '(keys, raw) :=
    match Index raw " keys " with
    | Some idx =>
        (parseStringList (drop (idx + String.length " keys ") raw),
         TrimSpace (take idx raw))
    | None => ([], raw)
    end in
  let '(readOnly, raw) :=
    if Contains raw " read-only " then
      let parts := Split raw " read-only " in
      (parseBoolPtr (TrimSpace (nth 1 parts "")), TrimSpace (nth 0 parts ""))
    else (None, raw) in
  match Fields raw with
  | [] => ControlInet.mk "" None allow keys readOnly
  | f0 :: rest => ControlInet.mk f0 (scanInetPort None rest) allow keys readOnly
  end.

Definition serializeControlInet (ci : ControlInet.t) : string :=
  "inet " +++ ControlInet.Address ci
  +++ (match ControlInet.Port ci with Some n => " port " +++ Itoa n | None => "" end)
  +++ " allow " +++ serializeMatchList (ControlInet.Allow ci)
  +++ (match ControlInet.Keys ci with
       | [] => ""
       | ks => " keys { " +++ Join (quoteEach ks) "; " +++ "; }"
       end)
  +++ (match ControlInet.ReadOnly ci with
       | Some b => " read-only " +++ boolWord b
       | None => ""
       end).

(** [parseControlUnix]: the same scan for [keys] and [read-only]; the
    positional fields are read when at least eight fields are left, and the
    values of [strconv.Atoi] are used whatever its error. *)
Definition parseControlUnix (raw : string) : ControlUnix.t :=
  let raw := TrimPrefix raw "unix " in
  let '(keys, raw) :=
    match Index raw " keys " with
    | Some idx =>
        (parseStringList (drop (idx + String.length " keys ") raw),
         TrimSpace (take idx raw))
    | None => ([], raw)
    end in
  let '(readOnly, raw) :=
    if Contains raw " read-only " then
      let parts := Split raw " read-only " in
      (parseBoolPtr (TrimSpace (nth 1 parts "")), TrimSpace (nth 0 parts ""))
    else (None, raw) in
  let fields := Fields raw in
  if Nat.leb 8 (List.length fields) then
    ControlUnix.mk (trimQuotes (nth 0 fields ""))
                   (fst (Atoi (nth 2 fields "")))
                   (fst (Atoi (nth 4 fields "")))
                   (fst (Atoi (nth 6 fields "")))
                   keys readOnly
  else ControlUnix.mk "" 0%Z 0%Z 0%Z keys readOnly.

Definition serializeControlUnix (cu : ControlUnix.t) : string :=
  "unix " +++ quoted (ControlUnix.Path cu)
  +++ " perm " +++ Itoa (ControlUnix.Perm cu)
  +++ " owner " +++ Itoa (ControlUnix.Owner cu)
  +++ " group " +++ Itoa (ControlUnix.Group cu)
  +++ (match ControlUnix.Keys cu with
       | [] => ""
       | ks => " keys { " +++ Join (quoteEach ks) "; " +++ "; }"
       end)
  +++ (match ControlUnix.ReadOnly cu with
       | Some b => " read-only " +++ boolWord b
       | None => ""
       end).

(* ================================================================= *)
(** ** Decode ([load.go]): from statements to the typed model *)

(** A Go call either returns or panics (here: an index out of range). *)
Inductive outcome (A : Type) : Type :=
| Returns (a : A)
| Panics (msg : string).
Arguments Returns {A} a.
Arguments Panics {A} msg.

Definition bind {A B : Type} (m : outcome A) (k : A -> outcome B) : outcome B :=
  match m with
  | Returns a => k a
  | Panics msg => Panics msg
  end.

Notation "x <- m ;; k" := (bind m (fun x => k))
  (at level 61, m at next level, right associativity).

(** [for _, n := range body] where the loop body starts with the type
    assertion to a statement and [continue]s when it fails. *)
Definition forStmts {A : Type} (step : A -> Stmt -> A) (body : list Node) (init : A) : A :=
  fold_left
    (fun acc n => match n with StmtNode st => step acc st | RawNode _ => acc end)
    body init.

(** The same loop when the loop body may panic. *)
Fixpoint forStmtsM {A : Type} (step : A -> Stmt -> outcome A) (body : list Node) (acc : A)
  : outcome A :=
  match body with
  | [] => Returns acc
  | StmtNode st :: rest => acc' <- step acc st ;; forStmtsM step rest acc'
  | RawNode _ :: rest => forStmtsM step rest acc
  end.

Definition isKw (st : Stmt) (kw : string) : bool := String.eqb (Keyword st) kw.

Definition parseACL (s : Stmt) : ACL.t :=
  let name := headNameAfter s "acl" in
  let terms := parseMatchListFromBody s in
  ACL.mk name terms (Some s).

Definition parseKey (s : Stmt) : Key.t :=
  let name := headNameAfter s "key" in
  let '(alg, secret) :=
    forStmts
      (fun '(alg, secret) st =>
         let v := trimQuotes (rawOf st) in
         if isKw st "algorithm" then (v, secret)
         else if isKw st "secret" then (alg, v)
         else (alg, secret))
      (Body s) ("", "") in
  Key.mk name alg secret (Some s).

Definition parseKeyStore (s : Stmt) : KeyStore.t :=
  let name := headNameAfter s "key-store" in
  let uri :=
    forStmts
      (fun uri st => if isKw st "pkcs11-uri" then trimQuotes (rawOf st) else uri)
      (Body s) "" in
  KeyStore.mk name uri (Some s).

Definition parseRemoteServers (s : Stmt) : RemoteServers.t :=
  let name := headNameAfter s "remote-servers" in
  let items :=
    forStmts
      (fun items st =>
         let raw := rawOf st in
         if String.eqb raw "" then items else items ++ [parseRemoteServerItem raw])
      (Body s) [] in
  RemoteServers.mk name items (Some s).

Definition parseTLS (s : Stmt) : TLS.t :=
  forStmts
    (fun t st =>
       let v := rawOf st in
       let vq := trimQuotes v in
       if isKw st "ca-file" then TLS.set_CAFile vq t
       else if isKw st "cert-file" then TLS.set_CertFile vq t
       else if isKw st "key-file" then TLS.set_KeyFile vq t
       else if isKw st "cipher-suites" then TLS.set_CipherSuites vq t
       else if isKw st "ciphers" then TLS.set_Ciphers vq t
       else if isKw st "dhparam-file" then TLS.set_DHParamFile vq t
       else if isKw st "prefer-server-ciphers" then TLS.set_PreferServer (parseBoolPtr v) t
       else if isKw st "protocols" then TLS.set_Protocols (parseStringList v) t
       else if isKw st "remote-hostname" then TLS.set_RemoteHost vq t
       else if isKw st "session-tickets" then TLS.set_SessionTickets (parseBoolPtr v) t
       else t)
    (Body s)
    (TLS.mk (headNameAfter s "tls") "" "" "" "" "" "" None [] "" None (Some s)).

Definition parseHTTP (s : Stmt) : HTTP.t :=
  forStmts
    (fun h st =>
       let v := rawOf st in
       if isKw st "endpoints" then HTTP.set_Endpoints (parseStringList v) h
       else if isKw st "listener-clients" then HTTP.set_ListenerClients (parseIntPtr v) h
       else if isKw st "streams-per-connection" then
         HTTP.set_StreamsPerConnection (parseIntPtr v) h
       else h)
    (Body s)
    (HTTP.mk (headNameAfter s "http") [] None None (Some s)).

Definition parseControls (s : Stmt) : Controls.t :=
  forStmts
    (fun c st =>
       let raw := rawOf st in
       if HasPrefix raw "inet " then
         Controls.mk (Controls.Inet c ++ [parseControlInet raw]) (Controls.Unix c) (Controls.stmt c)
       else if HasPrefix raw "unix " then
         Controls.mk (Controls.Inet c) (Controls.Unix c ++ [parseControlUnix raw]) (Controls.stmt c)
       else c)
    (Body s)
    (Controls.mk [] [] (Some s)).

Definition parseTrustAnchors (st : Stmt) : TrustAnchors.t :=
  forStmts
    (fun ta ss =>
       let raw := rawOf ss in
       match Fields raw with
       | [] => ta
       | f0 :: _ =>
           let name := trimQuotes f0 in
           let rest := TrimSpace (TrimPrefix raw (f0 +++ " ")) in
           if Contains rest "ds" then
             TrustAnchors.mk (TrustAnchors.Items ta ++ [TrustAnchorItem.mk name rest ""])
                             (TrustAnchors.stmt ta)
           else if Contains rest "key" then
             TrustAnchors.mk (TrustAnchors.Items ta ++ [TrustAnchorItem.mk name "" rest])
                             (TrustAnchors.stmt ta)
           else ta
       end)
    (Body st)
    (TrustAnchors.mk [] (Some st)).

Fixpoint scanLogFile (lf : LogFileDest.t) (args : list string) : LogFileDest.t :=
  match args with
  | [] => lf
  | w :: rest =>
      if String.eqb w "versions" then
        match rest with
        | v :: rest' =>
            let '(n, ok) := Atoi v in
            scanLogFile (if ok then LogFileDest.set_Versions (Some n) lf else lf) rest'
        | [] => lf
        end
      else if String.eqb w "size" then
        match rest with
        | v :: rest' => scanLogFile (LogFileDest.set_Size v lf) rest'
        | [] => lf
        end
      else if String.eqb w "suffix" then
        match rest with
        | v :: rest' => scanLogFile (LogFileDest.set_Suffix v lf) rest'
        | [] => lf
        end
      else if String.eqb w "severity" then
        match rest with
        | v :: rest' => scanLogFile (LogFileDest.set_Severity v lf) rest'
        | [] => lf
        end
      else scanLogFile lf rest
  end.

(** The body of the loop of [parseLogChannel].  Its [file] case indexes
    [args[0]] without testing [len(args)]: Go panics there when the header
    text has no field. *)
Definition logChannelStep (lc : LogChannel.t) (ss : Stmt) : outcome LogChannel.t :=
  let raw := rawOf ss in
  if isKw ss "file" then
    match Fields raw with
    | [] => Panics "index out of range [0] with length 0"
    | a0 :: rest =>
        let lf := scanLogFile (LogFileDest.mk (trimQuotes a0) None "" "" "") rest in
        Returns (LogChannel.set_File (Some lf) lc)
    end
  else if isKw ss "syslog" then
    let sf :=
      match Fields raw with
      | a0 :: _ => LogSyslogDest.mk a0
      | [] => LogSyslogDest.mk ""
      end in
    Returns (LogChannel.set_Syslog (Some sf) lc)
  else if isKw ss "stderr" then Returns (LogChannel.set_Stderr true lc)
  else if isKw ss "null" then Returns (LogChannel.set_Null true lc)
  else if isKw ss "severity" then Returns (LogChannel.set_Severity raw lc)
  else if isKw ss "print-time" then Returns (LogChannel.set_PrintTime (parseBoolPtr raw) lc)
  else if isKw ss "print-category" then
    Returns (LogChannel.set_PrintCategory (parseBoolPtr raw) lc)
  else if isKw ss "print-severity" then
    Returns (LogChannel.set_PrintSeverity (parseBoolPtr raw) lc)
  else if isKw ss "buffered" then Returns (LogChannel.set_Buffered (parseBoolPtr raw) lc)
  else Returns lc.

Definition parseLogChannel (st : Stmt) : outcome LogChannel.t :=
  let name := headNameAfter st "channel" in
  forStmtsM logChannelStep (Body st)
    (LogChannel.mk name None None false false "" None None None None).

Definition parseLogCategory (st : Stmt) : LogCategory.t :=
  let name := headNameAfter st "category" in
  match Body st with
  | RawNode text :: _ => LogCategory.mk name (parseStringList text)
  | _ => LogCategory.mk name []
  end.

Definition loggingStep (lg : Logging.t) (st : Stmt) : outcome Logging.t :=
  if isKw st "channel" then
    ch <- parseLogChannel st ;;
    Returns (Logging.mk (Logging.Channels lg ++ [ch]) (Logging.Categories lg)
                        (Logging.stmt lg))
  else if isKw st "category" then
    Returns (Logging.mk (Logging.Channels lg)
                        (Logging.Categories lg ++ [parseLogCategory st])
                        (Logging.stmt lg))
  else Returns lg.

Definition parseLogging (s : Stmt) : outcome Logging.t :=
  forStmtsM loggingStep (Body s) (Logging.mk [] [] (Some s)).

(** The body of the loop of [parseOptions]: the [switch] on the keyword
    of one body statement. *)
Definition parseOptionsStep (op : Options.t) (st : Stmt) : Options.t :=
  let raw := rawOf st in
  if isKw st "directory" then Options.set_Directory (trimQuotes raw) op
  else if isKw st "recursion" then Options.set_Recursion (parseBoolPtr raw) op
  else if isKw st "allow-query" then Options.set_AllowQuery (parseMatchList raw) op
  else if isKw st "allow-transfer" then Options.set_AllowTransfer (parseMatchList raw) op
  else if isKw st "allow-update" then Options.set_AllowUpdate (parseMatchList raw) op
  else if isKw st "listen-on" then Options.set_ListenOn (Some (parseListen raw)) op
  else if isKw st "listen-on-v6" then Options.set_ListenOnV6 (Some (parseListen raw)) op
  else if isKw st "forwarders" then Options.set_Forwarders (parseForwarders raw) op
  else if isKw st "forward" then
    match Fields raw with
    | f0 :: _ => Options.set_Forward f0 op
    | [] => op
    end
  else if isKw st "dnssec-validation" then
    match Fields raw with
    | f0 :: _ => Options.set_DNSSECValidation f0 op
    | [] => op
    end
  else if isKw st "rrset-order" then Options.set_RRsetOrder (parseRRsetOrder st) op
  else Options.set_Other (Options.Other op ++ [RawKV.mk (Keyword st) raw]) op.

Definition parseOptions (s : Stmt) : Options.t :=
  forStmts parseOptionsStep (Body s)
    (Options.mk "" None [] [] [] None None [] "" "" [] [] (Some s)).

Definition parseZone (s : Stmt) : Zone.t :=
  forStmts
    (fun z st =>
       let raw := rawOf st in
       if isKw st "type" then
         match Fields raw with
         | f0 :: _ => Zone.set_Type f0 z
         | [] => z
         end
       else if isKw st "file" then Zone.set_File (trimQuotes raw) z
       else if isKw st "primaries" then
         if HasPrefix raw "{" then Zone.set_Primaries (parseRemoteServerListBody raw) z
         else Zone.set_PrimariesRef (TrimSpace raw) z
       else if isKw st "forwarders" then Zone.set_Forwarders (parseForwarders raw) z
       else if isKw st "forward" then
         match Fields raw with
         | f0 :: _ => Zone.set_Forward f0 z
         | [] => z
         end
       else if isKw st "allow-update" then Zone.set_AllowUpdate (parseMatchList raw) z
       else if isKw st "allow-transfer" then Zone.set_AllowTransfer (parseMatchList raw) z
       else if isKw st "also-notify" then Zone.set_AlsoNotify (parseRemoteServerListBody raw) z
       else if isKw st "dnssec-policy" then Zone.set_DNSSECPolicy (trimQuotes raw) z
       else z)
    (Body s)
    (Zone.mk (headNameAfter s "zone") (headClassAfter s "zone") "" "" "" [] [] "" [] [] [] ""
             (Some s)).

Definition parseView (s : Stmt) : View.t :=
  forStmts
    (fun v st =>
       let raw := rawOf st in
       if isKw st "match-clients" then View.set_MatchClients (parseMatchList raw) v
       else if isKw st "match-destinations" then
         View.set_MatchDestinations (parseMatchList raw) v
       else if isKw st "recursion" then View.set_Recursion (parseBoolPtr raw) v
       else if isKw st "trust-anchors" then View.set_TrustAnchors (Some (parseTrustAnchors st)) v
       else if isKw st "zone" then View.set_Zones (View.Zones v ++ [parseZone st]) v
       else if isKw st "include" then
         View.set_Includes (View.Includes v ++ [Include.mk (trimQuotes raw) (Some st)]) v
       else v)
    (Body s)
    (View.set_Class (headClassAfter s "view")
       (View.mk (headNameAfter s "view") "" [] [] None None [] [] (Some s))).

(** The error values the package can hand back: the two it creates itself
    ([Apply: nil file] and [namedzone: no underlying AST; call FromFile
    first]) and whatever the tree's own [Save] method reports. *)
Inductive error : Type :=
| ErrApplyNilFile
| ErrNoAST
| ErrWrite (msg : string).

(** The body of the loop of [FromFile]: the [switch] on the keyword of a
    top-level statement. *)
Definition fromFileStep (cfg : Config.t) (s : Stmt) : outcome Config.t :=
  if isKw s "include" then
    let path := trimQuotes (rawOf s) in
    Returns (Config.set_Includes (Config.Includes cfg ++ [Include.mk path (Some s)]) cfg)
  else if isKw s "acl" then
    Returns (Config.set_ACLs (Config.ACLs cfg ++ [parseACL s]) cfg)
  else if isKw s "key" then
    Returns (Config.set_Keys (Config.Keys cfg ++ [parseKey s]) cfg)
  else if isKw s "key-store" then
    Returns (Config.set_KeyStores (Config.KeyStores cfg ++ [parseKeyStore s]) cfg)
  else if isKw s "remote-servers" then
    Returns (Config.set_RemoteServers (Config.RemoteServers cfg ++ [parseRemoteServers s]) cfg)
  else if isKw s "tls" then
    Returns (Config.set_TLS (Config.TLS cfg ++ [parseTLS s]) cfg)
  else if isKw s "http" then
    Returns (Config.set_HTTP (Config.HTTP cfg ++ [parseHTTP s]) cfg)
  else if isKw s "controls" then
    Returns (Config.set_Controls (Some (parseControls s)) cfg)
  else if isKw s "logging" then
    lg <- parseLogging s ;;
    Returns (Config.set_Logging (Some lg) cfg)
  else if isKw s "options" then
    Returns (Config.set_Options (Some (parseOptions s)) cfg)
  else if isKw s "trust-anchors" then
    Returns (Config.set_TrustAnchors (Config.TrustAnchors cfg ++ [parseTrustAnchors s]) cfg)
  else if isKw s "view" then
    Returns (Config.set_Views (Config.Views cfg ++ [parseView s]) cfg)
  else if isKw s "zone" then
    Returns (Config.set_Zones (Config.Zones cfg ++ [parseZone s]) cfg)
  else Returns cfg.

(** [FromFile]: one pass over the top-level nodes, starting from a model
    that only holds the back-reference; the second component is the
    [error] result. *)
Definition FromFile (f : File) : outcome (Config.t * option error) :=
  cfg <- forStmtsM fromFileStep (Nodes f) (Config.set_ast (Some f) Config.zero) ;;
  Returns (cfg, None).

(* ================================================================= *)
(** ** Encode ([load.go]): from the typed model back to statements *)

Section Encode.

Context {A : Adapter}.

Definition simple (line : string) : Node := StmtNode (NewSimpleStmt line).

(** The [keyword] test of the three sync loops: a statement of that
    keyword is skipped, every other node is kept. *)
Definition isStmtOf (keyword : string) (n : Node) : bool :=
  match n with
  | StmtNode s => String.eqb (Keyword s) keyword
  | RawNode _ => false
  end.

Definition dropKeyword (keyword : string) (nodes : list Node) : list Node :=
  filter (fun n => negb (isStmtOf keyword n)) nodes.

Definition syncBlocks {T : Type} (f : File) (keyword : string) (items : list T)
  (b : T -> Stmt) : File :=
  mkFile (dropKeyword keyword (Nodes f) ++ map (fun it => StmtNode (b it)) items).

Definition syncSingleton {T : Type} (f : File) (keyword : string) (item : option T)
  (b : T -> Stmt) : File :=
  match item with
  | None => mkFile (dropKeyword keyword (Nodes f))
  | Some it => syncBlocks f keyword [it] b
  end.

Definition syncIncludes (f : File) (incs : list Include.t) : File :=
  mkFile (dropKeyword "include" (Nodes f)
          ++ map (fun inc => simple ("include " +++ quoted (Include.Path inc))) incs).

Definition buildACL (a : ACL.t) : Stmt :=
  let head := "acl " +++ quoted (ACL.Name a) in
  let body := [RawNode (serializeMatchList (ACL.Elements a))] in
  NewBlockStmt head body.

Definition buildKey (k : Key.t) : Stmt :=
  NewBlockStmt ("key " +++ quoted (Key.Name k))
    [ simple ("algorithm " +++ quoted (Key.Algorithm k));
      simple ("secret " +++ quoted (Key.Secret k)) ].

Definition buildKeyStore (ks : KeyStore.t) : Stmt :=
  NewBlockStmt ("key-store " +++ quoted (KeyStore.Name ks))
    (if String.eqb (KeyStore.PKCS11URI ks) "" then []
     else [simple ("pkcs11-uri " +++ quoted (KeyStore.PKCS11URI ks))]).

Definition buildRemoteServers (rs : RemoteServers.t) : Stmt :=
  NewBlockStmt ("remote-servers " +++ quoted (RemoteServers.Name rs))
    (map (fun it => simple (serializeRemoteServerItem it)) (RemoteServers.Servers rs)).

Definition buildTLS (t : TLS.t) : Stmt :=
  let add (k v : string) : list Node :=
    if String.eqb v "" then [] else [simple (k +++ " " +++ quoted v)] in
  NewBlockStmt ("tls " +++ quoted (TLS.Name t))
    (add "ca-file" (TLS.CAFile t)
     ++ add "cert-file" (TLS.CertFile t)
     ++ add "key-file" (TLS.KeyFile t)
     ++ (if String.eqb (TLS.CipherSuites t) "" then []
         else [simple ("cipher-suites " +++ quoted (TLS.CipherSuites t))])
     ++ (if String.eqb (TLS.Ciphers t) "" then []
         else [simple ("ciphers " +++ quoted (TLS.Ciphers t))])
     ++ add "dhparam-file" (TLS.DHParamFile t)
     ++ (match TLS.PreferServer t with
         | Some b => [simple ("prefer-server-ciphers " +++ boolWord b)]
         | None => []
         end)
     ++ (match TLS.Protocols t with
         | [] => []
         | ps => [simple ("protocols { " +++ Join (quoteEach ps) "; " +++ "; }")]
         end)
     ++ add "remote-hostname" (TLS.RemoteHost t)
     ++ (match TLS.SessionTickets t with
         | Some b => [simple ("session-tickets " +++ boolWord b)]
         | None => []
         end)).

Definition buildHTTP (h : HTTP.t) : Stmt :=
  NewBlockStmt ("http " +++ quoted (HTTP.Name h))
    ((match HTTP.Endpoints h with
      | [] => []
      | es => [simple ("endpoints { " +++ Join (quoteEach es) "; " +++ "; }")]
      end)
     ++ (match HTTP.ListenerClients h with
         | Some n => [simple ("listener-clients " +++ Itoa n)]
         | None => []
         end)
     ++ (match HTTP.StreamsPerConnection h with
         | Some n => [simple ("streams-per-connection " +++ Itoa n)]
         | None => []
         end)).

Definition buildControls (c : Controls.t) : Stmt :=
  NewBlockStmt "controls"
    (map (fun ci => simple (serializeControlInet ci)) (Controls.Inet c)
     ++ map (fun cu => simple (serializeControlUnix cu)) (Controls.Unix c)).

Definition buildLogChannel (ch : LogChannel.t) : Stmt :=
  let optBool (k : string) (v : option bool) : list Node :=
    match v with Some b => [simple (k +++ " " +++ boolWord b)] | None => [] end in
  NewBlockStmt ("channel " +++ quoted (LogChannel.Name ch))
    ((match LogChannel.File ch with
      | Some lf =>
          let parts :=
            [quoted (LogFileDest.Path lf)]
            ++ (match LogFileDest.Versions lf with
                | Some n => ["versions " +++ Itoa n]
                | None => []
                end)
            ++ (if String.eqb (LogFileDest.Size lf) "" then []
                else ["size " +++ LogFileDest.Size lf])
            ++ (if String.eqb (LogFileDest.Suffix lf) "" then []
                else ["suffix " +++ LogFileDest.Suffix lf])
            ++ (if String.eqb (LogFileDest.Severity lf) "" then []
                else ["severity " +++ LogFileDest.Severity lf]) in
          [simple ("file " +++ Join parts " ")]
      | None => []
      end)
     ++ (match LogChannel.Syslog ch with
         | Some sf =>
             if String.eqb (LogSyslogDest.Facility sf) "" then [simple "syslog"]
             else [simple ("syslog " +++ LogSyslogDest.Facility sf)]
         | None => []
         end)
     ++ (if LogChannel.Stderr ch then [simple "stderr"] else [])
     ++ (if LogChannel.Null ch then [simple "null"] else [])
     ++ (if String.eqb (LogChannel.Severity ch) "" then []
         else [simple ("severity " +++ LogChannel.Severity ch)])
     ++ optBool "print-time" (LogChannel.PrintTime ch)
     ++ optBool "print-category" (LogChannel.PrintCategory ch)
     ++ optBool "print-severity" (LogChannel.PrintSeverity ch)
     ++ optBool "buffered" (LogChannel.Buffered ch)).

Definition buildLogCategory (cat : LogCategory.t) : Stmt :=
  NewSimpleStmt ("category " +++ quoted (LogCategory.Name cat) +++ " { "
                 +++ Join (quoteEach (LogCategory.Channels cat)) "; " +++ "; }").

Definition buildLogging (l : Logging.t) : Stmt :=
  NewBlockStmt "logging"
    (map (fun ch => StmtNode (buildLogChannel ch)) (Logging.Channels l)
     ++ map (fun cat => StmtNode (buildLogCategory cat)) (Logging.Categories l)).

(** The body statements [buildOptions] emits: the modeled settings that
    are set, then one statement per overflow-bag entry. *)
Definition optionsBody (o : Options.t) : list Node :=
  let matchList (k : string) (l : list MatchTerm.t) : list Node :=
    match l with [] => [] | _ => [simple (k +++ " " +++ serializeMatchList l)] end in
  let listen (k : string) (l : option Listen.t) : list Node :=
    match l with Some x => [simple (k +++ " " +++ serializeListen x)] | None => [] end in
  (if String.eqb (Options.Directory o) "" then []
   else [simple ("directory " +++ quoted (Options.Directory o))])
  ++ (match Options.Recursion o with
      | Some b => [simple ("recursion " +++ boolWord b)]
      | None => []
      end)
  ++ matchList "allow-query" (Options.AllowQuery o)
  ++ matchList "allow-transfer" (Options.AllowTransfer o)
  ++ matchList "allow-update" (Options.AllowUpdate o)
  ++ listen "listen-on" (Options.ListenOn o)
  ++ listen "listen-on-v6" (Options.ListenOnV6 o)
  ++ (match Options.Forwarders o with
      | [] => []
      | ff => [simple ("forwarders " +++ serializeForwarders ff)]
      end)
  ++ (if String.eqb (Options.Forward o) "" then []
      else [simple ("forward " +++ Options.Forward o)])
  ++ (if String.eqb (Options.DNSSECValidation o) "" then []
      else [simple ("dnssec-validation " +++ Options.DNSSECValidation o)])
  ++ (match Options.RRsetOrder o with
      | [] => []
      | rr => [simple ("rrset-order { " +++ serializeRRsetOrder rr +++ " }")]
      end)
  ++ map (fun kv => simple (RawKV.Name kv +++ " " +++ RawKV.Raw kv)) (Options.Other o).

Definition buildOptions (o : Options.t) : Stmt := NewBlockStmt "options" (optionsBody o).

Definition buildTrustAnchors (t : TrustAnchors.t) : Stmt :=
  NewBlockStmt "trust-anchors"
    (flat_map
       (fun it =>
          if negb (String.eqb (TrustAnchorItem.DS it) "") then
            [simple (quoted (TrustAnchorItem.Name it) +++ " " +++ TrustAnchorItem.DS it)]
          else if negb (String.eqb (TrustAnchorItem.DNSKey it) "") then
            [simple (quoted (TrustAnchorItem.Name it) +++ " " +++ TrustAnchorItem.DNSKey it)]
          else [])
       (TrustAnchors.Items t)).

Definition buildZone (z : Zone.t) : Stmt :=
  let head :=
    "zone " +++ quoted (Zone.Name z)
    +++ (if String.eqb (Zone.Class z) "" then "" else " " +++ Zone.Class z) in
  let matchList (k : string) (l : list MatchTerm.t) : list Node :=
    match l with [] => [] | _ => [simple (k +++ " " +++ serializeMatchList l)] end in
  let servers (k : string) (l : list RemoteServerItem.t) : list Node :=
    match l with [] => [] | _ => [simple (k +++ " " +++ serializeRemoteServerList l)] end in
  NewBlockStmt head
    ((if String.eqb (Zone.Type_ z) "" then [] else [simple ("type " +++ Zone.Type_ z)])
     ++ (if String.eqb (Zone.File z) "" then [] else [simple ("file " +++ quoted (Zone.File z))])
     ++ (if String.eqb (Zone.PrimariesRef z) "" then []
         else [simple ("primaries " +++ Zone.PrimariesRef z)])
     ++ servers "primaries" (Zone.Primaries z)
     ++ (match Zone.Forwarders z with
         | [] => []
         | ff => [simple ("forwarders " +++ serializeForwarders ff)]
         end)
     ++ (if String.eqb (Zone.Forward z) "" then [] else [simple ("forward " +++ Zone.Forward z)])
     ++ matchList "allow-update" (Zone.AllowUpdate z)
     ++ matchList "allow-transfer" (Zone.AllowTransfer z)
     ++ servers "also-notify" (Zone.AlsoNotify z)
     ++ (if String.eqb (Zone.DNSSECPolicy z) "" then []
         else [simple ("dnssec-policy " +++ quoted (Zone.DNSSECPolicy z))])).

Definition buildView (v : View.t) : Stmt :=
  let head :=
    "view " +++ quoted (View.Name v)
    +++ (if String.eqb (View.Class v) "" then "" else " " +++ View.Class v) in
  let matchList (k : string) (l : list MatchTerm.t) : list Node :=
    match l with [] => [] | _ => [simple (k +++ " " +++ serializeMatchList l)] end in
  NewBlockStmt head
    (matchList "match-clients" (View.MatchClients v)
     ++ matchList "match-destinations" (View.MatchDestinations v)
     ++ (match View.Recursion v with
         | Some b => [simple ("recursion " +++ boolWord b)]
         | None => []
         end)
     ++ (match View.TrustAnchors v with
         | Some ta => [StmtNode (buildTrustAnchors ta)]
         | None => []
         end)
     ++ map (fun z => StmtNode (buildZone z)) (View.Zones v)
     ++ map (fun inc => simple ("include " +++ quoted (Include.Path inc))) (View.Includes v)).

(** The thirteen sync calls of [Apply], threaded through the file. *)
Definition syncAll (c : Config.t) (f : File) : File :=
  let f := syncIncludes f (Config.Includes c) in
  let f := syncBlocks f "acl" (Config.ACLs c) buildACL in
  let f := syncBlocks f "key" (Config.Keys c) buildKey in
  let f := syncBlocks f "key-store" (Config.KeyStores c) buildKeyStore in
  let f := syncBlocks f "remote-servers" (Config.RemoteServers c) buildRemoteServers in
  let f := syncBlocks f "tls" (Config.TLS c) buildTLS in
  let f := syncBlocks f "http" (Config.HTTP c) buildHTTP in
  let f := syncSingleton f "controls" (Config.Controls c) buildControls in
  let f := syncSingleton f "logging" (Config.Logging c) buildLogging in
  let f := syncSingleton f "options" (Config.Options c) buildOptions in
  let f := syncBlocks f "trust-anchors" (Config.TrustAnchors c) buildTrustAnchors in
  let f := syncBlocks f "view" (Config.Views c) buildView in
  let f := syncBlocks f "zone" (Config.Zones c) buildZone in
  f.

(** [Apply]: the file argument may be nil, in which case the backing tree
    of the model is used.  Go returns only the error; the file is mutated
    in place and the model's back-reference is set to it.  Here a nil error
    comes with the model and the file after the pass. *)
Definition Apply (c : Config.t) (f : option File) : Config.t * File + error :=
  let f := match f with None => Config.ast c | Some _ => f end in
  match f with
  | None => inr ErrApplyNilFile
  | Some f0 =>
      let f1 := syncAll c f0 in
      inl (Config.set_ast (Some f1) c, f1)
  end.

(** What [Save] did: it ran the encode pass, it handed a tree to the writer. *)
Inductive effect : Type :=
| Encoded (f : File)
| Written (f : File) (path : string).

(** [Save] ([api.go]): the effects performed, the model afterwards and the
    error returned. *)
Definition Save (c : Config.t) (path : string) : list effect * Config.t * option error :=
  match Config.ast c with
  | None => ([], c, Some ErrNoAST)
  | Some a =>
      match Apply c (Some a) with
      | inr err => ([], c, Some err)
      | inl (c', f1) =>
          ([Encoded f1; Written f1 path], c', option_map ErrWrite (SaveFile f1 path))
      end
  end.

End Encode.

(* ================================================================= *)
(** ** The accessors ([api.go], [helpers.go])

    The accessors return pointers into the slices of the model
    ([&c.Zones[i]], [&c.Views[i].Zones[j]], [&c.Views[i]]); a pointer is
    modelled by the position it points at. *)

(** [BoolPtr]. *)
Definition BoolPtr (b : bool) : option bool := Some b.

Section NamedSlices.

Variable T : Type.
Variable nameOf : T -> string.

(** [for i := range xs { if xs[i].Name == name { return &xs[i] } }]: the
    first position whose element has the name. *)
Fixpoint indexNamed (xs : list T) (name : string) : option nat :=
  match xs with
  | [] => None
  | x :: rest =>
      if String.eqb (nameOf x) name then Some 0
      else option_map S (indexNamed rest name)
  end.

(** The loop of the upsert functions: the first element of that name is
    overwritten and the function returns; without one the value is
    appended. *)
Fixpoint upsertNamed (xs : list T) (v : T) : list T :=
  match xs with
  | [] => [v]
  | x :: rest =>
      if String.eqb (nameOf x) (nameOf v) then v :: rest
      else x :: upsertNamed rest v
  end.

(** The loop of the remove functions: [out := xs[:0]] is filled with the
    elements of another name and [removed] records whether one was
    skipped.  [out] shares the array of [xs]; it is written at or behind
    the position being read, so the elements read are the original ones. *)
Definition removeNamed (xs : list T) (name : string) : list T * bool :=
  fold_left
    (fun '(out, removed) x =>
       if String.eqb (nameOf x) name then (out, true) else (out ++ [x], removed))
    xs ([], false).

End NamedSlices.

Arguments indexNamed {T} nameOf xs name.
Arguments upsertNamed {T} nameOf xs v.
Arguments removeNamed {T} nameOf xs name.

(** Where a [*Zone] returned by [GetZone] points: at a top-level zone or at
    a zone of a view. *)
Inductive ZoneRef : Type :=
| TopZone (i : nat)
| ViewZone (i j : nat).

(** The second loop of [GetZone]: the views in order, the zones of each in
    order. *)
Fixpoint indexInViews (vs : list View.t) (name : string) : option (nat * nat) :=
  match vs with
  | [] => None
  | v :: rest =>
      match indexNamed Zone.Name (View.Zones v) name with
      | Some j => Some (0, j)
      | None => option_map (fun '(i, j) => (S i, j)) (indexInViews rest name)
      end
  end.

Definition GetZone (c : Config.t) (name : string) : option ZoneRef :=
  match indexNamed Zone.Name (Config.Zones c) name with
  | Some i => Some (TopZone i)
  | None =>
      match indexInViews (Config.Views c) name with
      | Some (i, j) => Some (ViewZone i j)
      | None => None
      end
  end.

(** The zone a [ZoneRef] points at. *)
Definition zoneAt (c : Config.t) (r : ZoneRef) : option Zone.t :=
  match r with
  | TopZone i => nth_error (Config.Zones c) i
  | ViewZone i j =>
      match nth_error (Config.Views c) i with
      | Some v => nth_error (View.Zones v) j
      | None => None
      end
  end.

Definition UpsertZone (c : Config.t) (z : Zone.t) : Config.t :=
  Config.set_Zones (upsertNamed Zone.Name (Config.Zones c) z) c.

Definition RemoveZone (c : Config.t) (name : string) : Config.t * bool :=
  let '(out, removed) := removeNamed Zone.Name (Config.Zones c) name in
  (Config.set_Zones out c, removed).

(** [FindView]: the position of the view the returned pointer points at. *)
Definition FindView (c : Config.t) (name : string) : option nat :=
  indexNamed View.Name (Config.Views c) name.

Definition UpsertView (c : Config.t) (v : View.t) : Config.t :=
  Config.set_Views (upsertNamed View.Name (Config.Views c) v) c.

Definition RemoveView (c : Config.t) (name : string) : Config.t * bool :=
  let '(out, removed) := removeNamed View.Name (Config.Views c) name in
  (Config.set_Views out c, removed).

Definition SetRecursion (c : Config.t) (b : bool) : Config.t :=
  let o := match Config.Options c with Some o => o | None => Options.zero end in
  Config.set_Options (Some (Options.set_Recursion (BoolPtr b) o)) c.

(** A write through a [*View]: the view at position [i] is replaced. *)
Fixpoint storeAt {T : Type} (xs : list T) (i : nat) (v : T) : list T :=
  match xs, i with
  | [], _ => []
  | _ :: rest, O => v :: rest
  | x :: rest, S i' => x :: storeAt rest i' v
  end.

(** [View{Name: viewName, Zones: []Zone{z}}] and
    [View{Name: viewName, TrustAnchors: &ta}]. *)
Definition viewWithZone (viewName : string) (z : Zone.t) : View.t :=
  View.mk viewName "" [] [] None None [z] [] None.

Definition viewWithAnchors (viewName : string) (ta : TrustAnchors.t) : View.t :=
  View.mk viewName "" [] [] None (Some ta) [] [] None.

Definition UpsertZoneInView (c : Config.t) (viewName : string) (z : Zone.t) : Config.t :=
  match FindView c viewName with
  | None => Config.set_Views (Config.Views c ++ [viewWithZone viewName z]) c
  | Some i =>
      match nth_error (Config.Views c) i with
      | None => c
      | Some v =>
          let v' := View.set_Zones (upsertNamed Zone.Name (View.Zones v) z) v in
          Config.set_Views (storeAt (Config.Views c) i v') c
      end
  end.

Definition RemoveZoneInView (c : Config.t) (viewName zoneName : string) : Config.t * bool :=
  match FindView c viewName with
  | None => (c, false)
  | Some i =>
      match nth_error (Config.Views c) i with
      | None => (c, false)
      | Some v =>
          let '(out, removed) := removeNamed Zone.Name (View.Zones v) zoneName in
          (Config.set_Views (storeAt (Config.Views c) i (View.set_Zones out v)) c, removed)
      end
  end.

Definition SetTrustAnchorsInView (c : Config.t) (viewName : string) (ta : TrustAnchors.t)
  : Config.t :=
  match FindView c viewName with
  | None => Config.set_Views (Config.Views c ++ [viewWithAnchors viewName ta]) c
  | Some i =>
      match nth_error (Config.Views c) i with
      | None => c
      | Some v => Config.set_Views (storeAt (Config.Views c) i (View.set_TrustAnchors (Some ta) v)) c
      end
  end.

(* ================================================================= *)
(** ** The vocabulary of the statements

    The definitions below are not part of the package: they name what the
    theorems talk about. *)

(** *** What the encode pass keeps and what it rebuilds *)

(** The keywords [FromFile] dispatches on and [Apply] rebuilds. *)
Definition modeledKeywords : list string :=
  [ "include"; "acl"; "key"; "key-store"; "remote-servers"; "tls"; "http";
    "controls"; "logging"; "options"; "trust-anchors"; "view"; "zone" ].

(** A node the pass rebuilds: a statement with a modeled keyword. *)
Definition isModeled (n : Node) : bool :=
  match n with
  | StmtNode s => existsb (String.eqb (Keyword s)) modeledKeywords
  | RawNode _ => false
  end.

(** The nodes the pass does not model, in their order: raw fragments and
    statements of any other keyword. *)
Definition untouched (nodes : list Node) : list Node :=
  filter (fun n => negb (isModeled n)) nodes.

(** One sync call on the node list: drop the keyword, append the new set. *)
Definition pass (keyword : string) (fresh : list Node) (nodes : list Node) : list Node :=
  dropKeyword keyword nodes ++ fresh.

Definition optNode {T : Type} (b : T -> Stmt) (item : option T) : list Node :=
  match item with
  | Some it => [StmtNode (b it)]
  | None => []
  end.

Section EncodeVocabulary.

Context {A : Adapter}.

(** The nodes built for one keyword from the present state of the model,
    in the model's order. *)
Definition freshFor (c : Config.t) (keyword : string) : list Node :=
  if String.eqb keyword "include" then
    map (fun inc => simple ("include " +++ quoted (Include.Path inc))) (Config.Includes c)
  else if String.eqb keyword "acl" then map (fun x => StmtNode (buildACL x)) (Config.ACLs c)
  else if String.eqb keyword "key" then map (fun x => StmtNode (buildKey x)) (Config.Keys c)
  else if String.eqb keyword "key-store" then
    map (fun x => StmtNode (buildKeyStore x)) (Config.KeyStores c)
  else if String.eqb keyword "remote-servers" then
    map (fun x => StmtNode (buildRemoteServers x)) (Config.RemoteServers c)
  else if String.eqb keyword "tls" then map (fun x => StmtNode (buildTLS x)) (Config.TLS c)
  else if String.eqb keyword "http" then map (fun x => StmtNode (buildHTTP x)) (Config.HTTP c)
  else if String.eqb keyword "controls" then optNode buildControls (Config.Controls c)
  else if String.eqb keyword "logging" then optNode buildLogging (Config.Logging c)
  else if String.eqb keyword "options" then optNode buildOptions (Config.Options c)
  else if String.eqb keyword "trust-anchors" then
    map (fun x => StmtNode (buildTrustAnchors x)) (Config.TrustAnchors c)
  else if String.eqb keyword "view" then map (fun x => StmtNode (buildView x)) (Config.Views c)
  else if String.eqb keyword "zone" then map (fun x => StmtNode (buildZone x)) (Config.Zones c)
  else [].

(** All rebuilt nodes, keyword after keyword in the order of [Apply]. *)
Definition freshNodes (c : Config.t) : list Node := flat_map (freshFor c) modeledKeywords.

End EncodeVocabulary.

(** The tree [Apply] works on: its argument, or the model's backing tree
    when the argument is nil. *)
Definition backing (c : Config.t) (arg : option File) : option File :=
  match arg with
  | None => Config.ast c
  | Some _ => arg
  end.

(** How many entities the model holds for a keyword: the length of the
    collection, or one or zero for the three singleton pointers. *)
Definition entityCount (c : Config.t) (keyword : string) : nat :=
  let opt {T : Type} (o : option T) : nat := match o with Some _ => 1 | None => 0 end in
  if String.eqb keyword "include" then List.length (Config.Includes c)
  else if String.eqb keyword "acl" then List.length (Config.ACLs c)
  else if String.eqb keyword "key" then List.length (Config.Keys c)
  else if String.eqb keyword "key-store" then List.length (Config.KeyStores c)
  else if String.eqb keyword "remote-servers" then List.length (Config.RemoteServers c)
  else if String.eqb keyword "tls" then List.length (Config.TLS c)
  else if String.eqb keyword "http" then List.length (Config.HTTP c)
  else if String.eqb keyword "controls" then opt (Config.Controls c)
  else if String.eqb keyword "logging" then opt (Config.Logging c)
  else if String.eqb keyword "options" then opt (Config.Options c)
  else if String.eqb keyword "trust-anchors" then List.length (Config.TrustAnchors c)
  else if String.eqb keyword "view" then List.length (Config.Views c)
  else if String.eqb keyword "zone" then List.length (Config.Zones c)
  else 0.

(** *** Trust anchors: how a body line is classified *)

(** The three things that can happen to a trust-anchor line. *)
Inductive anchorKind : Type := DSRecord | DNSKeyRecord | Dropped.

(** The classification by the rest of the line: [ds] first, then [key]. *)
Definition classifyAnchor (rest : string) : anchorKind :=
  if Contains rest "ds" then DSRecord
  else if Contains rest "key" then DNSKeyRecord
  else Dropped.

(** The first field of the line, and the text [parseTrustAnchors] goes on
    with: the line with that field and one blank removed from its front,
    trimmed.  This is the computation of the code, not the rest of the
    line: when the first field is followed by a tab, or by nothing, the
    prefix is not there and [anchorRest] is the whole line, name included.
    The rest of the line is [specRestOfLine] below. *)
Definition anchorFirst (ss : Stmt) : option string := hd_error (Fields (rawOf ss)).

Definition anchorRest (ss : Stmt) (first : string) : string :=
  TrimSpace (TrimPrefix (rawOf ss) (first +++ " ")).

(** The entries one body node contributes. *)
Definition anchorEntries (n : Node) : list TrustAnchorItem.t :=
  match n with
  | RawNode _ => []
  | StmtNode ss =>
      match anchorFirst ss with
      | None => []
      | Some first =>
          let rest := anchorRest ss first in
          match classifyAnchor rest with
          | DSRecord => [TrustAnchorItem.mk (trimQuotes first) rest ""]
          | DNSKeyRecord => [TrustAnchorItem.mk (trimQuotes first) "" rest]
          | Dropped => []
          end
      end
  end.

(** *** Options: the overflow bag *)

(** The keywords of the fixed table of [parseOptions]. *)
Definition optionKeywords : list string :=
  [ "directory"; "recursion"; "allow-query"; "allow-transfer"; "allow-update";
    "listen-on"; "listen-on-v6"; "forwarders"; "forward"; "dnssec-validation";
    "rrset-order" ].

Definition inOptionTable (st : Stmt) : bool :=
  existsb (String.eqb (Keyword st)) optionKeywords.

(** What one body node adds to the overflow bag: a statement outside the
    table adds its keyword and its header text as the parsers read it. *)
Definition overflowOf (n : Node) : list RawKV.t :=
  match n with
  | StmtNode st => if inOptionTable st then [] else [RawKV.mk (Keyword st) (rawOf st)]
  | RawNode _ => []
  end.

(** *** Match lists: the classification of a segment *)

(** The pieces the decoder cuts: the text between any two semicolons,
    inside braces or not, trimmed, the empty ones left out.  The top-level
    segments of the specification are [specSegments] below. *)
Definition segments (raw : string) : list string :=
  filter (fun p => negb (String.eqb p ""))
         (map TrimSpace (Split (stripBraces raw) ";")).

(** The four kinds of term. *)
Inductive termKind : Type :=
| KeyRef (name : string)
| NestedList (terms : list MatchTerm.t)
| Literal (address : string)
| AclRef (name : string).

(** The classification of a segment once a leading [!] is off, in the
    order of the specification: [key ] prefix, leading brace, literal
    address (a slash, more than one colon, or exactly three dots), and
    otherwise a reference to a named list with its quotes stripped. *)
Definition classifyPlain (p : string) : termKind :=
  if HasPrefix p "key " then KeyRef (trimQuotes (TrimPrefix p "key "))
  else if HasPrefix p "{" then NestedList (parseMatchListFromBodyRaw p)
  else if Contains p "/" || Nat.ltb 1 (Count p ":") || Nat.eqb (Count p ".") 3 then Literal p
  else AclRef (trimQuotes p).

(** A leading [!] sets the negation flag; the remainder, trimmed, is then
    classified. *)
Definition classify (seg : string) : bool * termKind :=
  if HasPrefix seg "!" then (true, classifyPlain (TrimSpace (TrimPrefix seg "!")))
  else (false, classifyPlain seg).

(** The term that carries a classification: one populated alternative. *)
Definition termOf (c : bool * termKind) : MatchTerm.t :=
  match c with
  | (neg, KeyRef name) => MatchTerm.mk neg "" name "" []
  | (neg, NestedList terms) => MatchTerm.mk neg "" "" "" terms
  | (neg, Literal address) => MatchTerm.mk neg address "" "" []
  | (neg, AclRef name) => MatchTerm.mk neg "" "" name []
  end.

(** What is left of a piece when it is trimmed and a leading [!] removed:
    the text a nested call is made on. *)
Definition innerOf (piece : string) : string :=
  let p := TrimSpace piece in
  if HasPrefix p "!" then TrimSpace (TrimPrefix p "!") else p.

(** *** Match lists: which names are written in quotes *)

(** A term that is a reference to a named list and nothing else. *)
Definition aclTerm (neg : bool) (name : string) : MatchTerm.t :=
  MatchTerm.mk neg "" "" name [].

(** A bare token in the sense of the specification: not empty, and made of
    letters, digits and hyphens only. *)
Definition isBareByte (c : ascii) : bool :=
  isLetter c || isDigit c || Ascii.eqb c "-".

Fixpoint allBare (s : string) : bool :=
  match s with
  | EmptyString => true
  | String c r => isBareByte c && allBare r
  end.

Definition bareToken (name : string) : bool := negb (String.eqb name "") && allBare name.

(** The four bytes [needsQuotes] looks for. *)
Definition quotingBytes : list ascii := ["."; "-"; "*"; " "]%char.

(** *** Control channels: the order of the keyword groups *)

(** An inet channel with a port, an allow list and a key list, and a unix
    channel with nothing optional. *)
Definition inetWithKeys : ControlInet.t :=
  ControlInet.mk "127.0.0.1" (Some 953%Z) [aclTerm false "localhost"] ["rndc-key"] None.

Definition unixPlain : ControlUnix.t :=
  ControlUnix.mk "/run/named.sock" 600%Z 0%Z 0%Z [] None.

(** *** Decode: when [FromFile] returns *)

(** A logging block whose channel has a [file] statement with nothing but
    the semicolon in its header text. *)
Definition blankFileStmt : Stmt := mkStmt "file" ";" [].

Definition blankFileDocument : File :=
  mkFile
    [ StmtNode
        (mkStmt "logging" "logging"
           [ StmtNode (mkStmt "channel" ("channel " +++ quoted "c") [StmtNode blankFileStmt]) ]) ].

(** A test on the statements of a body, raw fragments aside. *)
Definition stmtsAll (ok : Stmt -> bool) (body : list Node) : bool :=
  forallb (fun n => match n with StmtNode st => ok st | RawNode _ => true end) body.

(** The one condition under which decode goes through: in every channel
    of every logging block, a [file] statement has a field in its header
    text. *)
Definition fileStmtOk (ss : Stmt) : bool :=
  negb (isKw ss "file") || negb (Nat.eqb (List.length (Fields (rawOf ss))) 0).
Definition channelOk (st : Stmt) : bool := stmtsAll fileStmtOk (Body st).
Definition loggingStmtOk (st : Stmt) : bool := negb (isKw st "channel") || channelOk st.
Definition loggingOk (s : Stmt) : bool := stmtsAll loggingStmtOk (Body s).
Definition topStmtOk (s : Stmt) : bool := negb (isKw s "logging") || loggingOk s.
Definition channelFilesHaveFields (f : File) : bool := stmtsAll topStmtOk (Nodes f).

(** *** Decode counts what encode wrote *)

(** The three keywords held by a pointer rather than a slice. *)
Definition isSingleton (k : string) : bool :=
  String.eqb k "controls" || String.eqb k "logging" || String.eqb k "options".

(** The effect of one top-level statement on the number of entities the
    model holds for keyword [k]. *)
Definition bump (k : string) (n : Node) (count : nat) : nat :=
  if isStmtOf k n then (if isSingleton k then 1 else S count) else count.

(** *** Encode, decode, encode *)

(** Two nodes agree in kind and keyword: raw fragments with the same text,
    or statements of the same keyword. *)
Definition sameKeyword (n1 n2 : Node) : Prop :=
  match n1, n2 with
  | StmtNode s1, StmtNode s2 => Keyword s1 = Keyword s2
  | RawNode t1, RawNode t2 => t1 = t2
  | _, _ => False
  end.

(** Two nodes are alike when they are the same node, or when the first is
    a statement of a modeled keyword and the second a statement of that
    keyword too. *)
Definition alike (n1 n2 : Node) : Prop :=
  if isModeled n1 then sameKeyword n1 n2 else n1 = n2.

(** An access list whose one element is a nested list of two addresses, in
    an otherwise empty model, and an empty document. *)
Definition nestedAcl : ACL.t :=
  ACL.mk "internal"
    [ MatchTerm.mk false "" "" ""
        [ MatchTerm.mk false "10.0.0.0/8" "" "" [];
          MatchTerm.mk false "192.168.0.0/16" "" "" [] ] ]
    None.

Definition nestedAclModel : Config.t := Config.set_ACLs [nestedAcl] Config.zero.

Definition emptyDocument : File := mkFile [].

(** A trust-anchors group whose one entry holds record data without the
    [static-ds] or [initial-ds] word in front. *)
Definition bareAnchorModel : Config.t :=
  Config.set_TrustAnchors
    [TrustAnchors.mk [TrustAnchorItem.mk "." "20326 8 2 E06D44B8" ""] None]
    Config.zero.

(** *** The theorems at a sample document *)

(** A document with a comment, a view, a statement the package does not
    model and an access list. *)
Definition sampleDocument : File :=
  mkFile
    [ RawNode "# local policy";
      StmtNode (mkStmt "view" ("view " +++ quoted "internal") []);
      StmtNode (mkStmt "server" "server 10.0.0.1" []);
      StmtNode (mkStmt "acl" ("acl " +++ quoted "old") [RawNode "{ any; }"]) ].

(** The model decoded from the document written by [Apply] of
    [nestedAclModel] to the sample document. *)
Definition decodedNestedModel : Config.t :=
  match FromFile (syncAll (A := refAdapter) nestedAclModel sampleDocument) with
  | Returns (c, _) => c
  | Panics _ => Config.zero
  end.

(** *** The accessors *)

(** Where an upserted value is found: at the first position of its name,
    or at the end when the name is new. *)
Definition upsertPosition {T : Type} (nameOf : T -> string) (xs : list T) (v : T) : nat :=
  match indexNamed nameOf xs (nameOf v) with
  | Some i => i
  | None => List.length xs
  end.

(** The elements of a name, and the others. *)
Definition named {T : Type} (nameOf : T -> string) (name : string) (xs : list T) : list T :=
  filter (fun x => String.eqb (nameOf x) name) xs.

Definition notNamed {T : Type} (nameOf : T -> string) (name : string) (xs : list T) : list T :=
  filter (fun x => negb (String.eqb (nameOf x) name)) xs.

(** The view a [*View] returned by [FindView] points at. *)
Definition firstViewNamed (c : Config.t) (viewName : string) : option View.t :=
  match FindView c viewName with
  | Some i => nth_error (Config.Views c) i
  | None => None
  end.

(** The view found under a name once a zone is upserted into it, or once
    trust anchors are set in it: the first view of that name with the one
    field changed, or a new view when there is none. *)
Definition viewWithZoneUpserted (c : Config.t) (viewName : string) (z : Zone.t) : View.t :=
  match firstViewNamed c viewName with
  | Some v => View.set_Zones (upsertNamed Zone.Name (View.Zones v) z) v
  | None => viewWithZone viewName z
  end.

Definition viewWithAnchorsSet (c : Config.t) (viewName : string) (ta : TrustAnchors.t)
  : View.t :=
  match firstViewNamed c viewName with
  | Some v => View.set_TrustAnchors (Some ta) v
  | None => viewWithAnchors viewName ta
  end.

(** *** Decode, keyword by keyword *)

(** The top-level statements of a keyword, in document order, and the last
    of them. *)
Definition stmtsOf (keyword : string) (nodes : list Node) : list Stmt :=
  flat_map
    (fun n =>
       match n with
       | StmtNode s => if String.eqb (Keyword s) keyword then [s] else []
       | RawNode _ => []
       end)
    nodes.

Definition lastStmtOf (keyword : string) (nodes : list Node) : option Stmt :=
  hd_error (List.rev (stmtsOf keyword nodes)).

(** The include entry [FromFile] makes of a statement. *)
Definition includeOf (s : Stmt) : Include.t := Include.mk (trimQuotes (rawOf s)) (Some s).

(** What one step of the decode loop does to a field of the model: append
    the decoding of a statement of the keyword, or overwrite the pointer. *)
Definition stepAppends {X : Type} (get : Config.t -> list X) (k : string) (p : Stmt -> X)
  : Prop :=
  forall cfg cfg' s,
    fromFileStep cfg s = Returns cfg' ->
    get cfg' = get cfg ++ (if String.eqb (Keyword s) k then [p s] else []).

Definition stepSets {X : Type} (get : Config.t -> option X) (k : string) (p : Stmt -> X)
  : Prop :=
  forall cfg cfg' s,
    fromFileStep cfg s = Returns cfg' ->
    get cfg' = if String.eqb (Keyword s) k then Some (p s) else get cfg.

(** The model decoded from the sample document. *)
Definition decodedSampleModel : Config.t :=
  match FromFile sampleDocument with
  | Returns (c, _) => c
  | Panics _ => Config.zero
  end.

(** A document with two options blocks and a controls block, and the model
    decoded from it. *)
Definition twoOptionsDocument : File :=
  mkFile
    [ StmtNode (mkStmt "options" "options"
        [StmtNode (mkStmt "recursion" "recursion yes" []);
         StmtNode (mkStmt "directory" ("directory " +++ quoted "/var/named") [])]);
      StmtNode (mkStmt "controls" "controls" []);
      RawNode "/* overrides */";
      StmtNode (mkStmt "options" "options"
        [StmtNode (mkStmt "recursion" "recursion no" [])]) ].

Definition decodedTwoOptionsModel : Config.t :=
  match FromFile twoOptionsDocument with
  | Returns (c, _) => c
  | Panics _ => Config.zero
  end.

(** A model that holds no entity of any modeled keyword. *)
Definition holdsNothing (c : Config.t) : bool :=
  forallb (fun k => Nat.eqb (entityCount c k) 0) modeledKeywords.

(** *** The codecs: what they carry unchanged *)

(** *** Bytes of words and values *)

(** The printable ASCII bytes other than the blank. *)
Definition isGraphic (c : ascii) : bool :=
  let n := nat_of_ascii c in Nat.leb 33 n && Nat.leb n 126.

Fixpoint allBytes (p : ascii -> bool) (s : string) : bool :=
  match s with
  | EmptyString => true
  | String c r => p c && allBytes p r
  end.

(** A word: not empty, graphic bytes only. *)
Definition isWord (s : string) : bool := negb (String.eqb s "") && allBytes isGraphic s.

(** A text that starts, or ends, with a graphic byte: [strings.TrimSpace]
    leaves it as it is. *)
Definition startsGraphic (s : string) : bool :=
  match s with
  | String c _ => isGraphic c
  | EmptyString => false
  end.

Definition endsGraphic (s : string) : bool := startsGraphic (rev s).

Definition solid (s : string) : bool := startsGraphic s && endsGraphic s.

(** No byte of the string is the given one. *)
Definition lacks (c : ascii) (s : string) : bool := allBytes (fun d => negb (Ascii.eqb d c)) s.

(** A list between braces as the encoders write it: the items joined by a
    semicolon and a blank, a semicolon after the last one. *)
Definition blockOf (items : list string) : string := "{ " +++ Join items "; " +++ "; }".

(** The pieces [strings.Split] cuts a braced list into, with what is left
    of the braces on either side. *)
Definition piecesOf (l r : string) (items : list string) : list string :=
  match items with
  | [] => [l]
  | x :: rest => (l +++ x) :: map (fun y => " " +++ y) rest
  end ++ [r].

(** The bytes of a name that the list codecs carry unchanged: graphic, and
    none of the double quote, the semicolon and the braces. *)
Definition isNameByte (c : ascii) : bool :=
  isGraphic c && negb (Ascii.eqb c "034") && negb (Ascii.eqb c ";")
  && negb (Ascii.eqb c "{") && negb (Ascii.eqb c "}").

Definition isName (s : string) : bool := allBytes isNameByte s.

(** A Go [int]. *)
Definition inIntRange (n : Z) : bool := ((minInt <=? n) && (n <=? maxInt))%Z.

Definition portOk (p : option Z) : bool :=
  match p with
  | Some n => inIntRange n
  | None => true
  end.

(** The forwarders and remote-server items that the codecs carry
    unchanged: an address that is one word, names without blanks. *)
Definition forwarderOk (f : Forwarder.t) : bool :=
  negb (String.eqb (Forwarder.Address f) "") && isName (Forwarder.Address f)
  && portOk (Forwarder.Port f) && isName (Forwarder.TLS f).

Definition serverItemOk (it : RemoteServerItem.t) : bool :=
  negb (String.eqb (RemoteServerItem.Address it) "") && isName (RemoteServerItem.Address it)
  && portOk (RemoteServerItem.Port it)
  && isName (RemoteServerItem.Key it) && isName (RemoteServerItem.TLS it).

(** A string that goes between double quotes and semicolons unchanged. *)
Definition isListString (s : string) : bool := lacks "034" s && lacks ";" s.

(** One element of [serializeForwarders], and its words. *)
Definition serializeForwarder (f : Forwarder.t) : string :=
  Forwarder.Address f
  +++ (match Forwarder.Port f with Some n => " port " +++ Itoa n | None => "" end)
  +++ (if String.eqb (Forwarder.TLS f) "" then "" else " tls " +++ quoted (Forwarder.TLS f)).

Definition forwarderWords (f : Forwarder.t) : list string :=
  [Forwarder.Address f]
  ++ (match Forwarder.Port f with Some n => ["port"; Itoa n] | None => [] end)
  ++ (if String.eqb (Forwarder.TLS f) "" then [] else ["tls"; quoted (Forwarder.TLS f)]).

Definition serverItemWords (it : RemoteServerItem.t) : list string :=
  [RemoteServerItem.Address it]
  ++ (match RemoteServerItem.Port it with Some n => ["port"; Itoa n] | None => [] end)
  ++ (if String.eqb (RemoteServerItem.Key it) "" then []
      else ["key"; quoted (RemoteServerItem.Key it)])
  ++ (if String.eqb (RemoteServerItem.TLS it) "" then []
      else ["tls"; quoted (RemoteServerItem.TLS it)]).

(** The loop bodies of the list parsers, on a trimmed piece. *)
Definition forwarderOfPiece (p : string) : list Forwarder.t :=
  if String.eqb p "" then [] else
  match Fields p with
  | [] => []
  | f0 :: rest => [scanForwarder (Forwarder.mk f0 None "") rest]
  end.

Definition serverItemOfPiece (p : string) : list RemoteServerItem.t :=
  if String.eqb p "" then [] else [parseRemoteServerItem p].

Definition stringOfPiece (p : string) : list string :=
  if String.eqb p "" then [] else [trimQuotes p].

(** *** Flat match lists *)

(** What [parseMatchListFromBodyRaw] takes for a literal address. *)
Definition looksLikeAddress (p : string) : bool :=
  Contains p "/" || Nat.ltb 1 (Count p ":") || Nat.eqb (Count p ".") 3.

(** A name or an address of a term: not empty, name bytes, no [!]. *)
Definition isTermName (s : string) : bool :=
  negb (String.eqb s "") && isName s && lacks "!" s.

(** The terms that a flat list carries unchanged: no nested list, and
    exactly one of the key, the address and the name populated; an address
    is what the parser takes for one, a name is not. *)
Definition flatTermOk (t : MatchTerm.t) : bool :=
  match MatchTerm.Nested t with
  | _ :: _ => false
  | [] =>
      if negb (String.eqb (MatchTerm.Key t) "") then
        isListString (MatchTerm.Key t)
        && String.eqb (MatchTerm.Address t) "" && String.eqb (MatchTerm.ACLRef t) ""
      else if negb (String.eqb (MatchTerm.Address t) "") then
        isTermName (MatchTerm.Address t) && looksLikeAddress (MatchTerm.Address t)
        && String.eqb (MatchTerm.ACLRef t) ""
      else
        isTermName (MatchTerm.ACLRef t) && negb (looksLikeAddress (MatchTerm.ACLRef t))
  end.

(** The text of a flat term between two semicolons. *)
Definition termText (t : MatchTerm.t) : string :=
  (if MatchTerm.Not t then "!" else "")
  +++ (if negb (String.eqb (MatchTerm.Key t) "") then "key " +++ quoted (MatchTerm.Key t)
       else if negb (String.eqb (MatchTerm.Address t) "") then MatchTerm.Address t
       else if negb (String.eqb (MatchTerm.ACLRef t) "") then
         (if needsQuotes (MatchTerm.ACLRef t) then quoted (MatchTerm.ACLRef t)
          else MatchTerm.ACLRef t)
       else "").

Definition termOfPiece (p : string) : list MatchTerm.t :=
  if String.eqb p "" then [] else [termOf (classify p)].

(** *** Listen clauses *)

Definition listenWords (l : Listen.t) : list string :=
  (match Listen.Port l with Some n => ["port"; Itoa n] | None => [] end)
  ++ (if String.eqb (Listen.TLS l) "" then [] else ["tls"; quoted (Listen.TLS l)])
  ++ (if String.eqb (Listen.HTTP l) "" then [] else ["http"; quoted (Listen.HTTP l)]).

Definition listenOk (l : Listen.t) : bool :=
  portOk (Listen.Port l) && isName (Listen.TLS l) && isName (Listen.HTTP l)
  && forallb flatTermOk (Listen.Addrs l).

(** *** Rrset-order rules *)

Definition serializeRRsetOrderRule (ro : RRsetOrder.t) : string :=
  Join ((if String.eqb (RRsetOrder.Type_ ro) "" then [] else ["type " +++ RRsetOrder.Type_ ro])
        ++ (if String.eqb (RRsetOrder.Name ro) "" then []
            else ["name " +++ quoted (RRsetOrder.Name ro)])
        ++ ["order " +++ RRsetOrder.Order ro]) " ".

Definition rrsetOrderWords (ro : RRsetOrder.t) : list string :=
  (if String.eqb (RRsetOrder.Type_ ro) "" then [] else ["type"; RRsetOrder.Type_ ro])
  ++ (if String.eqb (RRsetOrder.Name ro) "" then [] else ["name"; quoted (RRsetOrder.Name ro)])
  ++ ["order"; RRsetOrder.Order ro].

(** The rule [parseRRsetOrder] makes of a trimmed piece. *)
Definition rrsetOrderOfPiece (p : string) : list RRsetOrder.t :=
  if String.eqb p "" then [] else
  let f := Fields p in
  let ro := scanRRsetOrder RRsetOrder.zero f in
  [if String.eqb (RRsetOrder.Order ro) "" && negb (Nat.eqb (List.length f) 0)
   then RRsetOrder.set_Order (last f "") ro else ro].

(** The rules that the codec carries unchanged: an order that is one word,
    a type and a name that are empty or one word. *)
Definition rrsetOrderOk (ro : RRsetOrder.t) : bool :=
  isName (RRsetOrder.Type_ ro) && isName (RRsetOrder.Name ro)
  && negb (String.eqb (RRsetOrder.Order ro) "") && isName (RRsetOrder.Order ro).

(** *** Headers *)

(** The header the builders write for a named block: the keyword, the name
    in double quotes, and the class when there is one. *)
Definition headOf (kw name cls : string) : string :=
  kw +++ " " +++ quoted name +++ (if String.eqb cls "" then "" else " " +++ cls).

(** A keyword: not empty, lower-case letters and hyphens. *)
Definition isKeyword (kw : string) : bool :=
  negb (String.eqb kw "") && allBytes isWordByte kw.

(** *** Blocks that come back from their statement *)

Definition aclOk (a : ACL.t) : bool :=
  lacks "034" (ACL.Name a) && forallb flatTermOk (ACL.Elements a).

Definition remoteServersOk (rs : RemoteServers.t) : bool :=
  lacks "034" (RemoteServers.Name rs) && forallb serverItemOk (RemoteServers.Servers rs).

(** The text of a trust-anchor record: it starts and ends with a graphic
    byte and has no semicolon. *)
Definition isRecordText (d : string) : bool := solid d && lacks ";" d.

(** The trust-anchor entries that come back: a name without blanks, and
    either a DS text that reads as one, or a DNSKEY text that reads as one
    and not as a DS text. *)
Definition anchorOk (it : TrustAnchorItem.t) : bool :=
  isName (TrustAnchorItem.Name it)
  && if negb (String.eqb (TrustAnchorItem.DS it) "") then
       isRecordText (TrustAnchorItem.DS it) && Contains (TrustAnchorItem.DS it) "ds"
       && String.eqb (TrustAnchorItem.DNSKey it) ""
     else
       isRecordText (TrustAnchorItem.DNSKey it)
       && negb (Contains (TrustAnchorItem.DNSKey it) "ds")
       && Contains (TrustAnchorItem.DNSKey it) "key".

(** *** Sample values *)

Definition sampleForwarders : list Forwarder.t :=
  [Forwarder.mk "192.0.2.1" (Some 853%Z) "upstream"; Forwarder.mk "2001:db8::1" None ""].

Definition sampleServers : list RemoteServerItem.t :=
  [RemoteServerItem.mk "192.0.2.53" (Some 5353%Z) "xfer" "";
   RemoteServerItem.mk "2001:db8::53" None "" "secure"].

Definition sampleTerms : list MatchTerm.t :=
  [MatchTerm.mk false "10.0.0.0/8" "" "" [];
   MatchTerm.mk true "" "" "bad-hosts" [];
   MatchTerm.mk false "" "xfer key" "" [];
   MatchTerm.mk false "" "" "localnets" []].

Definition sampleListen : Listen.t := Listen.mk (Some 443%Z) "local-tls" "" sampleTerms.

Definition sampleRules : list RRsetOrder.t :=
  [RRsetOrder.mk "example.com" "A" "fixed"; RRsetOrder.mk "" "" "cyclic"].

Definition sampleAnchors : TrustAnchors.t :=
  TrustAnchors.mk
    [TrustAnchorItem.mk "." ("initial-ds 20326 8 2 " +++ quoted "E06D44B8") "";
     TrustAnchorItem.mk "example.com" "" ("static-key 257 3 8 " +++ quoted "AwEAAa")]
    None.

(** *** Control channels *)

(** The words of an inet channel in front of its [allow] group, and of a
    unix channel in front of its [keys] group. *)
Definition inetWords (ci : ControlInet.t) : list string :=
  ControlInet.Address ci
  :: match ControlInet.Port ci with Some n => ["port"; Itoa n] | None => [] end.

Definition unixWords (cu : ControlUnix.t) : list string :=
  [quoted (ControlUnix.Path cu); "perm"; Itoa (ControlUnix.Perm cu);
   "owner"; Itoa (ControlUnix.Owner cu); "group"; Itoa (ControlUnix.Group cu)].

(** The inet channels that come back: an address that is one word, a flat
    allow list, no key list and no read-only flag. *)
Definition inetOk (ci : ControlInet.t) : bool :=
  negb (String.eqb (ControlInet.Address ci) "") && isName (ControlInet.Address ci)
  && portOk (ControlInet.Port ci) && forallb flatTermOk (ControlInet.Allow ci)
  && match ControlInet.Keys ci with [] => true | _ => false end
  && match ControlInet.ReadOnly ci with None => true | Some _ => false end.

(** *** Trust anchors: the line as the specification reads it *)

(** The horizontal tab. *)
Definition tab : string := String "009"%char "".

(** The specification reads a body line as a name followed by the rest of
    the line.  [skipField] drops the first field of a text that starts with
    one; [specRestOfLine] is what follows the first field of the line,
    trimmed. *)
Fixpoint skipField (s : string) : string :=
  match s with
  | EmptyString => EmptyString
  | String _ r =>
      match spaceWidth s with
      | O => skipField r
      | S _ => s
      end
  end.

Definition specRestOfLine (raw : string) : string :=
  TrimSpace (skipField (TrimLeftSpace raw)).

(** The entries of a body node in the words of the specification: the
    name is the first field without its quotes, and the rest of the line
    decides between a DS record, a DNSKEY record and no entry. *)
Definition specAnchorEntries (n : Node) : list TrustAnchorItem.t :=
  match n with
  | RawNode _ => []
  | StmtNode ss =>
      match anchorFirst ss with
      | None => []
      | Some first =>
          let rest := specRestOfLine (rawOf ss) in
          match classifyAnchor rest with
          | DSRecord => [TrustAnchorItem.mk (trimQuotes first) rest ""]
          | DNSKeyRecord => [TrustAnchorItem.mk (trimQuotes first) "" rest]
          | Dropped => []
          end
      end
  end.

(** A key line whose name contains [ds] and is followed by a tab, and a
    line that is a name and nothing else. *)
Definition tabKeyLine : Stmt :=
  mkStmt (quoted "ds.example.")
         (quoted "ds.example." +++ tab +++ "initial-key 257 3 8 " +++ quoted "AwEAAa") [].

Definition nameOnlyLine : Stmt := mkStmt "keys.example" "keys.example" [].

Definition oddAnchorsBlock : Stmt :=
  mkStmt "trust-anchors" "trust-anchors" [StmtNode tabKeyLine; StmtNode nameOnlyLine].

(** *** Options: a statement and its body *)

(** A statement with another body. *)
Definition withBody (st : Stmt) (body : list Node) : Stmt :=
  mkStmt (Keyword st) (HeadRaw st) body.

(** An options block that holds one statement, and a block-valued option
    outside the fixed table. *)
Definition optionsHolding (st : Stmt) : Stmt := mkStmt "options" "options" [StmtNode st].

Definition rateLimitBlock : Stmt :=
  mkStmt "rate-limit" "rate-limit"
    [StmtNode (mkStmt "responses-per-second" "responses-per-second 10" [])].

(** *** Match lists: the segments as the specification cuts them *)

(** The specification splits a list at its top-level semicolons: those
    outside every pair of braces.  [depth] counts the braces that are
    open. *)
Fixpoint splitTopAux (depth : nat) (cur : string) (s : string) : list string :=
  match s with
  | EmptyString => [cur]
  | String c r =>
      if Ascii.eqb c ";" && Nat.eqb depth 0 then cur :: splitTopAux 0 "" r
      else if Ascii.eqb c "{" then splitTopAux (S depth) (cur +++ String c "") r
      else if Ascii.eqb c "}" then splitTopAux (Nat.pred depth) (cur +++ String c "") r
      else splitTopAux depth (cur +++ String c "") r
  end.

Definition specSegments (raw : string) : list string :=
  filter (fun p => negb (String.eqb p ""))
         (map TrimSpace (splitTopAux 0 "" (stripBraces raw))).

(** The classification of the specification, with the decoder of a nested
    list as a parameter. *)
Definition specClassifyPlain (nested : string -> list MatchTerm.t) (p : string) : termKind :=
  if HasPrefix p "key " then KeyRef (trimQuotes (TrimPrefix p "key "))
  else if HasPrefix p "{" then NestedList (nested p)
  else if Contains p "/" || Nat.ltb 1 (Count p ":") || Nat.eqb (Count p ".") 3 then Literal p
  else AclRef (trimQuotes p).

Definition specClassify (nested : string -> list MatchTerm.t) (seg : string)
  : bool * termKind :=
  if HasPrefix seg "!" then (true, specClassifyPlain nested (TrimSpace (TrimPrefix seg "!")))
  else (false, specClassifyPlain nested seg).

(** The decoder of the specification: the list is unwrapped, cut at its
    top-level semicolons, and every segment classified; a segment that
    starts with a brace is decoded in the same way.  A nested segment is
    shorter than the text it is cut from, so [fuel] above the length of the
    text is enough. *)
Fixpoint specMatchListFuel (fuel : nat) (raw : string) : list MatchTerm.t :=
  match fuel with
  | O => []
  | S fuel' =>
      map (fun seg => termOf (specClassify (specMatchListFuel fuel') seg)) (specSegments raw)
  end.

Definition specMatchList (raw : string) : list MatchTerm.t :=
  specMatchListFuel (S (String.length raw)) raw.

(** The example of the specification: a nested list of two terms, the
    second negated, and a list that holds it. *)
Definition nestedExample : MatchTerm.t :=
  MatchTerm.mk false "" "" ""
    [MatchTerm.mk false "10.0.0.0/8" "" "" []; MatchTerm.mk true "" "" "bogons" []].

Definition nestedExampleText : string := "{ { 10.0.0.0/8; !bogons; }; }".

(** The text a nested call of the specification's decoder is made on: the
    segment with a leading [!] removed. *)
Definition specInner (seg : string) : string :=
  if HasPrefix seg "!" then TrimSpace (TrimPrefix seg "!") else seg.

(** *** Encode, decode, encode: the models that come back *)

Definition isNil {T : Type} (l : list T) : bool :=
  match l with [] => true | _ :: _ => false end.

Definition isUnset {T : Type} (o : option T) : bool :=
  match o with None => true | Some _ => false end.

(** A model that holds access lists, remote-servers blocks and trust-anchors
    blocks only, each of them one that its decoder reads back: flat match
    lists, server entries of plain words, and trust-anchor entries whose
    text is classified as it was stored. *)
Definition plainModel (c : Config.t) : bool :=
  isNil (Config.Includes c) && isNil (Config.Keys c) && isNil (Config.KeyStores c)
  && isNil (Config.TLS c) && isNil (Config.HTTP c)
  && isUnset (Config.Controls c) && isUnset (Config.Logging c) && isUnset (Config.Options c)
  && isNil (Config.Views c) && isNil (Config.Zones c)
  && forallb aclOk (Config.ACLs c)
  && forallb remoteServersOk (Config.RemoteServers c)
  && forallb (fun t => forallb anchorOk (TrustAnchors.Items t)) (Config.TrustAnchors c).

(** A model of that kind: one access list, one remote-servers block and one
    trust-anchors block. *)
Definition plainSampleModel : Config.t :=
  Config.set_ACLs [ACL.mk "trusted" sampleTerms None]
    (Config.set_RemoteServers [RemoteServers.mk "primaries" sampleServers None]
       (Config.set_TrustAnchors [sampleAnchors] Config.zero)).

(** A model with one key, and nothing else. *)
Definition keyModel : Config.t :=
  Config.set_Keys [Key.mk "rndc-key" "hmac-sha256" "c2VjcmV0" None] Config.zero.

(* ================================================================= *)
(** ** What the encode pass keeps and what it rebuilds *)

Section EncodeProperties.

Context {A : Adapter}.

Lemma syncBlocks_nodes {T : Type} (f : File) (k : string) (items : list T) (b : T -> Stmt) :
  Nodes (syncBlocks f k items b) = pass k (map (fun it => StmtNode (b it)) items) (Nodes f).
Proof. reflexivity. Qed.

Lemma syncSingleton_nodes {T : Type} (f : File) (k : string) (item : option T) (b : T -> Stmt) :
  Nodes (syncSingleton f k item b) = pass k (optNode b item) (Nodes f).
Proof.
  destruct item as [it|]; simpl.
  - reflexivity.
  - unfold pass. now rewrite app_nil_r.
Qed.

(** [syncAll] as thirteen passes over the node list. *)
Lemma syncAll_nodes (c : Config.t) (f : File) :
  Nodes (syncAll c f) =
  fold_left (fun nodes k => pass k (freshFor c k) nodes) modeledKeywords (Nodes f).
Proof.
  unfold syncAll.
  repeat first [ rewrite syncBlocks_nodes | rewrite syncSingleton_nodes ].
  reflexivity.
Qed.

Lemma dropKeyword_app (k : string) (a b : list Node) :
  dropKeyword k (a ++ b) = dropKeyword k a ++ dropKeyword k b.
Proof. unfold dropKeyword. apply filter_app. Qed.

Lemma pass_app (k : string) (fresh a b : list Node) :
  pass k fresh (a ++ b) = dropKeyword k a ++ pass k fresh b.
Proof. unfold pass. rewrite dropKeyword_app. now rewrite app_assoc. Qed.

(** Passes over a document do not look at what precedes: the front part is
    only filtered. *)
Lemma passes_app (c : Config.t) (ks : list string) (a b : list Node) :
  fold_left (fun nodes k => pass k (freshFor c k) nodes) ks (a ++ b) =
  fold_left (fun nodes k => dropKeyword k nodes) ks a
  ++ fold_left (fun nodes k => pass k (freshFor c k) nodes) ks b.
Proof.
  revert a b. induction ks as [|k ks IH]; intros a b; simpl.
  - reflexivity.
  - rewrite pass_app. apply IH.
Qed.

Lemma dropKeywords_cons (ks : list string) (n : Node) (l : list Node) :
  fold_left (fun nodes k => dropKeyword k nodes) ks (n :: l) =
  (if existsb (fun k => isStmtOf k n) ks then [] else [n])
  ++ fold_left (fun nodes k => dropKeyword k nodes) ks l.
Proof.
  revert n l. induction ks as [|k ks IH]; intros n l; simpl.
  - reflexivity.
  - destruct (isStmtOf k n) eqn:E; simpl.
    + reflexivity.
    + apply IH.
Qed.

(** Dropping the thirteen keywords one after the other leaves exactly the
    nodes the package does not model. *)
Lemma dropKeywords_untouched (l : list Node) :
  fold_left (fun nodes k => dropKeyword k nodes) modeledKeywords l = untouched l.
Proof.
  induction l as [|n l IH].
  - reflexivity.
  - rewrite dropKeywords_cons, IH. unfold untouched at 2. cbn [filter].
    replace (isModeled n) with (existsb (fun k => isStmtOf k n) modeledKeywords).
    + destruct (existsb _ _); reflexivity.
    + destruct n as [s|t]; [reflexivity|].
      unfold modeledKeywords. simpl. reflexivity.
Qed.

Lemma syncAll_split (c : Config.t) (f : File) :
  Nodes (syncAll c f) = untouched (Nodes f) ++ Nodes (syncAll c (mkFile [])).
Proof.
  rewrite !syncAll_nodes. cbn [Nodes].
  rewrite <- (app_nil_r (Nodes f)) at 1.
  rewrite passes_app. now rewrite dropKeywords_untouched.
Qed.

Lemma Apply_backing (c : Config.t) (arg : option File) (f : File) :
  backing c arg = Some f ->
  Apply c arg = inl (Config.set_ast (Some (syncAll c f)) c, syncAll c f).
Proof.
  unfold backing, Apply. destruct arg as [g|]; intros H.
  - now inversion H.
  - now rewrite H.
Qed.

(** C2 (non-interference).  Whatever the model holds, the node list after
    [Apply] starts with the nodes of the input that are not statements of a
    modeled keyword, each one unchanged and in the input's order; what
    follows them is what the model alone produces (the pass run on an empty
    document). *)
Theorem Apply_keeps_unmodeled_nodes (c : Config.t) (arg : option File) (f : File) :
  backing c arg = Some f ->
  exists c' f1,
    Apply c arg = inl (c', f1) /\
    Nodes f1 = untouched (Nodes f) ++ Nodes (syncAll c (mkFile [])).
Proof.
  intros H. rewrite (Apply_backing c arg f H).
  eexists; eexists; split; [reflexivity|]. apply syncAll_split.
Qed.

Section KeywordLaws.

(** The one thing the encode pass needs from the constructors: a statement
    built from a well-headed line carries that line's leading word as its
    keyword. *)
Hypothesis simple_keyword :
  forall line, wellHeaded line = true -> Keyword (NewSimpleStmt line) = leadWord line.
Hypothesis block_keyword :
  forall head body, wellHeaded head = true -> Keyword (NewBlockStmt head body) = leadWord head.

Ltac keyword_of_head :=
  first [ rewrite block_keyword | rewrite simple_keyword ]; reflexivity.

Lemma include_keyword (inc : Include.t) :
  Keyword (NewSimpleStmt ("include " +++ quoted (Include.Path inc))) = "include".
Proof. keyword_of_head. Qed.

Lemma buildACL_keyword (x : ACL.t) : Keyword (buildACL x) = "acl".
Proof. unfold buildACL. keyword_of_head. Qed.

Lemma buildKey_keyword (x : Key.t) : Keyword (buildKey x) = "key".
Proof. unfold buildKey. keyword_of_head. Qed.

Lemma buildKeyStore_keyword (x : KeyStore.t) : Keyword (buildKeyStore x) = "key-store".
Proof. unfold buildKeyStore. keyword_of_head. Qed.

Lemma buildRemoteServers_keyword (x : RemoteServers.t) :
  Keyword (buildRemoteServers x) = "remote-servers".
Proof. unfold buildRemoteServers. keyword_of_head. Qed.

Lemma buildTLS_keyword (x : TLS.t) : Keyword (buildTLS x) = "tls".
Proof. unfold buildTLS. keyword_of_head. Qed.

Lemma buildHTTP_keyword (x : HTTP.t) : Keyword (buildHTTP x) = "http".
Proof. unfold buildHTTP. keyword_of_head. Qed.

Lemma buildControls_keyword (x : Controls.t) : Keyword (buildControls x) = "controls".
Proof. unfold buildControls. keyword_of_head. Qed.

Lemma buildLogging_keyword (x : Logging.t) : Keyword (buildLogging x) = "logging".
Proof. unfold buildLogging. keyword_of_head. Qed.

Lemma buildOptions_keyword (x : Options.t) : Keyword (buildOptions x) = "options".
Proof. unfold buildOptions. keyword_of_head. Qed.

Lemma buildTrustAnchors_keyword (x : TrustAnchors.t) :
  Keyword (buildTrustAnchors x) = "trust-anchors".
Proof. unfold buildTrustAnchors. keyword_of_head. Qed.

Lemma buildView_keyword (x : View.t) : Keyword (buildView x) = "view".
Proof. unfold buildView. keyword_of_head. Qed.

Lemma buildZone_keyword (x : Zone.t) : Keyword (buildZone x) = "zone".
Proof. unfold buildZone. keyword_of_head. Qed.

(** Every node built for a keyword is a statement of that keyword. *)
Lemma freshFor_keyword (c : Config.t) (k : string) (n : Node) :
  In n (freshFor c k) -> exists s, n = StmtNode s /\ Keyword s = k.
Proof.
  unfold freshFor, optNode, simple.
  repeat match goal with
  | |- In _ (if String.eqb k ?w then _ else _) -> _ =>
      destruct (String.eqb k w) eqn:E;
      [ apply String.eqb_eq in E; subst k | clear E ]
  end;
  try (intros H; apply in_map_iff in H; destruct H as [x [<- _]];
       eexists; split; [reflexivity|]);
  try (destruct (Config.Controls c)); try (destruct (Config.Logging c));
  try (destruct (Config.Options c));
  try (intros [<-|[]]; eexists; split; [reflexivity|]);
  auto using include_keyword, buildACL_keyword, buildKey_keyword, buildKeyStore_keyword,
    buildRemoteServers_keyword, buildTLS_keyword, buildHTTP_keyword, buildControls_keyword,
    buildLogging_keyword, buildOptions_keyword, buildTrustAnchors_keyword,
    buildView_keyword, buildZone_keyword;
  try (intros []).
Qed.

Lemma isStmtOf_fresh (c : Config.t) (k k' : string) (n : Node) :
  In n (freshFor c k') -> isStmtOf k n = String.eqb k' k.
Proof.
  intros H. destruct (freshFor_keyword c k' n H) as [s [-> <-]]. reflexivity.
Qed.

Lemma filter_all {T : Type} (p : T -> bool) (l : list T) :
  (forall x, In x l -> p x = true) -> filter p l = l.
Proof.
  induction l as [|x l IH]; intros H; simpl.
  - reflexivity.
  - rewrite (H x (or_introl eq_refl)). f_equal. apply IH. intros y Hy. apply H. now right.
Qed.

Lemma filter_none {T : Type} (p : T -> bool) (l : list T) :
  (forall x, In x l -> p x = false) -> filter p l = [].
Proof.
  induction l as [|x l IH]; intros H; simpl.
  - reflexivity.
  - rewrite (H x (or_introl eq_refl)). apply IH. intros y Hy. apply H. now right.
Qed.

(** Run on an empty document, the passes over distinct keywords pile up
    the rebuilt nodes: no later pass drops what an earlier one appended. *)
Lemma passes_pile_up (c : Config.t) (ks : list string) (acc : list Node) :
  NoDup ks ->
  (forall n k, In n acc -> In k ks -> isStmtOf k n = false) ->
  fold_left (fun nodes k => pass k (freshFor c k) nodes) ks acc =
  acc ++ flat_map (freshFor c) ks.
Proof.
  revert acc. induction ks as [|k ks IH]; intros acc Hnd Hacc; simpl.
  - now rewrite app_nil_r.
  - inversion Hnd as [|? ? Hk Hnd']; subst.
    assert (Hdrop : pass k (freshFor c k) acc = acc ++ freshFor c k).
    { unfold pass, dropKeyword. f_equal. apply filter_all.
      intros n Hn. rewrite (Hacc n k Hn (or_introl eq_refl)). reflexivity. }
    rewrite Hdrop, IH; auto.
    + now rewrite <- app_assoc.
    + intros n k' Hn Hk'. apply in_app_or in Hn. destruct Hn as [Hn|Hn].
      * apply Hacc; [assumption | now right].
      * rewrite (isStmtOf_fresh c k' k n Hn). apply String.eqb_neq.
        intros ->. contradiction.
Qed.

Lemma modeledKeywords_NoDup : NoDup modeledKeywords.
Proof.
  unfold modeledKeywords.
  repeat (constructor; [simpl; intuition discriminate |]).
  constructor.
Qed.

(** Under the keyword law the output of the pass is the untouched nodes
    followed by the rebuilt ones. *)
Lemma syncAll_layout (c : Config.t) (f : File) :
  Nodes (syncAll c f) = untouched (Nodes f) ++ freshNodes c.
Proof.
  rewrite syncAll_split. f_equal. rewrite syncAll_nodes. cbn [Nodes].
  rewrite passes_pile_up.
  - reflexivity.
  - apply modeledKeywords_NoDup.
  - intros n k [].
Qed.

Lemma filter_fresh (c : Config.t) (k : string) (ks : list string) :
  NoDup ks -> In k ks ->
  filter (isStmtOf k) (flat_map (freshFor c) ks) = freshFor c k.
Proof.
  induction ks as [|k' ks IH]; intros Hnd Hin; [destruct Hin|].
  inversion Hnd as [|? ? Hk Hnd']; subst. simpl. rewrite filter_app.
  destruct Hin as [->|Hin].
  - rewrite filter_all.
    + rewrite filter_none; [now rewrite app_nil_r|].
      intros n Hn. apply in_flat_map in Hn. destruct Hn as [k2 [Hk2 Hn]].
      rewrite (isStmtOf_fresh c k k2 n Hn). apply String.eqb_neq. intros ->. contradiction.
    + intros n Hn. rewrite (isStmtOf_fresh c k k n Hn). apply String.eqb_refl.
  - rewrite filter_none.
    + simpl. now apply IH.
    + intros n Hn. rewrite (isStmtOf_fresh c k k' n Hn). apply String.eqb_neq.
      intros ->. contradiction.
Qed.

Lemma filter_untouched (k : string) (l : list Node) :
  In k modeledKeywords -> filter (isStmtOf k) (untouched l) = [].
Proof.
  intros Hk. apply filter_none. intros n Hn. unfold untouched in Hn.
  apply filter_In in Hn. destruct Hn as [_ Hn]. destruct n as [s|t]; [|reflexivity].
  cbn [isStmtOf]. destruct (String.eqb (Keyword s) k) eqn:E; [|reflexivity].
  apply String.eqb_eq in E. subst k. exfalso.
  assert (existsb (String.eqb (Keyword s)) modeledKeywords = true) as Hex.
  { apply existsb_exists. exists (Keyword s). split; [assumption | apply String.eqb_refl]. }
  unfold isModeled in Hn. rewrite Hex in Hn. discriminate.
Qed.

Lemma freshFor_length (c : Config.t) (k : string) :
  List.length (freshFor c k) = entityCount c k.
Proof.
  unfold freshFor, entityCount, optNode.
  repeat match goal with
  | |- context [if String.eqb k ?w then _ else _] => destruct (String.eqb k w)
  end;
  try apply length_map; try reflexivity;
  try (destruct (Config.Controls c); reflexivity);
  try (destruct (Config.Logging c); reflexivity);
  try (destruct (Config.Options c); reflexivity).
Qed.

(** The statements of a modeled keyword after the pass are the ones built
    for it. *)
Lemma syncAll_keyword_nodes (c : Config.t) (f : File) (k : string) :
  In k modeledKeywords ->
  filter (isStmtOf k) (Nodes (syncAll c f)) = freshFor c k.
Proof.
  intros Hk. rewrite syncAll_layout, filter_app, filter_untouched by assumption.
  apply filter_fresh; [apply modeledKeywords_NoDup | assumption].
Qed.

(** C1 (rebuild at the end).  After [Apply] the node list is the untouched
    nodes followed by the rebuilt ones; for every modeled keyword the
    statements of that keyword in the result are exactly the nodes built
    from the model's present entities, in the model's order, one per
    entity: no statement of that keyword from the input survives, and an
    empty collection or a nil singleton leaves none at all. *)
Theorem Apply_rebuilds_modeled_keywords (c : Config.t) (arg : option File) (f : File) :
  backing c arg = Some f ->
  exists c' f1,
    Apply c arg = inl (c', f1) /\
    Nodes f1 = untouched (Nodes f) ++ freshNodes c /\
    forall k, In k modeledKeywords ->
      filter (isStmtOf k) (Nodes f1) = freshFor c k /\
      List.length (filter (isStmtOf k) (Nodes f1)) = entityCount c k /\
      (entityCount c k = 0 -> filter (isStmtOf k) (Nodes f1) = []).
Proof.
  intros H. rewrite (Apply_backing c arg f H).
  eexists; eexists; split; [reflexivity|]. split; [apply syncAll_layout|].
  intros k Hk.
  rewrite (syncAll_keyword_nodes c f k Hk). split; [reflexivity|]. split; [apply freshFor_length|].
  intros H0. rewrite <- freshFor_length in H0. now apply length_zero_iff_nil.
Qed.

End KeywordLaws.

(** C9 (the one failure).  [Save] on a model without a backing tree returns
    the error of that name with no effect performed; on a model with one it
    runs the pass and hands the result to the writer, so that an error with
    nothing done happens exactly when the backing tree is missing.  The
    errors the package creates are those of a missing tree: [Apply] fails
    only when it is given no file and the model has none, and any other
    error of [Save] is the writer's. *)
Theorem Save_fails_exactly_without_backing_tree (c : Config.t) (path : string) :
  let '(effects, _, err) := Save c path in
  ((err <> None /\ effects = []) <-> Config.ast c = None) /\
  (Config.ast c = None <-> err = Some ErrNoAST) /\
  (forall a, Config.ast c = Some a ->
     effects = [Encoded (syncAll c a); Written (syncAll c a) path] /\
     err = option_map ErrWrite (SaveFile (syncAll c a) path)) /\
  (forall arg e, Apply c arg = inr e -> e = ErrApplyNilFile /\ backing c arg = None).
Proof.
  unfold Save. destruct (Config.ast c) as [a|] eqn:Hast.
  - rewrite (Apply_backing c (Some a) a eq_refl).
    split; [|split; [|split]].
    + split; [intros [_ H]; discriminate | discriminate].
    + split; [discriminate|]. destruct (SaveFile (syncAll c a) path); discriminate.
    + intros a' Ha. inversion Ha; subst. split; reflexivity.
    + intros arg e. unfold Apply, backing. destruct arg as [g|]; [discriminate|].
      rewrite Hast. discriminate.
  - split; [|split; [|split]].
    + split; [reflexivity | intros _; split; [discriminate | reflexivity]].
    + split; reflexivity.
    + discriminate.
    + intros arg e. unfold Apply, backing. destruct arg as [g|]; [discriminate|].
      rewrite Hast. intros H. inversion H. split; reflexivity.
Qed.

End EncodeProperties.

(* ================================================================= *)
(** ** Trust anchors: how a body line is classified *)

Lemma parseTrustAnchors_loop (body : list Node) (ta : TrustAnchors.t) :
  let step := fun ta ss =>
    let raw := rawOf ss in
    match Fields raw with
    | [] => ta
    | f0 :: _ =>
        let name := trimQuotes f0 in
        let rest := TrimSpace (TrimPrefix raw (f0 +++ " ")) in
        if Contains rest "ds" then
          TrustAnchors.mk (TrustAnchors.Items ta ++ [TrustAnchorItem.mk name rest ""])
                          (TrustAnchors.stmt ta)
        else if Contains rest "key" then
          TrustAnchors.mk (TrustAnchors.Items ta ++ [TrustAnchorItem.mk name "" rest])
                          (TrustAnchors.stmt ta)
        else ta
    end in
  TrustAnchors.Items (forStmts step body ta)
  = TrustAnchors.Items ta ++ flat_map anchorEntries body.
Proof.
  intros step. revert ta. unfold forStmts.
  induction body as [|n body IH]; intros ta; simpl.
  - now rewrite app_nil_r.
  - rewrite IH. destruct n as [ss|t]; simpl; [|reflexivity].
    unfold step, anchorFirst, anchorRest, classifyAnchor.
    destruct (Fields (rawOf ss)) as [|f0 fs]; simpl; [reflexivity|].
    destruct (Contains _ "ds"); simpl; [now rewrite <- app_assoc|].
    destruct (Contains _ "key"); simpl; [now rewrite <- app_assoc|reflexivity].
Qed.

(** The loop of [parseTrustAnchors], line by line.  The entries decoded
    from a trust-anchors block are those of its body lines, in order: a
    line without any field gives nothing; otherwise the name is the first
    field without its quotes, and the text the decoder computes for the
    line ([anchorRest], which is not always the rest of the line) makes it
    a DS record when it contains [ds], else a DNSKEY record when it
    contains [key], else no entry. *)
Lemma parseTrustAnchors_classifies_lines (st : Stmt) :
  TrustAnchors.Items (parseTrustAnchors st) = flat_map anchorEntries (Body st) /\
  (forall ss first,
     anchorFirst ss = Some first ->
     let rest := anchorRest ss first in
     anchorEntries (StmtNode ss) =
       if Contains rest "ds" then [TrustAnchorItem.mk (trimQuotes first) rest ""]
       else if Contains rest "key" then [TrustAnchorItem.mk (trimQuotes first) "" rest]
       else []).
Proof.
  split.
  - unfold parseTrustAnchors. apply (parseTrustAnchors_loop (Body st)).
  - intros ss first H. simpl. rewrite H. unfold classifyAnchor.
    destruct (Contains _ "ds"); [reflexivity|]. destruct (Contains _ "key"); reflexivity.
Qed.

(* ================================================================= *)
(** ** Options: the overflow bag *)

Lemma parseOptionsStep_Other (op : Options.t) (st : Stmt) :
  Options.Other (parseOptionsStep op st) = Options.Other op ++ overflowOf (StmtNode st).
Proof.
  unfold parseOptionsStep, overflowOf, inOptionTable, optionKeywords, isKw.
  cbn [existsb].
  repeat match goal with
  | |- context [String.eqb (Keyword st) ?w] =>
      destruct (String.eqb (Keyword st) w);
      [ cbn [orb]; try destruct (Fields (rawOf st)); cbn; now rewrite app_nil_r | cbn [orb] ]
  end.
  reflexivity.
Qed.

Lemma parseOptions_loop_Other (body : list Node) (op : Options.t) :
  Options.Other (forStmts parseOptionsStep body op)
  = Options.Other op ++ flat_map overflowOf body.
Proof.
  revert op. unfold forStmts. induction body as [|n body IH]; intros op; simpl.
  - now rewrite app_nil_r.
  - rewrite IH. destruct n as [st|t].
    + rewrite parseOptionsStep_Other. now rewrite <- app_assoc.
    + reflexivity.
Qed.

Section OptionsEncode.

Context {A : Adapter}.

(** The overflow bag, entry by entry.  Decoding an options block puts into
    the bag, in body order, one pair of keyword and header text for every
    body statement whose keyword is outside the fixed table, and nothing
    else; encoding writes one body statement for every entry of the bag,
    after the modeled settings.  The body of such a statement is in neither
    ([overflowOf] does not mention it). *)
Lemma options_overflow_bag_kept (s : Stmt) (o : Options.t) :
  Options.Other (parseOptions s) = flat_map overflowOf (Body s) /\
  (forall st, In (StmtNode st) (Body s) -> inOptionTable st = false ->
     In (RawKV.mk (Keyword st) (rawOf st)) (Options.Other (parseOptions s))) /\
  buildOptions o = NewBlockStmt "options" (optionsBody o) /\
  (exists modeled,
     optionsBody o =
     modeled ++ map (fun kv => simple (RawKV.Name kv +++ " " +++ RawKV.Raw kv))
                    (Options.Other o)) /\
  (forall kv, In kv (Options.Other o) ->
     In (simple (RawKV.Name kv +++ " " +++ RawKV.Raw kv)) (optionsBody o)).
Proof.
  assert (H1 : Options.Other (parseOptions s) = flat_map overflowOf (Body s)).
  { unfold parseOptions. now rewrite parseOptions_loop_Other. }
  split; [exact H1|]. split; [|split; [reflexivity|split]].
  - intros st Hin Htab. rewrite H1. apply in_flat_map.
    exists (StmtNode st). split; [assumption|]. simpl. rewrite Htab. now left.
  - unfold optionsBody. eexists. rewrite !app_assoc. reflexivity.
  - intros kv Hkv. unfold optionsBody. rewrite !app_assoc.
    apply in_or_app. right. apply in_map_iff. exists kv. split; [reflexivity|assumption].
Qed.

End OptionsEncode.

(* ================================================================= *)
(** ** Facts about the string functions *)

Lemma append_nil_r (s : string) : s +++ "" = s.
Proof. induction s as [|c s IH]; simpl; [reflexivity | now rewrite IH]. Qed.

Lemma append_assoc (a b c : string) : (a +++ b) +++ c = a +++ b +++ c.
Proof. induction a as [|x a IH]; simpl; [reflexivity | now rewrite IH]. Qed.

Lemma length_append (a b : string) :
  String.length (a +++ b) = String.length a + String.length b.
Proof. induction a as [|x a IH]; simpl; [reflexivity | now rewrite IH]. Qed.

Lemma length_rev (s : string) : String.length (rev s) = String.length s.
Proof.
  induction s as [|c s IH]; simpl; [reflexivity|].
  rewrite length_append, IH. simpl. lia.
Qed.

Lemma length_drop (n : nat) (s : string) :
  String.length (drop n s) = String.length s - n.
Proof.
  revert s. induction n as [|n IH]; intros s; simpl; [lia|].
  destruct s as [|c s]; simpl; [reflexivity | apply IH].
Qed.

Lemma length_take (n : nat) (s : string) : String.length (take n s) <= String.length s.
Proof.
  revert s. induction n as [|n IH]; intros s; simpl; [lia|].
  destruct s as [|c s]; simpl; [lia | specialize (IH s); lia].
Qed.

Lemma take_all (n : nat) (s : string) : String.length s <= n -> take n s = s.
Proof.
  revert s. induction n as [|n IH]; intros s H.
  - destruct s; [reflexivity | simpl in H; lia].
  - destruct s as [|c s]; simpl; [reflexivity|]. f_equal. apply IH. simpl in H. lia.
Qed.

(** Trimming removes bytes or nothing. *)
Lemma trimLeftN_cases (width : string -> nat) (n : nat) (s : string) :
  trimLeftN width n s = s \/ String.length (trimLeftN width n s) < String.length s.
Proof.
  revert s. induction n as [|n IH]; intros s; simpl; [now left|].
  destruct (width s) as [|w]; [now left|].
  destruct s as [|c r]; [apply (IH "")|].
  right. cbn [drop]. destruct (IH (drop w r)) as [E|L].
  - rewrite E, length_drop. simpl. lia.
  - rewrite length_drop in L. simpl in *. lia.
Qed.

Lemma rev_eq_length (a b : string) : rev a = rev b -> String.length a = String.length b.
Proof. intros H. rewrite <- (length_rev a), <- (length_rev b). now rewrite H. Qed.

Lemma rev_append (a b : string) : rev (a +++ b) = rev b +++ rev a.
Proof.
  induction a as [|c a IH]; simpl.
  - now rewrite append_nil_r.
  - now rewrite IH, append_assoc.
Qed.

Lemma rev_involutive (s : string) : rev (rev s) = s.
Proof.
  induction s as [|c s IH]; simpl; [reflexivity|].
  rewrite rev_append, IH. reflexivity.
Qed.

Lemma TrimLeftSpace_cases (s : string) :
  TrimLeftSpace s = s \/ String.length (TrimLeftSpace s) < String.length s.
Proof. apply trimLeftN_cases. Qed.

Lemma TrimRightSpace_cases (s : string) :
  TrimRightSpace s = s \/ String.length (TrimRightSpace s) < String.length s.
Proof.
  unfold TrimRightSpace.
  destruct (trimLeftN_cases spaceWidthRev (String.length s) (rev s)) as [E|L].
  - left. rewrite E. apply rev_involutive.
  - right. rewrite length_rev. now rewrite length_rev in L.
Qed.

Lemma TrimSpace_cases (s : string) :
  TrimSpace s = s \/ String.length (TrimSpace s) < String.length s.
Proof.
  unfold TrimSpace.
  destruct (TrimLeftSpace_cases s) as [E|L].
  - rewrite E. apply TrimRightSpace_cases.
  - right. destruct (TrimRightSpace_cases (TrimLeftSpace s)) as [E'|L']; [rewrite E'|]; lia.
Qed.

Lemma TrimSpace_le (s : string) : String.length (TrimSpace s) <= String.length s.
Proof. destruct (TrimSpace_cases s) as [E|L]; [rewrite E|]; lia. Qed.

Lemma TrimPrefix_le (s p : string) : String.length (TrimPrefix s p) <= String.length s.
Proof. unfold TrimPrefix. destruct (HasPrefix s p); [rewrite length_drop|]; lia. Qed.

Lemma TrimSuffix_le (s p : string) : String.length (TrimSuffix s p) <= String.length s.
Proof. unfold TrimSuffix. destruct (HasSuffix s p); [apply length_take | lia]. Qed.

Lemma HasPrefix_nonempty (s p : string) :
  HasPrefix s p = true -> p <> "" -> 0 < String.length s.
Proof.
  destruct p as [|c p]; [congruence|]. destruct s as [|d s]; simpl; [discriminate | lia].
Qed.

(** Stripping a one-byte prefix that is there makes the string shorter. *)
Lemma TrimPrefix_lt (s p : string) :
  HasPrefix s p = true -> p <> "" -> String.length (TrimPrefix s p) < String.length s.
Proof.
  intros H Hp. unfold TrimPrefix. rewrite H, length_drop.
  pose proof (HasPrefix_nonempty s p H Hp). destruct p; [congruence | simpl; lia].
Qed.

(** A piece of a split is the whole string or is shorter. *)
Lemma splitAux_cases (sep : string) (s : string) :
  forall skip cur seg,
    In seg (splitAux sep skip cur s) ->
    seg = cur +++ s \/ String.length seg < String.length cur + String.length s.
Proof.
  induction s as [|c r IH]; intros skip cur seg H; simpl in H.
  - destruct H as [<-|[]]. left. now rewrite append_nil_r.
  - destruct skip as [|k].
    + destruct (HasPrefix (String c r) sep).
      * right. destruct H as [<-|H]; [simpl; lia|].
        destruct (IH _ _ _ H) as [->|L]; simpl in *; lia.
      * destruct (IH _ _ _ H) as [->|L].
        -- left. now rewrite append_assoc.
        -- right. rewrite length_append in L. simpl in *. lia.
    + right. destruct (IH _ _ _ H) as [->|L].
      * rewrite length_append. simpl. lia.
      * simpl. lia.
Qed.

(** The fuel of the trimming loop is enough: what [TrimSpace] returns has
    no white-space rune left at either end. *)
Lemma trimLeftN_done (width : string -> nat) (n : nat) (s : string) :
  width "" = 0 -> String.length s <= n -> width (trimLeftN width n s) = 0.
Proof.
  intros Hw. revert s. induction n as [|n IH]; intros s Hlen; cbn [trimLeftN].
  - destruct s; [assumption | simpl in Hlen; lia].
  - destruct (width s) as [|w] eqn:E; [assumption|].
    apply IH. rewrite length_drop. lia.
Qed.

Lemma TrimSpace_done (s : string) :
  spaceWidth (TrimLeftSpace s) = 0 /\ spaceWidthRev (rev (TrimRightSpace s)) = 0.
Proof.
  split.
  - apply trimLeftN_done; [reflexivity | lia].
  - unfold TrimRightSpace. rewrite rev_involutive.
    apply trimLeftN_done; [reflexivity | rewrite length_rev; lia].
Qed.

Lemma splitAux_nonempty (sep : string) (s : string) (skip : nat) (cur : string) :
  1 <= List.length (splitAux sep skip cur s).
Proof.
  revert skip cur. induction s as [|c r IH]; intros skip cur; simpl; [lia|].
  destruct skip; [destruct (HasPrefix _ sep); simpl; [lia|]|]; apply IH.
Qed.

(** Where the package indexes [parts[1]] after testing [strings.Contains]:
    a string that contains the separator splits into two parts at least. *)
Lemma Split_at_least_two (s sep : string) :
  sep <> "" -> Contains s sep = true -> 2 <= List.length (Split s sep).
Proof.
  intros Hsep. unfold Contains, Split. generalize "" as cur.
  induction s as [|c r IH]; intros cur.
  - destruct sep; [congruence | discriminate].
  - cbn [Index splitAux]. destruct (HasPrefix (String c r) sep).
    + intros _. pose proof (splitAux_nonempty sep r (String.length sep - 1) ""). simpl. lia.
    + intros H. apply IH. destruct (Index r sep); [reflexivity | discriminate].
Qed.

(* ================================================================= *)
(** ** Match lists: the classification of a segment *)

Lemma matchListLoop_ext (n1 n2 : string -> list MatchTerm.t)
  (out : list MatchTerm.t) (piece : string) :
  (HasPrefix (innerOf piece) "{" = true -> n1 (innerOf piece) = n2 (innerOf piece)) ->
  matchListLoop n1 out piece = matchListLoop n2 out piece.
Proof.
  unfold matchListLoop, innerOf. intros H.
  destruct (String.eqb (TrimSpace piece) ""); [reflexivity|].
  destruct (HasPrefix (TrimSpace piece) "!");
    (destruct (HasPrefix _ "key "); [reflexivity|]);
    (destruct (HasPrefix _ "{"); [rewrite H by reflexivity|]); reflexivity.
Qed.

Lemma fold_left_ext_in {S T : Type} (f g : S -> T -> S) (l : list T) (a : S) :
  (forall acc x, In x l -> f acc x = g acc x) -> fold_left f l a = fold_left g l a.
Proof.
  revert a. induction l as [|x l IH]; intros a H; simpl; [reflexivity|].
  rewrite (H a x (or_introl eq_refl)). apply IH. intros acc y Hy. apply H. now right.
Qed.

Lemma stripBraces_le (raw : string) : String.length (stripBraces raw) <= String.length raw.
Proof.
  unfold stripBraces. pose proof (TrimSpace_le raw).
  destruct (HasPrefix (TrimSpace raw) "{"); [|assumption].
  pose proof (TrimSpace_le (TrimSuffix (TrimPrefix (TrimSpace raw) "{") "}")).
  pose proof (TrimSuffix_le (TrimPrefix (TrimSpace raw) "{") "}").
  pose proof (TrimPrefix_le (TrimSpace raw) "{"). lia.
Qed.

Lemma innerOf_cases (piece : string) :
  innerOf piece = piece \/ String.length (innerOf piece) < String.length piece.
Proof.
  unfold innerOf. destruct (HasPrefix (TrimSpace piece) "!") eqn:E.
  - right. pose proof (TrimPrefix_lt _ "!" E ltac:(discriminate)).
    pose proof (TrimSpace_le (TrimPrefix (TrimSpace piece) "!")).
    pose proof (TrimSpace_le piece). lia.
  - apply TrimSpace_cases.
Qed.

(** The text of a nested call is shorter than the text being decoded. *)
Lemma innerOf_shorter (raw piece : string) :
  In piece (Split (stripBraces raw) ";") ->
  HasPrefix (innerOf piece) "{" = true ->
  String.length (innerOf piece) < String.length raw.
Proof.
  intros Hin Hbrace.
  pose proof (stripBraces_le raw) as Hle.
  destruct (splitAux_cases ";" (stripBraces raw) 0 "" piece Hin) as [Hp|Hp]; simpl in Hp.
  - subst piece. destruct (innerOf_cases (stripBraces raw)) as [Hi|Hi]; [|lia].
    rewrite Hi in *. clear Hi Hin.
    unfold stripBraces in *. pose proof (TrimSpace_le raw).
    destruct (HasPrefix (TrimSpace raw) "{") eqn:E.
    + pose proof (TrimPrefix_lt _ "{" E ltac:(discriminate)).
      pose proof (TrimSuffix_le (TrimPrefix (TrimSpace raw) "{") "}").
      pose proof (TrimSpace_le (TrimSuffix (TrimPrefix (TrimSpace raw) "{") "}")). lia.
    + congruence.
  - destruct (innerOf_cases piece) as [Hi|Hi]; [rewrite Hi|]; lia.
Qed.

Lemma parseMatchListFuel_irrelevant (n m : nat) (raw : string) :
  String.length raw < n -> String.length raw < m ->
  parseMatchListFuel n raw = parseMatchListFuel m raw.
Proof.
  revert m raw. induction n as [|n IH]; intros m raw Hn Hm; [lia|].
  destruct m as [|m]; [lia|]. simpl.
  apply fold_left_ext_in. intros acc piece Hin. apply matchListLoop_ext. intros Hb.
  pose proof (innerOf_shorter raw piece Hin Hb). apply IH; lia.
Qed.

(** Enough fuel: with any fuel above the length of the text the decoder
    gives the result of [parseMatchListFromBodyRaw]. *)
Lemma parseMatchListFuel_enough (fuel : nat) (raw : string) :
  String.length raw < fuel -> parseMatchListFuel fuel raw = parseMatchListFromBodyRaw raw.
Proof. intros H. apply parseMatchListFuel_irrelevant; [assumption | lia]. Qed.

Lemma matchListLoop_classify (out : list MatchTerm.t) (piece : string) :
  matchListLoop parseMatchListFromBodyRaw out piece =
  out ++ (if String.eqb (TrimSpace piece) "" then []
          else [termOf (classify (TrimSpace piece))]).
Proof.
  unfold matchListLoop, classify, classifyPlain.
  destruct (String.eqb (TrimSpace piece) ""); [now rewrite app_nil_r|].
  destruct (HasPrefix (TrimSpace piece) "!");
    (destruct (HasPrefix _ "key "); [reflexivity|]);
    (destruct (HasPrefix _ "{"); [reflexivity|]);
    destruct (_ || _); reflexivity.
Qed.

Lemma matchListLoop_fold (pieces : list string) (out : list MatchTerm.t) :
  fold_left (matchListLoop parseMatchListFromBodyRaw) pieces out =
  out ++ map (fun seg => termOf (classify seg))
             (filter (fun p => negb (String.eqb p "")) (map TrimSpace pieces)).
Proof.
  revert out. induction pieces as [|x l IH]; intros out; simpl.
  - now rewrite app_nil_r.
  - rewrite IH, matchListLoop_classify.
    destruct (String.eqb (TrimSpace x) ""); simpl.
    + now rewrite app_nil_r.
    + now rewrite <- app_assoc.
Qed.

(** The loop of [parseMatchListFromBodyRaw] as a map.  The decoded list has
    one term per non-empty piece the decoder cuts ([segments]: the text
    between any two semicolons), in order, and the term of a piece is the
    one its classification names: negated when the piece starts with [!],
    and then a key reference, a nested list decoded by the same function, a
    literal address or a reference to a named list. *)
Lemma parseMatchList_classifies_segments (raw : string) :
  parseMatchListFromBodyRaw raw = map (fun seg => termOf (classify seg)) (segments raw).
Proof.
  unfold parseMatchListFromBodyRaw at 1. simpl.
  rewrite (fold_left_ext_in _ (matchListLoop parseMatchListFromBodyRaw)).
  - now rewrite matchListLoop_fold.
  - intros acc piece Hin. apply matchListLoop_ext. intros Hb.
    apply parseMatchListFuel_enough. now apply innerOf_shorter.
Qed.

(** The examples of the specification. *)
Example match_term_examples :
  parseMatchListFromBodyRaw "10.0.0.0/8" = [MatchTerm.mk false "10.0.0.0/8" "" "" []] /\
  parseMatchListFromBodyRaw "trusted" = [MatchTerm.mk false "" "" "trusted" []] /\
  parseMatchListFromBodyRaw "!trusted" = [MatchTerm.mk true "" "" "trusted" []] /\
  parseMatchListFromBodyRaw ("key " +++ quoted "rndc-key")
    = [MatchTerm.mk false "" "rndc-key" "" []] /\
  parseMatchListFromBodyRaw "{ 10.0.0.0/8; !bogons; }"
    = [MatchTerm.mk false "10.0.0.0/8" "" "" []; MatchTerm.mk true "" "" "bogons" []].
Proof. repeat split; vm_compute; reflexivity. Qed.

(** The listen clause of the specification: decoded, encoded and decoded
    again. *)
Example listen_clause_example :
  let l := parseListen ("port 53 tls " +++ quoted "mytls" +++ " { any; }") in
  l = Listen.mk (Some 53%Z) "mytls" "" [MatchTerm.mk false "" "" "any" []] /\
  serializeListen l = "port 53 tls " +++ quoted "mytls" +++ " { any; }" /\
  parseListen (serializeListen l) = l.
Proof. repeat split; vm_compute; reflexivity. Qed.

(* ================================================================= *)
(** ** Match lists: which names are written in quotes *)

Lemma mem_quotingBytes (c : ascii) :
  mem c ".-* " = true <-> In c quotingBytes.
Proof.
  unfold quotingBytes. simpl. rewrite !orb_true_iff, !Ascii.eqb_eq.
  intuition (try discriminate; auto).
Qed.

Lemma needsQuotes_iff (name : string) :
  needsQuotes name = true <->
  exists c, In c (list_ascii_of_string name) /\ In c quotingBytes.
Proof.
  unfold needsQuotes.
  induction name as [|d r IH]; cbn [ContainsAny list_ascii_of_string In].
  - split; [discriminate | intros [c [[] _]]].
  - rewrite orb_true_iff, IH, mem_quotingBytes. split.
    + intros [H|[c [H1 H2]]]; [exists d | exists c]; auto.
    + intros [c [[<-|H1] H2]]; [left | right; exists c]; auto.
Qed.

(** C8 as the code has it.  A non-empty name of a reference to a named list
    is written in double quotes exactly when it contains a dot, a hyphen,
    an asterisk or a blank, and is written as it is otherwise; the term
    ends with a semicolon and a negated term starts with [!]. *)
Theorem serializeMatchList_quotes_by_bytes (neg : bool) (name : string) :
  name <> "" ->
  serializeMatchList [aclTerm neg name]
  = "{ " +++ (if neg then "!" else "")
    +++ (if needsQuotes name then quoted name else name) +++ "; }" /\
  (needsQuotes name = true <->
   exists c, In c (list_ascii_of_string name) /\ In c quotingBytes).
Proof.
  intros Hne. split; [|apply needsQuotes_iff].
  unfold serializeMatchList, aclTerm. cbn [map serializeMatchTerm Join].
  apply String.eqb_neq in Hne. rewrite Hne. cbn [String.eqb negb].
  rewrite !append_assoc. reflexivity.
Qed.

(** The claim as the specification words it fails both ways: [my-acl] is a
    bare token and is written in quotes; [a_b] is not a bare token and is
    written without. *)
Lemma bare_token_quoting_counterexample :
  (bareToken "my-acl" = true /\
   serializeMatchList [aclTerm false "my-acl"] = "{ " +++ quoted "my-acl" +++ "; }" /\
   serializeMatchList [aclTerm false "my-acl"] <> "{ my-acl; }") /\
  (bareToken "a_b" = false /\
   serializeMatchList [aclTerm false "a_b"] = "{ a_b; }" /\
   serializeMatchList [aclTerm false "a_b"] <> "{ " +++ quoted "a_b" +++ "; }").
Proof. repeat split; try (vm_compute; reflexivity); vm_compute; discriminate. Qed.

(** C8 as amended, at the negated name [my-acl]. *)
Lemma serializeMatchList_quotes_by_bytes_witness :
  "my-acl" <> "" /\
  serializeMatchList [aclTerm true "my-acl"] = "{ !" +++ quoted "my-acl" +++ "; }".
Proof.
  split; [discriminate|].
  exact (proj1 (serializeMatchList_quotes_by_bytes true "my-acl" ltac:(discriminate))).
Defined.

(* ================================================================= *)
(** ** Control channels: the order of the keyword groups *)

(** C5 at the order of the package's own encoder ([allow] before [keys]):
    the text after the [allow] marker is taken whole as the allow list, so
    the key list is lost and its text ends up inside a reference name.  The
    same groups are decoded as written when [keys] comes before [allow].
    For a unix channel the positional fields in the encoder's order are not
    decoded at all: seven fields are present where eight are asked for.
    The scan is by marker text: a key name that contains the [allow] marker
    ahead of the allow group is cut there, while an allow list whose one
    element is the name [allow] is decoded as written. *)
Theorem parseControl_encoder_order_misdecoded :
  serializeControlInet inetWithKeys
  = "inet 127.0.0.1 port 953 allow { localhost; } keys { " +++ quoted "rndc-key" +++ "; }" /\
  parseControlInet (serializeControlInet inetWithKeys)
  = ControlInet.mk "127.0.0.1" (Some 953%Z)
      [aclTerm false "localhost"; aclTerm false ("} keys { " +++ dq +++ "rndc-key")] [] None /\
  parseControlInet
    ("inet 127.0.0.1 port 953 keys { " +++ quoted "rndc-key" +++ "; } allow { localhost; }")
  = inetWithKeys /\
  serializeControlUnix unixPlain
  = "unix " +++ quoted "/run/named.sock" +++ " perm 600 owner 0 group 0" /\
  parseControlUnix (serializeControlUnix unixPlain) = ControlUnix.mk "" 0%Z 0%Z 0%Z [] None /\
  parseControlInet ("inet 127.0.0.1 keys { " +++ quoted "a allow b" +++ "; } allow { any; }")
  = ControlInet.mk "127.0.0.1" None
      [aclTerm false "b"; aclTerm false "} allow { any"; aclTerm false "}"] ["a"] None /\
  parseControlInet "inet 127.0.0.1 allow { allow; }"
  = ControlInet.mk "127.0.0.1" None [aclTerm false "allow"] [] None.
Proof. repeat split; vm_compute; reflexivity. Qed.

(* ================================================================= *)
(** ** Decode: when [FromFile] returns *)

(** C10 at that document: the [file] case indexes the first field of a
    header text that has none, and [FromFile] does not return. *)
Theorem FromFile_panics_on_blank_channel_file :
  Fields (rawOf blankFileStmt) = [] /\
  FromFile blankFileDocument = Panics "index out of range [0] with length 0".
Proof. split; vm_compute; reflexivity. Qed.

Lemma forStmtsM_returns_or_panics {T : Type} (step : T -> Stmt -> outcome T)
  (ok : Stmt -> bool) :
  (forall acc st, ok st = true -> exists acc', step acc st = Returns acc') ->
  (forall acc st, ok st = false -> exists msg, step acc st = Panics msg) ->
  forall body acc,
    if stmtsAll ok body
    then exists acc', forStmtsM step body acc = Returns acc'
    else exists msg, forStmtsM step body acc = Panics msg.
Proof.
  intros Hok Hbad. induction body as [|n body IH]; intros acc; simpl.
  - now exists acc.
  - destruct n as [st|t]; simpl; [|apply IH].
    destruct (ok st) eqn:E; simpl.
    + destruct (Hok acc st E) as [acc' ->]. simpl. apply IH.
    + destruct (Hbad acc st E) as [msg ->]. simpl. now exists msg.
Qed.

Lemma parseLogChannel_returns_or_panics (st : Stmt) :
  if channelOk st
  then exists ch, parseLogChannel st = Returns ch
  else exists msg, parseLogChannel st = Panics msg.
Proof.
  unfold parseLogChannel, channelOk.
  apply (forStmtsM_returns_or_panics logChannelStep fileStmtOk).
  - intros acc ss H. unfold fileStmtOk in H. unfold logChannelStep.
    destruct (isKw ss "file"); simpl in H.
    + destruct (Fields (rawOf ss)); [discriminate | eauto].
    + repeat match goal with
      | |- context [if ?b then _ else _] => destruct b
      end; eauto.
  - intros acc ss H. unfold fileStmtOk in H. unfold logChannelStep.
    destruct (isKw ss "file"); simpl in H; [|discriminate].
    destruct (Fields (rawOf ss)); [eauto | discriminate].
Qed.

Lemma parseLogging_returns_or_panics (s : Stmt) :
  if loggingOk s
  then exists lg, parseLogging s = Returns lg
  else exists msg, parseLogging s = Panics msg.
Proof.
  unfold parseLogging, loggingOk.
  apply (forStmtsM_returns_or_panics loggingStep loggingStmtOk);
    intros acc st; unfold loggingStmtOk, loggingStep;
    pose proof (parseLogChannel_returns_or_panics st) as H;
    destruct (isKw st "channel"); simpl.
  - intros E. rewrite E in H. destruct H as [ch ->]. simpl. eauto.
  - intros _. destruct (isKw st "category"); eauto.
  - intros E. rewrite E in H. destruct H as [msg ->]. simpl. eauto.
  - discriminate.
Qed.

Lemma fromFileStep_returns_or_panics (cfg : Config.t) (s : Stmt) :
  if topStmtOk s
  then exists cfg', fromFileStep cfg s = Returns cfg'
  else exists msg, fromFileStep cfg s = Panics msg.
Proof.
  unfold topStmtOk, fromFileStep, isKw.
  pose proof (parseLogging_returns_or_panics s) as H.
  repeat match goal with
  | |- context [if String.eqb (Keyword s) ?w then _ else _] =>
      destruct (String.eqb (Keyword s) w) eqn:E;
      [ apply String.eqb_eq in E; rewrite E; simpl; eauto | clear E ]
  end.
  destruct (String.eqb (Keyword s) "logging"); simpl.
  - destruct (loggingOk s); destruct H as [x ->]; simpl; eauto.
  - eauto.
Qed.

(** [FromFile] returns, with a nil error, exactly on the documents that
    meet the condition; on the others it panics. *)
Lemma FromFile_returns_or_panics (f : File) :
  if channelFilesHaveFields f
  then exists cfg, FromFile f = Returns (cfg, None)
  else exists msg, FromFile f = Panics msg.
Proof.
  unfold FromFile, channelFilesHaveFields.
  pose proof (forStmtsM_returns_or_panics fromFileStep topStmtOk) as H.
  specialize (H (fun acc st E => ltac:(
    pose proof (fromFileStep_returns_or_panics acc st) as X; rewrite E in X; exact X))).
  specialize (H (fun acc st E => ltac:(
    pose proof (fromFileStep_returns_or_panics acc st) as X; rewrite E in X; exact X))).
  specialize (H (Nodes f) (Config.set_ast (Some f) Config.zero)).
  destruct (stmtsAll topStmtOk (Nodes f)); destruct H as [x ->]; simpl; eauto.
Qed.

(** The error result of [FromFile] is never populated. *)
Lemma FromFile_error_nil (f : File) (cfg : Config.t) (e : option error) :
  FromFile f = Returns (cfg, e) -> e = None.
Proof.
  unfold FromFile. destruct (forStmtsM _ _ _); simpl; intros H; now inversion H.
Qed.

(* ================================================================= *)
(** ** Decode counts what encode wrote *)

Lemma fromFileStep_count (cfg cfg' : Config.t) (s : Stmt) (k : string) :
  In k modeledKeywords ->
  fromFileStep cfg s = Returns cfg' ->
  entityCount cfg' k = bump k (StmtNode s) (entityCount cfg k).
Proof.
  intros Hk. unfold fromFileStep, bump, isStmtOf, isKw.
  repeat match goal with
  | |- context [if String.eqb (Keyword s) ?w then _ else _] =>
      let E := fresh "E" in
      destruct (String.eqb (Keyword s) w) eqn:E;
      [ apply String.eqb_eq in E; rewrite E; clear E;
        unfold bind; try (destruct (parseLogging s));
        intros H; first [discriminate H | injection H as <-];
        simpl in Hk; repeat destruct Hk as [<-|Hk]; try contradiction;
        unfold entityCount; cbn -[parseACL parseKey parseKeyStore parseRemoteServers
          parseTLS parseHTTP parseControls parseOptions parseTrustAnchors parseView
          parseZone trimQuotes rawOf];
        rewrite ?length_app; simpl; lia
      | ]
  end.
  intros H; injection H as <-.
  simpl in Hk; repeat destruct Hk as [<-|Hk]; try contradiction;
    match goal with
    | E : String.eqb (Keyword s) ?w = false |- context [String.eqb (Keyword s) ?w] =>
        rewrite E; reflexivity
    end.
Qed.

Lemma forStmtsM_count (nodes : list Node) (cfg cfg' : Config.t) (k : string) :
  In k modeledKeywords ->
  forStmtsM fromFileStep nodes cfg = Returns cfg' ->
  entityCount cfg' k = fold_left (fun count n => bump k n count) nodes (entityCount cfg k).
Proof.
  intros Hk. revert cfg. induction nodes as [|n nodes IH]; intros cfg; simpl.
  - intros H. now injection H as <-.
  - destruct n as [s|t].
    + destruct (fromFileStep cfg s) as [cfg1|msg] eqn:E; simpl; [|discriminate].
      intros H. rewrite (IH cfg1 H). now rewrite (fromFileStep_count cfg cfg1 s k Hk E).
    + apply IH.
Qed.

Lemma bump_fold_list (k : string) (nodes : list Node) (count : nat) :
  isSingleton k = false ->
  fold_left (fun count n => bump k n count) nodes count
  = count + List.length (filter (isStmtOf k) nodes).
Proof.
  intros Hs. revert count. induction nodes as [|n nodes IH]; intros count; simpl.
  - lia.
  - rewrite IH. unfold bump. rewrite Hs. destruct (isStmtOf k n); simpl; lia.
Qed.

Lemma bump_fold_singleton (k : string) (nodes : list Node) (count : nat) :
  isSingleton k = true ->
  fold_left (fun count n => bump k n count) nodes count
  = if existsb (isStmtOf k) nodes then 1 else count.
Proof.
  intros Hs. revert count. induction nodes as [|n nodes IH]; intros count; simpl.
  - reflexivity.
  - rewrite IH. unfold bump. rewrite Hs.
    destruct (isStmtOf k n); simpl; [destruct (existsb _ _)|]; reflexivity.
Qed.

Lemma entityCount_zero (f : option File) (k : string) :
  entityCount (Config.set_ast f Config.zero) k = 0.
Proof.
  unfold entityCount.
  repeat match goal with
  | |- context [if String.eqb k ?w then _ else _] => destruct (String.eqb k w)
  end; reflexivity.
Qed.

(** What decode holds for a keyword: one entity per statement of that
    keyword, or, for a singleton, one if there is any. *)
Lemma FromFile_count (f : File) (cfg : Config.t) (e : option error) (k : string) :
  In k modeledKeywords ->
  FromFile f = Returns (cfg, e) ->
  entityCount cfg k =
    if isSingleton k then (if existsb (isStmtOf k) (Nodes f) then 1 else 0)
    else List.length (filter (isStmtOf k) (Nodes f)).
Proof.
  intros Hk. unfold FromFile.
  destruct (forStmtsM fromFileStep (Nodes f) _) as [cfg1|msg] eqn:E; simpl; [|discriminate].
  intros H. injection H as <- _.
  rewrite (forStmtsM_count _ _ _ k Hk E), entityCount_zero.
  destruct (isSingleton k) eqn:Hs.
  - now rewrite bump_fold_singleton.
  - now rewrite bump_fold_list.
Qed.

Lemma fromFileStep_ast (cfg cfg' : Config.t) (s : Stmt) :
  fromFileStep cfg s = Returns cfg' -> Config.ast cfg' = Config.ast cfg.
Proof.
  unfold fromFileStep, bind.
  repeat match goal with
  | |- context [if ?b then _ else _] => destruct b
  end;
  try destruct (parseLogging s);
  intros H; first [discriminate H | injection H as <-]; reflexivity.
Qed.

Lemma FromFile_ast (f : File) (cfg : Config.t) (e : option error) :
  FromFile f = Returns (cfg, e) -> Config.ast cfg = Some f.
Proof.
  unfold FromFile.
  assert (G : forall nodes c c', forStmtsM fromFileStep nodes c = Returns c' ->
                                 Config.ast c' = Config.ast c).
  { induction nodes as [|n nodes IH]; intros c c'; simpl.
    - intros H. now injection H as <-.
    - destruct n as [s|t]; [|apply IH].
      destruct (fromFileStep c s) as [c1|msg] eqn:E; simpl; [|discriminate].
      intros H. rewrite (IH _ _ H). apply (fromFileStep_ast _ _ _ E). }
  destruct (forStmtsM fromFileStep (Nodes f) _) as [cfg1|msg] eqn:E; simpl; [|discriminate].
  intros H. injection H as <- _. now rewrite (G _ _ _ E).
Qed.

Lemma entityCount_singleton (c : Config.t) (k : string) :
  isSingleton k = true -> entityCount c k <= 1.
Proof.
  unfold isSingleton. rewrite !orb_true_iff, !String.eqb_eq.
  intros [[->| ->]| ->]; unfold entityCount; simpl;
    [destruct (Config.Controls c) | destruct (Config.Logging c) | destruct (Config.Options c)];
    lia.
Qed.

(* ================================================================= *)
(** ** Encode, decode, encode *)

Lemma untouched_alike (l : list Node) : Forall2 alike (untouched l) (untouched l).
Proof.
  unfold untouched. induction l as [|n l IH]; simpl; [constructor|].
  destruct (isModeled n) eqn:E; simpl; [assumption|].
  constructor; [|assumption]. unfold alike. now rewrite E.
Qed.

Lemma untouched_idempotent (l : list Node) : untouched (untouched l) = untouched l.
Proof.
  unfold untouched. apply filter_all. intros n Hn. apply filter_In in Hn. tauto.
Qed.

Lemma Forall2_same_keyword (k : string) (l1 l2 : list Node) :
  In k modeledKeywords ->
  List.length l1 = List.length l2 ->
  (forall n, In n l1 -> exists s, n = StmtNode s /\ Keyword s = k) ->
  (forall n, In n l2 -> exists s, n = StmtNode s /\ Keyword s = k) ->
  Forall2 alike l1 l2.
Proof.
  intros Hk. revert l2. induction l1 as [|a l1 IH]; intros [|b l2] Hlen H1 H2;
    try discriminate; constructor.
  - destruct (H1 a (or_introl eq_refl)) as [s1 [-> E1]].
    destruct (H2 b (or_introl eq_refl)) as [s2 [-> E2]].
    unfold alike, isModeled.
    assert (existsb (String.eqb (Keyword s1)) modeledKeywords = true) as ->.
    { apply existsb_exists. exists k. split; [assumption|]. rewrite E1. apply String.eqb_refl. }
    simpl. congruence.
  - apply IH.
    + simpl in Hlen. lia.
    + intros n Hn. apply H1. now right.
    + intros n Hn. apply H2. now right.
Qed.

Section RoundTrip.

Context {A : Adapter}.

Hypothesis simple_keyword :
  forall line, wellHeaded line = true -> Keyword (NewSimpleStmt line) = leadWord line.
Hypothesis block_keyword :
  forall head body, wellHeaded head = true -> Keyword (NewBlockStmt head body) = leadWord head.

Lemma fresh_is_modeled (c : Config.t) (n : Node) : In n (freshNodes c) -> isModeled n = true.
Proof.
  unfold freshNodes. intros H. apply in_flat_map in H. destruct H as [k [Hk Hn]].
  destruct (freshFor_keyword simple_keyword block_keyword c k n Hn) as [s [-> E]].
  unfold isModeled. apply existsb_exists. exists k. split; [assumption|].
  rewrite E. apply String.eqb_refl.
Qed.

Lemma untouched_syncAll (c : Config.t) (f : File) :
  untouched (Nodes (syncAll c f)) = untouched (Nodes f).
Proof.
  rewrite (syncAll_layout simple_keyword block_keyword).
  unfold untouched at 1. rewrite filter_app. fold (untouched (untouched (Nodes f))).
  rewrite untouched_idempotent, filter_none; [apply app_nil_r|].
  intros n Hn. now rewrite (fresh_is_modeled c n Hn).
Qed.

(** The model decoded from an encoded document holds as many entities of
    every modeled keyword as the model that was encoded. *)
Lemma decode_encode_count (M M' : Config.t) (f : File) (e : option error) (k : string) :
  In k modeledKeywords ->
  FromFile (syncAll M f) = Returns (M', e) ->
  entityCount M' k = entityCount M k.
Proof.
  intros Hk H. rewrite (FromFile_count _ _ _ k Hk H).
  pose proof (syncAll_keyword_nodes simple_keyword block_keyword M f k Hk) as Hf.
  pose proof (freshFor_length M k) as Hl. rewrite <- Hf in Hl.
  destruct (isSingleton k) eqn:Hs; [|assumption].
  pose proof (entityCount_singleton M k Hs) as H1. rewrite <- Hl in *.
  destruct (filter (isStmtOf k) (Nodes (syncAll M f))) as [|n l] eqn:El.
  - assert (existsb (isStmtOf k) (Nodes (syncAll M f)) = false) as ->; [|reflexivity].
    apply not_true_is_false. intros Hex. apply existsb_exists in Hex.
    destruct Hex as [x [Hx1 Hx2]].
    assert (In x (filter (isStmtOf k) (Nodes (syncAll M f)))) as Hin
      by (apply filter_In; tauto).
    rewrite El in Hin. destruct Hin.
  - assert (existsb (isStmtOf k) (Nodes (syncAll M f)) = true) as ->.
    { apply existsb_exists. exists n.
      assert (In n (filter (isStmtOf k) (Nodes (syncAll M f)))) as Hin
        by (rewrite El; now left).
      apply filter_In in Hin. tauto. }
    simpl in *. lia.
Qed.

Lemma fresh_alike (M M' : Config.t) (ks : list string) :
  (forall k, In k ks -> In k modeledKeywords) ->
  (forall k, In k ks -> entityCount M' k = entityCount M k) ->
  Forall2 alike (flat_map (freshFor M) ks) (flat_map (freshFor M') ks).
Proof.
  induction ks as [|k ks IH]; intros Hsub Hcount; simpl; [constructor|].
  apply Forall2_app.
  - apply (Forall2_same_keyword k).
    + apply Hsub. now left.
    + rewrite !freshFor_length. symmetry. apply Hcount. now left.
    + apply (freshFor_keyword simple_keyword block_keyword).
    + apply (freshFor_keyword simple_keyword block_keyword).
  - apply IH; intros k' Hk'; [apply Hsub | apply Hcount]; now right.
Qed.

(** What every model keeps: the shape.  When the document written by a
    first [Apply] is decoded and the decoded model is applied to it again,
    the second node list has, position by position, the nodes of the first:
    unchanged where the node is not modeled, and a statement of the same
    keyword where it is.  Nothing is said here of the text of a rebuilt
    statement. *)
Lemma encode_decode_encode_keeps_shape
  (M M' : Config.t) (f0 : File) (e : option error) :
  FromFile (syncAll M f0) = Returns (M', e) ->
  exists M1 f1 M2 f2,
    Apply M (Some f0) = inl (M1, f1) /\
    FromFile f1 = Returns (M', None) /\
    Apply M' None = inl (M2, f2) /\
    Forall2 alike (Nodes f1) (Nodes f2) /\
    untouched (Nodes f2) = untouched (Nodes f1).
Proof.
  intros H. pose proof (FromFile_error_nil _ _ _ H) as ->.
  pose proof (FromFile_ast _ _ _ H) as Hast.
  exists (Config.set_ast (Some (syncAll M f0)) M), (syncAll M f0).
  exists (Config.set_ast (Some (syncAll M' (syncAll M f0))) M'), (syncAll M' (syncAll M f0)).
  split; [reflexivity|]. split; [assumption|].
  split; [apply Apply_backing; assumption|].
  split; [|apply untouched_syncAll].
  rewrite (syncAll_layout simple_keyword block_keyword M' (syncAll M f0)).
  rewrite untouched_syncAll.
  rewrite (syncAll_layout simple_keyword block_keyword M f0).
  apply Forall2_app; [apply untouched_alike|].
  apply fresh_alike; [auto|].
  intros k Hk. apply (decode_encode_count M M' f0 None k Hk H).
Qed.

End RoundTrip.

(** C3 as the specification words it fails, in two ways.  A line of a
    trust-anchors block that contains neither [ds] nor [key] is dropped by
    decode, as designed, so the second encode writes an empty block.  And a
    nested list is written as [{ { 10.0.0.0/8; 192.168.0.0/16; }; }];
    decode cuts that text at every semicolon before it looks for the nested
    braces, so the second encode writes another text. *)
Lemma round_trip_counterexample :
  (exists M1 f1 M' M2 f2,
     Apply (A := refAdapter) bareAnchorModel (Some emptyDocument) = inl (M1, f1) /\
     FromFile f1 = Returns (M', None) /\
     Apply (A := refAdapter) M' None = inl (M2, f2) /\
     Nodes f1 =
       [StmtNode (mkStmt "trust-anchors" "trust-anchors"
                         [StmtNode (mkStmt "" (quoted "." +++ " 20326 8 2 E06D44B8") [])])] /\
     Nodes f2 = [StmtNode (mkStmt "trust-anchors" "trust-anchors" [])] /\
     Nodes f2 <> Nodes f1) /\
  (exists M1 f1 M' M2 f2,
     Apply (A := refAdapter) nestedAclModel (Some emptyDocument) = inl (M1, f1) /\
     FromFile f1 = Returns (M', None) /\
     Apply (A := refAdapter) M' None = inl (M2, f2) /\
     Nodes f1 =
       [StmtNode (mkStmt "acl" ("acl " +++ quoted "internal")
                         [RawNode "{ { 10.0.0.0/8; 192.168.0.0/16; }; }"])] /\
     Nodes f2 =
       [StmtNode (mkStmt "acl" ("acl " +++ quoted "internal")
                         [RawNode "{ { 10.0.0.0/8; }; 192.168.0.0/16; }; }"])] /\
     Nodes f2 <> Nodes f1).
Proof.
  split; do 5 eexists;
    (split; [reflexivity|]); (split; [vm_compute; reflexivity|]);
    (split; [reflexivity|]); (split; [reflexivity|]); (split; [reflexivity|]);
    vm_compute; discriminate.
Qed.

Section NestedListUnderAnyAdapter.

Context {A : Adapter}.

Hypothesis simple_keyword :
  forall line, wellHeaded line = true -> Keyword (NewSimpleStmt line) = leadWord line.
Hypothesis block_keyword :
  forall head body, wellHeaded head = true -> Keyword (NewBlockStmt head body) = leadWord head.
Hypothesis block_body : forall head body, Body (NewBlockStmt head body) = body.

(** The same failure does not depend on the reference adapter: it needs
    only that a built block carries its keyword and keeps its body. *)
Lemma nested_list_round_trip_differs (M' : Config.t) (e : option error) :
  let f1 := syncAll nestedAclModel emptyDocument in
  FromFile f1 = Returns (M', e) ->
  Nodes (syncAll M' f1) <> Nodes f1.
Proof.
  intros f1 H. subst f1.
  assert (Hf1 : Nodes (syncAll nestedAclModel emptyDocument) = [StmtNode (buildACL nestedAcl)]).
  { rewrite (syncAll_layout simple_keyword block_keyword). reflexivity. }
  rewrite (syncAll_layout simple_keyword block_keyword M' _).
  rewrite (untouched_syncAll simple_keyword block_keyword).
  unfold FromFile in H. rewrite Hf1 in H. cbn [forStmtsM bind] in H.
  unfold fromFileStep at 1 in H. unfold isKw in H.
  rewrite (buildACL_keyword block_keyword) in H. cbn [String.eqb Ascii.eqb Bool.eqb] in H.
  cbn [forStmtsM bind] in H. injection H as <- _.
  rewrite Hf1.
  change (StmtNode (buildACL (parseACL (buildACL nestedAcl))) :: nil
          <> StmtNode (buildACL nestedAcl) :: nil).
  intros Heq. injection Heq as Heq. apply (f_equal Body) in Heq.
  unfold buildACL at 1 3 in Heq. rewrite !block_body in Heq.
  unfold parseACL, parseMatchListFromBody in Heq. unfold buildACL in Heq.
  rewrite block_body in Heq.
  vm_compute in Heq. discriminate Heq.
Qed.

End NestedListUnderAnyAdapter.

(* ================================================================= *)
(** ** The theorems at a sample document *)

(** C2 at the sample document: the comment and the [server] statement
    come first in the output. *)
Lemma Apply_keeps_unmodeled_nodes_witness :
  backing nestedAclModel (Some sampleDocument) = Some sampleDocument /\
  exists c' f1,
    Apply (A := refAdapter) nestedAclModel (Some sampleDocument) = inl (c', f1) /\
    Nodes f1 = untouched (Nodes sampleDocument)
               ++ Nodes (syncAll (A := refAdapter) nestedAclModel (mkFile [])).
Proof.
  split; [reflexivity|].
  apply (@Apply_keeps_unmodeled_nodes refAdapter nestedAclModel (Some sampleDocument)
           sampleDocument).
  reflexivity.
Defined.

(** C1 at the sample document and the reference adapter, which meets the
    keyword law. *)
Lemma Apply_rebuilds_modeled_keywords_witness :
  (forall line, wellHeaded line = true ->
     Keyword (NewSimpleStmt (Adapter := refAdapter) line) = leadWord line) /\
  (forall head body, wellHeaded head = true ->
     Keyword (NewBlockStmt (Adapter := refAdapter) head body) = leadWord head) /\
  backing nestedAclModel (Some sampleDocument) = Some sampleDocument /\
  exists c' f1,
    Apply (A := refAdapter) nestedAclModel (Some sampleDocument) = inl (c', f1) /\
    Nodes f1 = untouched (Nodes sampleDocument) ++ freshNodes (A := refAdapter) nestedAclModel /\
    forall k, In k modeledKeywords ->
      filter (isStmtOf k) (Nodes f1) = freshFor (A := refAdapter) nestedAclModel k /\
      List.length (filter (isStmtOf k) (Nodes f1)) = entityCount nestedAclModel k /\
      (entityCount nestedAclModel k = 0 -> filter (isStmtOf k) (Nodes f1) = []).
Proof.
  split; [intros; reflexivity|]. split; [intros; reflexivity|]. split; [reflexivity|].
  apply (@Apply_rebuilds_modeled_keywords refAdapter
           (fun _ _ => eq_refl) (fun _ _ _ => eq_refl)
           nestedAclModel (Some sampleDocument) sampleDocument).
  reflexivity.
Defined.

(** The shape at the sample document: decode of the first output returns,
    and the second output has the shape of the first. *)
Lemma encode_decode_encode_keeps_shape_witness :
  FromFile (syncAll (A := refAdapter) nestedAclModel sampleDocument)
  = Returns (decodedNestedModel, None) /\
  exists M1 f1 M2 f2,
    Apply (A := refAdapter) nestedAclModel (Some sampleDocument) = inl (M1, f1) /\
    FromFile f1 = Returns (decodedNestedModel, None) /\
    Apply (A := refAdapter) decodedNestedModel None = inl (M2, f2) /\
    Forall2 alike (Nodes f1) (Nodes f2) /\
    untouched (Nodes f2) = untouched (Nodes f1).
Proof.
  split; [vm_compute; reflexivity|].
  apply (@encode_decode_encode_keeps_shape refAdapter
           (fun _ _ => eq_refl) (fun _ _ _ => eq_refl)
           nestedAclModel decodedNestedModel sampleDocument None).
  vm_compute. reflexivity.
Defined.

(** The example of the specification: a document with one view is decoded,
    the view list of the model is emptied, and the document after [Apply]
    has no view statement; the comment and the [server] statement stay. *)
Example emptied_views_leave_no_view :
  exists cfg c' f1,
    FromFile sampleDocument = Returns (cfg, None) /\
    List.length (Config.Views cfg) = 1 /\
    Apply (A := refAdapter) (Config.set_Views [] cfg) None = inl (c', f1) /\
    filter (isStmtOf "view") (Nodes f1) = [] /\
    untouched (Nodes f1)
    = [RawNode "# local policy"; StmtNode (mkStmt "server" "server 10.0.0.1" [])].
Proof.
  do 3 eexists. split; [vm_compute; reflexivity|].
  split; [reflexivity|]. split; [reflexivity|]. split; vm_compute; reflexivity.
Qed.

(* ================================================================= *)
(** ** The accessors: lookup, insert, remove *)

Section NamedSliceFacts.

Variable T : Type.
Variable nameOf : T -> string.

Let hasName (name : string) (x : T) : bool := String.eqb (nameOf x) name.

(** What a lookup returns: the element at the position has the name and no
    element before it has. *)
Lemma indexNamed_Some (xs : list T) (name : string) (i : nat) :
  indexNamed nameOf xs name = Some i <->
  (exists x, nth_error xs i = Some x /\ nameOf x = name) /\
  (forall j y, j < i -> nth_error xs j = Some y -> nameOf y <> name).
Proof.
  revert i. induction xs as [|x xs IH]; intros i; simpl.
  - split; [discriminate|]. intros [[y [H _]] _]. destruct i; discriminate.
  - destruct (String.eqb (nameOf x) name) eqn:E.
    + apply String.eqb_eq in E. split.
      * intros H. injection H as <-. split; [exists x; auto|]. intros j y Hj. lia.
      * intros [_ H]. destruct i as [|i]; [reflexivity|].
        exfalso. apply (H 0 x); [lia | reflexivity | assumption].
    + apply String.eqb_neq in E. destruct i as [|i].
      * split.
        -- destruct (indexNamed nameOf xs name); discriminate.
        -- intros [[y [H1 H2]] _]. simpl in H1. injection H1 as ->. contradiction.
      * specialize (IH i). split.
        -- intros H. destruct (indexNamed nameOf xs name) as [k|]; [|discriminate].
           injection H as ->. destruct (proj1 IH eq_refl) as [Hx Hlt].
           split; [exact Hx|]. intros [|j] y Hj Hy.
           ++ simpl in Hy. injection Hy as <-. assumption.
           ++ apply (Hlt j y); [lia | assumption].
        -- intros [Hx Hlt]. rewrite (proj2 IH); [reflexivity|].
           split; [exact Hx|]. intros j y Hj Hy. apply (Hlt (S j) y); [lia | assumption].
Qed.

Lemma indexNamed_None (xs : list T) (name : string) :
  indexNamed nameOf xs name = None <-> (forall x, In x xs -> nameOf x <> name).
Proof.
  induction xs as [|x xs IH]; simpl.
  - split; [intros _ y [] | reflexivity].
  - destruct (String.eqb (nameOf x) name) eqn:E.
    + apply String.eqb_eq in E. split; [discriminate|].
      intros H. exfalso. apply (H x); auto.
    + apply String.eqb_neq in E. split.
      * intros H y [<-|Hy]; [assumption|].
        destruct (indexNamed nameOf xs name); [discriminate|]. now apply IH.
      * intros H. rewrite (proj2 IH); [reflexivity|]. intros y Hy. apply H. now right.
Qed.

(** The remove loop is a filter, and its flag tells whether an element had
    the name. *)
Lemma removeNamed_filter (xs : list T) (name : string) :
  removeNamed nameOf xs name
  = (filter (fun x => negb (hasName name x)) xs, existsb (hasName name) xs).
Proof.
  unfold removeNamed, hasName.
  assert (G : forall out removed,
    fold_left
      (fun '(out, removed) x =>
         if String.eqb (nameOf x) name then (out, true) else (out ++ [x], removed))
      xs (out, removed)
    = (out ++ filter (fun x => negb (String.eqb (nameOf x) name)) xs,
       removed || existsb (fun x => String.eqb (nameOf x) name) xs)).
  { induction xs as [|x xs IH]; intros out removed; simpl.
    - now rewrite app_nil_r, orb_false_r.
    - destruct (String.eqb (nameOf x) name); simpl; rewrite IH.
      + now rewrite orb_true_r.
      + now rewrite <- app_assoc. }
  apply (G [] false).
Qed.

Lemma upsertNamed_found (xs : list T) (v : T) :
  indexNamed nameOf (upsertNamed nameOf xs v) (nameOf v) = Some (upsertPosition nameOf xs v) /\
  nth_error (upsertNamed nameOf xs v) (upsertPosition nameOf xs v) = Some v.
Proof.
  unfold upsertPosition. induction xs as [|x xs IH]; simpl.
  - rewrite String.eqb_refl. auto.
  - destruct (String.eqb (nameOf x) (nameOf v)) eqn:E; simpl.
    + rewrite String.eqb_refl. auto.
    + rewrite E. destruct IH as [IH1 IH2]. rewrite IH1.
      destruct (indexNamed nameOf xs (nameOf v)); simpl; auto.
Qed.

(** Every other position keeps its element, and the lookup of any other
    name is unchanged. *)
Lemma upsertNamed_frame (xs : list T) (v : T) :
  (forall i, i <> upsertPosition nameOf xs v ->
     i < List.length xs -> nth_error (upsertNamed nameOf xs v) i = nth_error xs i) /\
  (forall name, name <> nameOf v ->
     indexNamed nameOf (upsertNamed nameOf xs v) name = indexNamed nameOf xs name).
Proof.
  unfold upsertPosition. induction xs as [|x xs [IH1 IH2]]; simpl.
  - split; [intros i _ H; lia|]. intros name Hn.
    apply String.eqb_neq in Hn. rewrite String.eqb_sym in Hn. now rewrite Hn.
  - destruct (String.eqb (nameOf x) (nameOf v)) eqn:E; simpl.
    + split; [intros [|i] Hi _; [congruence | reflexivity]|].
      intros name Hn. apply String.eqb_eq in E. rewrite E.
      apply String.eqb_neq in Hn. rewrite String.eqb_sym in Hn. now rewrite Hn.
    + split.
      * intros [|i] Hi Hl; [reflexivity|]. simpl. apply IH1; [|lia].
        destruct (indexNamed nameOf xs (nameOf v)); simpl in Hi; lia.
      * intros name Hn. now rewrite (IH2 name Hn).
Qed.

Lemma upsertNamed_length (xs : list T) (v : T) :
  List.length (upsertNamed nameOf xs v)
  = if existsb (hasName (nameOf v)) xs then List.length xs else S (List.length xs).
Proof.
  unfold hasName. induction xs as [|x xs IH]; simpl; [reflexivity|].
  destruct (String.eqb (nameOf x) (nameOf v)); simpl; [reflexivity|].
  rewrite IH. destruct (existsb _ xs); reflexivity.
Qed.

Lemma upsertNamed_idempotent (xs : list T) (v : T) :
  upsertNamed nameOf (upsertNamed nameOf xs v) v = upsertNamed nameOf xs v.
Proof.
  induction xs as [|x xs IH]; simpl.
  - now rewrite String.eqb_refl.
  - destruct (String.eqb (nameOf x) (nameOf v)) eqn:E; simpl.
    + now rewrite String.eqb_refl.
    + now rewrite E, IH.
Qed.

(** The number of elements of a name: an upsert of that name leaves as many
    as there were, and one if there was none; the elements of other names
    are the same list. *)
Lemma upsertNamed_count (xs : list T) (v : T) :
  List.length (filter (hasName (nameOf v)) (upsertNamed nameOf xs v))
  = Nat.max 1 (List.length (filter (hasName (nameOf v)) xs)) /\
  filter (fun x => negb (hasName (nameOf v) x)) (upsertNamed nameOf xs v)
  = filter (fun x => negb (hasName (nameOf v) x)) xs.
Proof.
  unfold hasName. induction xs as [|x xs [IH1 IH2]]; simpl.
  - rewrite String.eqb_refl. auto.
  - destruct (String.eqb (nameOf x) (nameOf v)) eqn:E; simpl.
    + rewrite String.eqb_refl. simpl. split; [lia | reflexivity].
    + rewrite ?E. simpl. split; [assumption | now rewrite IH2].
Qed.

End NamedSliceFacts.

Section NamedSliceLaws.

Variable T : Type.
Variable nameOf : T -> string.

Lemma upsertNamed_absent (xs : list T) (v : T) :
  indexNamed nameOf xs (nameOf v) = None -> upsertNamed nameOf xs v = xs ++ [v].
Proof.
  induction xs as [|x xs IH]; simpl; [reflexivity|].
  destruct (String.eqb (nameOf x) (nameOf v)); [discriminate|].
  intros H. rewrite IH; [reflexivity|]. now destruct (indexNamed nameOf xs (nameOf v)).
Qed.

(** A write through the pointer a lookup returned, with a value of the
    same name, is an upsert of that value. *)
Lemma storeAt_upsert (xs : list T) (v : T) (i : nat) :
  indexNamed nameOf xs (nameOf v) = Some i -> storeAt xs i v = upsertNamed nameOf xs v.
Proof.
  revert i. induction xs as [|x xs IH]; intros i; simpl; [discriminate|].
  destruct (String.eqb (nameOf x) (nameOf v)).
  - intros H. injection H as <-. reflexivity.
  - destruct (indexNamed nameOf xs (nameOf v)) as [k|]; [|discriminate].
    intros H. injection H as <-. simpl. now rewrite (IH k eq_refl).
Qed.

Lemma notNamed_all (xs : list T) (name : string) :
  indexNamed nameOf xs name = None -> notNamed nameOf name xs = xs.
Proof.
  intros H. unfold notNamed. apply filter_all. intros x Hx.
  apply negb_true_iff, String.eqb_neq. now apply (proj1 (indexNamed_None T nameOf xs name) H).
Qed.

Lemma indexNamed_notNamed (xs : list T) (name : string) :
  indexNamed nameOf (notNamed nameOf name xs) name = None.
Proof.
  apply indexNamed_None. intros x Hx. unfold notNamed in Hx. apply filter_In in Hx.
  destruct Hx as [_ Hx]. now apply negb_true_iff, String.eqb_neq in Hx.
Qed.

Lemma existsb_named (xs : list T) (name : string) :
  existsb (fun x => String.eqb (nameOf x) name) xs = false <->
  indexNamed nameOf xs name = None.
Proof.
  induction xs as [|x xs IH]; simpl; [tauto|].
  destruct (String.eqb (nameOf x) name); simpl; [split; discriminate|].
  rewrite IH. destruct (indexNamed nameOf xs name); simpl; split; congruence.
Qed.

Lemma removeNamed_twice (xs : list T) (name : string) :
  removeNamed nameOf (fst (removeNamed nameOf xs name)) name
  = (fst (removeNamed nameOf xs name), false).
Proof.
  rewrite !removeNamed_filter. cbn [fst]. fold (notNamed nameOf name xs).
  fold (notNamed nameOf name (notNamed nameOf name xs)).
  rewrite (notNamed_all _ _ (indexNamed_notNamed xs name)).
  f_equal. apply existsb_named, indexNamed_notNamed.
Qed.

Lemma removeNamed_upsert (xs : list T) (v : T) :
  removeNamed nameOf (upsertNamed nameOf xs v) (nameOf v)
  = (fst (removeNamed nameOf xs (nameOf v)), true).
Proof.
  rewrite !removeNamed_filter. cbn [fst]. f_equal.
  - apply (proj2 (upsertNamed_count T nameOf xs v)).
  - destruct (existsb _ _) eqn:E; [reflexivity|]. apply existsb_named in E.
    rewrite (proj1 (upsertNamed_found T nameOf xs v)) in E. discriminate.
Qed.

End NamedSliceLaws.

Lemma set_Zones_same (c : Config.t) : Config.set_Zones (Config.Zones c) c = c.
Proof. now destruct c. Qed.

Lemma set_Views_same (c : Config.t) : Config.set_Views (Config.Views c) c = c.
Proof. now destruct c. Qed.

Lemma indexNamed_bound {T : Type} (nameOf : T -> string) (xs : list T) (name : string)
  (i : nat) :
  indexNamed nameOf xs name = Some i -> i < List.length xs.
Proof.
  intros H. apply indexNamed_Some in H. destruct H as [[x [Hx _]] _].
  apply nth_error_Some. congruence.
Qed.

Lemma upsertPosition_other {T : Type} (nameOf : T -> string) (xs : list T) (v : T)
  (name : string) (i : nat) :
  name <> nameOf v -> indexNamed nameOf xs name = Some i ->
  i <> upsertPosition nameOf xs v /\ i < List.length xs.
Proof.
  intros Hn H. pose proof (indexNamed_bound _ _ _ _ H) as Hb. split; [|assumption].
  unfold upsertPosition. destruct (indexNamed nameOf xs (nameOf v)) as [k|] eqn:E; [|lia].
  intros ->. apply indexNamed_Some in H, E.
  destruct H as [[x [Hx Hxn]] _]. destruct E as [[y [Hy Hyn]] _]. congruence.
Qed.

(** X1 (insert, then lookup).  After [UpsertZone] the lookup of the zone's
    name returns a pointer to a top-level zone and that zone is the one
    given, even when a view holds a zone of the same name.  The lookup of
    any other name returns what it returned before, and the zone a
    returned pointer points at is the same. *)
Theorem UpsertZone_then_GetZone (c : Config.t) (z : Zone.t) :
  let c' := UpsertZone c z in
  (exists i, GetZone c' (Zone.Name z) = Some (TopZone i) /\ zoneAt c' (TopZone i) = Some z) /\
  (forall name, name <> Zone.Name z ->
     GetZone c' name = GetZone c name /\
     forall r, GetZone c name = Some r -> zoneAt c' r = zoneAt c r).
Proof.
  intros c'.
  assert (Hz : Config.Zones c' = upsertNamed Zone.Name (Config.Zones c) z) by reflexivity.
  assert (Hv : Config.Views c' = Config.Views c) by reflexivity.
  destruct (upsertNamed_found _ Zone.Name (Config.Zones c) z) as [F1 F2].
  destruct (upsertNamed_frame _ Zone.Name (Config.Zones c) z) as [G1 G2].
  split.
  - exists (upsertPosition Zone.Name (Config.Zones c) z).
    unfold GetZone, zoneAt. rewrite Hz, F1. auto.
  - intros name Hn. unfold GetZone. rewrite Hz, Hv, (G2 name Hn). split; [reflexivity|].
    intros r. destruct (indexNamed Zone.Name (Config.Zones c) name) as [i|] eqn:E.
    + intros H. injection H as <-. unfold zoneAt. rewrite Hz.
      destruct (upsertPosition_other Zone.Name _ z name i Hn E). now apply G1.
    + destruct (indexInViews (Config.Views c) name) as [[i j]|]; [|discriminate].
      intros H. injection H as <-. unfold zoneAt. now rewrite Hv.
Qed.

Lemma set_Zones_twice (c : Config.t) (zs zs' : list Zone.t) :
  Config.set_Zones zs (Config.set_Zones zs' c) = Config.set_Zones zs c.
Proof. reflexivity. Qed.

Lemma set_Views_twice (c : Config.t) (vs vs' : list View.t) :
  Config.set_Views vs (Config.set_Views vs' c) = Config.set_Views vs c.
Proof. reflexivity. Qed.

(** X2 (no second zone of a name is made).  [UpsertZone] overwrites the
    first top-level zone of the name and leaves later ones of that name in
    place: their number stays, or becomes one when there was none.  The
    zones of other names, and everything but the zone list, are as before,
    and a second [UpsertZone] of the same zone changes nothing. *)
Theorem UpsertZone_keeps_the_rest (c : Config.t) (z : Zone.t) :
  let c' := UpsertZone c z in
  List.length (named Zone.Name (Zone.Name z) (Config.Zones c'))
  = Nat.max 1 (List.length (named Zone.Name (Zone.Name z) (Config.Zones c))) /\
  notNamed Zone.Name (Zone.Name z) (Config.Zones c')
  = notNamed Zone.Name (Zone.Name z) (Config.Zones c) /\
  UpsertZone c' z = c' /\
  Config.set_Zones (Config.Zones c) c' = c.
Proof.
  intros c'. destruct (upsertNamed_count _ Zone.Name (Config.Zones c) z) as [H1 H2].
  split; [exact H1|]. split; [exact H2|]. split.
  - unfold c', UpsertZone. cbn [Config.Zones Config.set_Zones].
    rewrite upsertNamed_idempotent. reflexivity.
  - unfold c', UpsertZone. rewrite set_Zones_twice. apply set_Zones_same.
Qed.

Lemma RemoveZone_filter (c : Config.t) (name : string) :
  RemoveZone c name
  = (Config.set_Zones (notNamed Zone.Name name (Config.Zones c)) c,
     existsb (fun z => String.eqb (Zone.Name z) name) (Config.Zones c)).
Proof. unfold RemoveZone. now rewrite removeNamed_filter. Qed.

(** X3 (remove).  [RemoveZone] drops every top-level zone of the name, not
    only the first, keeps the others in order and reports whether there was
    one.  It does not look into the views: [GetZone] afterwards returns the
    first zone of that name inside a view, if there is one.  A second
    [RemoveZone] reports [false] and changes nothing. *)
Theorem RemoveZone_drops_top_level_zones (c : Config.t) (name : string) :
  let c' := fst (RemoveZone c name) in
  Config.Zones c' = notNamed Zone.Name name (Config.Zones c) /\
  (snd (RemoveZone c name) = true <-> exists z, In z (Config.Zones c) /\ Zone.Name z = name) /\
  GetZone c' name
  = option_map (fun '(i, j) => ViewZone i j) (indexInViews (Config.Views c) name) /\
  RemoveZone c' name = (c', false) /\
  Config.set_Zones (Config.Zones c) c' = c.
Proof.
  intros c'. unfold c'. rewrite RemoveZone_filter. cbn [fst snd].
  split; [reflexivity|]. split; [|split; [|split]].
  - rewrite existsb_exists. split; intros [z [H1 H2]]; exists z;
      (split; [assumption|]); now apply String.eqb_eq.
  - unfold GetZone. cbn [Config.Zones Config.Views Config.set_Zones].
    rewrite indexNamed_notNamed.
    destruct (indexInViews (Config.Views c) name) as [[i j]|]; reflexivity.
  - rewrite RemoveZone_filter. cbn [Config.Zones Config.set_Zones].
    rewrite set_Zones_twice.
    rewrite (notNamed_all _ _ _ _ (indexNamed_notNamed _ Zone.Name (Config.Zones c) name)).
    f_equal. apply existsb_named, indexNamed_notNamed.
  - rewrite set_Zones_twice. apply set_Zones_same.
Qed.

(** X4 (insert, then remove).  Removing the name of a zone just upserted
    reports [true] and leaves what removing it from the original model
    leaves; when the original model had no top-level zone of that name, the
    original model is back. *)
Theorem RemoveZone_after_UpsertZone (c : Config.t) (z : Zone.t) :
  RemoveZone (UpsertZone c z) (Zone.Name z) = (fst (RemoveZone c (Zone.Name z)), true) /\
  (GetZone c (Zone.Name z) = None ->
   RemoveZone (UpsertZone c z) (Zone.Name z) = (c, true)).
Proof.
  assert (H : RemoveZone (UpsertZone c z) (Zone.Name z)
              = (fst (RemoveZone c (Zone.Name z)), true)).
  { unfold RemoveZone, UpsertZone. cbn [Config.Zones Config.set_Zones].
    rewrite removeNamed_upsert. rewrite set_Zones_twice.
    destruct (removeNamed Zone.Name (Config.Zones c) (Zone.Name z)). reflexivity. }
  split; [exact H|]. intros Hg. rewrite H. f_equal.
  rewrite RemoveZone_filter. cbn [fst]. rewrite notNamed_all; [apply set_Zones_same|].
  unfold GetZone in Hg. destruct (indexNamed Zone.Name (Config.Zones c) (Zone.Name z));
    [discriminate | reflexivity].
Qed.

Lemma firstViewNamed_Some (c : Config.t) (viewName : string) (v : View.t) :
  firstViewNamed c viewName = Some v ->
  View.Name v = viewName /\
  exists i, FindView c viewName = Some i /\ nth_error (Config.Views c) i = Some v.
Proof.
  unfold firstViewNamed. destruct (FindView c viewName) as [i|] eqn:E; [|discriminate].
  intros H. split; [|eauto]. unfold FindView in E. apply indexNamed_Some in E.
  destruct E as [[x [Hx Hn]] _]. congruence.
Qed.

Lemma firstViewNamed_None (c : Config.t) (viewName : string) :
  firstViewNamed c viewName = None -> FindView c viewName = None.
Proof.
  unfold firstViewNamed. destruct (FindView c viewName) as [i|] eqn:E; [|reflexivity].
  intros H. apply indexNamed_bound in E. apply nth_error_None in H. lia.
Qed.

(** A write through the pointer [FindView] returned, keeping the name, is
    an [UpsertView]. *)
Lemma store_through_FindView (c : Config.t) (viewName : string) (i : nat) (v' : View.t) :
  FindView c viewName = Some i -> View.Name v' = viewName ->
  Config.set_Views (storeAt (Config.Views c) i v') c = UpsertView c v'.
Proof.
  intros H Hn. unfold UpsertView. f_equal. apply storeAt_upsert. now rewrite Hn.
Qed.

Lemma append_is_UpsertView (c : Config.t) (v' : View.t) :
  FindView c (View.Name v') = None ->
  Config.set_Views (Config.Views c ++ [v']) c = UpsertView c v'.
Proof. intros H. unfold UpsertView. f_equal. symmetry. now apply upsertNamed_absent. Qed.

Lemma UpsertZoneInView_as_UpsertView (c : Config.t) (viewName : string) (z : Zone.t) :
  UpsertZoneInView c viewName z = UpsertView c (viewWithZoneUpserted c viewName z) /\
  View.Name (viewWithZoneUpserted c viewName z) = viewName.
Proof.
  unfold UpsertZoneInView, viewWithZoneUpserted.
  destruct (firstViewNamed c viewName) as [v|] eqn:E.
  - destruct (firstViewNamed_Some _ _ _ E) as [Hn [i [Hi Hv]]]. rewrite Hi, Hv.
    split; [|exact Hn]. now apply (store_through_FindView c viewName).
  - rewrite (firstViewNamed_None _ _ E). split; [|reflexivity].
    apply append_is_UpsertView. exact (firstViewNamed_None _ _ E).
Qed.

Lemma SetTrustAnchorsInView_as_UpsertView (c : Config.t) (viewName : string)
  (ta : TrustAnchors.t) :
  SetTrustAnchorsInView c viewName ta = UpsertView c (viewWithAnchorsSet c viewName ta) /\
  View.Name (viewWithAnchorsSet c viewName ta) = viewName.
Proof.
  unfold SetTrustAnchorsInView, viewWithAnchorsSet.
  destruct (firstViewNamed c viewName) as [v|] eqn:E.
  - destruct (firstViewNamed_Some _ _ _ E) as [Hn [i [Hi Hv]]]. rewrite Hi, Hv.
    split; [|exact Hn]. now apply (store_through_FindView c viewName).
  - rewrite (firstViewNamed_None _ _ E). split; [|reflexivity].
    apply append_is_UpsertView. exact (firstViewNamed_None _ _ E).
Qed.

Lemma UpsertView_lookup (c : Config.t) (v : View.t) :
  firstViewNamed (UpsertView c v) (View.Name v) = Some v /\
  (forall name, name <> View.Name v ->
     FindView (UpsertView c v) name = FindView c name /\
     firstViewNamed (UpsertView c v) name = firstViewNamed c name).
Proof.
  destruct (upsertNamed_found _ View.Name (Config.Views c) v) as [F1 F2].
  destruct (upsertNamed_frame _ View.Name (Config.Views c) v) as [G1 G2].
  split.
  - unfold firstViewNamed, FindView, UpsertView. cbn [Config.Views Config.set_Views].
    now rewrite F1.
  - intros name Hn.
    assert (Hf : FindView (UpsertView c v) name = FindView c name) by (apply G2; exact Hn).
    split; [exact Hf|]. unfold firstViewNamed. rewrite Hf.
    destruct (FindView c name) as [i|] eqn:E; [|reflexivity].
    destruct (upsertPosition_other View.Name _ v name i Hn E).
    unfold UpsertView. cbn [Config.Views Config.set_Views]. now apply G1.
Qed.

(** X5 (views: insert, lookup, remove).  After [UpsertView] the lookup of
    the view's name finds the view given, the lookup of any other name
    finds what it found before, and a second [UpsertView] of the same view
    changes nothing.  [RemoveView] drops every view of the name, reports
    whether there was one, and after it the lookup of the name finds
    nothing; removing the name of a view just upserted reports [true]. *)
Theorem UpsertView_FindView_RemoveView (c : Config.t) (v : View.t) (name : string) :
  firstViewNamed (UpsertView c v) (View.Name v) = Some v /\
  (forall other, other <> View.Name v ->
     FindView (UpsertView c v) other = FindView c other /\
     firstViewNamed (UpsertView c v) other = firstViewNamed c other) /\
  UpsertView (UpsertView c v) v = UpsertView c v /\
  Config.Views (fst (RemoveView c name)) = notNamed View.Name name (Config.Views c) /\
  (snd (RemoveView c name) = true <-> exists x, In x (Config.Views c) /\ View.Name x = name) /\
  FindView (fst (RemoveView c name)) name = None /\
  snd (RemoveView (UpsertView c v) (View.Name v)) = true.
Proof.
  destruct (UpsertView_lookup c v) as [L1 L2].
  split; [exact L1|]. split; [exact L2|]. split; [|split; [|split; [|split]]].
  - unfold UpsertView. cbn [Config.Views Config.set_Views].
    now rewrite upsertNamed_idempotent.
  - unfold RemoveView. rewrite removeNamed_filter. reflexivity.
  - unfold RemoveView. rewrite removeNamed_filter. cbn [snd].
    rewrite existsb_exists. split; intros [x [H1 H2]]; exists x;
      (split; [assumption|]); now apply String.eqb_eq.
  - unfold RemoveView, FindView. rewrite removeNamed_filter.
    cbn [fst Config.Views Config.set_Views]. apply indexNamed_notNamed.
  - unfold RemoveView, UpsertView. cbn [Config.Views Config.set_Views].
    now rewrite removeNamed_upsert.
Qed.

Lemma View_set_Zones_back (v : View.t) (zs : list Zone.t) :
  View.set_Zones (View.Zones v) (View.set_Zones zs v) = v.
Proof. now destruct v. Qed.

Lemma View_set_TrustAnchors_back (v : View.t) (ta : option TrustAnchors.t) :
  View.set_TrustAnchors (View.TrustAnchors v) (View.set_TrustAnchors ta v) = v.
Proof. now destruct v. Qed.

Lemma upsertNamed_overwrite {T : Type} (nameOf : T -> string) (xs : list T) (v w : T) :
  nameOf v = nameOf w ->
  upsertNamed nameOf (upsertNamed nameOf xs v) w = upsertNamed nameOf xs w.
Proof.
  intros Hn. induction xs as [|x xs IH]; simpl.
  - now rewrite Hn, String.eqb_refl.
  - rewrite <- Hn. destruct (String.eqb (nameOf x) (nameOf v)) eqn:E; simpl;
      rewrite <- ?Hn.
    + now rewrite String.eqb_refl.
    + rewrite E. f_equal. exact IH.
Qed.

(** X6 (a zone into a view).  [UpsertZoneInView] is an [UpsertView] of the
    first view of the name with the zone upserted into it, or of a new
    view holding only the zone when there is no view of the name.
    Afterwards the view found under the name holds the zone given as its
    first zone of that name; its zones of other names and its other fields
    are as before; the views found under other names and everything but
    the view list are unchanged. *)
Theorem UpsertZoneInView_puts_zone_in_first_view
  (c : Config.t) (viewName : string) (z : Zone.t) :
  let c' := UpsertZoneInView c viewName z in
  c' = UpsertView c (viewWithZoneUpserted c viewName z) /\
  (exists v',
     firstViewNamed c' viewName = Some v' /\
     (exists j, indexNamed Zone.Name (View.Zones v') (Zone.Name z) = Some j /\
                nth_error (View.Zones v') j = Some z) /\
     match firstViewNamed c viewName with
     | Some v =>
         View.set_Zones (View.Zones v) v' = v /\
         notNamed Zone.Name (Zone.Name z) (View.Zones v')
         = notNamed Zone.Name (Zone.Name z) (View.Zones v)
     | None => v' = viewWithZone viewName z
     end) /\
  (forall other, other <> viewName -> firstViewNamed c' other = firstViewNamed c other) /\
  Config.set_Views (Config.Views c) c' = c.
Proof.
  intros c'. destruct (UpsertZoneInView_as_UpsertView c viewName z) as [H Hn].
  fold c' in H. split; [exact H|].
  destruct (UpsertView_lookup c (viewWithZoneUpserted c viewName z)) as [L1 L2].
  rewrite Hn in L1, L2. rewrite <- H in L1, L2. split; [|split].
  - exists (viewWithZoneUpserted c viewName z). split; [exact L1|].
    unfold viewWithZoneUpserted. destruct (firstViewNamed c viewName) as [v|].
    + split; [|split].
      * exists (upsertPosition Zone.Name (View.Zones v) z).
        cbn [View.Zones View.set_Zones]. apply upsertNamed_found.
      * apply View_set_Zones_back.
      * cbn [View.Zones View.set_Zones]. apply (proj2 (upsertNamed_count _ Zone.Name _ z)).
    + split; [|reflexivity]. exists 0. cbn. now rewrite String.eqb_refl.
  - intros other Ho. now apply L2.
  - rewrite H. unfold UpsertView. rewrite set_Views_twice. apply set_Views_same.
Qed.

(** X7 (trust anchors into a view).  [SetTrustAnchorsInView] is an
    [UpsertView] of the first view of the name with its trust anchors
    replaced, or of a new view holding only them.  Afterwards the view
    found under the name has the anchors given and is otherwise as before;
    the views found under other names are unchanged; and of two calls for
    the same view the second one decides. *)
Theorem SetTrustAnchorsInView_sets_first_view
  (c : Config.t) (viewName : string) (ta ta2 : TrustAnchors.t) :
  let c' := SetTrustAnchorsInView c viewName ta in
  c' = UpsertView c (viewWithAnchorsSet c viewName ta) /\
  (exists v',
     firstViewNamed c' viewName = Some v' /\
     View.TrustAnchors v' = Some ta /\
     match firstViewNamed c viewName with
     | Some v => View.set_TrustAnchors (View.TrustAnchors v) v' = v
     | None => v' = viewWithAnchors viewName ta
     end) /\
  (forall other, other <> viewName -> firstViewNamed c' other = firstViewNamed c other) /\
  SetTrustAnchorsInView c' viewName ta2 = SetTrustAnchorsInView c viewName ta2.
Proof.
  intros c'. destruct (SetTrustAnchorsInView_as_UpsertView c viewName ta) as [H Hn].
  fold c' in H. split; [exact H|].
  destruct (UpsertView_lookup c (viewWithAnchorsSet c viewName ta)) as [L1 L2].
  rewrite Hn in L1, L2. rewrite <- H in L1, L2. split; [|split].
  - exists (viewWithAnchorsSet c viewName ta). split; [exact L1|].
    unfold viewWithAnchorsSet. destruct (firstViewNamed c viewName) as [v|].
    + split; [reflexivity | apply View_set_TrustAnchors_back].
    + split; reflexivity.
  - intros other Ho. now apply L2.
  - rewrite (proj1 (SetTrustAnchorsInView_as_UpsertView c' viewName ta2)).
    rewrite (proj1 (SetTrustAnchorsInView_as_UpsertView c viewName ta2)).
    assert (Hw : viewWithAnchorsSet c' viewName ta2 = viewWithAnchorsSet c viewName ta2).
    { unfold viewWithAnchorsSet at 1. rewrite L1.
      unfold viewWithAnchorsSet. destruct (firstViewNamed c viewName); reflexivity. }
    rewrite Hw, H. unfold UpsertView. cbn [Config.Views Config.set_Views].
    rewrite set_Views_twice. f_equal. apply upsertNamed_overwrite.
    rewrite Hn. symmetry. apply SetTrustAnchorsInView_as_UpsertView.
Qed.

Lemma RemoveZoneInView_cases (c : Config.t) (viewName zoneName : string) :
  RemoveZoneInView c viewName zoneName =
  match firstViewNamed c viewName with
  | None => (c, false)
  | Some v =>
      (UpsertView c (View.set_Zones (notNamed Zone.Name zoneName (View.Zones v)) v),
       existsb (fun z => String.eqb (Zone.Name z) zoneName) (View.Zones v))
  end.
Proof.
  unfold RemoveZoneInView.
  destruct (firstViewNamed c viewName) as [v|] eqn:E.
  - destruct (firstViewNamed_Some _ _ _ E) as [Hn [i [Hi Hv]]]. rewrite Hi, Hv.
    rewrite removeNamed_filter. f_equal.
    now apply (store_through_FindView c viewName).
  - now rewrite (firstViewNamed_None _ _ E).
Qed.

(** X8 (a zone out of a view).  Without a view of the name
    [RemoveZoneInView] reports [false] and leaves the model as it is.
    Otherwise it drops every zone of the name from the first view of that
    name, and from no other view and not from the top level; afterwards
    that view has no zone of the name, and a second call reports [false]. *)
Theorem RemoveZoneInView_drops_zones_of_first_view
  (c : Config.t) (viewName zoneName : string) :
  let c' := fst (RemoveZoneInView c viewName zoneName) in
  (firstViewNamed c viewName = None -> RemoveZoneInView c viewName zoneName = (c, false)) /\
  (forall v, firstViewNamed c viewName = Some v ->
     firstViewNamed c' viewName
     = Some (View.set_Zones (notNamed Zone.Name zoneName (View.Zones v)) v) /\
     (snd (RemoveZoneInView c viewName zoneName) = true <->
      exists z, In z (View.Zones v) /\ Zone.Name z = zoneName)) /\
  (forall other, other <> viewName -> firstViewNamed c' other = firstViewNamed c other) /\
  Config.Zones c' = Config.Zones c /\
  snd (RemoveZoneInView c' viewName zoneName) = false.
Proof.
  intros c'. unfold c'. rewrite (RemoveZoneInView_cases c).
  destruct (firstViewNamed c viewName) as [v|] eqn:E; cbn [fst snd].
  - destruct (firstViewNamed_Some _ _ _ E) as [Hn _].
    set (v' := View.set_Zones (notNamed Zone.Name zoneName (View.Zones v)) v).
    assert (Hn' : View.Name v' = viewName) by exact Hn.
    destruct (UpsertView_lookup c v') as [L1 L2]. rewrite Hn' in L1, L2.
    split; [discriminate|]. split; [|split; [|split]].
    + intros v0 H0. injection H0 as <-. split; [exact L1|].
      rewrite existsb_exists. split; intros [z [H1 H2]]; exists z;
        (split; [assumption|]); now apply String.eqb_eq.
    + intros other Ho. now apply L2.
    + reflexivity.
    + rewrite (RemoveZoneInView_cases (UpsertView c v')), L1. cbn [snd].
      apply existsb_named. unfold v'. cbn [View.Zones View.set_Zones].
      apply indexNamed_notNamed.
  - split; [reflexivity|]. split; [discriminate|]. split; [reflexivity|].
    split; [reflexivity|]. now rewrite (RemoveZoneInView_cases c), E.
Qed.

Lemma Options_set_Recursion_back (o : Options.t) (r : option bool) :
  Options.set_Recursion (Options.Recursion o) (Options.set_Recursion r o) = o.
Proof. now destruct o. Qed.

Lemma set_Options_same (c : Config.t) : Config.set_Options (Config.Options c) c = c.
Proof. now destruct c. Qed.

Section SetRecursionEncode.

Context {A : Adapter}.

(** X9 (recursion).  [SetRecursion] leaves the model with an options block
    whose recursion flag is the one given; the block is the one there was
    with that flag changed, or an empty one when there was none, and
    nothing else in the model changes.  Of two calls the second decides.
    The options encoder then writes the line [recursion yes] or
    [recursion no]. *)
Theorem SetRecursion_sets_only_the_flag (c : Config.t) (b b2 : bool) :
  let c' := SetRecursion c b in
  (exists o,
     Config.Options c' = Some o /\
     Options.Recursion o = Some b /\
     match Config.Options c with
     | Some o0 => Options.set_Recursion (Options.Recursion o0) o = o0
     | None => o = Options.set_Recursion (Some b) Options.zero
     end /\
     In (simple ("recursion " +++ boolWord b)) (optionsBody o)) /\
  Config.set_Options (Config.Options c) c' = c /\
  SetRecursion c' b2 = SetRecursion c b2.
Proof.
  intros c'. split; [|split].
  - eexists. split; [reflexivity|]. split; [reflexivity|]. split.
    + destruct (Config.Options c); [apply Options_set_Recursion_back | reflexivity].
    + unfold optionsBody. cbn [Options.Recursion Options.set_Recursion BoolPtr].
      apply in_or_app. right. apply in_or_app. left. now left.
  - unfold c', SetRecursion. destruct c; reflexivity.
  - unfold c', SetRecursion. cbn [Config.Options Config.set_Options].
    destruct c as [? ? ? ? ? ? ? ? ? o ? ? ? ?]; cbn. destruct o as [o|]; [destruct o|];
      reflexivity.
Qed.

End SetRecursionEncode.

(* ================================================================= *)
(** ** Decode, keyword by keyword *)

(** What one step of [FromFile] does to a slice field and to a pointer
    field of the model. *)
Ltac from_file_step :=
  intros cfg cfg' s; unfold fromFileStep, isKw, bind;
  repeat match goal with
  | |- context [if String.eqb (Keyword s) ?w then _ else _] =>
      let E := fresh "E" in
      destruct (String.eqb (Keyword s) w) eqn:E;
      [ apply String.eqb_eq in E; try rewrite E; clear E;
        try (destruct (parseLogging s));
        intros H; first [discriminate H | injection H as <-];
        cbn [String.eqb Ascii.eqb Bool.eqb]; cbn [Config.Includes Config.ACLs Config.Keys
          Config.KeyStores Config.RemoteServers Config.TLS Config.HTTP Config.Controls
          Config.Logging Config.Options Config.TrustAnchors Config.Views Config.Zones
          Config.set_Includes Config.set_ACLs Config.set_Keys Config.set_KeyStores
          Config.set_RemoteServers Config.set_TLS Config.set_HTTP Config.set_Controls
          Config.set_Logging Config.set_Options Config.set_TrustAnchors Config.set_Views
          Config.set_Zones];
        rewrite ?app_nil_r; reflexivity
      | ]
  end;
  intros H; injection H as <-;
  repeat match goal with
  | E : String.eqb (Keyword s) ?w = false |- context [String.eqb (Keyword s) ?w] =>
      rewrite E
  end;
  rewrite ?app_nil_r; reflexivity.

Lemma step_Includes : stepAppends Config.Includes "include" includeOf.
Proof. from_file_step. Qed.
Lemma step_ACLs : stepAppends Config.ACLs "acl" parseACL.
Proof. from_file_step. Qed.
Lemma step_Keys : stepAppends Config.Keys "key" parseKey.
Proof. from_file_step. Qed.
Lemma step_KeyStores : stepAppends Config.KeyStores "key-store" parseKeyStore.
Proof. from_file_step. Qed.
Lemma step_RemoteServers : stepAppends Config.RemoteServers "remote-servers" parseRemoteServers.
Proof. from_file_step. Qed.
Lemma step_TLS : stepAppends Config.TLS "tls" parseTLS.
Proof. from_file_step. Qed.
Lemma step_HTTP : stepAppends Config.HTTP "http" parseHTTP.
Proof. from_file_step. Qed.
Lemma step_TrustAnchors : stepAppends Config.TrustAnchors "trust-anchors" parseTrustAnchors.
Proof. from_file_step. Qed.
Lemma step_Views : stepAppends Config.Views "view" parseView.
Proof. from_file_step. Qed.
Lemma step_Zones : stepAppends Config.Zones "zone" parseZone.
Proof. from_file_step. Qed.
Lemma step_Controls : stepSets Config.Controls "controls" parseControls.
Proof. from_file_step. Qed.
Lemma step_Options : stepSets Config.Options "options" parseOptions.
Proof. from_file_step. Qed.

Lemma step_Logging (cfg cfg' : Config.t) (s : Stmt) :
  fromFileStep cfg s = Returns cfg' ->
  if String.eqb (Keyword s) "logging"
  then exists lg, parseLogging s = Returns lg /\ Config.Logging cfg' = Some lg
  else Config.Logging cfg' = Config.Logging cfg.
Proof.
  unfold fromFileStep, isKw, bind.
  repeat match goal with
  | |- context [if String.eqb (Keyword s) ?w then _ else _] =>
      let E := fresh "E" in
      destruct (String.eqb (Keyword s) w) eqn:E;
      [ apply String.eqb_eq in E; try rewrite E; clear E;
        try (destruct (parseLogging s) as [lg|msg]);
        intros H; first [discriminate H | injection H as <-];
        cbn [String.eqb Ascii.eqb Bool.eqb];
        first [reflexivity | exists lg; split; reflexivity]
      | ]
  end.
  intros H; injection H as <-.
  repeat match goal with
  | E : String.eqb (Keyword s) ?w = false |- context [String.eqb (Keyword s) ?w] =>
      rewrite E
  end.
  reflexivity.
Qed.

Lemma lastStmtOf_cons (k : string) (n : Node) (nodes : list Node) :
  lastStmtOf k (n :: nodes) =
  match lastStmtOf k nodes with
  | Some s => Some s
  | None => hd_error (stmtsOf k [n])
  end.
Proof.
  unfold lastStmtOf.
  replace (stmtsOf k (n :: nodes)) with (stmtsOf k [n] ++ stmtsOf k nodes)
    by (unfold stmtsOf; cbn [flat_map]; now rewrite app_nil_r).
  rewrite rev_app_distr.
  destruct (List.rev (stmtsOf k nodes)) as [|x l]; simpl.
  - destruct n as [s|t]; [destruct (String.eqb (Keyword s) k)|]; reflexivity.
  - reflexivity.
Qed.

Lemma forStmtsM_appends {X : Type} (get : Config.t -> list X) (k : string) (p : Stmt -> X) :
  stepAppends get k p ->
  forall nodes cfg cfg',
    forStmtsM fromFileStep nodes cfg = Returns cfg' ->
    get cfg' = get cfg ++ map p (stmtsOf k nodes).
Proof.
  intros Hstep. induction nodes as [|n nodes IH]; intros cfg cfg'; simpl.
  - intros H. injection H as <-. now rewrite app_nil_r.
  - destruct n as [s|t]; [|apply IH].
    destruct (fromFileStep cfg s) as [cfg1|msg] eqn:E; simpl; [|discriminate].
    intros H. rewrite (IH _ _ H), (Hstep _ _ _ E), <- app_assoc. f_equal.
    destruct (String.eqb (Keyword s) k); reflexivity.
Qed.

Lemma forStmtsM_sets {X : Type} (get : Config.t -> option X) (k : string) (p : Stmt -> X) :
  stepSets get k p ->
  forall nodes cfg cfg',
    forStmtsM fromFileStep nodes cfg = Returns cfg' ->
    get cfg' = match lastStmtOf k nodes with Some s => Some (p s) | None => get cfg end.
Proof.
  intros Hstep. induction nodes as [|n nodes IH]; intros cfg cfg'.
  - simpl. intros H. now injection H as <-.
  - rewrite lastStmtOf_cons. cbn [forStmtsM]. destruct n as [s|t].
    + destruct (fromFileStep cfg s) as [cfg1|msg] eqn:E; simpl; [|discriminate].
      intros H. rewrite (IH _ _ H), (Hstep _ _ _ E).
      destruct (lastStmtOf k nodes); [reflexivity|].
      destruct (String.eqb (Keyword s) k); reflexivity.
    + intros H. rewrite (IH _ _ H). destruct (lastStmtOf k nodes); reflexivity.
Qed.

Lemma forStmtsM_logging (nodes : list Node) (cfg cfg' : Config.t) :
  forStmtsM fromFileStep nodes cfg = Returns cfg' ->
  match lastStmtOf "logging" nodes with
  | Some s => exists lg, parseLogging s = Returns lg /\ Config.Logging cfg' = Some lg
  | None => Config.Logging cfg' = Config.Logging cfg
  end.
Proof.
  revert cfg cfg'. induction nodes as [|n nodes IH]; intros cfg cfg'.
  - simpl. intros H. now injection H as <-.
  - rewrite lastStmtOf_cons. cbn [forStmtsM]. destruct n as [s|t].
    + destruct (fromFileStep cfg s) as [cfg1|msg] eqn:E; simpl; [|discriminate].
      intros H. specialize (IH _ _ H). pose proof (step_Logging _ _ _ E) as Hs.
      destruct (lastStmtOf "logging" nodes); [exact IH|].
      destruct (String.eqb (Keyword s) "logging"); simpl.
      * destruct Hs as [lg [H1 H2]]. exists lg. split; [exact H1|]. congruence.
      * congruence.
    + intros H. specialize (IH _ _ H). destruct (lastStmtOf "logging" nodes); exact IH.
Qed.

Lemma FromFile_loop (f : File) (cfg : Config.t) (e : option error) :
  FromFile f = Returns (cfg, e) ->
  forStmtsM fromFileStep (Nodes f) (Config.set_ast (Some f) Config.zero) = Returns cfg.
Proof.
  unfold FromFile. destruct (forStmtsM _ _ _) as [c|msg]; simpl; [|discriminate].
  intros H. now injection H as <- _.
Qed.

(** X10 (decode keeps document order).  When [FromFile] returns, every
    slice of the model holds one entity per top-level statement of its
    keyword, in document order, each decoded from its own statement alone;
    no statement of another keyword and no raw fragment adds to it. *)
Theorem FromFile_collects_in_document_order (f : File) (cfg : Config.t) (e : option error) :
  FromFile f = Returns (cfg, e) ->
  Config.Includes cfg = map includeOf (stmtsOf "include" (Nodes f)) /\
  Config.ACLs cfg = map parseACL (stmtsOf "acl" (Nodes f)) /\
  Config.Keys cfg = map parseKey (stmtsOf "key" (Nodes f)) /\
  Config.KeyStores cfg = map parseKeyStore (stmtsOf "key-store" (Nodes f)) /\
  Config.RemoteServers cfg = map parseRemoteServers (stmtsOf "remote-servers" (Nodes f)) /\
  Config.TLS cfg = map parseTLS (stmtsOf "tls" (Nodes f)) /\
  Config.HTTP cfg = map parseHTTP (stmtsOf "http" (Nodes f)) /\
  Config.TrustAnchors cfg = map parseTrustAnchors (stmtsOf "trust-anchors" (Nodes f)) /\
  Config.Views cfg = map parseView (stmtsOf "view" (Nodes f)) /\
  Config.Zones cfg = map parseZone (stmtsOf "zone" (Nodes f)).
Proof.
  intros H. apply FromFile_loop in H.
  repeat split.
  - apply (forStmtsM_appends _ _ _ step_Includes _ _ _ H).
  - apply (forStmtsM_appends _ _ _ step_ACLs _ _ _ H).
  - apply (forStmtsM_appends _ _ _ step_Keys _ _ _ H).
  - apply (forStmtsM_appends _ _ _ step_KeyStores _ _ _ H).
  - apply (forStmtsM_appends _ _ _ step_RemoteServers _ _ _ H).
  - apply (forStmtsM_appends _ _ _ step_TLS _ _ _ H).
  - apply (forStmtsM_appends _ _ _ step_HTTP _ _ _ H).
  - apply (forStmtsM_appends _ _ _ step_TrustAnchors _ _ _ H).
  - apply (forStmtsM_appends _ _ _ step_Views _ _ _ H).
  - apply (forStmtsM_appends _ _ _ step_Zones _ _ _ H).
Qed.

(** X11 (the last singleton block decides).  When [FromFile] returns, the
    controls, options and logging pointers of the model hold the decoding
    of the last top-level statement of their keyword, and are nil when the
    document has none: an earlier block of the same keyword leaves no trace
    in the model. *)
Theorem FromFile_last_singleton_block_wins (f : File) (cfg : Config.t) (e : option error) :
  FromFile f = Returns (cfg, e) ->
  Config.Controls cfg = option_map parseControls (lastStmtOf "controls" (Nodes f)) /\
  Config.Options cfg = option_map parseOptions (lastStmtOf "options" (Nodes f)) /\
  match lastStmtOf "logging" (Nodes f) with
  | Some s => exists lg, parseLogging s = Returns lg /\ Config.Logging cfg = Some lg
  | None => Config.Logging cfg = None
  end.
Proof.
  intros H. apply FromFile_loop in H. split; [|split].
  - rewrite (forStmtsM_sets _ _ _ step_Controls _ _ _ H).
    destruct (lastStmtOf "controls" (Nodes f)); reflexivity.
  - rewrite (forStmtsM_sets _ _ _ step_Options _ _ _ H).
    destruct (lastStmtOf "options" (Nodes f)); reflexivity.
  - apply (forStmtsM_logging _ _ _ H).
Qed.

Lemma FromFile_collects_in_document_order_witness :
  FromFile sampleDocument = Returns (decodedSampleModel, None) /\
  Config.Views decodedSampleModel
  = map parseView (stmtsOf "view" (Nodes sampleDocument)) /\
  Config.ACLs decodedSampleModel
  = map parseACL (stmtsOf "acl" (Nodes sampleDocument)).
Proof.
  split; [vm_compute; reflexivity|].
  destruct (FromFile_collects_in_document_order sampleDocument decodedSampleModel None)
    as (_ & Hacl & _ & _ & _ & _ & _ & _ & Hview & _).
  - vm_compute. reflexivity.
  - split; assumption.
Defined.

Lemma FromFile_last_singleton_block_wins_witness :
  FromFile twoOptionsDocument = Returns (decodedTwoOptionsModel, None) /\
  Config.Options decodedTwoOptionsModel
  = option_map parseOptions (lastStmtOf "options" (Nodes twoOptionsDocument)) /\
  Config.Controls decodedTwoOptionsModel
  = option_map parseControls (lastStmtOf "controls" (Nodes twoOptionsDocument)).
Proof.
  split; [vm_compute; reflexivity|].
  destruct (FromFile_last_singleton_block_wins twoOptionsDocument decodedTwoOptionsModel None)
    as (Hctl & Hopt & _).
  - vm_compute. reflexivity.
  - split; assumption.
Defined.

(* ================================================================= *)
(** ** Encode: applying again, applying an empty model, decoding the result *)

Section ApplyLaws.

Context {A : Adapter}.

Lemma File_eq (f g : File) : Nodes f = Nodes g -> f = g.
Proof. destruct f, g. simpl. now intros ->. Qed.

Lemma Apply_inl (c : Config.t) (arg : option File) (c1 : Config.t) (f1 : File) :
  Apply c arg = inl (c1, f1) ->
  exists f, backing c arg = Some f /\ f1 = syncAll c f /\ c1 = Config.set_ast (Some f1) c.
Proof.
  unfold Apply, backing. destruct arg as [g|].
  - intros H. injection H as <- <-. eauto.
  - destruct (Config.ast c) as [g|]; [|discriminate].
    intros H. injection H as <- <-. eauto.
Qed.

Lemma syncAll_set_ast (c : Config.t) (a : option File) (f : File) :
  syncAll (Config.set_ast a c) f = syncAll c f.
Proof. reflexivity. Qed.

Lemma holdsNothing_fresh (c : Config.t) :
  holdsNothing c = true -> Nodes (syncAll c (mkFile [])) = [].
Proof.
  intros H.
  assert (Hk : forall k, In k modeledKeywords -> entityCount c k = 0).
  { intros k Hk. unfold holdsNothing in H. rewrite forallb_forall in H.
    now apply Nat.eqb_eq, H. }
  pose proof (Hk "include") as H1. pose proof (Hk "acl") as H2.
  pose proof (Hk "key") as H3. pose proof (Hk "key-store") as H4.
  pose proof (Hk "remote-servers") as H5. pose proof (Hk "tls") as H6.
  pose proof (Hk "http") as H7. pose proof (Hk "controls") as H8.
  pose proof (Hk "logging") as H9. pose proof (Hk "options") as H10.
  pose proof (Hk "trust-anchors") as H11. pose proof (Hk "view") as H12.
  pose proof (Hk "zone") as H13. clear H Hk.
  unfold modeledKeywords in *.
  destruct c as [inc acls keys ks rs tls http ctl lg op ta vs zs a].
  unfold entityCount in *. cbn in *.
  specialize (H1 ltac:(tauto)). specialize (H2 ltac:(tauto)). specialize (H3 ltac:(tauto)).
  specialize (H4 ltac:(tauto)). specialize (H5 ltac:(tauto)). specialize (H6 ltac:(tauto)).
  specialize (H7 ltac:(tauto)). specialize (H8 ltac:(tauto)). specialize (H9 ltac:(tauto)).
  specialize (H10 ltac:(tauto)). specialize (H11 ltac:(tauto)). specialize (H12 ltac:(tauto)).
  specialize (H13 ltac:(tauto)).
  apply length_zero_iff_nil in H1, H2, H3, H4, H5, H6, H7, H11, H12, H13. subst.
  destruct ctl; [discriminate|]. destruct lg; [discriminate|]. destruct op; [discriminate|].
  reflexivity.
Qed.

(** X13 (an empty model).  [Apply] of a model that holds no entity removes
    every statement of a modeled keyword from the document and adds
    nothing: what is left is exactly the other nodes of the input, in
    order.  No property of the statement constructors is needed. *)
Theorem Apply_of_empty_model_strips_modeled_statements
  (c : Config.t) (arg : option File) (f : File) :
  holdsNothing c = true -> backing c arg = Some f ->
  Apply c arg
  = inl (Config.set_ast (Some (mkFile (untouched (Nodes f)))) c,
         mkFile (untouched (Nodes f))).
Proof.
  intros Hc Hb. rewrite (Apply_backing c arg f Hb).
  assert (E : syncAll c f = mkFile (untouched (Nodes f))).
  { apply File_eq. rewrite syncAll_split, (holdsNothing_fresh c Hc). cbn [Nodes].
    apply app_nil_r. }
  now rewrite E.
Qed.

Hypothesis simple_keyword :
  forall line, wellHeaded line = true -> Keyword (NewSimpleStmt line) = leadWord line.
Hypothesis block_keyword :
  forall head body, wellHeaded head = true -> Keyword (NewBlockStmt head body) = leadWord head.

(** X12 (applying again).  Under the keyword law a successful [Apply] is a
    fixed point: applying the model again, to the document it has just
    written or to its own backing tree, returns the same model and the same
    document, node for node. *)
Theorem Apply_again_changes_nothing
  (c : Config.t) (arg : option File) (c1 : Config.t) (f1 : File) :
  Apply c arg = inl (c1, f1) ->
  Apply c1 None = inl (c1, f1) /\ Apply c1 (Some f1) = inl (c1, f1).
Proof.
  intros H. destruct (Apply_inl c arg c1 f1 H) as [f [Hb [Hf1 Hc1]]].
  assert (E : syncAll c1 f1 = f1).
  { rewrite Hc1, syncAll_set_ast. apply File_eq.
    rewrite (syncAll_layout simple_keyword block_keyword c f1).
    rewrite Hf1 at 1. rewrite (untouched_syncAll simple_keyword block_keyword c f).
    rewrite Hf1. symmetry. apply (syncAll_layout simple_keyword block_keyword). }
  assert (Hs : Config.set_ast (Some f1) c1 = c1).
  { rewrite Hc1. reflexivity. }
  assert (Ha : Config.ast c1 = Some f1) by (rewrite Hc1; reflexivity).
  split.
  - unfold Apply. rewrite Ha, E, Hs. reflexivity.
  - unfold Apply. rewrite E, Hs. reflexivity.
Qed.

(** X14 (decoding what was written).  Under the keyword law, decoding the
    document a successful [Apply] has written never fails with an error
    value, points the decoded model at that document, and finds as many
    entities of every modeled keyword as the applied model held: the
    statements of modeled keywords the input had add nothing. *)
Theorem FromFile_after_Apply_counts_the_model
  (c : Config.t) (arg : option File) (c1 : Config.t) (f1 : File)
  (M : Config.t) (e : option error) :
  Apply c arg = inl (c1, f1) ->
  FromFile f1 = Returns (M, e) ->
  e = None /\ Config.ast M = Some f1 /\
  forall k, In k modeledKeywords -> entityCount M k = entityCount c k.
Proof.
  intros H HM. destruct (Apply_inl c arg c1 f1 H) as [f [Hb [Hf1 Hc1]]].
  split; [exact (FromFile_error_nil _ _ _ HM)|].
  split; [exact (FromFile_ast _ _ _ HM)|].
  intros k Hk. rewrite Hf1 in HM.
  exact (decode_encode_count simple_keyword block_keyword c M f e k Hk HM).
Qed.

End ApplyLaws.

Lemma Apply_of_empty_model_strips_modeled_statements_witness :
  holdsNothing Config.zero = true /\
  Apply (A := refAdapter) Config.zero (Some sampleDocument)
  = inl (Config.set_ast (Some (mkFile (untouched (Nodes sampleDocument)))) Config.zero,
         mkFile (untouched (Nodes sampleDocument))).
Proof.
  split; [reflexivity|].
  apply (@Apply_of_empty_model_strips_modeled_statements refAdapter Config.zero
           (Some sampleDocument) sampleDocument); reflexivity.
Defined.

Lemma Apply_again_changes_nothing_witness :
  Apply (A := refAdapter) nestedAclModel (Some sampleDocument)
  = inl (Config.set_ast (Some (syncAll (A := refAdapter) nestedAclModel sampleDocument))
           nestedAclModel,
         syncAll (A := refAdapter) nestedAclModel sampleDocument) /\
  Apply (A := refAdapter)
    (Config.set_ast (Some (syncAll (A := refAdapter) nestedAclModel sampleDocument))
       nestedAclModel) None
  = inl (Config.set_ast (Some (syncAll (A := refAdapter) nestedAclModel sampleDocument))
           nestedAclModel,
         syncAll (A := refAdapter) nestedAclModel sampleDocument).
Proof.
  split; [reflexivity|].
  apply (@Apply_again_changes_nothing refAdapter
           (fun _ _ => eq_refl) (fun _ _ _ => eq_refl)
           nestedAclModel (Some sampleDocument)).
  reflexivity.
Defined.

Lemma FromFile_after_Apply_counts_the_model_witness :
  Apply (A := refAdapter) nestedAclModel (Some sampleDocument)
  = inl (Config.set_ast (Some (syncAll (A := refAdapter) nestedAclModel sampleDocument))
           nestedAclModel,
         syncAll (A := refAdapter) nestedAclModel sampleDocument) /\
  FromFile (syncAll (A := refAdapter) nestedAclModel sampleDocument)
  = Returns (decodedNestedModel, None) /\
  forall k, In k modeledKeywords ->
    entityCount decodedNestedModel k = entityCount nestedAclModel k.
Proof.
  split; [reflexivity|]. split; [vm_compute; reflexivity|].
  apply (@FromFile_after_Apply_counts_the_model refAdapter
           (fun _ _ => eq_refl) (fun _ _ _ => eq_refl)
           nestedAclModel (Some sampleDocument)
           (Config.set_ast (Some (syncAll (A := refAdapter) nestedAclModel sampleDocument))
              nestedAclModel)
           (syncAll (A := refAdapter) nestedAclModel sampleDocument)
           decodedNestedModel None).
  - reflexivity.
  - vm_compute. reflexivity.
Defined.

(* ================================================================= *)
(** ** The codecs, from the bytes up *)

(** *** Decimal numbers *)

Lemma digitsValue_acc (d : Decimal.uint) (acc : positive) :
  digitsValue (Z.pos acc) (NilEmpty.string_of_uint d) = Z.pos (Pos.of_uint_acc d acc).
Proof.
  revert acc.
  induction d; intros acc; cbn [NilEmpty.string_of_uint digitsValue Pos.of_uint_acc];
    [reflexivity| ..]; rewrite <- IHd; f_equal; unfold digitVal;
    match goal with
    | |- context [Z.of_nat ?t] =>
        let v := eval vm_compute in (Z.of_nat t) in change (Z.of_nat t) with v
    end; lia.
Qed.

Lemma digitsValue_of_uint (d : Decimal.uint) :
  digitsValue 0 (NilEmpty.string_of_uint d) = Z.of_N (Pos.of_uint d).
Proof.
  induction d; cbn [NilEmpty.string_of_uint digitsValue Pos.of_uint];
    [reflexivity | exact IHd | ..];
    cbn [Z.of_N]; rewrite <- digitsValue_acc; f_equal.
Qed.

Lemma allDigits_of_uint (d : Decimal.uint) : allDigits (NilEmpty.string_of_uint d) = true.
Proof. induction d; cbn [NilEmpty.string_of_uint allDigits]; [reflexivity| ..]; exact IHd. Qed.

Lemma to_uint_not_Nil (p : positive) : Pos.to_uint p <> Decimal.Nil.
Proof.
  intros E. pose proof (DecimalPos.Unsigned.of_to p) as H. rewrite E in H. discriminate H.
Qed.

Lemma Itoa_pos (p : positive) : Itoa (Z.pos p) = NilEmpty.string_of_uint (Pos.to_uint p).
Proof.
  unfold Itoa. cbn [Z.to_int NilZero.string_of_int NilZero.string_of_uint].
  pose proof (to_uint_not_Nil p). destruct (Pos.to_uint p); [contradiction| ..]; reflexivity.
Qed.

Lemma Itoa_neg (p : positive) : Itoa (Z.neg p) = "-" +++ Itoa (Z.pos p).
Proof.
  rewrite Itoa_pos. unfold Itoa. cbn [Z.to_int NilZero.string_of_int NilZero.string_of_uint].
  pose proof (to_uint_not_Nil p). destruct (Pos.to_uint p); [contradiction| ..]; reflexivity.
Qed.

Lemma digitsValue_Itoa (p : positive) : digitsValue 0 (Itoa (Z.pos p)) = Z.pos p.
Proof.
  rewrite Itoa_pos, digitsValue_of_uint, DecimalPos.Unsigned.of_to. reflexivity.
Qed.

Lemma Itoa_pos_digits (p : positive) :
  allDigits (Itoa (Z.pos p)) = true /\ Itoa (Z.pos p) <> "".
Proof.
  rewrite Itoa_pos. split; [apply allDigits_of_uint|].
  pose proof (to_uint_not_Nil p). destruct (Pos.to_uint p); [contradiction| ..]; discriminate.
Qed.

(** A string of digits is read without a sign. *)
Lemma Atoi_digits (s : string) :
  s <> "" -> allDigits s = true ->
  Atoi s = let v := digitsValue 0 s in
           if (v <? minInt)%Z then (minInt, false)
           else if (maxInt <? v)%Z then (maxInt, false) else (v, true).
Proof.
  intros Hne Hd. destruct s as [|c r]; [contradiction|].
  assert (Hc : isDigit c = true) by (simpl in Hd; now apply andb_true_iff in Hd).
  assert (Hb : (String c r =? "") = false) by reflexivity.
  unfold Atoi.
  destruct c as [[] [] [] [] [] [] [] []]; try discriminate Hc; rewrite ?Hb, ?Hd; reflexivity.
Qed.

Lemma Atoi_Itoa (n : Z) : (minInt <= n <= maxInt)%Z -> Atoi (Itoa n) = (n, true).
Proof.
  intros Hn. destruct n as [|p|p].
  - reflexivity.
  - destruct (Itoa_pos_digits p) as [Hd Hne].
    rewrite (Atoi_digits _ Hne Hd). cbv zeta. rewrite digitsValue_Itoa.
    destruct (Z.ltb_spec (Z.pos p) minInt); [lia|].
    destruct (Z.ltb_spec maxInt (Z.pos p)); [lia|]. reflexivity.
  - destruct (Itoa_pos_digits p) as [Hd Hne]. rewrite Itoa_neg.
    unfold Atoi. cbn [String.append].
    destruct (Itoa (Z.pos p)) as [|c r] eqn:E; [contradiction|].
    change (String c r =? "") with false. rewrite Hd. cbn [orb negb].
    rewrite <- E, digitsValue_Itoa.
    change (- Z.pos p)%Z with (Z.neg p).
    destruct (Z.ltb_spec (Z.neg p) minInt); [lia|].
    destruct (Z.ltb_spec maxInt (Z.neg p)); [lia|]. reflexivity.
Qed.

(** *** White space at the ends and between words *)

Lemma spaceWidth_graphic (c : ascii) (r : string) :
  isGraphic c = true -> spaceWidth (String c r) = 0.
Proof.
  intros H. destruct c as [[] [] [] [] [] [] [] []];
    first [ discriminate H | reflexivity ].
Qed.

Lemma spaceWidthRev_graphic (c : ascii) (r : string) :
  isGraphic c = true -> spaceWidthRev (String c r) = 0.
Proof.
  intros H. destruct c as [[] [] [] [] [] [] [] []];
    first [ discriminate H | reflexivity ].
Qed.

Lemma spaceWidth_blank (r : string) : spaceWidth (String " " r) = 1.
Proof. reflexivity. Qed.

Lemma spaceWidthRev_blank (r : string) : spaceWidthRev (String " " r) = 1.
Proof. reflexivity. Qed.

Lemma TrimLeftSpace_graphic (s : string) : startsGraphic s = true -> TrimLeftSpace s = s.
Proof.
  destruct s as [|c r]; [discriminate|]. simpl. intros H.
  unfold TrimLeftSpace. cbn [String.length trimLeftN]. now rewrite spaceWidth_graphic.
Qed.

Lemma TrimLeftSpace_blank (s : string) : TrimLeftSpace (String " " s) = TrimLeftSpace s.
Proof. reflexivity. Qed.

Lemma TrimRightSpace_graphic (s : string) : endsGraphic s = true -> TrimRightSpace s = s.
Proof.
  unfold endsGraphic, TrimRightSpace. intros H.
  destruct (rev s) as [|c r] eqn:E; [discriminate|]. simpl in H.
  rewrite <- (length_rev s), E. cbn [String.length trimLeftN].
  rewrite spaceWidthRev_graphic by assumption. rewrite <- E. apply rev_involutive.
Qed.

Lemma TrimRightSpace_blank (s : string) : TrimRightSpace (s +++ " ") = TrimRightSpace s.
Proof.
  unfold TrimRightSpace. rewrite rev_append, length_append, Nat.add_1_r.
  cbn [rev String.append]. cbn [trimLeftN]. rewrite spaceWidthRev_blank. reflexivity.
Qed.

Lemma TrimSpace_solid (s : string) : solid s = true -> TrimSpace s = s.
Proof.
  unfold solid. intros H. apply andb_true_iff in H. destruct H as [H1 H2].
  unfold TrimSpace. rewrite (TrimLeftSpace_graphic s H1). now apply TrimRightSpace_graphic.
Qed.

Lemma TrimSpace_blank_l (s : string) : TrimSpace (String " " s) = TrimSpace s.
Proof. reflexivity. Qed.

Lemma TrimSpace_blank_r (s : string) :
  startsGraphic s = true -> TrimSpace (s +++ " ") = TrimSpace s.
Proof.
  intros H. unfold TrimSpace. rewrite (TrimLeftSpace_graphic s H).
  rewrite TrimLeftSpace_graphic by (destruct s; [discriminate | exact H]).
  apply TrimRightSpace_blank.
Qed.

Lemma TrimSpace_empty : TrimSpace "" = "".
Proof. reflexivity. Qed.

Lemma startsGraphic_app (a b : string) :
  startsGraphic a = true -> startsGraphic (a +++ b) = true.
Proof. destruct a; [discriminate | exact (fun H => H)]. Qed.

Lemma endsGraphic_app (a b : string) :
  endsGraphic b = true -> endsGraphic (a +++ b) = true.
Proof. unfold endsGraphic. rewrite rev_append. apply startsGraphic_app. Qed.

Lemma endsGraphic_String (c : ascii) (b : string) :
  endsGraphic b = true -> endsGraphic (String c b) = true.
Proof. apply (endsGraphic_app (String c "") b). Qed.

Lemma solid_app (a b : string) :
  startsGraphic a = true -> endsGraphic b = true -> solid (a +++ b) = true.
Proof.
  intros H1 H2. unfold solid. now rewrite startsGraphic_app, endsGraphic_app.
Qed.

Lemma allBytes_app (p : ascii -> bool) (a b : string) :
  allBytes p (a +++ b) = allBytes p a && allBytes p b.
Proof. induction a as [|c a IH]; simpl; [reflexivity | now rewrite IH, andb_assoc]. Qed.

Lemma allBytes_rev (p : ascii -> bool) (s : string) : allBytes p (rev s) = allBytes p s.
Proof.
  induction s as [|c s IH]; [reflexivity|]. cbn [rev]. rewrite allBytes_app, IH. simpl.
  rewrite andb_true_r. apply andb_comm.
Qed.

Lemma allBytes_impl (p q : ascii -> bool) (s : string) :
  (forall c, p c = true -> q c = true) -> allBytes p s = true -> allBytes q s = true.
Proof.
  intros H. induction s as [|c s IH]; [reflexivity|]. simpl. rewrite !andb_true_iff.
  intros [H1 H2]. auto.
Qed.

Lemma isWord_solid (w : string) : isWord w = true -> solid w = true.
Proof.
  unfold isWord, solid, endsGraphic. rewrite !andb_true_iff. intros [Hne Hg]. split.
  - destruct w; [discriminate|]. simpl in Hg. now apply andb_true_iff in Hg.
  - rewrite <- allBytes_rev in Hg. destruct (rev w) as [|c r] eqn:E.
    + apply (f_equal String.length) in E. rewrite length_rev in E. destruct w; discriminate.
    + simpl in Hg. now apply andb_true_iff in Hg.
Qed.

(** *** Fields *)

Lemma fieldsAux_graphic (w s cur : string) :
  allBytes isGraphic w = true -> fieldsAux 0 cur (w +++ s) = fieldsAux 0 (cur +++ w) s.
Proof.
  revert cur. induction w as [|c w IH]; intros cur H.
  - now rewrite append_nil_r.
  - simpl in H. apply andb_true_iff in H. destruct H as [Hc Hw].
    cbn [String.append fieldsAux]. rewrite (spaceWidth_graphic c _ Hc).
    rewrite (IH _ Hw), append_assoc. reflexivity.
Qed.

Lemma fieldsAux_blank (cur s : string) :
  fieldsAux 0 cur (String " " s)
  = (if String.eqb cur "" then [] else [cur]) ++ fieldsAux 0 "" s.
Proof. reflexivity. Qed.

Lemma isWord_parts (w : string) :
  isWord w = true -> (w =? "") = false /\ allBytes isGraphic w = true.
Proof.
  unfold isWord. rewrite andb_true_iff, negb_true_iff. auto.
Qed.

Lemma Fields_blank (s : string) : Fields (String " " s) = Fields s.
Proof. reflexivity. Qed.

Lemma Fields_cons (w rest : string) :
  isWord w = true -> Fields (w +++ String " " rest) = w :: Fields rest.
Proof.
  intros H. destruct (isWord_parts w H) as [Hne Hg]. unfold Fields.
  rewrite (fieldsAux_graphic w _ "" Hg). cbn [String.append].
  rewrite fieldsAux_blank, Hne. reflexivity.
Qed.

Lemma Fields_one (w : string) : isWord w = true -> Fields w = [w].
Proof.
  intros H. destruct (isWord_parts w H) as [Hne Hg]. unfold Fields.
  rewrite <- (append_nil_r w) at 1. rewrite (fieldsAux_graphic w "" "" Hg).
  cbn [String.append fieldsAux]. now rewrite Hne.
Qed.

Lemma Fields_empty : Fields "" = [].
Proof. reflexivity. Qed.

(** *** Split at the semicolon *)

Lemma HasPrefix_semi (c : ascii) (r : string) :
  HasPrefix (String c r) ";" = Ascii.eqb ";" c.
Proof. cbn [HasPrefix]. apply andb_true_r. Qed.

Lemma splitAux_lacks (w s cur : string) :
  lacks ";" w = true -> splitAux ";" 0 cur (w +++ s) = splitAux ";" 0 (cur +++ w) s.
Proof.
  revert cur. induction w as [|c w IH]; intros cur H.
  - now rewrite append_nil_r.
  - unfold lacks in H. simpl in H. apply andb_true_iff in H. destruct H as [Hc Hw].
    cbn [String.append splitAux]. rewrite HasPrefix_semi.
    rewrite Ascii.eqb_sym. apply negb_true_iff in Hc. rewrite Hc.
    rewrite (IH _ Hw), append_assoc. reflexivity.
Qed.

Lemma Split_cons (a rest : string) :
  lacks ";" a = true -> Split (a +++ String ";" rest) ";" = a :: Split rest ";".
Proof.
  intros H. unfold Split. rewrite (splitAux_lacks a _ "" H). reflexivity.
Qed.

Lemma Split_one (a : string) : lacks ";" a = true -> Split a ";" = [a].
Proof.
  intros H. unfold Split. rewrite <- (append_nil_r a) at 1.
  rewrite (splitAux_lacks a "" "" H). reflexivity.
Qed.

(** The pieces between semicolons come back. *)
Lemma Split_Join (ps : list string) :
  ps <> [] -> forallb (lacks ";") ps = true -> Split (Join ps ";") ";" = ps.
Proof.
  induction ps as [|p ps IH]; [contradiction|]. intros _ H.
  simpl in H. apply andb_true_iff in H. destruct H as [Hp Hps].
  destruct ps as [|q ps].
  - now apply Split_one.
  - change (Join (p :: q :: ps) ";") with (p +++ String ";" (Join (q :: ps) ";")).
    rewrite (Split_cons _ _ Hp). f_equal. apply IH; [discriminate | exact Hps].
Qed.

(** *** Quotes and braces *)

Lemma trimLeftSet_lacks (s : string) :
  lacks "034" s = true -> trimLeftSet dq s = s.
Proof.
  destruct s as [|c r]; [reflexivity|]. unfold lacks. simpl.
  intros H. apply andb_true_iff in H. destruct H as [Hc _].
  apply negb_true_iff in Hc. now rewrite Hc.
Qed.

Lemma trimLeftSet_quote (s : string) : trimLeftSet dq (dq +++ s) = trimLeftSet dq s.
Proof. reflexivity. Qed.

Lemma lacks_rev (c : ascii) (s : string) : lacks c (rev s) = lacks c s.
Proof. apply allBytes_rev. Qed.

Lemma lacks_app (c : ascii) (a b : string) : lacks c (a +++ b) = lacks c a && lacks c b.
Proof. apply allBytes_app. Qed.

Lemma Trim_quoted (s : string) : lacks "034" s = true -> Trim (quoted s) dq = s.
Proof.
  intros H. unfold Trim, quoted. rewrite trimLeftSet_quote.
  destruct s as [|c r].
  - reflexivity.
  - assert (E : trimLeftSet dq (String c r +++ dq) = String c r +++ dq).
    { unfold lacks in H. simpl in H. apply andb_true_iff in H. destruct H as [Hc _].
      apply negb_true_iff in Hc. simpl. now rewrite Hc. }
    rewrite E, rev_append. change (rev dq) with dq. rewrite trimLeftSet_quote.
    rewrite trimLeftSet_lacks by now rewrite lacks_rev.
    apply rev_involutive.
Qed.

Lemma Trim_lacks (s : string) : lacks "034" s = true -> Trim s dq = s.
Proof.
  intros H. unfold Trim. rewrite (trimLeftSet_lacks s H).
  rewrite trimLeftSet_lacks by now rewrite lacks_rev.
  apply rev_involutive.
Qed.

Lemma quoted_solid (s : string) : solid (quoted s) = true.
Proof.
  unfold solid, quoted, endsGraphic. rewrite !rev_append. reflexivity.
Qed.

Lemma trimQuotes_quoted (s : string) : lacks "034" s = true -> trimQuotes (quoted s) = s.
Proof.
  intros H. unfold trimQuotes. rewrite (TrimSpace_solid _ (quoted_solid s)).
  now apply Trim_quoted.
Qed.

Lemma quoted_isWord (s : string) : allBytes isGraphic s = true -> isWord (quoted s) = true.
Proof.
  intros H. unfold isWord, quoted. rewrite !allBytes_app, H. reflexivity.
Qed.

Lemma drop_app_length (a b : string) : drop (String.length a) (a +++ b) = b.
Proof. induction a as [|c a IH]; [reflexivity | exact IH]. Qed.

Lemma take_app_length (a b : string) : take (String.length a) (a +++ b) = a.
Proof. induction a as [|c a IH]; [reflexivity | simpl; now rewrite IH]. Qed.

Lemma HasPrefix_app (p s : string) : HasPrefix (p +++ s) p = true.
Proof.
  induction p as [|c p IH]; [reflexivity|]. simpl. now rewrite Ascii.eqb_refl.
Qed.

Lemma TrimPrefix_app (p s : string) : TrimPrefix (p +++ s) p = s.
Proof. unfold TrimPrefix. rewrite HasPrefix_app. apply drop_app_length. Qed.

Lemma TrimSuffix_app (s p : string) : TrimSuffix (s +++ p) p = s.
Proof.
  unfold TrimSuffix, HasSuffix. rewrite rev_append, HasPrefix_app.
  rewrite length_append. replace (String.length s + String.length p - String.length p)
    with (String.length s) by lia.
  apply take_app_length.
Qed.

(** *** Lists between braces *)

Lemma fold_left_pieces {T : Type} (f : list T -> string -> list T) (g : string -> list T) :
  (forall out p, f out p = out ++ g p) ->
  forall ps acc, fold_left f ps acc = acc ++ flat_map g ps.
Proof.
  intros H. induction ps as [|p ps IH]; intros acc; simpl.
  - now rewrite app_nil_r.
  - rewrite IH, H, <- app_assoc. reflexivity.
Qed.

Lemma Split_tail (r : string) (items : list string) :
  forallb (lacks ";") items = true -> lacks ";" r = true -> items <> [] ->
  Split (" " +++ Join items "; " +++ ";" +++ r) ";" = map (fun y => " " +++ y) items ++ [r].
Proof.
  intros Hi Hr. induction items as [|x rest IH]; [contradiction|]. intros _.
  simpl in Hi. apply andb_true_iff in Hi. destruct Hi as [Hx Hrest].
  assert (Hbx : lacks ";" (" " +++ x) = true) by exact Hx.
  destruct rest as [|y rest].
  - cbn [Join map app]. rewrite <- append_assoc.
    change (";" +++ r) with (String ";" r). rewrite (Split_cons _ _ Hbx).
    now rewrite (Split_one r Hr).
  - change (Join (x :: y :: rest) "; ") with (x +++ "; " +++ Join (y :: rest) "; ").
    replace (" " +++ (x +++ "; " +++ Join (y :: rest) "; ") +++ ";" +++ r)
      with ((" " +++ x) +++ String ";" (" " +++ Join (y :: rest) "; " +++ ";" +++ r)).
    + rewrite (Split_cons _ _ Hbx). cbn [map app]. f_equal.
      apply IH; [exact Hrest | discriminate].
    + rewrite !append_assoc. reflexivity.
Qed.

Lemma Split_block (l r : string) (items : list string) :
  forallb (lacks ";") items = true -> lacks ";" l = true -> lacks ";" r = true ->
  Split (l +++ Join items "; " +++ ";" +++ r) ";" = piecesOf l r items.
Proof.
  intros Hi Hl Hr. unfold piecesOf. destruct items as [|x rest].
  - cbn [Join String.append]. change (";" +++ r) with (String ";" r).
    rewrite (Split_cons _ _ Hl). now rewrite (Split_one r Hr).
  - simpl in Hi. apply andb_true_iff in Hi. destruct Hi as [Hx Hrest].
    assert (Hlx : lacks ";" (l +++ x) = true) by now rewrite lacks_app, Hl, Hx.
    destruct rest as [|y rest].
    + cbn [Join map app]. rewrite <- append_assoc.
      change (";" +++ r) with (String ";" r). rewrite (Split_cons _ _ Hlx).
      now rewrite (Split_one r Hr).
    + change (Join (x :: y :: rest) "; ") with (x +++ "; " +++ Join (y :: rest) "; ").
      replace (l +++ (x +++ "; " +++ Join (y :: rest) "; ") +++ ";" +++ r)
        with ((l +++ x) +++ String ";" (" " +++ Join (y :: rest) "; " +++ ";" +++ r)).
      * rewrite (Split_cons _ _ Hlx). cbn [app]. f_equal.
        apply Split_tail; [exact Hrest | exact Hr | discriminate].
      * rewrite !append_assoc. reflexivity.
Qed.

Lemma Join_starts (items : list string) (t : string) :
  forallb solid items = true -> startsGraphic t = true ->
  startsGraphic (Join items "; " +++ t) = true.
Proof.
  intros H Ht. destruct items as [|x rest]; [exact Ht|].
  simpl in H. apply andb_true_iff in H. destruct H as [Hx _].
  unfold solid in Hx. apply andb_true_iff in Hx. destruct Hx as [Hx _].
  destruct rest; cbn [Join]; rewrite ?append_assoc; now apply startsGraphic_app.
Qed.

(** What is between the braces of a list the encoders wrote. *)
Lemma stripBraces_blockOf (items : list string) :
  forallb solid items = true ->
  stripBraces (blockOf items) = Join items "; " +++ ";".
Proof.
  intros H. unfold stripBraces, blockOf.
  assert (S1 : solid ("{ " +++ Join items "; " +++ "; }") = true).
  { apply (solid_app "{ " (Join items "; " +++ "; }")); [reflexivity|].
    apply endsGraphic_app. reflexivity. }
  rewrite (TrimSpace_solid _ S1).
  change ("{ " +++ Join items "; " +++ "; }") with ("{" +++ " " +++ Join items "; " +++ "; }").
  rewrite HasPrefix_app, TrimPrefix_app.
  replace (" " +++ Join items "; " +++ "; }")
    with ((" " +++ (Join items "; " +++ ";") +++ " ") +++ "}")
    by (cbn [String.append]; now rewrite !append_assoc).
  rewrite TrimSuffix_app. cbn [String.append]. rewrite TrimSpace_blank_l.
  assert (S2 : startsGraphic (Join items "; " +++ ";") = true)
    by (apply Join_starts; [exact H | reflexivity]).
  rewrite (TrimSpace_blank_r _ S2). apply TrimSpace_solid.
  unfold solid. rewrite S2. apply endsGraphic_app. reflexivity.
Qed.

Lemma flat_map_map {X Y Z : Type} (f : X -> Y) (g : Y -> list Z) (l : list X) :
  flat_map g (map f l) = flat_map (fun x => g (f x)) l.
Proof. induction l as [|x l IH]; simpl; [reflexivity | now rewrite IH]. Qed.

Lemma flat_map_singletons {X Y : Type} (f : X -> list Y) (g : X -> Y) (l : list X) :
  (forall x, In x l -> f x = [g x]) -> flat_map f l = map g l.
Proof.
  induction l as [|x l IH]; intros H; simpl; [reflexivity|].
  rewrite (H x (or_introl eq_refl)), IH; [reflexivity|]. intros y Hy. apply H. now right.
Qed.

(** The loop over the pieces of a braced list finds the items again, when
    each item is read back from its own text. *)
Lemma pieces_round_trip {T : Type} (h : string -> list T) (ser : T -> string)
  (l r : string) (xs : list T) :
  h "" = [] -> TrimSpace l = "" -> TrimSpace r = "" ->
  (forall x, In x xs ->
     TrimSpace (l +++ ser x) = ser x /\ TrimSpace (" " +++ ser x) = ser x /\
     h (ser x) = [x]) ->
  flat_map (fun p => h (TrimSpace p)) (piecesOf l r (map ser xs)) = xs.
Proof.
  intros H0 Hl Hr H. unfold piecesOf. rewrite flat_map_app. cbn [flat_map].
  rewrite Hr, H0, !app_nil_r.
  destruct xs as [|x rest]; cbn [map flat_map].
  - now rewrite Hl, H0.
  - destruct (H x (or_introl eq_refl)) as [E1 [_ E3]]. rewrite E1, E3. cbn [app]. f_equal.
    rewrite !flat_map_map. rewrite <- (map_id rest) at 2.
    apply flat_map_singletons. intros y Hy.
    destruct (H y (or_intror Hy)) as [_ [E2 E4]]. now rewrite E2, E4.
Qed.

(** *** Names and numbers as words *)

Lemma isName_graphic (s : string) : isName s = true -> allBytes isGraphic s = true.
Proof.
  apply allBytes_impl. intros c H. unfold isNameByte in H.
  rewrite !andb_true_iff in H. tauto.
Qed.

Lemma isName_lacks_quote (s : string) : isName s = true -> lacks "034" s = true.
Proof.
  apply allBytes_impl. intros c H. unfold isNameByte in H.
  rewrite !andb_true_iff in H. tauto.
Qed.

Lemma isName_lacks_semi (s : string) : isName s = true -> lacks ";" s = true.
Proof.
  apply allBytes_impl. intros c H. unfold isNameByte in H.
  rewrite !andb_true_iff in H. tauto.
Qed.

Lemma isName_lacks_brace (s : string) : isName s = true -> lacks "{" s = true.
Proof.
  apply allBytes_impl. intros c H. unfold isNameByte in H.
  rewrite !andb_true_iff in H. tauto.
Qed.

Lemma isName_isWord (s : string) : (s =? "") = false -> isName s = true -> isWord s = true.
Proof.
  intros Hne H. unfold isWord. now rewrite Hne, (isName_graphic s H).
Qed.

Lemma allDigits_bytes (p : ascii -> bool) (s : string) :
  (forall c, isDigit c = true -> p c = true) -> allDigits s = true -> allBytes p s = true.
Proof.
  intros H. induction s as [|c s IH]; [reflexivity|]. simpl. rewrite !andb_true_iff.
  intros [H1 H2]. auto.
Qed.

Lemma Itoa_bytes (p : ascii -> bool) (n : Z) :
  (forall c, isDigit c = true -> p c = true) -> p "-"%char = true ->
  allBytes p (Itoa n) = true.
Proof.
  intros Hd Hm. destruct n as [|q|q].
  - cbn. rewrite Hd; reflexivity.
  - apply (allDigits_bytes p _ Hd). apply Itoa_pos_digits.
  - rewrite Itoa_neg. cbn [String.append allBytes]. rewrite Hm.
    apply (allDigits_bytes p _ Hd). apply Itoa_pos_digits.
Qed.

Lemma isDigit_cases (p : ascii -> bool) :
  p "0"%char = true -> p "1"%char = true -> p "2"%char = true -> p "3"%char = true ->
  p "4"%char = true -> p "5"%char = true -> p "6"%char = true -> p "7"%char = true ->
  p "8"%char = true -> p "9"%char = true ->
  forall c, isDigit c = true -> p c = true.
Proof.
  intros H0 H1 H2 H3 H4 H5 H6 H7 H8 H9 c H.
  destruct c as [[] [] [] [] [] [] [] []]; first [discriminate H | assumption].
Qed.

Lemma Itoa_isName (n : Z) : isName (Itoa n) = true.
Proof. apply Itoa_bytes; [apply isDigit_cases|]; reflexivity. Qed.

Lemma Itoa_nonempty (n : Z) : (Itoa n =? "") = false.
Proof.
  destruct n as [|q|q]; [reflexivity | | rewrite Itoa_neg; reflexivity].
  destruct (Itoa_pos_digits q) as [_ H]. destruct (Itoa (Z.pos q)); [contradiction | reflexivity].
Qed.

Lemma Itoa_isWord (n : Z) : isWord (Itoa n) = true.
Proof. apply isName_isWord; [apply Itoa_nonempty | apply Itoa_isName]. Qed.

Lemma inIntRange_Atoi (n : Z) : inIntRange n = true -> Atoi (Itoa n) = (n, true).
Proof.
  unfold inIntRange. rewrite andb_true_iff, !Z.leb_le. apply Atoi_Itoa.
Qed.

Lemma Fields_words (ws : list string) :
  forallb isWord ws = true -> Fields (Join ws " ") = ws.
Proof.
  induction ws as [|w ws IH]; [reflexivity|]. simpl forallb. rewrite andb_true_iff.
  intros [Hw Hws]. destruct ws as [|v ws].
  - now apply Fields_one.
  - change (Join (w :: v :: ws) " ") with (w +++ String " " (Join (v :: ws) " ")).
    rewrite (Fields_cons _ _ Hw). f_equal. now apply IH.
Qed.

Lemma words_solid (ws : list string) :
  forallb isWord ws = true -> ws <> [] -> solid (Join ws " ") = true.
Proof.
  induction ws as [|w ws IH]; [contradiction|]. simpl forallb. rewrite andb_true_iff.
  intros [Hw Hws] _. pose proof (isWord_solid w Hw) as S.
  destruct ws as [|v ws]; [exact S|].
  change (Join (w :: v :: ws) " ") with (w +++ String " " (Join (v :: ws) " ")).
  unfold solid in S. apply andb_true_iff in S. destruct S as [S1 _].
  apply solid_app; [exact S1|]. apply endsGraphic_String.
  assert (H : solid (Join (v :: ws) " ") = true) by (apply IH; [exact Hws | discriminate]).
  unfold solid in H. apply andb_true_iff in H. tauto.
Qed.

Lemma words_lack (c : ascii) (ws : list string) :
  forallb (lacks c) ws = true -> Ascii.eqb " " c = false -> lacks c (Join ws " ") = true.
Proof.
  intros H Hc. induction ws as [|w ws IH]; [reflexivity|]. simpl in H.
  apply andb_true_iff in H. destruct H as [Hw Hws]. destruct ws as [|v ws]; [exact Hw|].
  change (Join (w :: v :: ws) " ") with (w +++ String " " (Join (v :: ws) " ")).
  rewrite lacks_app, Hw. unfold lacks at 1. cbn [allBytes]. rewrite Hc.
  exact (IH Hws).
Qed.

(** *** String lists *)

Lemma blockOf_solid (items : list string) : solid (blockOf items) = true.
Proof.
  unfold blockOf. apply (solid_app "{ " (Join items "; " +++ "; }")); [reflexivity|].
  apply endsGraphic_app. reflexivity.
Qed.

Lemma blockOf_inner (items : list string) :
  TrimSuffix (TrimPrefix (blockOf items) "{") "}" = " " +++ Join items "; " +++ ";" +++ " ".
Proof.
  unfold blockOf.
  change ("{ " +++ Join items "; " +++ "; }") with ("{" +++ " " +++ Join items "; " +++ "; }").
  rewrite TrimPrefix_app.
  replace (" " +++ Join items "; " +++ "; }")
    with ((" " +++ Join items "; " +++ ";" +++ " ") +++ "}")
    by (cbn [String.append]; now rewrite !append_assoc).
  apply TrimSuffix_app.
Qed.

Lemma HasPrefix_blockOf (items : list string) : HasPrefix (blockOf items) "{" = true.
Proof. reflexivity. Qed.

Lemma nonempty_solid (s : string) : solid s = true -> (s =? "") = false.
Proof. destruct s; [discriminate | reflexivity]. Qed.

Lemma parseStringList_pieces (raw : string) :
  parseStringList raw =
  flat_map (fun p => stringOfPiece (TrimSpace p))
    (Split (let raw := TrimSpace raw in
            if HasPrefix raw "{" then TrimSuffix (TrimPrefix raw "{") "}" else raw) ";").
Proof.
  unfold parseStringList.
  rewrite (fold_left_pieces _ (fun p => stringOfPiece (TrimSpace p))); [reflexivity|].
  intros out p. unfold stringOfPiece. destruct (TrimSpace p =? ""); [now rewrite app_nil_r|].
  reflexivity.
Qed.

Lemma isListString_parts (s : string) :
  isListString s = true -> lacks "034" s = true /\ lacks ";" s = true.
Proof. unfold isListString. now rewrite andb_true_iff. Qed.

Lemma quoted_lacks_semi (s : string) : lacks ";" s = true -> lacks ";" (quoted s) = true.
Proof. intros H. unfold quoted. rewrite !lacks_app, H. reflexivity. Qed.

(** X17 (string lists).  The braced list an encoder writes for a list of
    strings, each in double quotes and followed by a semicolon, is read
    back as that list, in order, empty strings included, when no string
    holds a double quote or a semicolon; the empty list is read back as the
    empty list. *)
Theorem parseStringList_reads_back_quoted_list (ss : list string) :
  forallb isListString ss = true ->
  parseStringList ("{ " +++ Join (quoteEach ss) "; " +++ "; }") = ss.
Proof.
  intros H. change ("{ " +++ Join (quoteEach ss) "; " +++ "; }") with (blockOf (quoteEach ss)).
  rewrite parseStringList_pieces. cbv zeta.
  rewrite (TrimSpace_solid _ (blockOf_solid _)), HasPrefix_blockOf, blockOf_inner.
  rewrite forallb_forall in H.
  rewrite Split_block; [| | reflexivity | reflexivity].
  - unfold quoteEach. apply pieces_round_trip; try reflexivity.
    intros x Hx. destruct (isListString_parts x (H x Hx)) as [Hq Hs].
    change (" " +++ quoted x) with (String " " (quoted x)). rewrite TrimSpace_blank_l.
    rewrite (TrimSpace_solid _ (quoted_solid x)). repeat split.
    unfold stringOfPiece. rewrite (nonempty_solid _ (quoted_solid x)).
    now rewrite trimQuotes_quoted.
  - unfold quoteEach. rewrite forallb_forall. intros y Hy. apply in_map_iff in Hy.
    destruct Hy as [x [<- Hx]]. apply quoted_lacks_semi.
    now destruct (isListString_parts x (H x Hx)).
Qed.

(** *** Forwarders *)

Lemma serializeForwarders_blockOf (ff : list Forwarder.t) :
  serializeForwarders ff = blockOf (map serializeForwarder ff).
Proof. reflexivity. Qed.

Lemma parseForwarders_pieces (raw : string) :
  parseForwarders raw
  = flat_map (fun p => forwarderOfPiece (TrimSpace p)) (Split (stripBraces raw) ";").
Proof.
  unfold parseForwarders.
  rewrite (fold_left_pieces _ (fun p => forwarderOfPiece (TrimSpace p))); [reflexivity|].
  intros out p. unfold forwarderOfPiece. destruct (TrimSpace p =? ""); [now rewrite app_nil_r|].
  destruct (Fields (TrimSpace p)); [now rewrite app_nil_r | reflexivity].
Qed.

Lemma serializeForwarder_words (f : Forwarder.t) :
  serializeForwarder f = Join (forwarderWords f) " ".
Proof.
  unfold serializeForwarder, forwarderWords.
  destruct (Forwarder.Port f) as [n|]; destruct (Forwarder.TLS f =? "");
    cbn [app Join String.append]; rewrite ?append_nil_r; reflexivity.
Qed.

Lemma quoted_name_isWord (s : string) : isName s = true -> isWord (quoted s) = true.
Proof. intros H. apply quoted_isWord, isName_graphic, H. Qed.

Lemma quoted_name_lacks_semi (s : string) : isName s = true -> lacks ";" (quoted s) = true.
Proof. intros H. apply quoted_lacks_semi, isName_lacks_semi, H. Qed.

Lemma forwarderOk_parts (f : Forwarder.t) :
  forwarderOk f = true ->
  (Forwarder.Address f =? "") = false /\ isName (Forwarder.Address f) = true /\
  portOk (Forwarder.Port f) = true /\ isName (Forwarder.TLS f) = true.
Proof.
  unfold forwarderOk. rewrite !andb_true_iff, negb_true_iff. tauto.
Qed.

Lemma forwarderWords_ok (f : Forwarder.t) :
  forwarderOk f = true ->
  forallb isWord (forwarderWords f) = true /\ forallb (lacks ";") (forwarderWords f) = true.
Proof.
  intros H. destruct (forwarderOk_parts f H) as (Ha & Hn & Hp & Ht).
  unfold forwarderWords.
  rewrite !forallb_app. cbn [forallb].
  rewrite (isName_isWord _ Ha Hn), (isName_lacks_semi _ Hn).
  destruct (Forwarder.Port f) as [n|]; destruct (Forwarder.TLS f =? ""); cbn [forallb];
    rewrite ?Itoa_isWord, ?(isName_lacks_semi _ (Itoa_isName _)),
            ?(quoted_name_isWord _ Ht), ?(quoted_name_lacks_semi _ Ht);
    split; reflexivity.
Qed.

Lemma scanForwarder_words (f : Forwarder.t) :
  forwarderOk f = true ->
  match forwarderWords f with
  | f0 :: rest => scanForwarder (Forwarder.mk f0 None "") rest = f
  | [] => False
  end.
Proof.
  intros H. destruct (forwarderOk_parts f H) as (Ha & Hn & Hp & Ht).
  destruct f as [addr port tls]. cbn [Forwarder.Address Forwarder.Port Forwarder.TLS] in *.
  unfold forwarderWords. cbn [Forwarder.Address Forwarder.Port Forwarder.TLS app].
  destruct port as [n|]; destruct (tls =? "") eqn:Et;
    cbn [app scanForwarder String.eqb Ascii.eqb Bool.eqb];
    rewrite ?(inIntRange_Atoi n Hp), ?(trimQuotes_quoted _ (isName_lacks_quote _ Ht));
    cbn [Forwarder.set_Port Forwarder.set_TLS Forwarder.Address Forwarder.Port Forwarder.TLS
         scanForwarder];
    try (apply String.eqb_eq in Et; subst tls); reflexivity.
Qed.

Lemma forwarder_round_trip (f : Forwarder.t) :
  forwarderOk f = true ->
  solid (serializeForwarder f) = true /\ lacks ";" (serializeForwarder f) = true /\
  forwarderOfPiece (serializeForwarder f) = [f].
Proof.
  intros H. destruct (forwarderWords_ok f H) as [Hw Hs].
  pose proof (scanForwarder_words f H) as Hscan.
  rewrite serializeForwarder_words.
  assert (Hne : forwarderWords f <> []) by (unfold forwarderWords; discriminate).
  pose proof (words_solid _ Hw Hne) as S.
  split; [exact S|]. split; [now apply words_lack|].
  unfold forwarderOfPiece. rewrite (nonempty_solid _ S), (Fields_words _ Hw).
  destruct (forwarderWords f) as [|f0 rest]; [contradiction|]. now rewrite Hscan.
Qed.

Lemma block_round_trip {T : Type} (h : string -> list T) (ser : T -> string) (xs : list T) :
  h "" = [] ->
  (forall x, In x xs ->
     solid (ser x) = true /\ lacks ";" (ser x) = true /\ h (ser x) = [x]) ->
  flat_map (fun p => h (TrimSpace p)) (Split (stripBraces (blockOf (map ser xs))) ";") = xs.
Proof.
  intros H0 H.
  assert (Hsolid : forallb solid (map ser xs) = true).
  { rewrite forallb_forall. intros y Hy. apply in_map_iff in Hy.
    destruct Hy as [x [<- Hx]]. now destruct (H x Hx). }
  assert (Hsemi : forallb (lacks ";") (map ser xs) = true).
  { rewrite forallb_forall. intros y Hy. apply in_map_iff in Hy.
    destruct Hy as [x [<- Hx]]. now destruct (H x Hx) as [_ [? _]]. }
  rewrite (stripBraces_blockOf _ Hsolid).
  pose proof (Split_block "" "" (map ser xs) Hsemi eq_refl eq_refl) as E.
  cbn [String.append] in E. rewrite E.
  apply pieces_round_trip; try reflexivity; [exact H0|].
  intros x Hx. destruct (H x Hx) as (S & _ & Hh). cbn [String.append].
  rewrite TrimSpace_blank_l, (TrimSpace_solid _ S). auto.
Qed.

Lemma parseForwarders_serializeForwarders (ff : list Forwarder.t) :
  forallb forwarderOk ff = true -> parseForwarders (serializeForwarders ff) = ff.
Proof.
  intros H. rewrite parseForwarders_pieces, serializeForwarders_blockOf.
  apply block_round_trip; [reflexivity|].
  intros f Hf. apply forwarder_round_trip. rewrite forallb_forall in H. now apply H.
Qed.

(** *** Remote-server lists *)

Lemma serializeRemoteServerList_blockOf (items : list RemoteServerItem.t) :
  serializeRemoteServerList items = blockOf (map serializeRemoteServerItem items).
Proof. reflexivity. Qed.

Lemma parseRemoteServerListBody_pieces (raw : string) :
  parseRemoteServerListBody raw
  = flat_map (fun p => serverItemOfPiece (TrimSpace p)) (Split (stripBraces raw) ";").
Proof.
  unfold parseRemoteServerListBody.
  rewrite (fold_left_pieces _ (fun p => serverItemOfPiece (TrimSpace p))); [reflexivity|].
  intros out p. unfold serverItemOfPiece.
  destruct (TrimSpace p =? ""); [now rewrite app_nil_r | reflexivity].
Qed.

Lemma serializeRemoteServerItem_words (it : RemoteServerItem.t) :
  serializeRemoteServerItem it = Join (serverItemWords it) " ".
Proof.
  unfold serializeRemoteServerItem, serverItemWords.
  destruct (RemoteServerItem.Port it) as [n|];
    destruct (RemoteServerItem.Key it =? ""); destruct (RemoteServerItem.TLS it =? "");
    cbn [app Join String.append]; rewrite ?append_nil_r; reflexivity.
Qed.

Lemma serverItemOk_parts (it : RemoteServerItem.t) :
  serverItemOk it = true ->
  (RemoteServerItem.Address it =? "") = false /\ isName (RemoteServerItem.Address it) = true /\
  portOk (RemoteServerItem.Port it) = true /\
  isName (RemoteServerItem.Key it) = true /\ isName (RemoteServerItem.TLS it) = true.
Proof.
  unfold serverItemOk. rewrite !andb_true_iff, negb_true_iff. tauto.
Qed.

Lemma serverItemWords_ok (it : RemoteServerItem.t) :
  serverItemOk it = true ->
  forallb isWord (serverItemWords it) = true /\
  forallb (lacks ";") (serverItemWords it) = true.
Proof.
  intros H. destruct (serverItemOk_parts it H) as (Ha & Hn & Hp & Hk & Ht).
  unfold serverItemWords.
  rewrite !forallb_app. cbn [forallb].
  rewrite (isName_isWord _ Ha Hn), (isName_lacks_semi _ Hn).
  destruct (RemoteServerItem.Port it) as [n|];
    destruct (RemoteServerItem.Key it =? ""); destruct (RemoteServerItem.TLS it =? "");
    cbn [forallb];
    rewrite ?Itoa_isWord, ?(isName_lacks_semi _ (Itoa_isName _)),
            ?(quoted_name_isWord _ Ht), ?(quoted_name_lacks_semi _ Ht),
            ?(quoted_name_isWord _ Hk), ?(quoted_name_lacks_semi _ Hk);
    split; reflexivity.
Qed.

Lemma scanRemoteServerItem_words (it : RemoteServerItem.t) :
  serverItemOk it = true ->
  match serverItemWords it with
  | f0 :: rest =>
      scanRemoteServerItem (RemoteServerItem.set_Address f0 RemoteServerItem.zero) rest = it
  | [] => False
  end.
Proof.
  intros H. destruct (serverItemOk_parts it H) as (Ha & Hn & Hp & Hk & Ht).
  destruct it as [addr port key tls].
  cbn [RemoteServerItem.Address RemoteServerItem.Port RemoteServerItem.Key
       RemoteServerItem.TLS] in *.
  unfold serverItemWords.
  cbn [RemoteServerItem.Address RemoteServerItem.Port RemoteServerItem.Key
       RemoteServerItem.TLS app].
  destruct port as [n|]; destruct (key =? "") eqn:Ek; destruct (tls =? "") eqn:Et;
    cbn [app scanRemoteServerItem String.eqb Ascii.eqb Bool.eqb];
    rewrite ?(inIntRange_Atoi n Hp), ?(trimQuotes_quoted _ (isName_lacks_quote _ Ht)),
            ?(trimQuotes_quoted _ (isName_lacks_quote _ Hk));
    cbn [RemoteServerItem.set_Address RemoteServerItem.set_Port RemoteServerItem.set_Key
         RemoteServerItem.set_TLS RemoteServerItem.zero
         RemoteServerItem.Address RemoteServerItem.Port RemoteServerItem.Key
         RemoteServerItem.TLS scanRemoteServerItem];
    try (apply String.eqb_eq in Ek; subst key);
    try (apply String.eqb_eq in Et; subst tls); reflexivity.
Qed.

Lemma serverItem_round_trip (it : RemoteServerItem.t) :
  serverItemOk it = true ->
  solid (serializeRemoteServerItem it) = true /\
  lacks ";" (serializeRemoteServerItem it) = true /\
  parseRemoteServerItem (serializeRemoteServerItem it) = it.
Proof.
  intros H. destruct (serverItemWords_ok it H) as [Hw Hs].
  pose proof (scanRemoteServerItem_words it H) as Hscan.
  rewrite serializeRemoteServerItem_words.
  assert (Hne : serverItemWords it <> []) by (unfold serverItemWords; discriminate).
  pose proof (words_solid _ Hw Hne) as S.
  split; [exact S|]. split; [now apply words_lack|].
  unfold parseRemoteServerItem. rewrite (Fields_words _ Hw).
  destruct (serverItemWords it) as [|f0 rest]; [contradiction | exact Hscan].
Qed.

Lemma parseRemoteServerListBody_serializeRemoteServerList (items : list RemoteServerItem.t) :
  forallb serverItemOk items = true ->
  parseRemoteServerListBody (serializeRemoteServerList items) = items.
Proof.
  intros H. rewrite parseRemoteServerListBody_pieces, serializeRemoteServerList_blockOf.
  apply block_round_trip; [reflexivity|].
  intros it Hit. rewrite forallb_forall in H.
  destruct (serverItem_round_trip it (H it Hit)) as (S & L & P).
  split; [exact S|]. split; [exact L|].
  unfold serverItemOfPiece. now rewrite (nonempty_solid _ S), P.
Qed.

(** *** Flat match lists *)

Lemma HasPrefix_true (s p : string) :
  HasPrefix s p = true -> s = p +++ drop (String.length p) s.
Proof.
  revert s. induction p as [|c p IH]; intros s H; [reflexivity|].
  destruct s as [|d s]; [discriminate|]. simpl in H. apply andb_true_iff in H.
  destruct H as [Hc Hp]. apply Ascii.eqb_eq in Hc. subst d. simpl. f_equal. now apply IH.
Qed.

(** A text without the first byte of a prefix does not start with it. *)
Lemma HasPrefix_lacks (s p : string) (q : ascii -> bool) :
  allBytes q s = true -> allBytes q p = false -> HasPrefix s p = false.
Proof.
  intros Hs Hp. destruct (HasPrefix s p) eqn:E; [|reflexivity].
  rewrite (HasPrefix_true s p E), allBytes_app, Hp in Hs. discriminate Hs.
Qed.

Lemma Contains_byte (s : string) (c : ascii) :
  Contains s (String c "") = negb (lacks c s).
Proof.
  unfold Contains, lacks. induction s as [|d s IH]; [reflexivity|].
  cbn [Index HasPrefix allBytes]. rewrite andb_true_r, Ascii.eqb_sym.
  destruct (Ascii.eqb d c); [reflexivity|]. cbn [negb andb].
  rewrite <- IH. destruct (Index s (String c "")); reflexivity.
Qed.

Lemma Count_app (a b : string) (c : ascii) : Count (a +++ b) c = Count a c + Count b c.
Proof. induction a as [|d a IH]; simpl; [reflexivity | rewrite IH; lia]. Qed.

Lemma looksLikeAddress_quoted (s : string) : looksLikeAddress (quoted s) = looksLikeAddress s.
Proof.
  unfold looksLikeAddress, quoted. rewrite !Contains_byte, !lacks_app, !Count_app.
  cbn [dq lacks allBytes Count Ascii.eqb Bool.eqb negb andb]. rewrite !andb_true_r.
  rewrite !Nat.add_0_r. reflexivity.
Qed.

Lemma Join_semis (items : list string) :
  items <> [] -> Join (map (fun x => x +++ ";") items) " " = Join items "; " +++ ";".
Proof.
  induction items as [|x rest IH]; [contradiction|]. intros _.
  destruct rest as [|y rest]; [reflexivity|].
  change (Join (map (fun x => x +++ ";") (x :: y :: rest)) " ")
    with ((x +++ ";") +++ " " +++ Join (map (fun x => x +++ ";") (y :: rest)) " ").
  rewrite IH by discriminate.
  change (Join (x :: y :: rest) "; ") with (x +++ "; " +++ Join (y :: rest) "; ").
  rewrite !append_assoc. reflexivity.
Qed.

Lemma parseMatchListFromBodyRaw_pieces (raw : string) :
  parseMatchListFromBodyRaw raw
  = flat_map (fun p => termOfPiece (TrimSpace p)) (Split (stripBraces raw) ";").
Proof.
  unfold parseMatchListFromBodyRaw at 1. cbn [parseMatchListFuel].
  rewrite (fold_left_ext_in _ (matchListLoop parseMatchListFromBodyRaw)).
  - rewrite (fold_left_pieces _ (fun p => termOfPiece (TrimSpace p))); [reflexivity|].
    intros out p. apply matchListLoop_classify.
  - intros acc piece Hin. apply matchListLoop_ext. intros Hb.
    apply parseMatchListFuel_enough. now apply innerOf_shorter.
Qed.

Lemma isTermName_parts (s : string) :
  isTermName s = true ->
  (s =? "") = false /\ isName s = true /\ lacks "!" s = true.
Proof. unfold isTermName. rewrite !andb_true_iff, negb_true_iff. tauto. Qed.

(** A bare name or address: the piece is the text, and starts with none of
    the three markers. *)
Lemma bare_piece (s : string) :
  isTermName s = true ->
  solid s = true /\ lacks ";" s = true /\
  HasPrefix s "!" = false /\ HasPrefix s "key " = false /\ HasPrefix s "{" = false.
Proof.
  intros H. destruct (isTermName_parts s H) as (Hne & Hn & Hb).
  split; [apply isWord_solid, isName_isWord; assumption|].
  split; [now apply isName_lacks_semi|].
  split; [apply (HasPrefix_lacks s "!" _ Hb); reflexivity|].
  split; [apply (HasPrefix_lacks s "key " _ (isName_graphic s Hn)); reflexivity|].
  apply (HasPrefix_lacks s "{" _ (isName_lacks_brace s Hn)); reflexivity.
Qed.

Lemma classifyPlain_key (k : string) :
  lacks "034" k = true -> classifyPlain ("key " +++ quoted k) = KeyRef k.
Proof.
  intros H. unfold classifyPlain. rewrite HasPrefix_app, TrimPrefix_app.
  now rewrite trimQuotes_quoted.
Qed.

Lemma classifyPlain_address (a : string) :
  isTermName a = true -> looksLikeAddress a = true -> classifyPlain a = Literal a.
Proof.
  intros H Ha. destruct (bare_piece a H) as (_ & _ & _ & Hk & Hb).
  unfold classifyPlain. rewrite Hk, Hb. unfold looksLikeAddress in Ha. now rewrite Ha.
Qed.

Lemma classifyPlain_name (r : string) :
  isTermName r = true -> looksLikeAddress r = false ->
  classifyPlain (if needsQuotes r then quoted r else r) = AclRef r.
Proof.
  intros H Ha. destruct (bare_piece r H) as (S & _ & _ & Hk & Hb).
  destruct (isTermName_parts r H) as (_ & Hn & _).
  pose proof (isName_lacks_quote r Hn) as Hq.
  unfold classifyPlain. destruct (needsQuotes r).
  - change (HasPrefix (quoted r) "key ") with false.
    change (HasPrefix (quoted r) "{") with false.
    fold (looksLikeAddress (quoted r)). rewrite looksLikeAddress_quoted, Ha.
    now rewrite trimQuotes_quoted.
  - rewrite Hk, Hb. fold (looksLikeAddress r). rewrite Ha.
    unfold trimQuotes. rewrite (TrimSpace_solid r S). now rewrite Trim_lacks.
Qed.

(** The body of a flat term: its text without the negation mark. *)
Lemma flat_term_body (t : MatchTerm.t) :
  flatTermOk t = true ->
  exists body,
    termText t = (if MatchTerm.Not t then "!" else "") +++ body /\
    solid body = true /\ lacks ";" body = true /\ HasPrefix body "!" = false /\
    termOf (MatchTerm.Not t, classifyPlain body) = t.
Proof.
  destruct t as [neg addr key ref nested]. unfold flatTermOk, termText.
  cbn [MatchTerm.Not MatchTerm.Address MatchTerm.Key MatchTerm.ACLRef MatchTerm.Nested].
  destruct nested; [|discriminate].
  destruct (key =? "") eqn:Ek; cbn [negb].
  - apply String.eqb_eq in Ek. subst key.
    destruct (addr =? "") eqn:Ea; cbn [negb].
    + apply String.eqb_eq in Ea. subst addr. rewrite andb_true_iff, negb_true_iff.
      intros [Hr Hl]. destruct (isTermName_parts ref Hr) as (Hne & Hn & Hb).
      rewrite Hne. cbn [negb].
      exists (if needsQuotes ref then quoted ref else ref). split; [reflexivity|].
      destruct (bare_piece ref Hr) as (S & Hs & Hx & _ & _).
      rewrite (classifyPlain_name ref Hr Hl).
      destruct (needsQuotes ref).
      * split; [apply quoted_solid|]. split; [now apply quoted_lacks_semi|].
        split; reflexivity.
      * repeat split; assumption.
    + rewrite !andb_true_iff. intros [[Hr Hl] Hz]. apply String.eqb_eq in Hz. subst ref.
      exists addr. split; [reflexivity|].
      destruct (bare_piece addr Hr) as (S & Hs & Hx & _ & _).
      rewrite (classifyPlain_address addr Hr Hl). repeat split; assumption.
  - rewrite !andb_true_iff. intros [[Hk Ha] Hz].
    apply String.eqb_eq in Ha, Hz. subst addr ref.
    destruct (isListString_parts key Hk) as [Hq Hs].
    exists ("key " +++ quoted key). split; [reflexivity|].
    rewrite (classifyPlain_key key Hq).
    split; [apply (solid_app "key " (quoted key)); [reflexivity | apply quoted_solid]|].
    split; [rewrite lacks_app, (quoted_lacks_semi key Hs); reflexivity|].
    split; reflexivity.
Qed.

Lemma flat_term_round_trip (t : MatchTerm.t) :
  flatTermOk t = true ->
  solid (termText t) = true /\ lacks ";" (termText t) = true /\
  termOfPiece (termText t) = [t].
Proof.
  intros H. destruct (flat_term_body t H) as (body & E & S & Hs & Hx & Ht).
  rewrite E. unfold solid in S. apply andb_true_iff in S. destruct S as [S1 S2].
  destruct (MatchTerm.Not t) eqn:En.
  - assert (S' : solid ("!" +++ body) = true).
    { apply (solid_app "!" body); [reflexivity | exact S2]. }
    split; [exact S'|]. split; [exact Hs|].
    unfold termOfPiece. rewrite (nonempty_solid _ S'). unfold classify.
    rewrite HasPrefix_app, TrimPrefix_app.
    rewrite TrimSpace_solid by (unfold solid; now rewrite S1, S2).
    now rewrite Ht.
  - cbn [String.append].
    assert (S' : solid body = true) by (unfold solid; now rewrite S1, S2).
    split; [exact S'|]. split; [exact Hs|].
    unfold termOfPiece. rewrite (nonempty_solid _ S'). unfold classify.
    rewrite Hx. now rewrite Ht.
Qed.

Lemma serializeMatchTerm_flat (t : MatchTerm.t) :
  MatchTerm.Nested t = [] -> serializeMatchTerm t = termText t +++ ";".
Proof.
  destruct t as [neg addr key ref nested]. cbn [MatchTerm.Nested]. intros ->.
  unfold termText. cbn [serializeMatchTerm MatchTerm.Not MatchTerm.Address MatchTerm.Key
                        MatchTerm.ACLRef].
  now rewrite append_assoc.
Qed.

Lemma flatTermOk_flat (t : MatchTerm.t) : flatTermOk t = true -> MatchTerm.Nested t = [].
Proof. unfold flatTermOk. destruct (MatchTerm.Nested t); [reflexivity | discriminate]. Qed.

Lemma serializeMatchList_blockOf (ts : list MatchTerm.t) :
  forallb flatTermOk ts = true -> ts <> [] ->
  serializeMatchList ts = blockOf (map termText ts).
Proof.
  intros H Hne. unfold serializeMatchList, blockOf.
  assert (E : map serializeMatchTerm ts = map (fun x => x +++ ";") (map termText ts)).
  { rewrite map_map. apply map_ext_in. intros t Ht. rewrite forallb_forall in H.
    apply serializeMatchTerm_flat, flatTermOk_flat, H, Ht. }
  rewrite E, Join_semis by (destruct ts; [contradiction | discriminate]).
  rewrite !append_assoc. reflexivity.
Qed.

Lemma parseMatchList_braces (raw : string) :
  parseMatchList ("{" +++ raw) = parseMatchListFromBodyRaw ("{" +++ raw).
Proof. reflexivity. Qed.

Lemma parseMatchListFromBodyRaw_serializeMatchList (ts : list MatchTerm.t) :
  forallb flatTermOk ts = true ->
  parseMatchListFromBodyRaw (serializeMatchList ts) = ts.
Proof.
  intros H. destruct ts as [|t ts]; [reflexivity|].
  rewrite serializeMatchList_blockOf by (assumption || discriminate).
  rewrite parseMatchListFromBodyRaw_pieces.
  apply block_round_trip; [reflexivity|].
  intros x Hx. apply flat_term_round_trip. rewrite forallb_forall in H. now apply H.
Qed.

(** *** Listen clauses *)

Lemma Index_lacks (a b : string) (c : ascii) :
  lacks c a = true -> Index (a +++ String c b) (String c "") = Some (String.length a).
Proof.
  induction a as [|d a IH]; intros H.
  - cbn [String.append Index HasPrefix]. now rewrite Ascii.eqb_refl.
  - unfold lacks in H. cbn [allBytes] in H. apply andb_true_iff in H. destruct H as [Hd Ha].
    cbn [String.append Index HasPrefix String.length]. rewrite andb_true_r, Ascii.eqb_sym.
    apply negb_true_iff in Hd. rewrite Hd. now rewrite (IH Ha).
Qed.

Lemma quoted_name_lacks_brace (s : string) : isName s = true -> lacks "{" (quoted s) = true.
Proof.
  intros H. unfold quoted. rewrite !lacks_app, (isName_lacks_brace s H). reflexivity.
Qed.

Lemma listenOk_parts (l : Listen.t) :
  listenOk l = true ->
  portOk (Listen.Port l) = true /\ isName (Listen.TLS l) = true /\
  isName (Listen.HTTP l) = true /\ forallb flatTermOk (Listen.Addrs l) = true.
Proof. unfold listenOk. rewrite !andb_true_iff. tauto. Qed.

Lemma listenWords_ok (l : Listen.t) :
  listenOk l = true ->
  forallb isWord (listenWords l) = true /\ forallb (lacks "{") (listenWords l) = true.
Proof.
  intros H. destruct (listenOk_parts l H) as (Hp & Ht & Hh & _).
  unfold listenWords. rewrite !forallb_app.
  destruct (Listen.Port l) as [n|]; destruct (Listen.TLS l =? "");
    destruct (Listen.HTTP l =? ""); cbn [forallb];
    rewrite ?Itoa_isWord, ?(isName_lacks_brace _ (Itoa_isName _)),
            ?(quoted_name_isWord _ Ht), ?(quoted_name_lacks_brace _ Ht),
            ?(quoted_name_isWord _ Hh), ?(quoted_name_lacks_brace _ Hh);
    split; reflexivity.
Qed.

Lemma serializeListen_words (l : Listen.t) :
  serializeListen l
  = TrimSpace (Join (listenWords l) " ") +++ " " +++ serializeMatchList (Listen.Addrs l).
Proof.
  unfold serializeListen, listenWords.
  destruct (Listen.Port l) as [n|]; destruct (Listen.TLS l =? "");
    destruct (Listen.HTTP l =? ""); reflexivity.
Qed.

Lemma scanListen_words (l : Listen.t) (addrs : list MatchTerm.t) :
  listenOk l = true ->
  scanListen (Listen.set_Addrs addrs Listen.zero) (listenWords l)
  = Listen.set_Addrs addrs l.
Proof.
  intros H. destruct (listenOk_parts l H) as (Hp & Ht & Hh & _).
  destruct l as [port tls http ad]. cbn [Listen.Port Listen.TLS Listen.HTTP Listen.Addrs] in *.
  unfold listenWords. cbn [Listen.Port Listen.TLS Listen.HTTP].
  destruct port as [n|]; destruct (tls =? "") eqn:Et; destruct (http =? "") eqn:Eh;
    cbn [app scanListen String.eqb Ascii.eqb Bool.eqb];
    rewrite ?(inIntRange_Atoi n Hp), ?(trimQuotes_quoted _ (isName_lacks_quote _ Ht)),
            ?(trimQuotes_quoted _ (isName_lacks_quote _ Hh));
    cbn [Listen.set_Port Listen.set_TLS Listen.set_HTTP Listen.set_Addrs Listen.zero
         Listen.Port Listen.TLS Listen.HTTP Listen.Addrs scanListen];
    try (apply String.eqb_eq in Et; subst tls);
    try (apply String.eqb_eq in Eh; subst http); reflexivity.
Qed.

Lemma serializeMatchList_solid (ts : list MatchTerm.t) : solid (serializeMatchList ts) = true.
Proof.
  unfold serializeMatchList.
  apply (solid_app "{ " (Join (map serializeMatchTerm ts) " " +++ " }")); [reflexivity|].
  apply endsGraphic_app. reflexivity.
Qed.

(** X21 (listen clauses).  The text [serializeListen] writes is read back
    by [parseListen] as the same clause: port, TLS name, HTTP name and a
    flat address list, each of them present or not. *)
Theorem parseListen_reads_back_serializeListen (l : Listen.t) :
  listenOk l = true -> parseListen (serializeListen l) = l.
Proof.
  intros H. destruct (listenOk_parts l H) as (_ & _ & _ & Ha).
  destruct (listenWords_ok l H) as [Hw Hb].
  rewrite serializeListen_words.
  set (W := listenWords l) in *.
  assert (HP : TrimSpace (Join W " ") = Join W " ").
  { destruct W as [|w W']; [reflexivity|]. apply TrimSpace_solid, words_solid;
      [exact Hw | discriminate]. }
  rewrite HP.
  assert (HI : Index (Join W " " +++ " " +++ serializeMatchList (Listen.Addrs l)) "{"
               = Some (String.length (Join W " " +++ " "))).
  { rewrite <- append_assoc. unfold serializeMatchList at 1.
    change ("{ " +++ Join (map serializeMatchTerm (Listen.Addrs l)) " " +++ " }")
      with (String "{" (" " +++ Join (map serializeMatchTerm (Listen.Addrs l)) " " +++ " }")).
    apply Index_lacks. rewrite lacks_app, (words_lack "{" W Hb eq_refl). reflexivity. }
  unfold parseListen. rewrite HI. rewrite <- append_assoc.
  rewrite drop_app_length, take_app_length.
  rewrite (TrimSpace_solid _ (serializeMatchList_solid _)).
  rewrite (parseMatchListFromBodyRaw_serializeMatchList _ Ha).
  assert (HT : TrimSpace (Join W " " +++ " ") = Join W " ").
  { destruct W as [|w W']; [reflexivity|].
    assert (S : solid (Join (w :: W') " ") = true)
      by (apply words_solid; [exact Hw | discriminate]).
    rewrite TrimSpace_blank_r; [now apply TrimSpace_solid|].
    unfold solid in S. apply andb_true_iff in S. tauto. }
  rewrite HT, (Fields_words W Hw). unfold W. rewrite (scanListen_words l _ H).
  destruct l; reflexivity.
Qed.

(** *** Rrset-order rules *)

Lemma serializeRRsetOrder_rules (l : list RRsetOrder.t) :
  serializeRRsetOrder l = Join (map serializeRRsetOrderRule l) "; " +++ ";".
Proof. reflexivity. Qed.

Lemma parseRRsetOrder_pieces (st : Stmt) (text : string) (rest : list Node) :
  Body st = RawNode text :: rest ->
  parseRRsetOrder st
  = flat_map (fun p => rrsetOrderOfPiece (TrimSpace p)) (Split (TrimSpace text) ";").
Proof.
  intros E. unfold parseRRsetOrder. rewrite E.
  rewrite (fold_left_pieces _ (fun p => rrsetOrderOfPiece (TrimSpace p))); [reflexivity|].
  intros out p. unfold rrsetOrderOfPiece.
  destruct (TrimSpace p =? ""); [now rewrite app_nil_r | reflexivity].
Qed.

Lemma serializeRRsetOrderRule_words (ro : RRsetOrder.t) :
  serializeRRsetOrderRule ro = Join (rrsetOrderWords ro) " ".
Proof.
  unfold serializeRRsetOrderRule, rrsetOrderWords.
  destruct (RRsetOrder.Type_ ro =? ""); destruct (RRsetOrder.Name ro =? "");
    cbn [app Join String.append]; rewrite ?append_nil_r; reflexivity.
Qed.

Lemma rrsetOrderOk_parts (ro : RRsetOrder.t) :
  rrsetOrderOk ro = true ->
  isName (RRsetOrder.Type_ ro) = true /\ isName (RRsetOrder.Name ro) = true /\
  (RRsetOrder.Order ro =? "") = false /\ isName (RRsetOrder.Order ro) = true.
Proof. unfold rrsetOrderOk. rewrite !andb_true_iff, negb_true_iff. tauto. Qed.

Lemma rrsetOrderWords_ok (ro : RRsetOrder.t) :
  rrsetOrderOk ro = true ->
  forallb isWord (rrsetOrderWords ro) = true /\
  forallb (lacks ";") (rrsetOrderWords ro) = true.
Proof.
  intros H. destruct (rrsetOrderOk_parts ro H) as (Ht & Hn & Ho & Hon).
  unfold rrsetOrderWords. rewrite !forallb_app. cbn [forallb].
  rewrite (isName_isWord _ Ho Hon), (isName_lacks_semi _ Hon).
  destruct (RRsetOrder.Type_ ro =? "") eqn:Et; destruct (RRsetOrder.Name ro =? "");
    cbn [forallb];
    rewrite ?(isName_isWord _ Et Ht), ?(isName_lacks_semi _ Ht),
            ?(quoted_name_isWord _ Hn), ?(quoted_name_lacks_semi _ Hn);
    split; reflexivity.
Qed.

Lemma scanRRsetOrder_words (ro : RRsetOrder.t) :
  rrsetOrderOk ro = true -> scanRRsetOrder RRsetOrder.zero (rrsetOrderWords ro) = ro.
Proof.
  intros H. destruct (rrsetOrderOk_parts ro H) as (Ht & Hn & Ho & Hon).
  destruct ro as [name type order].
  cbn [RRsetOrder.Name RRsetOrder.Type_ RRsetOrder.Order] in *.
  unfold rrsetOrderWords. cbn [RRsetOrder.Name RRsetOrder.Type_ RRsetOrder.Order].
  destruct (type =? "") eqn:Et; destruct (name =? "") eqn:En;
    cbn [app scanRRsetOrder String.eqb Ascii.eqb Bool.eqb];
    rewrite ?(trimQuotes_quoted _ (isName_lacks_quote _ Hn));
    cbn [RRsetOrder.set_Name RRsetOrder.set_Type RRsetOrder.set_Order RRsetOrder.zero
         RRsetOrder.Name RRsetOrder.Type_ RRsetOrder.Order scanRRsetOrder];
    try (apply String.eqb_eq in Et; subst type);
    try (apply String.eqb_eq in En; subst name); reflexivity.
Qed.

Lemma rrsetOrder_round_trip (ro : RRsetOrder.t) :
  rrsetOrderOk ro = true ->
  solid (serializeRRsetOrderRule ro) = true /\
  lacks ";" (serializeRRsetOrderRule ro) = true /\
  rrsetOrderOfPiece (serializeRRsetOrderRule ro) = [ro].
Proof.
  intros H. destruct (rrsetOrderWords_ok ro H) as [Hw Hs].
  destruct (rrsetOrderOk_parts ro H) as (_ & _ & Ho & _).
  rewrite serializeRRsetOrderRule_words.
  assert (Hne : rrsetOrderWords ro <> []).
  { unfold rrsetOrderWords. destruct (RRsetOrder.Type_ ro =? "");
      destruct (RRsetOrder.Name ro =? ""); discriminate. }
  pose proof (words_solid _ Hw Hne) as S.
  split; [exact S|]. split; [now apply words_lack|].
  unfold rrsetOrderOfPiece. rewrite (nonempty_solid _ S), (Fields_words _ Hw).
  cbv zeta. rewrite (scanRRsetOrder_words ro H), Ho. reflexivity.
Qed.

(** X22 (rrset-order).  When the first body node of a statement is the raw
    text [serializeRRsetOrder] writes, [parseRRsetOrder] returns the rules
    that were written, in order: type, name and order of each, for an
    order that is one word and a type and a name that are empty or one
    word. *)
Theorem parseRRsetOrder_reads_back_serializeRRsetOrder
  (st : Stmt) (rest : list Node) (l : list RRsetOrder.t) :
  forallb rrsetOrderOk l = true ->
  Body st = RawNode (serializeRRsetOrder l) :: rest ->
  parseRRsetOrder st = l.
Proof.
  intros H E. rewrite (parseRRsetOrder_pieces st _ rest E), serializeRRsetOrder_rules.
  assert (Hx : forall ro, In ro l ->
            solid (serializeRRsetOrderRule ro) = true /\
            lacks ";" (serializeRRsetOrderRule ro) = true /\
            rrsetOrderOfPiece (serializeRRsetOrderRule ro) = [ro]).
  { intros ro Hro. apply rrsetOrder_round_trip. rewrite forallb_forall in H. now apply H. }
  assert (Hsolid : forallb solid (map serializeRRsetOrderRule l) = true).
  { rewrite forallb_forall. intros y Hy. apply in_map_iff in Hy.
    destruct Hy as [x [<- Hin]]. now destruct (Hx x Hin). }
  assert (Hsemi : forallb (lacks ";") (map serializeRRsetOrderRule l) = true).
  { rewrite forallb_forall. intros y Hy. apply in_map_iff in Hy.
    destruct Hy as [x [<- Hin]]. now destruct (Hx x Hin) as [_ [? _]]. }
  rewrite TrimSpace_solid.
  - pose proof (Split_block "" "" (map serializeRRsetOrderRule l) Hsemi eq_refl eq_refl) as P.
    cbn [String.append] in P. rewrite P.
    apply pieces_round_trip; try reflexivity.
    intros x Hin. destruct (Hx x Hin) as (S & _ & Hh). cbn [String.append].
    rewrite TrimSpace_blank_l, (TrimSpace_solid _ S). auto.
  - unfold solid. rewrite Join_starts by (assumption || reflexivity).
    apply endsGraphic_app. reflexivity.
Qed.

(** *** Headers *)

Lemma span_all (p : ascii -> bool) (a b : string) :
  allBytes p a = true ->
  match b with String c _ => p c = false | EmptyString => True end ->
  span p (a +++ b) = (a, b).
Proof.
  intros Ha Hb. induction a as [|c a IH].
  - destruct b as [|d b]; [reflexivity|]. cbn [String.append span]. now rewrite Hb.
  - cbn [allBytes] in Ha. apply andb_true_iff in Ha. destruct Ha as [Hc Ha].
    cbn [String.append span]. rewrite Hc, (IH Ha). reflexivity.
Qed.

Lemma isWordByte_graphic (c : ascii) : isWordByte c = true -> isGraphic c = true.
Proof.
  intros H. destruct c as [[] [] [] [] [] [] [] []]; first [discriminate H | reflexivity].
Qed.

Lemma isLetter_graphic (c : ascii) : isLetter c = true -> isGraphic c = true.
Proof.
  intros H. destruct c as [[] [] [] [] [] [] [] []]; first [discriminate H | reflexivity].
Qed.

Lemma isLetter_not_space (c : ascii) : isLetter c = true -> isReSpace c = false.
Proof.
  intros H. destruct c as [[] [] [] [] [] [] [] []]; first [discriminate H | reflexivity].
Qed.

Lemma isKeyword_parts (kw : string) :
  isKeyword kw = true -> (kw =? "") = false /\ allBytes isWordByte kw = true.
Proof. unfold isKeyword. now rewrite andb_true_iff, negb_true_iff. Qed.

Lemma isKeyword_isWord (kw : string) : isKeyword kw = true -> isWord kw = true.
Proof.
  intros H. destruct (isKeyword_parts kw H) as [Hne Hw]. unfold isWord. rewrite Hne.
  cbn [negb andb]. apply (allBytes_impl isWordByte); [apply isWordByte_graphic | exact Hw].
Qed.

(** The header expression on a keyword, a blank and a quoted text. *)
Lemma matchHeadName_quoted (kw name tail : string) :
  isKeyword kw = true -> lacks "034" name = true ->
  matchHeadName (kw +++ " " +++ quoted name +++ tail)
  = if String.eqb name "" then None else Some (name, tail).
Proof.
  intros Hk Hn. destruct (isKeyword_parts kw Hk) as [Hne Hw]. unfold matchHeadName.
  rewrite (span_all isWordByte kw _ Hw) by reflexivity. rewrite Hne.
  unfold quoted. rewrite !append_assoc.
  change (" " +++ dq +++ name +++ dq +++ tail)
    with (String " " (String "034" (name +++ String "034" tail))).
  change (span isReSpace (String " " (String "034" (name +++ String "034" tail))))
    with (" ", String "034" (name +++ String "034" tail)).
  cbn [String.eqb].
  change (allBytes notQuote name = true) in Hn.
  rewrite (span_all notQuote name _ Hn) by reflexivity.
  destruct (name =? ""); reflexivity.
Qed.

Lemma headOf_solid (kw name cls : string) :
  isKeyword kw = true -> allBytes isLetter cls = true -> solid (headOf kw name cls) = true.
Proof.
  intros Hk Hc. pose proof (isWord_solid kw (isKeyword_isWord kw Hk)) as S.
  unfold solid in S. apply andb_true_iff in S. destruct S as [S1 _].
  unfold headOf. apply solid_app; [exact S1|]. apply endsGraphic_String.
  destruct (cls =? "") eqn:E.
  - rewrite append_nil_r. pose proof (quoted_solid name) as Q. unfold solid in Q.
    apply andb_true_iff in Q. tauto.
  - apply endsGraphic_app, endsGraphic_String.
    assert (W : isWord cls = true).
    { unfold isWord. rewrite E. cbn [negb andb].
      apply (allBytes_impl isLetter); [apply isLetter_graphic | exact Hc]. }
    pose proof (isWord_solid cls W) as Q. unfold solid in Q.
    apply andb_true_iff in Q. tauto.
Qed.

Lemma Fields_headOf_empty (kw cls : string) :
  isKeyword kw = true -> allBytes isLetter cls = true ->
  exists rest, Fields (headOf kw "" cls) = kw :: quoted "" :: rest.
Proof.
  intros Hk Hc. unfold headOf.
  change (kw +++ " " +++ quoted "" +++ (if cls =? "" then "" else " " +++ cls))
    with (kw +++ String " " (quoted "" +++ (if cls =? "" then "" else " " +++ cls))).
  rewrite (Fields_cons kw _ (isKeyword_isWord kw Hk)).
  destruct (cls =? "") eqn:Ec.
  - exists []. reflexivity.
  - exists (Fields cls).
    change (quoted "" +++ " " +++ cls) with (quoted "" +++ String " " cls).
    now rewrite (Fields_cons (quoted "") cls eq_refl).
Qed.

Lemma rxHeadClass_headOf (kw name cls : string) :
  isKeyword kw = true -> lacks "034" name = true -> allBytes isLetter cls = true ->
  name <> "" ->
  rxHeadClass (headOf kw name cls) = if String.eqb cls "" then None else Some cls.
Proof.
  intros Hk Hn Hc Hne. unfold rxHeadClass, headOf.
  rewrite (matchHeadName_quoted kw name _ Hk Hn).
  apply String.eqb_neq in Hne. rewrite Hne.
  destruct cls as [|c cls]; [reflexivity|].
  cbn [String.eqb String.append].
  cbn [allBytes] in Hc. pose proof Hc as Hc'. apply andb_true_iff in Hc'.
  destruct Hc' as [Hc1 _].
  change (span isReSpace (String " " (String c cls)))
    with (let '(a, b) := span isReSpace (String c cls) in (String " " a, b)).
  cbn [span]. rewrite (isLetter_not_space c Hc1). cbn [String.eqb].
  rewrite <- (append_nil_r (String c cls)) at 1.
  rewrite (span_all isLetter (String c cls) "" Hc I). reflexivity.
Qed.

Lemma head_name_class (s : Stmt) (kw name cls any : string) :
  isKeyword kw = true -> lacks "034" name = true -> allBytes isLetter cls = true ->
  HeadRaw s = headOf kw name cls ->
  headNameAfter s any = name /\
  (name <> "" -> headClassAfter s any = cls).
Proof.
  intros Hk Hn Hc E. unfold headNameAfter, headClassAfter.
  rewrite E, (TrimSpace_solid _ (headOf_solid kw name cls Hk Hc)). split.
  - unfold rxHeadName. unfold headOf at 1.
    rewrite (matchHeadName_quoted kw name _ Hk Hn).
    destruct (name =? "") eqn:En; [|reflexivity].
    apply String.eqb_eq in En. subst name. cbn [option_map].
    destruct (Fields_headOf_empty kw cls Hk Hc) as [rest ->]. reflexivity.
  - intros Hne. rewrite (rxHeadClass_headOf kw name cls Hk Hn Hc Hne).
    destruct (cls =? "") eqn:Ec; [|reflexivity]. apply String.eqb_eq in Ec. now subst cls.
Qed.

(** A name with a double quote inside is cut at the quote. *)
Lemma head_name_cut (s : Stmt) (kw pre post any : string) :
  isKeyword kw = true -> lacks "034" pre = true -> pre <> "" ->
  HeadRaw s = headOf kw (pre +++ dq +++ post) "" ->
  headNameAfter s any = pre.
Proof.
  intros Hk Hn Hne E. unfold headNameAfter, rxHeadName.
  rewrite E, (TrimSpace_solid _ (headOf_solid kw _ "" Hk eq_refl)).
  unfold headOf. cbn [String.eqb].
  rewrite append_nil_r. unfold quoted at 1.
  replace (kw +++ " " +++ dq +++ (pre +++ dq +++ post) +++ dq)
    with (kw +++ " " +++ quoted pre +++ (post +++ dq))
    by (unfold quoted; now rewrite !append_assoc).
  rewrite (matchHeadName_quoted kw pre _ Hk Hn).
  apply String.eqb_neq in Hne. now rewrite Hne.
Qed.

(** *** The name and the origin of a decoded block *)

Lemma forStmts_invariant {X : Type} (P : X -> Prop) (step : X -> Stmt -> X)
  (body : list Node) (init : X) :
  P init -> (forall a st, P a -> P (step a st)) -> P (forStmts step body init).
Proof.
  intros H0 Hs. unfold forStmts. revert init H0.
  induction body as [|n body IH]; intros init H0; [exact H0|].
  cbn [fold_left]. apply IH. destruct n as [st|t]; [now apply Hs | exact H0].
Qed.

Ltac split_kw :=
  repeat match goal with
  | |- context [if isKw ?st ?w then _ else _] => destruct (isKw st w)
  | |- context [match Fields ?r with _ => _ end] => destruct (Fields r)
  | |- context [if HasPrefix ?r ?p then _ else _] => destruct (HasPrefix r p)
  end.

Lemma parseTLS_head (s : Stmt) :
  TLS.Name (parseTLS s) = headNameAfter s "tls" /\ TLS.stmt (parseTLS s) = Some s.
Proof.
  unfold parseTLS.
  apply (forStmts_invariant
           (fun t => TLS.Name t = headNameAfter s "tls" /\ TLS.stmt t = Some s)).
  - split; reflexivity.
  - intros t st H. cbv zeta. split_kw; exact H.
Qed.

Lemma parseHTTP_head (s : Stmt) :
  HTTP.Name (parseHTTP s) = headNameAfter s "http" /\ HTTP.stmt (parseHTTP s) = Some s.
Proof.
  unfold parseHTTP.
  apply (forStmts_invariant
           (fun t => HTTP.Name t = headNameAfter s "http" /\ HTTP.stmt t = Some s)).
  - split; reflexivity.
  - intros t st H. cbv zeta. split_kw; exact H.
Qed.

Lemma parseZone_head (s : Stmt) :
  Zone.Name (parseZone s) = headNameAfter s "zone" /\
  Zone.Class (parseZone s) = headClassAfter s "zone" /\
  Zone.stmt (parseZone s) = Some s.
Proof.
  unfold parseZone.
  apply (forStmts_invariant
           (fun t => Zone.Name t = headNameAfter s "zone" /\
                     Zone.Class t = headClassAfter s "zone" /\ Zone.stmt t = Some s)).
  - repeat split; reflexivity.
  - intros t st H. cbv zeta. split_kw; exact H.
Qed.

Lemma parseView_head (s : Stmt) :
  View.Name (parseView s) = headNameAfter s "view" /\
  View.Class (parseView s) = headClassAfter s "view" /\
  View.stmt (parseView s) = Some s.
Proof.
  unfold parseView.
  apply (forStmts_invariant
           (fun t => View.Name t = headNameAfter s "view" /\
                     View.Class t = headClassAfter s "view" /\ View.stmt t = Some s)).
  - repeat split; reflexivity.
  - intros t st H. cbv zeta. split_kw; exact H.
Qed.

Lemma parseKey_head (s : Stmt) :
  Key.Name (parseKey s) = headNameAfter s "key" /\ Key.stmt (parseKey s) = Some s.
Proof.
  unfold parseKey. cbv zeta. destruct (forStmts _ (Body s) ("", "")). split; reflexivity.
Qed.

(** *** Blocks that come back from the statement built for them *)

Lemma TrimSuffix_lacks (s : string) : lacks ";" s = true -> TrimSuffix s ";" = s.
Proof.
  intros H. unfold TrimSuffix, HasSuffix.
  rewrite (HasPrefix_lacks (rev s) (rev ";") (fun d => negb (Ascii.eqb d ";")));
    [reflexivity | | reflexivity].
  change (lacks ";" (rev s) = true). now rewrite lacks_rev.
Qed.

Lemma rawOf_solid (st : Stmt) :
  solid (HeadRaw st) = true -> lacks ";" (HeadRaw st) = true -> rawOf st = HeadRaw st.
Proof.
  intros S L. unfold rawOf. rewrite (TrimSuffix_lacks _ L). now apply TrimSpace_solid.
Qed.

Section BlocksComeBack.

Context {A : Adapter}.

Hypothesis block_head : forall head body, HeadRaw (NewBlockStmt head body) = head.
Hypothesis block_body : forall head body, Body (NewBlockStmt head body) = body.
Hypothesis simple_head : forall line, HeadRaw (NewSimpleStmt line) = line.

Lemma built_head_name (s : Stmt) (kw name any : string) :
  isKeyword kw = true -> lacks "034" name = true ->
  HeadRaw s = kw +++ " " +++ quoted name -> headNameAfter s any = name.
Proof.
  intros Hk Hn E.
  apply (head_name_class s kw name "" any Hk Hn eq_refl).
  unfold headOf. cbn [String.eqb]. now rewrite append_nil_r.
Qed.

(** X23 (access lists).  For statement constructors that keep the header
    text and the body they are given, decoding the statement built for an
    access list gives that list back, name and elements, with its origin
    set to the built statement, when the name has no double quote and the
    elements are flat terms. *)
Theorem parseACL_reads_back_buildACL (a : ACL.t) :
  aclOk a = true ->
  parseACL (buildACL a) = ACL.mk (ACL.Name a) (ACL.Elements a) (Some (buildACL a)).
Proof.
  unfold aclOk. rewrite andb_true_iff. intros [Hn He].
  unfold parseACL. cbv zeta. f_equal.
  - apply (built_head_name _ "acl" (ACL.Name a) "acl" eq_refl Hn).
    unfold buildACL. cbv zeta. now rewrite block_head.
  - unfold parseMatchListFromBody, buildACL. cbv zeta. rewrite block_body.
    now apply parseMatchListFromBodyRaw_serializeMatchList.
Qed.

Lemma parseRemoteServers_loop (items : list RemoteServerItem.t) (acc : list RemoteServerItem.t) :
  forallb serverItemOk items = true ->
  forStmts
    (fun items st =>
       let raw := rawOf st in
       if String.eqb raw "" then items else items ++ [parseRemoteServerItem raw])
    (map (fun it => simple (serializeRemoteServerItem it)) items) acc
  = acc ++ items.
Proof.
  unfold forStmts. revert acc. induction items as [|it items IH]; intros acc H.
  - now rewrite app_nil_r.
  - cbn [forallb] in H. apply andb_true_iff in H. destruct H as [Hi Hr].
    destruct (serverItem_round_trip it Hi) as (S & L & P).
    cbn [map fold_left simple]. cbv zeta.
    rewrite rawOf_solid by (rewrite simple_head; assumption).
    rewrite simple_head, (nonempty_solid _ S), P, (IH _ Hr), <- app_assoc. reflexivity.
Qed.

(** X24 (remote-servers blocks).  For statement constructors that keep the
    header text and the body they are given, decoding the statement built
    for a remote-servers block gives the block back: its name and every
    server, in order, with the origin set to the built statement, when the
    name has no double quote and every server is one the item codec
    carries unchanged ([remoteServersOk]). *)
Theorem parseRemoteServers_reads_back_buildRemoteServers (rs : RemoteServers.t) :
  remoteServersOk rs = true ->
  parseRemoteServers (buildRemoteServers rs)
  = RemoteServers.mk (RemoteServers.Name rs) (RemoteServers.Servers rs)
      (Some (buildRemoteServers rs)).
Proof.
  unfold remoteServersOk. rewrite andb_true_iff. intros [Hn Hs].
  unfold parseRemoteServers. cbv zeta. f_equal.
  - apply (built_head_name _ "remote-servers" (RemoteServers.Name rs) _ eq_refl Hn).
    unfold buildRemoteServers. now rewrite block_head.
  - unfold buildRemoteServers. rewrite block_body.
    exact (parseRemoteServers_loop _ [] Hs).
Qed.

Lemma anchor_line (name d : string) (st : Stmt) :
  isName name = true -> isRecordText d = true ->
  HeadRaw st = quoted name +++ " " +++ d ->
  exists rest,
    Fields (rawOf st) = quoted name :: rest /\
    TrimSpace (TrimPrefix (rawOf st) (quoted name +++ " ")) = d.
Proof.
  intros Hn Hd E. unfold isRecordText in Hd. apply andb_true_iff in Hd.
  destruct Hd as [S L]. pose proof S as S'. unfold solid in S'.
  apply andb_true_iff in S'. destruct S' as [_ S2].
  assert (R : rawOf st = quoted name +++ " " +++ d).
  { rewrite rawOf_solid; rewrite E; [reflexivity | |].
    - apply solid_app; [reflexivity|]. now apply endsGraphic_String.
    - rewrite lacks_app, (quoted_name_lacks_semi _ Hn). exact L. }
  rewrite R. exists (Fields d). split.
  - change (quoted name +++ " " +++ d) with (quoted name +++ String " " d).
    apply Fields_cons. now apply quoted_name_isWord.
  - rewrite <- append_assoc, TrimPrefix_app. now apply TrimSpace_solid.
Qed.

Lemma parseTrustAnchors_built_loop (items acc : list TrustAnchorItem.t) (origin : option Stmt) :
  forallb anchorOk items = true ->
  forStmts
    (fun ta ss =>
       let raw := rawOf ss in
       match Fields raw with
       | [] => ta
       | f0 :: _ =>
           let name := trimQuotes f0 in
           let rest := TrimSpace (TrimPrefix raw (f0 +++ " ")) in
           if Contains rest "ds" then
             TrustAnchors.mk (TrustAnchors.Items ta ++ [TrustAnchorItem.mk name rest ""])
                             (TrustAnchors.stmt ta)
           else if Contains rest "key" then
             TrustAnchors.mk (TrustAnchors.Items ta ++ [TrustAnchorItem.mk name "" rest])
                             (TrustAnchors.stmt ta)
           else ta
       end)
    (flat_map
       (fun it =>
          if negb (String.eqb (TrustAnchorItem.DS it) "") then
            [simple (quoted (TrustAnchorItem.Name it) +++ " " +++ TrustAnchorItem.DS it)]
          else if negb (String.eqb (TrustAnchorItem.DNSKey it) "") then
            [simple (quoted (TrustAnchorItem.Name it) +++ " " +++ TrustAnchorItem.DNSKey it)]
          else [])
       items)
    (TrustAnchors.mk acc origin)
  = TrustAnchors.mk (acc ++ items) origin.
Proof.
  unfold forStmts. revert acc. induction items as [|it items IH]; intros acc H.
  - cbn [flat_map fold_left]. now rewrite app_nil_r.
  - cbn [forallb] in H. apply andb_true_iff in H. destruct H as [Hi Hr].
    destruct it as [name ds key]. unfold anchorOk in Hi.
    cbn [TrustAnchorItem.Name TrustAnchorItem.DS TrustAnchorItem.DNSKey] in Hi.
    apply andb_true_iff in Hi. destruct Hi as [Hn Hi].
    cbn [flat_map TrustAnchorItem.Name TrustAnchorItem.DS TrustAnchorItem.DNSKey].
    destruct (ds =? "") eqn:Eds; cbn [negb] in Hi |- *.
    + apply String.eqb_eq in Eds. subst ds.
      rewrite !andb_true_iff, negb_true_iff in Hi. destruct Hi as [[Hd Hnds] Hkey].
      assert (Hne : (key =? "") = false).
      { unfold isRecordText in Hd. apply andb_true_iff in Hd. destruct Hd as [S _].
        now apply nonempty_solid. }
      rewrite Hne. cbn [negb app fold_left simple]. cbv zeta.
      destruct (anchor_line name key (NewSimpleStmt (quoted name +++ " " +++ key)) Hn Hd
                  (simple_head _)) as (rest & F & T).
      rewrite F, T, Hnds, Hkey, (trimQuotes_quoted _ (isName_lacks_quote _ Hn)).
      cbn [TrustAnchors.Items TrustAnchors.stmt].
      rewrite (IH _ Hr), <- app_assoc. reflexivity.
    + rewrite !andb_true_iff in Hi. destruct Hi as [[Hd Hds] Hk].
      apply String.eqb_eq in Hk. subst key.
      cbn [app fold_left simple]. cbv zeta.
      destruct (anchor_line name ds (NewSimpleStmt (quoted name +++ " " +++ ds)) Hn Hd
                  (simple_head _)) as (rest & F & T).
      rewrite F, T, Hds, (trimQuotes_quoted _ (isName_lacks_quote _ Hn)).
      cbn [TrustAnchors.Items TrustAnchors.stmt].
      rewrite (IH _ Hr), <- app_assoc. reflexivity.
Qed.

(** X25 (trust anchors).  For statement constructors that keep the header
    text and the body they are given, decoding the statement built for a
    trust-anchors block gives its entries back, in order, when every entry
    has either a DS text that contains [ds], or no DS text and a DNSKEY
    text that contains [key] and not [ds]. *)
Theorem parseTrustAnchors_reads_back_buildTrustAnchors (t : TrustAnchors.t) :
  forallb anchorOk (TrustAnchors.Items t) = true ->
  parseTrustAnchors (buildTrustAnchors t)
  = TrustAnchors.mk (TrustAnchors.Items t) (Some (buildTrustAnchors t)).
Proof.
  intros H. unfold parseTrustAnchors.
  unfold buildTrustAnchors at 1. rewrite block_body.
  exact (parseTrustAnchors_built_loop _ [] _ H).
Qed.

End BlocksComeBack.

(* ================================================================= *)
(** ** The codecs of [parse_helpers.go]: what is written is read back *)

(** X15 (scalars).  The word written for a flag is read back as that flag,
    the decimal text of an [int] as that number, and a text in double
    quotes as that text when it has no double quote of its own.  The two
    scalar readers look at the first word only: whatever follows it, the
    result is that of the first word alone. *)
Theorem scalars_are_read_back (b : bool) (n : Z) (s w rest : string) :
  inIntRange n = true -> lacks "034" s = true -> isWord w = true ->
  parseBoolPtr (boolWord b) = Some b /\
  parseIntPtr (Itoa n) = Some n /\
  trimQuotes (quoted s) = s /\
  parseBoolPtr (w +++ " " +++ rest) = parseBoolPtr w /\
  parseIntPtr (w +++ " " +++ rest) = parseIntPtr w.
Proof.
  intros Hn Hs Hw. split; [destruct b; reflexivity|]. split.
  - unfold parseIntPtr. rewrite (Fields_one _ (Itoa_isWord n)), (inIntRange_Atoi n Hn).
    reflexivity.
  - split; [now apply trimQuotes_quoted|].
    unfold parseBoolPtr, parseIntPtr.
    change (w +++ " " +++ rest) with (w +++ String " " rest).
    rewrite (Fields_cons w rest Hw), (Fields_one w Hw). split; reflexivity.
Qed.

(** X16 (names).  For a statement whose header is a keyword, a blank and a
    name in double quotes, followed or not by a blank and a class of
    letters, every block decoder takes that name, whatever the body holds
    and whatever keyword it is asked for, provided the name has no double
    quote; the zone and view decoders also take the class, unless the name
    is empty.  A name with a double quote inside is cut at that quote. *)
Theorem decoded_names_come_from_the_header (s : Stmt) (kw name cls : string) :
  isKeyword kw = true -> lacks "034" name = true -> allBytes isLetter cls = true ->
  HeadRaw s = headOf kw name cls ->
  (ACL.Name (parseACL s) = name /\ Key.Name (parseKey s) = name /\
   KeyStore.Name (parseKeyStore s) = name /\
   RemoteServers.Name (parseRemoteServers s) = name /\
   TLS.Name (parseTLS s) = name /\ HTTP.Name (parseHTTP s) = name /\
   View.Name (parseView s) = name /\ Zone.Name (parseZone s) = name) /\
  (name <> "" -> View.Class (parseView s) = cls /\ Zone.Class (parseZone s) = cls) /\
  (forall s' pre post any,
     lacks "034" pre = true -> pre <> "" ->
     HeadRaw s' = headOf kw (pre +++ dq +++ post) "" ->
     headNameAfter s' any = pre).
Proof.
  intros Hk Hn Hc E.
  assert (N : forall any, headNameAfter s any = name)
    by (intros any; apply (head_name_class s kw name cls any Hk Hn Hc E)).
  split; [|split].
  - destruct (parseKey_head s) as [K _]. destruct (parseTLS_head s) as [T _].
    destruct (parseHTTP_head s) as [H _]. destruct (parseView_head s) as [V _].
    destruct (parseZone_head s) as [Z _].
    rewrite K, T, H, V, Z, !N. cbn [parseACL parseKeyStore parseRemoteServers ACL.Name
      KeyStore.Name RemoteServers.Name]. unfold parseACL, parseKeyStore, parseRemoteServers.
    cbn [ACL.Name KeyStore.Name RemoteServers.Name]. rewrite !N. repeat split.
  - intros Hne. destruct (parseView_head s) as (_ & V & _).
    destruct (parseZone_head s) as (_ & Z & _). rewrite V, Z.
    split; apply (head_name_class s kw name cls _ Hk Hn Hc E); exact Hne.
  - intros s' pre post any Hp Hne E'. exact (head_name_cut s' kw pre post any Hk Hp Hne E').
Qed.

(** X18 (forwarders).  The text [serializeForwarders] writes is read back
    by [parseForwarders] as the same list: address, port and TLS name of
    every forwarder, in order, for addresses and TLS names without blanks,
    quotes, semicolons and braces.  A forwarder alone is read back from its
    own text in the same way. *)
Theorem parseForwarders_reads_back_serializeForwarders (ff : list Forwarder.t) :
  forallb forwarderOk ff = true ->
  parseForwarders (serializeForwarders ff) = ff /\
  forall f, In f ff -> parseForwarders (serializeForwarders [f]) = [f].
Proof.
  intros H. split; [now apply parseForwarders_serializeForwarders|].
  intros f Hf. apply parseForwarders_serializeForwarders. cbn [forallb].
  rewrite forallb_forall in H. now rewrite (H f Hf).
Qed.

(** X19 (remote servers).  The text [serializeRemoteServerItem] writes is
    read back by [parseRemoteServerItem] as the same item, and the braced
    list [serializeRemoteServerList] writes is read back by
    [parseRemoteServerListBody] as the same list, in order, the empty list
    included. *)
Theorem parseRemoteServerListBody_reads_back_the_list (items : list RemoteServerItem.t) :
  forallb serverItemOk items = true ->
  parseRemoteServerListBody (serializeRemoteServerList items) = items /\
  forall it, In it items -> parseRemoteServerItem (serializeRemoteServerItem it) = it.
Proof.
  intros H. split; [now apply parseRemoteServerListBody_serializeRemoteServerList|].
  intros it Hit. rewrite forallb_forall in H.
  now destruct (serverItem_round_trip it (H it Hit)) as (_ & _ & P).
Qed.

(** X20 (flat match lists).  A match list without nested lists is read
    back from the text [serializeMatchList] writes, term by term with its
    negation: a key by its name, an address that has a slash, two colons or
    exactly three dots as an address, and any other name as a reference,
    quoted or not.  Both entry points of the decoder agree on it. *)
Theorem flat_match_list_is_read_back (ts : list MatchTerm.t) :
  forallb flatTermOk ts = true ->
  parseMatchListFromBodyRaw (serializeMatchList ts) = ts /\
  parseMatchList (serializeMatchList ts) = ts.
Proof.
  intros H. pose proof (parseMatchListFromBodyRaw_serializeMatchList ts H) as E.
  split; [exact E|]. unfold serializeMatchList in *.
  change ("{ " +++ Join (map serializeMatchTerm ts) " " +++ " }")
    with ("{" +++ " " +++ Join (map serializeMatchTerm ts) " " +++ " }") in *.
  now rewrite parseMatchList_braces.
Qed.


(* ================================================================= *)
(** ** The codec theorems at sample values *)

Lemma scalars_are_read_back_witness :
  inIntRange 853 = true /\ isWord "recursion" = true /\
  parseBoolPtr (boolWord true) = Some true /\
  parseIntPtr (Itoa 853) = Some 853%Z /\
  trimQuotes (quoted "/var/named") = "/var/named" /\
  parseBoolPtr ("recursion" +++ " " +++ "yes") = parseBoolPtr "recursion" /\
  parseIntPtr ("recursion" +++ " " +++ "yes") = parseIntPtr "recursion".
Proof.
  split; [vm_compute; reflexivity|]. split; [vm_compute; reflexivity|].
  apply (scalars_are_read_back true 853 "/var/named" "recursion" "yes"); reflexivity.
Defined.

Lemma decoded_names_come_from_the_header_witness :
  HeadRaw (mkStmt "zone" ("zone " +++ quoted "example.com" +++ " IN") [])
  = headOf "zone" "example.com" "IN" /\
  Zone.Name (parseZone (mkStmt "zone" ("zone " +++ quoted "example.com" +++ " IN") []))
  = "example.com" /\
  Zone.Class (parseZone (mkStmt "zone" ("zone " +++ quoted "example.com" +++ " IN") []))
  = "IN".
Proof.
  split; [vm_compute; reflexivity|].
  destruct (decoded_names_come_from_the_header
              (mkStmt "zone" ("zone " +++ quoted "example.com" +++ " IN") [])
              "zone" "example.com" "IN" eq_refl eq_refl eq_refl eq_refl)
    as ((_ & _ & _ & _ & _ & _ & _ & Hn) & Hc & _).
  split; [exact Hn|]. apply Hc. discriminate.
Defined.

Lemma parseStringList_reads_back_quoted_list_witness :
  forallb isListString ["TLSv1.2"; "TLSv1.3"] = true /\
  parseStringList ("{ " +++ Join (quoteEach ["TLSv1.2"; "TLSv1.3"]) "; " +++ "; }")
  = ["TLSv1.2"; "TLSv1.3"].
Proof.
  split; [vm_compute; reflexivity|].
  apply (parseStringList_reads_back_quoted_list ["TLSv1.2"; "TLSv1.3"]). reflexivity.
Defined.

Lemma parseForwarders_reads_back_serializeForwarders_witness :
  forallb forwarderOk sampleForwarders = true /\
  parseForwarders (serializeForwarders sampleForwarders) = sampleForwarders.
Proof.
  split; [vm_compute; reflexivity|].
  destruct (parseForwarders_reads_back_serializeForwarders sampleForwarders) as [H _].
  - vm_compute. reflexivity.
  - exact H.
Defined.

Lemma parseRemoteServerListBody_reads_back_the_list_witness :
  forallb serverItemOk sampleServers = true /\
  parseRemoteServerListBody (serializeRemoteServerList sampleServers) = sampleServers.
Proof.
  split; [vm_compute; reflexivity|].
  destruct (parseRemoteServerListBody_reads_back_the_list sampleServers) as [H _].
  - vm_compute. reflexivity.
  - exact H.
Defined.

Lemma flat_match_list_is_read_back_witness :
  forallb flatTermOk sampleTerms = true /\
  parseMatchListFromBodyRaw (serializeMatchList sampleTerms) = sampleTerms /\
  parseMatchList (serializeMatchList sampleTerms) = sampleTerms.
Proof.
  split; [vm_compute; reflexivity|].
  apply (flat_match_list_is_read_back sampleTerms). vm_compute. reflexivity.
Defined.

Lemma parseListen_reads_back_serializeListen_witness :
  listenOk sampleListen = true /\ parseListen (serializeListen sampleListen) = sampleListen.
Proof.
  split; [vm_compute; reflexivity|].
  apply (parseListen_reads_back_serializeListen sampleListen). vm_compute. reflexivity.
Defined.

Lemma parseRRsetOrder_reads_back_serializeRRsetOrder_witness :
  forallb rrsetOrderOk sampleRules = true /\
  parseRRsetOrder (mkStmt "rrset-order" "rrset-order" [RawNode (serializeRRsetOrder sampleRules)])
  = sampleRules.
Proof.
  split; [vm_compute; reflexivity|].
  apply (parseRRsetOrder_reads_back_serializeRRsetOrder
           (mkStmt "rrset-order" "rrset-order" [RawNode (serializeRRsetOrder sampleRules)])
           [] sampleRules); vm_compute; reflexivity.
Defined.

Lemma parseACL_reads_back_buildACL_witness :
  aclOk (ACL.mk "trusted" sampleTerms None) = true /\
  parseACL (buildACL (A := refAdapter) (ACL.mk "trusted" sampleTerms None))
  = ACL.mk "trusted" sampleTerms
      (Some (buildACL (A := refAdapter) (ACL.mk "trusted" sampleTerms None))).
Proof.
  split; [vm_compute; reflexivity|].
  apply (@parseACL_reads_back_buildACL refAdapter
           (fun _ _ => eq_refl) (fun _ _ => eq_refl) (ACL.mk "trusted" sampleTerms None)).
  vm_compute. reflexivity.
Defined.

Lemma parseRemoteServers_reads_back_buildRemoteServers_witness :
  remoteServersOk (RemoteServers.mk "upstreams" sampleServers None) = true /\
  parseRemoteServers
    (buildRemoteServers (A := refAdapter) (RemoteServers.mk "upstreams" sampleServers None))
  = RemoteServers.mk "upstreams" sampleServers
      (Some (buildRemoteServers (A := refAdapter)
               (RemoteServers.mk "upstreams" sampleServers None))).
Proof.
  split; [vm_compute; reflexivity|].
  apply (@parseRemoteServers_reads_back_buildRemoteServers refAdapter
           (fun _ _ => eq_refl) (fun _ _ => eq_refl) (fun _ => eq_refl)
           (RemoteServers.mk "upstreams" sampleServers None)).
  vm_compute. reflexivity.
Defined.

Lemma parseTrustAnchors_reads_back_buildTrustAnchors_witness :
  forallb anchorOk (TrustAnchors.Items sampleAnchors) = true /\
  parseTrustAnchors (buildTrustAnchors (A := refAdapter) sampleAnchors)
  = TrustAnchors.mk (TrustAnchors.Items sampleAnchors)
      (Some (buildTrustAnchors (A := refAdapter) sampleAnchors)).
Proof.
  split; [vm_compute; reflexivity|].
  apply (@parseTrustAnchors_reads_back_buildTrustAnchors refAdapter
           (fun _ _ => eq_refl) (fun _ => eq_refl) sampleAnchors).
  vm_compute. reflexivity.
Defined.

(* ================================================================= *)
(** ** Control channels: what is read back and what is not *)

(** *** Markers between words *)

Lemma Index_skip (c : ascii) (s needle : string) :
  HasPrefix (String c s) needle = false ->
  Index (String c s) needle = option_map S (Index s needle).
Proof. intros H. cbn [Index]. now rewrite H. Qed.

(** A marker that starts with a blank is not found inside a word. *)
Lemma Index_skip_word (w s m : string) :
  allBytes isGraphic w = true ->
  Index (w +++ s) (String " " m) = option_map (Nat.add (String.length w)) (Index s (String " " m)).
Proof.
  intros H. induction w as [|c w IH].
  - cbn [String.append String.length]. destruct (Index s (String " " m)); reflexivity.
  - cbn [allBytes] in H. apply andb_true_iff in H. destruct H as [Hc Hw].
    cbn [String.append String.length]. rewrite Index_skip.
    + rewrite (IH Hw). destruct (Index s (String " " m)); reflexivity.
    + cbn [HasPrefix]. destruct c as [[] [] [] [] [] [] [] []];
        first [discriminate Hc | reflexivity].
Qed.

Lemma Join_cons2 (w v : string) (ws : list string) :
  Join (w :: v :: ws) " " = w +++ String " " (Join (v :: ws) " ").
Proof. reflexivity. Qed.

(** A marker, a blank and a word in front and a blank behind, is not found
    among words that do not start with its first byte: after the first
    word, the search goes on behind them. *)
Lemma Index_words (c : ascii) (m tail : string) (ws : list string) (w0 : string) :
  isWord w0 = true -> forallb isWord ws = true ->
  forallb (fun w => negb (HasPrefix w (String c ""))) ws = true ->
  Index (Join (w0 :: ws) " " +++ tail) (String " " (String c m))
  = option_map (Nat.add (String.length (Join (w0 :: ws) " ")))
               (Index tail (String " " (String c m))).
Proof.
  revert w0. induction ws as [|w1 ws IH]; intros w0 H0 Hw Hc.
  - cbn [Join]. apply Index_skip_word. now destruct (isWord_parts w0 H0).
  - cbn [forallb] in Hw, Hc. apply andb_true_iff in Hw, Hc.
    destruct Hw as [H1 Hw]. destruct Hc as [Hc1 Hc].
    rewrite Join_cons2, append_assoc.
    rewrite Index_skip_word by now destruct (isWord_parts w0 H0).
    cbn [String.append]. rewrite Index_skip.
    + rewrite (IH w1 H1 Hw Hc). rewrite length_append. cbn [String.length].
      destruct (Index tail (String " " (String c m))); cbn [option_map]; [f_equal; lia | reflexivity].
    + destruct w1 as [|d w1]; [discriminate H1|].
      cbn [HasPrefix] in Hc1. rewrite andb_true_r in Hc1. apply negb_true_iff in Hc1.
      destruct ws; cbn [Join String.append HasPrefix]; rewrite Hc1; reflexivity.
Qed.

Lemma Index_empty (needle : string) : needle <> "" -> Index "" needle = None.
Proof. destruct needle; [contradiction | reflexivity]. Qed.

Lemma Itoa_first (c : ascii) (n : Z) :
  isDigit c = false -> Ascii.eqb c "-" = false -> HasPrefix (Itoa n) (String c "") = false.
Proof.
  intros Hd Hm.
  assert (H : allBytes (fun d => negb (Ascii.eqb d c)) (Itoa n) = true).
  { apply Itoa_bytes.
    - intros d Hdd. apply negb_true_iff. destruct (Ascii.eqb d c) eqn:E; [|reflexivity].
      apply Ascii.eqb_eq in E. subst d. congruence.
    - apply negb_true_iff. now rewrite Ascii.eqb_sym. }
  destruct (Itoa n) as [|d r]; [reflexivity|]. cbn [allBytes] in H.
  apply andb_true_iff in H. destruct H as [H _]. apply negb_true_iff in H.
  cbn [HasPrefix]. rewrite Ascii.eqb_sym, H. reflexivity.
Qed.

(** *** Inet control channels *)

Lemma inetOk_parts (ci : ControlInet.t) :
  inetOk ci = true ->
  (ControlInet.Address ci =? "") = false /\ isName (ControlInet.Address ci) = true /\
  portOk (ControlInet.Port ci) = true /\ forallb flatTermOk (ControlInet.Allow ci) = true /\
  ControlInet.Keys ci = [] /\ ControlInet.ReadOnly ci = None.
Proof.
  unfold inetOk. rewrite !andb_true_iff, negb_true_iff.
  destruct (ControlInet.Keys ci); destruct (ControlInet.ReadOnly ci); intuition discriminate.
Qed.

Lemma inetWords_ok (ci : ControlInet.t) (c : ascii) :
  inetOk ci = true -> isDigit c = false -> Ascii.eqb c "-" = false -> Ascii.eqb c "p" = false ->
  isWord (ControlInet.Address ci) = true /\
  forallb isWord (tl (inetWords ci)) = true /\
  forallb (fun w => negb (HasPrefix w (String c ""))) (tl (inetWords ci)) = true.
Proof.
  intros H Hd Hm Hp. destruct (inetOk_parts ci H) as (Ha & Hn & _).
  split; [now apply isName_isWord|]. unfold inetWords. cbn [tl].
  destruct (ControlInet.Port ci) as [n|]; [|split; reflexivity].
  cbn [forallb]. rewrite Itoa_isWord, (Itoa_first c n Hd Hm).
  cbn [HasPrefix]. rewrite Hp. split; reflexivity.
Qed.

Lemma serializeControlInet_words (ci : ControlInet.t) :
  ControlInet.Keys ci = [] -> ControlInet.ReadOnly ci = None ->
  serializeControlInet ci
  = "inet " +++ Join (inetWords ci) " " +++ " allow " +++ serializeMatchList (ControlInet.Allow ci).
Proof.
  intros Hk Hr. unfold serializeControlInet, inetWords. rewrite Hk, Hr.
  destruct (ControlInet.Port ci) as [n|]; cbn [Join String.append];
    rewrite ?append_nil_r, ?append_assoc; cbn [String.append];
    rewrite ?append_assoc; reflexivity.
Qed.

(** X26 (inet control channels).  An inet channel with an address, a port
    or none, and a flat allow list, and with neither a key list nor a
    read-only flag, is read back by [parseControlInet] from the text
    [serializeControlInet] writes. *)
Theorem parseControlInet_reads_back_allow_only (ci : ControlInet.t) :
  inetOk ci = true -> parseControlInet (serializeControlInet ci) = ci.
Proof.
  intros H. destruct (inetOk_parts ci H) as (Ha & Hn & Hp & Hal & Hk & Hr).
  rewrite (serializeControlInet_words ci Hk Hr).
  unfold parseControlInet. rewrite TrimPrefix_app.
  set (P := Join (inetWords ci) " ").
  set (ML := serializeMatchList (ControlInet.Allow ci)).
  assert (HW : forallb isWord (inetWords ci) = true).
  { destruct (inetWords_ok ci "a" H eq_refl eq_refl eq_refl) as (W0 & W & _).
    unfold inetWords in *. cbn [forallb tl] in *. now rewrite W0, W. }
  assert (S : solid P = true) by (apply words_solid; [exact HW | discriminate]).
  assert (I1 : Index (P +++ " allow " +++ ML) " allow " = Some (String.length P)).
  { destruct (inetWords_ok ci "a" H eq_refl eq_refl eq_refl) as (W0 & W & C).
    unfold P, inetWords in *. cbn [tl] in W, C.
    rewrite (Index_words "a" "llow " _ _ _ W0 W C).
    change (" allow " +++ ML) with (" allow " +++ ML).
    replace (Index (" allow " +++ ML) " allow ") with (Some 0) by reflexivity.
    cbn [option_map]. f_equal. lia. }
  assert (I2 : Index P " keys " = None).
  { destruct (inetWords_ok ci "k" H eq_refl eq_refl eq_refl) as (W0 & W & C).
    unfold P, inetWords in *. cbn [tl] in W, C.
    rewrite <- (append_nil_r (Join _ " ")).
    now rewrite (Index_words "k" "eys " "" _ _ W0 W C). }
  assert (I3 : Contains P " read-only " = false).
  { destruct (inetWords_ok ci "r" H eq_refl eq_refl eq_refl) as (W0 & W & C).
    unfold Contains, P, inetWords in *. cbn [tl] in W, C.
    rewrite <- (append_nil_r (Join _ " ")).
    now rewrite (Index_words "r" "ead-only " "" _ _ W0 W C). }
  rewrite I1.
  replace (drop (String.length P + String.length " allow ") (P +++ " allow " +++ ML)) with ML.
  2:{ rewrite <- append_assoc.
      replace (String.length P + String.length " allow ")
        with (String.length (P +++ " allow ")) by now rewrite length_append.
      now rewrite drop_app_length. }
  rewrite take_app_length, (TrimSpace_solid P S), I2, I3.
  assert (EML : parseMatchList ML = ControlInet.Allow ci).
  { unfold ML, serializeMatchList.
    change ("{ " +++ Join (map serializeMatchTerm (ControlInet.Allow ci)) " " +++ " }")
      with ("{" +++ " " +++ Join (map serializeMatchTerm (ControlInet.Allow ci)) " " +++ " }").
    rewrite parseMatchList_braces.
    exact (parseMatchListFromBodyRaw_serializeMatchList _ Hal). }
  rewrite EML. unfold P. rewrite (Fields_words _ HW).
  destruct ci as [addr port allow keys ro].
  cbn [ControlInet.Address ControlInet.Port ControlInet.Allow ControlInet.Keys
       ControlInet.ReadOnly] in *.
  subst keys ro. unfold inetWords. cbn [ControlInet.Address ControlInet.Port].
  destruct port as [n|]; [|reflexivity].
  cbn [scanInetPort String.eqb Ascii.eqb Bool.eqb]. rewrite (inIntRange_Atoi n Hp).
  reflexivity.
Qed.

(** *** Unix control channels *)

Lemma splitAux_skip (sep : string) (k : nat) (cur r : string) :
  splitAux sep k cur r = splitAux sep 0 cur (drop k r).
Proof.
  revert r. induction k as [|k IH]; intros r; [reflexivity|].
  destruct r as [|c r]; [reflexivity|]. cbn [splitAux drop]. apply IH.
Qed.

Lemma splitAux_Index_None (sep s cur : string) :
  Index s sep = None -> splitAux sep 0 cur s = [cur +++ s].
Proof.
  revert cur. induction s as [|c r IH]; intros cur H.
  - now rewrite append_nil_r.
  - cbn [Index] in H. destruct (HasPrefix (String c r) sep) eqn:E; [discriminate|].
    destruct (Index r sep) eqn:Er; [discriminate|].
    cbn [splitAux]. rewrite E, (IH _ eq_refl), append_assoc. reflexivity.
Qed.

Lemma splitAux_Index_Some (sep s cur : string) (i : nat) :
  sep <> "" -> Index s sep = Some i ->
  splitAux sep 0 cur s
  = (cur +++ take i s) :: splitAux sep 0 "" (drop (i + String.length sep) s).
Proof.
  intros Hsep. revert cur i. induction s as [|c r IH]; intros cur i H.
  - destruct sep; [contradiction | discriminate].
  - cbn [Index] in H. cbn [splitAux]. destruct (HasPrefix (String c r) sep) eqn:E.
    + injection H as <-. cbn [take Nat.add]. rewrite append_nil_r. f_equal.
      rewrite splitAux_skip. destruct sep as [|d sep]; [contradiction|].
      cbn [String.length drop Nat.sub Nat.add]. now rewrite Nat.sub_0_r.
    + destruct (Index r sep) as [j|] eqn:Er; [|discriminate]. injection H as <-.
      rewrite (IH _ j eq_refl). cbn [take drop Nat.add]. now rewrite append_assoc.
Qed.

Lemma unixWords_ok (cu : ControlUnix.t) (c : ascii) :
  allBytes isGraphic (ControlUnix.Path cu) = true ->
  isDigit c = false -> Ascii.eqb c "-" = false ->
  Ascii.eqb c "p" = false -> Ascii.eqb c "o" = false -> Ascii.eqb c "g" = false ->
  isWord (quoted (ControlUnix.Path cu)) = true /\
  forallb isWord (tl (unixWords cu)) = true /\
  forallb (fun w => negb (HasPrefix w (String c ""))) (tl (unixWords cu)) = true.
Proof.
  intros H Hd Hm Hp Ho Hg. split; [now apply quoted_isWord|].
  unfold unixWords. cbn [tl forallb]. rewrite !Itoa_isWord, !(Itoa_first c _ Hd Hm).
  cbn [HasPrefix]. rewrite Hp, Ho, Hg. split; reflexivity.
Qed.

Lemma serializeControlUnix_words (cu : ControlUnix.t) :
  serializeControlUnix cu
  = "unix " +++ Join (unixWords cu) " "
    +++ (match ControlUnix.Keys cu with
         | [] => ""
         | ks => " keys { " +++ Join (quoteEach ks) "; " +++ "; }"
         end
         +++ match ControlUnix.ReadOnly cu with
             | Some b => " read-only " +++ boolWord b
             | None => ""
             end).
Proof.
  unfold serializeControlUnix, unixWords. cbn [Join String.append].
  rewrite !append_assoc. cbn [String.append]. rewrite !append_assoc. cbn [String.append].
  rewrite !append_assoc. reflexivity.
Qed.

(** What is left of the line once the [keys] and [read-only] groups are
    cut off has seven fields. *)
Lemma unix_fields (cu : ControlUnix.t) (keys : list string) (ro : option bool) :
  allBytes isGraphic (ControlUnix.Path cu) = true ->
  (let fields := Fields (Join (unixWords cu) " ") in
   if Nat.leb 8 (List.length fields) then
     ControlUnix.mk (trimQuotes (nth 0 fields ""))
                    (fst (Atoi (nth 2 fields "")))
                    (fst (Atoi (nth 4 fields "")))
                    (fst (Atoi (nth 6 fields "")))
                    keys ro
   else ControlUnix.mk "" 0%Z 0%Z 0%Z keys ro)
  = ControlUnix.mk "" 0%Z 0%Z 0%Z keys ro.
Proof.
  intros H. destruct (unixWords_ok cu "k" H eq_refl eq_refl eq_refl eq_refl eq_refl)
    as (W0 & W & _).
  cbv zeta. rewrite Fields_words; [reflexivity|].
  unfold unixWords in *. cbn [tl] in W. cbn [forallb] in *. now rewrite W0, W.
Qed.

Lemma parseControlUnix_serializeControlUnix (cu : ControlUnix.t) :
  allBytes isGraphic (ControlUnix.Path cu) = true ->
  exists keys ro,
    parseControlUnix (serializeControlUnix cu) = ControlUnix.mk "" 0%Z 0%Z 0%Z keys ro /\
    (ControlUnix.Keys cu = [] -> keys = [] /\ ro = ControlUnix.ReadOnly cu).
Proof.
  intros H.
  destruct (unixWords_ok cu "k" H eq_refl eq_refl eq_refl eq_refl eq_refl) as (W0 & Wk & Ck).
  destruct (unixWords_ok cu "r" H eq_refl eq_refl eq_refl eq_refl eq_refl) as (_ & _ & Cr).
  assert (HW : forallb isWord (unixWords cu) = true).
  { unfold unixWords in *. cbn [tl] in Wk. cbn [forallb] in *. now rewrite W0, Wk. }
  assert (S : solid (Join (unixWords cu) " ") = true)
    by (apply words_solid; [exact HW | discriminate]).
  assert (IK : forall tail,
            Index (Join (unixWords cu) " " +++ tail) " keys "
            = option_map (Nat.add (String.length (Join (unixWords cu) " ")))
                         (Index tail " keys ")).
  { intros tail. exact (Index_words "k" "eys " tail _ _ W0 Wk Ck). }
  assert (IR : forall tail,
            Index (Join (unixWords cu) " " +++ tail) " read-only "
            = option_map (Nat.add (String.length (Join (unixWords cu) " ")))
                         (Index tail " read-only ")).
  { intros tail. exact (Index_words "r" "ead-only " tail _ _ W0 Wk Cr). }
  assert (CP : Contains (Join (unixWords cu) " ") " read-only " = false).
  { unfold Contains. rewrite <- (append_nil_r (Join _ " ")), IR. reflexivity. }
  rewrite serializeControlUnix_words.
  unfold parseControlUnix. rewrite TrimPrefix_app.
  set (P := Join (unixWords cu) " ") in *.
  destruct (ControlUnix.Keys cu) as [|k ks] eqn:EK.
  - change ("" +++ match ControlUnix.ReadOnly cu with
                     | Some b => " read-only " +++ boolWord b
                     | None => ""
                     end)
      with (match ControlUnix.ReadOnly cu with
            | Some b => " read-only " +++ boolWord b
            | None => ""
            end).
    destruct (ControlUnix.ReadOnly cu) as [b|] eqn:ER.
    + rewrite IK.
      replace (Index (" read-only " +++ boolWord b) " keys ") with (@None nat)
        by (destruct b; reflexivity).
      cbn [option_map].
      assert (HC : Contains (P +++ " read-only " +++ boolWord b) " read-only " = true).
      { unfold Contains. rewrite IR.
        replace (Index (" read-only " +++ boolWord b) " read-only ") with (Some 0)
          by reflexivity.
        reflexivity. }
      rewrite HC.
      assert (HS : Split (P +++ " read-only " +++ boolWord b) " read-only "
                   = [P; boolWord b]).
      { unfold Split.
        rewrite (splitAux_Index_Some " read-only " _ "" (String.length P));
          [| discriminate |].
        - change ("" +++ take (String.length P) (P +++ " read-only " +++ boolWord b))
            with (take (String.length P) (P +++ " read-only " +++ boolWord b)).
          rewrite take_app_length. f_equal.
          replace (String.length P + String.length " read-only ")
            with (String.length (P +++ " read-only ")) by now rewrite length_append.
          rewrite <- append_assoc, drop_app_length.
          apply (splitAux_Index_None " read-only " (boolWord b) "").
          destruct b; reflexivity.
        - rewrite IR.
          replace (Index (" read-only " +++ boolWord b) " read-only ") with (Some 0)
            by reflexivity.
          cbn [option_map]. f_equal. lia. }
      rewrite HS. cbn [nth]. rewrite (TrimSpace_solid P S).
      unfold P. rewrite (unix_fields cu _ _ H).
      replace (parseBoolPtr (TrimSpace (boolWord b))) with (Some b)
        by (destruct b; reflexivity).
      eexists; eexists; split; [reflexivity|]. intros _. split; reflexivity.
    + rewrite IK. cbn [Index HasPrefix option_map]. rewrite append_nil_r, CP.
      unfold P. rewrite (unix_fields cu _ _ H).
      eexists; eexists; split; [reflexivity|]. intros _. split; reflexivity.
  - rewrite IK.
    replace (Index ((" keys { " +++ Join (quoteEach (k :: ks)) "; " +++ "; }")
                    +++ match ControlUnix.ReadOnly cu with
                        | Some b => " read-only " +++ boolWord b
                        | None => ""
                        end) " keys ")
      with (Some 0) by reflexivity.
    cbn [option_map]. rewrite Nat.add_0_r, take_app_length, (TrimSpace_solid P S), CP.
    unfold P. rewrite (unix_fields cu _ _ H).
    eexists; eexists; split; [reflexivity|]. intros C. discriminate C.
Qed.

(** X27 (unix control channels).  Whatever a unix channel holds, the text
    [serializeControlUnix] writes for it has seven fields in front of its
    [keys] and [read-only] groups where [parseControlUnix] asks for eight:
    path, permissions, owner and group are never read back, for any path
    without blanks.  Without a key list, the channel read back is the empty
    one with the read-only flag that was written. *)
Theorem parseControlUnix_never_reads_back_positional_fields (cu : ControlUnix.t) :
  allBytes isGraphic (ControlUnix.Path cu) = true ->
  let r := parseControlUnix (serializeControlUnix cu) in
  ControlUnix.Path r = "" /\ ControlUnix.Perm r = 0%Z /\
  ControlUnix.Owner r = 0%Z /\ ControlUnix.Group r = 0%Z /\
  (ControlUnix.Keys cu = [] ->
   r = ControlUnix.mk "" 0%Z 0%Z 0%Z [] (ControlUnix.ReadOnly cu)).
Proof.
  intros H. destruct (parseControlUnix_serializeControlUnix cu H) as (keys & ro & E & EK).
  cbv zeta. rewrite E. cbn [ControlUnix.Path ControlUnix.Perm ControlUnix.Owner ControlUnix.Group].
  repeat split. intros HK. destruct (EK HK) as [-> ->]. reflexivity.
Qed.

Lemma parseControlInet_reads_back_allow_only_witness :
  inetOk (ControlInet.mk "127.0.0.1" (Some 953%Z) [aclTerm false "localhost"] [] None) = true /\
  parseControlInet
    (serializeControlInet
       (ControlInet.mk "127.0.0.1" (Some 953%Z) [aclTerm false "localhost"] [] None))
  = ControlInet.mk "127.0.0.1" (Some 953%Z) [aclTerm false "localhost"] [] None.
Proof.
  split; [vm_compute; reflexivity|].
  apply (parseControlInet_reads_back_allow_only
           (ControlInet.mk "127.0.0.1" (Some 953%Z) [aclTerm false "localhost"] [] None)).
  vm_compute. reflexivity.
Defined.

Lemma parseControlUnix_never_reads_back_positional_fields_witness :
  allBytes isGraphic (ControlUnix.Path unixPlain) = true /\
  ControlUnix.Path (parseControlUnix (serializeControlUnix unixPlain)) = "" /\
  ControlUnix.Perm (parseControlUnix (serializeControlUnix unixPlain)) = 0%Z.
Proof.
  split; [vm_compute; reflexivity|].
  destruct (parseControlUnix_never_reads_back_positional_fields unixPlain)
    as (H1 & H2 & _).
  - vm_compute. reflexivity.
  - split; [exact H1 | exact H2].
Defined.

(* ================================================================= *)
(** ** Decode: when it returns *)

(** X28 (when decode returns).  [FromFile] returns exactly for the
    documents in which every [file] statement of every channel of every
    top-level logging block has a field in its header text, and panics for
    the others; when it returns, the error is nil and the model points at
    the document it was given.  A document without a logging block is
    always decoded. *)
Theorem FromFile_returns_unless_a_channel_file_is_blank (f : File) :
  (channelFilesHaveFields f = true <->
   exists cfg, FromFile f = Returns (cfg, None) /\ Config.ast cfg = Some f) /\
  (channelFilesHaveFields f = false <-> exists msg, FromFile f = Panics msg) /\
  (stmtsOf "logging" (Nodes f) = [] -> exists cfg, FromFile f = Returns (cfg, None)).
Proof.
  pose proof (FromFile_returns_or_panics f) as H.
  split; [|split].
  - split.
    + intros E. rewrite E in H. destruct H as [cfg Hc]. exists cfg.
      split; [exact Hc | exact (FromFile_ast _ _ _ Hc)].
    + intros [cfg [Hc _]]. destruct (channelFilesHaveFields f); [reflexivity|].
      destruct H as [msg Hm]. congruence.
  - split.
    + intros E. now rewrite E in H.
    + intros [msg Hm]. destruct (channelFilesHaveFields f); [|reflexivity].
      destruct H as [cfg Hc]. congruence.
  - intros E.
    assert (C : channelFilesHaveFields f = true).
    { unfold channelFilesHaveFields, stmtsAll. apply forallb_forall. intros n Hn.
      destruct n as [s|t]; [|reflexivity]. unfold topStmtOk.
      destruct (isKw s "logging") eqn:K; [|reflexivity].
      exfalso. assert (In s (stmtsOf "logging" (Nodes f))).
      { unfold stmtsOf. apply in_flat_map. exists (StmtNode s). split; [exact Hn|].
        unfold isKw in K. rewrite K. now left. }
      rewrite E in H0. exact H0. }
    now rewrite C in H.
Qed.

(* ================================================================= *)
(** ** Trust anchors: the rest of the line *)

Lemma skipField_word (w r : string) :
  allBytes isGraphic w = true -> skipField (w +++ String " " r) = String " " r.
Proof.
  induction w as [|c w IH]; intros H; [reflexivity|].
  cbn [allBytes] in H. apply andb_true_iff in H. destruct H as [Hc Hw].
  cbn [String.append skipField]. rewrite (spaceWidth_graphic c _ Hc). now apply IH.
Qed.

(** When the name is followed by one blank, as the encoder writes it, the
    rest the decoder takes is the rest of the line. *)
Lemma anchorEntries_one_blank (ss : Stmt) (name d : string) :
  isName name = true -> isRecordText d = true ->
  HeadRaw ss = quoted name +++ " " +++ d ->
  anchorEntries (StmtNode ss) = specAnchorEntries (StmtNode ss).
Proof.
  intros Hn Hd E. destruct (anchor_line name d ss Hn Hd E) as (rest & F & T).
  unfold anchorEntries, specAnchorEntries, anchorFirst, anchorRest. rewrite F.
  cbn [hd_error]. rewrite T.
  assert (R : specRestOfLine (rawOf ss) = d).
  { pose proof Hd as Hd'. unfold isRecordText in Hd'. apply andb_true_iff in Hd'.
    destruct Hd' as [S L]. pose proof S as S'. unfold solid in S'.
    apply andb_true_iff in S'. destruct S' as [_ S2].
    assert (Q : rawOf ss = quoted name +++ String " " d).
    { rewrite rawOf_solid; rewrite E; [reflexivity | |].
      - apply solid_app; [reflexivity|]. now apply endsGraphic_String.
      - rewrite lacks_app, (quoted_name_lacks_semi _ Hn). exact L. }
    unfold specRestOfLine. rewrite Q.
    rewrite TrimLeftSpace_graphic by reflexivity.
    rewrite skipField_word by (apply (quoted_name_isWord name) in Hn;
                               now destruct (isWord_parts _ Hn)).
    rewrite TrimSpace_blank_l. now apply TrimSpace_solid. }
  now rewrite R.
Qed.

(** C7 (trust anchors).  The decoder does not classify by the rest of the
    line: it takes the line with its first field and one blank removed from
    its front, which is the whole line, name included, when a tab follows
    the name or when the line has one field.  In a block of two lines, a
    key line whose name [ds.example.] is followed by a tab is decoded as a
    DS record whose text is the whole line, and a line that holds only the
    name [keys.example] gives a DNSKEY entry; classified by the rest of the
    line, the first is a DNSKEY record and the second gives no entry.  On
    lines whose quoted name is followed by one blank, as the encoder writes
    them, the decoder does classify by the rest of the line. *)
Theorem parseTrustAnchors_takes_the_whole_line :
  TrustAnchors.Items (parseTrustAnchors oddAnchorsBlock)
  = [TrustAnchorItem.mk "ds.example." (HeadRaw tabKeyLine) "";
     TrustAnchorItem.mk "keys.example" "" "keys.example"] /\
  flat_map specAnchorEntries (Body oddAnchorsBlock)
  = [TrustAnchorItem.mk "ds.example." "" ("initial-key 257 3 8 " +++ quoted "AwEAAa")] /\
  (forall st,
     (forall ss, In (StmtNode ss) (Body st) ->
        exists name d, isName name = true /\ isRecordText d = true /\
                       HeadRaw ss = quoted name +++ " " +++ d) ->
     TrustAnchors.Items (parseTrustAnchors st) = flat_map specAnchorEntries (Body st)).
Proof.
  split; [vm_compute; reflexivity|]. split; [vm_compute; reflexivity|].
  intros st H. destruct (parseTrustAnchors_classifies_lines st) as [-> _].
  induction (Body st) as [|n body IH]; [reflexivity|].
  cbn [flat_map]. rewrite IH by (intros ss Hss; apply H; now right). f_equal.
  destruct n as [ss|t]; [|reflexivity].
  destruct (H ss (or_introl eq_refl)) as (name & d & Hn & Hd & E).
  exact (anchorEntries_one_blank ss name d Hn Hd E).
Qed.

(* ================================================================= *)
(** ** Options: the body of an unmodeled statement *)

Lemma parseOptionsStep_unmodeled (op : Options.t) (st : Stmt) :
  inOptionTable st = false ->
  parseOptionsStep op st
  = Options.set_Other (Options.Other op ++ [RawKV.mk (Keyword st) (rawOf st)]) op.
Proof.
  unfold parseOptionsStep, inOptionTable, optionKeywords, isKw. cbn [existsb].
  intros H.
  repeat match goal with
  | |- context [if String.eqb (Keyword st) ?w then _ else _] =>
      let E := fresh "E" in
      destruct (String.eqb (Keyword st) w) eqn:E;
      [ rewrite ?orb_true_r in H; cbn [orb] in H; discriminate H | cbn [orb] in H ]
  end.
  reflexivity.
Qed.

Section OptionsBodies.

Context {A : Adapter}.

(** C6 (overflow bag).  Of a statement outside the fixed table only the
    keyword and the header text reach the overflow bag: the decoder never
    reads its body.  A block-valued option such as [rate-limit] is decoded
    to the same entry as the same statement without its children, and the
    options block built from the model is the same for both: the children
    are dropped, not kept. *)
Theorem options_overflow_drops_the_body :
  Options.Other (parseOptions (optionsHolding rateLimitBlock))
  = [RawKV.mk "rate-limit" "rate-limit"] /\
  optionsBody (parseOptions (optionsHolding rateLimitBlock))
  = [simple "rate-limit rate-limit"] /\
  (forall st body,
     inOptionTable st = false ->
     Options.Other (parseOptions (optionsHolding (withBody st body)))
     = [RawKV.mk (Keyword st) (rawOf st)] /\
     buildOptions (parseOptions (optionsHolding (withBody st body)))
     = buildOptions (parseOptions (optionsHolding st))).
Proof.
  assert (G : forall st body, inOptionTable st = false ->
            Options.Other (parseOptions (optionsHolding (withBody st body)))
            = [RawKV.mk (Keyword st) (rawOf st)] /\
            optionsBody (parseOptions (optionsHolding (withBody st body)))
            = [simple (Keyword st +++ " " +++ rawOf st)]).
  { intros st body H.
    assert (H' : inOptionTable (withBody st body) = false) by exact H.
    unfold parseOptions, optionsHolding. cbn [Body forStmts fold_left].
    rewrite (parseOptionsStep_unmodeled _ _ H'). split; reflexivity. }
  split; [exact (proj1 (G rateLimitBlock (Body rateLimitBlock) eq_refl))|].
  split; [exact (proj2 (G rateLimitBlock (Body rateLimitBlock) eq_refl))|].
  intros st body H. split; [exact (proj1 (G st body H))|].
  unfold buildOptions. f_equal.
  rewrite (proj2 (G st body H)).
  destruct st as [k h b]. symmetry. exact (proj2 (G (mkStmt k h b) b H)).
Qed.

End OptionsBodies.

(* ================================================================= *)
(** ** Match lists: nested lists *)

Lemma lacks_drop (c : ascii) (n : nat) (s : string) :
  lacks c s = true -> lacks c (drop n s) = true.
Proof.
  revert s. induction n as [|n IH]; intros s H; [exact H|].
  destruct s as [|d s]; [reflexivity|]. cbn [drop]. apply IH.
  unfold lacks in H. cbn [allBytes] in H. apply andb_true_iff in H. tauto.
Qed.

Lemma lacks_take (c : ascii) (n : nat) (s : string) :
  lacks c s = true -> lacks c (take n s) = true.
Proof.
  revert s. induction n as [|n IH]; intros s H; [reflexivity|].
  destruct s as [|d s]; [reflexivity|]. cbn [take]. unfold lacks in *.
  cbn [allBytes] in *. apply andb_true_iff in H. destruct H as [H1 H2].
  rewrite H1. cbn [andb]. now apply IH.
Qed.

Lemma lacks_trimLeftN (c : ascii) (width : string -> nat) (n : nat) (s : string) :
  lacks c s = true -> lacks c (trimLeftN width n s) = true.
Proof.
  revert s. induction n as [|n IH]; intros s H; [exact H|].
  cbn [trimLeftN]. destruct (width s); [exact H|]. apply IH. now apply lacks_drop.
Qed.

Lemma lacks_TrimSpace (c : ascii) (s : string) :
  lacks c s = true -> lacks c (TrimSpace s) = true.
Proof.
  intros H. unfold TrimSpace, TrimRightSpace, TrimLeftSpace.
  rewrite lacks_rev. apply lacks_trimLeftN. rewrite lacks_rev. now apply lacks_trimLeftN.
Qed.

Lemma lacks_TrimPrefix (c : ascii) (s p : string) :
  lacks c s = true -> lacks c (TrimPrefix s p) = true.
Proof.
  intros H. unfold TrimPrefix. destruct (HasPrefix s p); [now apply lacks_drop | exact H].
Qed.

Lemma lacks_TrimSuffix (c : ascii) (s p : string) :
  lacks c s = true -> lacks c (TrimSuffix s p) = true.
Proof.
  intros H. unfold TrimSuffix. destruct (HasSuffix s p); [now apply lacks_take | exact H].
Qed.

Lemma lacks_stripBraces (c : ascii) (s : string) :
  lacks c s = true -> lacks c (stripBraces s) = true.
Proof.
  intros H. unfold stripBraces. destruct (HasPrefix (TrimSpace s) "{").
  - now apply lacks_TrimSpace, lacks_TrimSuffix, lacks_TrimPrefix, lacks_TrimSpace.
  - now apply lacks_TrimSpace.
Qed.

(** No piece of a split at the semicolon holds a semicolon. *)
Lemma splitAux_pieces (s cur p : string) :
  lacks ";" cur = true -> In p (splitAux ";" 0 cur s) -> lacks ";" p = true.
Proof.
  revert cur. induction s as [|c r IH]; intros cur Hc Hp.
  - cbn [splitAux In] in Hp. destruct Hp as [<-|[]]. exact Hc.
  - cbn [splitAux] in Hp. rewrite HasPrefix_semi in Hp.
    destruct (Ascii.eqb ";" c) eqn:E.
    + cbn [String.length Nat.sub] in Hp. destruct Hp as [<-|Hp]; [exact Hc|].
      now apply (IH "").
    + apply (IH (cur +++ String c "")); [|exact Hp].
      rewrite lacks_app, Hc. unfold lacks. cbn [allBytes].
      rewrite Ascii.eqb_sym, E. reflexivity.
Qed.

Lemma segments_lack_semicolon (raw seg : string) :
  In seg (segments raw) -> lacks ";" seg = true.
Proof.
  unfold segments. intros H. apply filter_In in H. destruct H as [H _].
  apply in_map_iff in H. destruct H as [p [<- Hp]].
  apply lacks_TrimSpace. exact (splitAux_pieces _ "" p eq_refl Hp).
Qed.

(** A text without a semicolon is decoded to one term at most. *)
Lemma one_segment (raw : string) :
  lacks ";" raw = true -> List.length (parseMatchListFromBodyRaw raw) <= 1.
Proof.
  intros H. rewrite parseMatchList_classifies_segments, length_map.
  unfold segments. rewrite (Split_one _ (lacks_stripBraces ";" raw H)).
  cbn [map filter]. destruct (negb _); cbn [List.length]; lia.
Qed.

Lemma nested_at_most_one (raw : string) (t : MatchTerm.t) :
  In t (parseMatchListFromBodyRaw raw) -> List.length (MatchTerm.Nested t) <= 1.
Proof.
  rewrite parseMatchList_classifies_segments. intros H. apply in_map_iff in H.
  destruct H as [seg [<- Hseg]]. pose proof (segments_lack_semicolon raw seg Hseg) as L.
  unfold classify, classifyPlain.
  destruct (HasPrefix seg "!").
  - set (q := TrimSpace (TrimPrefix seg "!")).
    assert (Lq : lacks ";" q = true) by now apply lacks_TrimSpace, lacks_TrimPrefix.
    destruct (HasPrefix q "key "); [cbn; lia|].
    destruct (HasPrefix q "{"); [cbn [termOf MatchTerm.Nested]; now apply one_segment|].
    destruct (_ || _); cbn; lia.
  - destruct (HasPrefix seg "key "); [cbn; lia|].
    destruct (HasPrefix seg "{"); [cbn [termOf MatchTerm.Nested]; now apply one_segment|].
    destruct (_ || _); cbn; lia.
Qed.

(** *** The decoder of the specification *)

Lemma splitTopAux_cases (s : string) :
  forall depth cur seg,
    In seg (splitTopAux depth cur s) ->
    seg = cur +++ s \/ String.length seg < String.length cur + String.length s.
Proof.
  induction s as [|c r IH]; intros depth cur seg H.
  - cbn [splitTopAux In] in H. destruct H as [<-|[]]. left. now rewrite append_nil_r.
  - cbn [splitTopAux] in H.
    assert (G : forall d, In seg (splitTopAux d (cur +++ String c "") r) ->
                seg = cur +++ String c r \/
                String.length seg < String.length cur + String.length (String c r)).
    { intros d Hd. destruct (IH _ _ _ Hd) as [->|L].
      - left. now rewrite append_assoc.
      - right. rewrite length_append in L. cbn [String.length] in *. lia. }
    destruct (Ascii.eqb c ";" && Nat.eqb depth 0).
    + right. destruct H as [<-|H]; [cbn [String.length]; lia|].
      destruct (IH _ _ _ H) as [->|L]; cbn [String.append String.length] in *; lia.
    + destruct (Ascii.eqb c "{"); [exact (G _ H)|].
      destruct (Ascii.eqb c "}"); exact (G _ H).
Qed.

Lemma specClassify_inner (nested : string -> list MatchTerm.t) (seg : string) :
  specClassify nested seg
  = (HasPrefix seg "!", specClassifyPlain nested (specInner seg)).
Proof. unfold specClassify, specInner. destruct (HasPrefix seg "!"); reflexivity. Qed.

Lemma specClassify_ext (n1 n2 : string -> list MatchTerm.t) (seg : string) :
  (HasPrefix (specInner seg) "{" = true -> n1 (specInner seg) = n2 (specInner seg)) ->
  specClassify n1 seg = specClassify n2 seg.
Proof.
  intros H. rewrite !specClassify_inner. f_equal. unfold specClassifyPlain.
  destruct (HasPrefix (specInner seg) "key "); [reflexivity|].
  destruct (HasPrefix (specInner seg) "{"); [now rewrite H | reflexivity].
Qed.

Lemma specInner_cases (seg : string) :
  specInner seg = seg \/ String.length (specInner seg) < String.length seg.
Proof.
  unfold specInner. destruct (HasPrefix seg "!") eqn:E; [right | now left].
  pose proof (TrimPrefix_lt _ "!" E ltac:(discriminate)).
  pose proof (TrimSpace_le (TrimPrefix seg "!")). lia.
Qed.

(** The text of a nested call is shorter than the text being decoded. *)
Lemma specInner_shorter (raw seg : string) :
  In seg (specSegments raw) ->
  HasPrefix (specInner seg) "{" = true ->
  String.length (specInner seg) < String.length raw.
Proof.
  unfold specSegments. intros Hin Hb. apply filter_In in Hin. destruct Hin as [Hin _].
  apply in_map_iff in Hin. destruct Hin as [p [<- Hp]].
  pose proof (stripBraces_le raw) as Hle.
  pose proof (TrimSpace_le p) as Ht.
  destruct (specInner_cases (TrimSpace p)) as [Ei|Li]; [|
    destruct (splitTopAux_cases _ _ _ _ Hp) as [->|L]; cbn [String.append String.length] in *;
    lia].
  rewrite Ei in *.
  destruct (splitTopAux_cases _ _ _ _ Hp) as [->|L];
    [|cbn [String.length] in L; lia].
  cbn [String.append] in *.
  destruct (TrimSpace_cases (stripBraces raw)) as [Et|Lt]; [|lia].
  rewrite Et in *. clear Ei Et Hp Ht.
  unfold stripBraces in *. pose proof (TrimSpace_le raw).
  destruct (HasPrefix (TrimSpace raw) "{") eqn:E.
  - pose proof (TrimPrefix_lt _ "{" E ltac:(discriminate)).
    pose proof (TrimSuffix_le (TrimPrefix (TrimSpace raw) "{") "}").
    pose proof (TrimSpace_le (TrimSuffix (TrimPrefix (TrimSpace raw) "{") "}")). lia.
  - congruence.
Qed.

Lemma specMatchListFuel_irrelevant (n m : nat) (raw : string) :
  String.length raw < n -> String.length raw < m ->
  specMatchListFuel n raw = specMatchListFuel m raw.
Proof.
  revert m raw. induction n as [|n IH]; intros m raw Hn Hm; [lia|].
  destruct m as [|m]; [lia|]. cbn [specMatchListFuel].
  apply map_ext_in. intros seg Hseg. f_equal. apply specClassify_ext. intros Hb.
  pose proof (specInner_shorter raw seg Hseg Hb). apply IH; lia.
Qed.

(** Enough fuel: the decoder of the specification is its own fixed point. *)
Lemma specMatchList_unfold (raw : string) :
  specMatchList raw
  = map (fun seg => termOf (specClassify specMatchList seg)) (specSegments raw).
Proof.
  unfold specMatchList at 1. cbn [specMatchListFuel].
  apply map_ext_in. intros seg Hseg. f_equal. apply specClassify_ext. intros Hb.
  pose proof (specInner_shorter raw seg Hseg Hb).
  apply specMatchListFuel_irrelevant; lia.
Qed.

(** Without a brace inside the list the two cuts are the same. *)
Lemma splitTopAux_flat (s cur : string) :
  lacks "{" s = true -> splitTopAux 0 cur s = splitAux ";" 0 cur s.
Proof.
  revert cur. induction s as [|c r IH]; intros cur H; [reflexivity|].
  unfold lacks in H. cbn [allBytes] in H. apply andb_true_iff in H. destruct H as [Hc Hr].
  apply negb_true_iff in Hc.
  cbn [splitTopAux splitAux]. rewrite HasPrefix_semi, Hc, (Ascii.eqb_sym ";" c).
  destruct (Ascii.eqb c ";"); cbn [andb Nat.eqb String.length Nat.sub];
    [now rewrite (IH "" Hr)|].
  destruct (Ascii.eqb c "}"); cbn [Nat.pred]; now rewrite (IH _ Hr).
Qed.

Lemma splitAux_pieces_lack (c : ascii) (s cur p : string) :
  lacks c cur = true -> lacks c s = true ->
  In p (splitAux ";" 0 cur s) -> lacks c p = true.
Proof.
  revert cur. induction s as [|d r IH]; intros cur Hc Hs Hp.
  - cbn [splitAux In] in Hp. destruct Hp as [<-|[]]. exact Hc.
  - unfold lacks in Hs. cbn [allBytes] in Hs. apply andb_true_iff in Hs.
    destruct Hs as [Hd Hr].
    cbn [splitAux] in Hp. rewrite HasPrefix_semi in Hp.
    destruct (Ascii.eqb ";" d).
    + cbn [String.length Nat.sub] in Hp. destruct Hp as [<-|Hp]; [exact Hc|].
      now apply (IH "").
    + apply (IH (cur +++ String d "")); [|exact Hr|exact Hp].
      rewrite lacks_app, Hc. unfold lacks. cbn [allBytes]. now rewrite Hd.
Qed.

Lemma lacks_no_prefix (c : ascii) (s : string) :
  lacks c s = true -> HasPrefix s (String c "") = false.
Proof.
  destruct s as [|d r]; [reflexivity|]. unfold lacks. cbn [allBytes HasPrefix].
  intros H. apply andb_true_iff in H. destruct H as [H _].
  apply negb_true_iff in H. rewrite Ascii.eqb_sym, H. reflexivity.
Qed.

Lemma lacks_specInner (c : ascii) (seg : string) :
  lacks c seg = true -> lacks c (specInner seg) = true.
Proof.
  intros H. unfold specInner. destruct (HasPrefix seg "!"); [|exact H].
  now apply lacks_TrimSpace, lacks_TrimPrefix.
Qed.

(** On a text with no brace inside its wrapper the decoder of the
    specification and the decoder of the code give the same terms. *)
Lemma flat_lists_agree (raw : string) :
  lacks "{" (stripBraces raw) = true -> specMatchList raw = parseMatchListFromBodyRaw raw.
Proof.
  intros H. rewrite specMatchList_unfold, parseMatchList_classifies_segments.
  assert (E : specSegments raw = segments raw).
  { unfold specSegments, segments, Split. now rewrite (splitTopAux_flat _ "" H). }
  rewrite E. apply map_ext_in. intros seg Hseg. f_equal.
  change (classify seg) with (specClassify parseMatchListFromBodyRaw seg).
  apply specClassify_ext. intros Hb.
  assert (L : lacks "{" seg = true).
  { unfold segments in Hseg. apply filter_In in Hseg. destruct Hseg as [Hseg _].
    apply in_map_iff in Hseg. destruct Hseg as [p [<- Hp]]. apply lacks_TrimSpace.
    exact (splitAux_pieces_lack "{" _ "" p eq_refl H Hp). }
  rewrite (lacks_no_prefix _ _ (lacks_specInner _ _ L)) in Hb. discriminate.
Qed.

(** C4 (classification).  The decoder cuts its text at every semicolon, not
    at the top-level ones only, so a nested list of more than one term never
    comes back.  The nested list of the specification's example, one literal
    address and one negated reference, is written by the encoder as the text
    [{ { 10.0.0.0/8; !bogons; }; }]; the decoder of the specification
    (top-level cut, then the classification in its order) reads that
    text back as the one nested term; the decoder of the code returns three
    terms: a nested list of the first address alone, the negated reference
    [bogons] at the top level, and a reference named by a closing brace.  No
    term the code decodes holds a nested list of more than one term.  On a
    text with no brace inside its wrapper the two decoders agree. *)
Theorem parseMatchList_cuts_inside_nested_lists :
  serializeMatchList [nestedExample] = nestedExampleText /\
  specMatchList nestedExampleText = [nestedExample] /\
  parseMatchListFromBodyRaw nestedExampleText
  = [MatchTerm.mk false "" "" "" [MatchTerm.mk false "10.0.0.0/8" "" "" []];
     MatchTerm.mk true "" "" "bogons" [];
     MatchTerm.mk false "" "" "}" []] /\
  (forall raw t, In t (parseMatchListFromBodyRaw raw) ->
                 List.length (MatchTerm.Nested t) <= 1) /\
  (forall raw, lacks "{" (stripBraces raw) = true ->
               parseMatchListFromBodyRaw raw = specMatchList raw).
Proof.
  split; [vm_compute; reflexivity|].
  split; [vm_compute; reflexivity|].
  split; [vm_compute; reflexivity|].
  split; [exact nested_at_most_one|].
  intros raw H. symmetry. exact (flat_lists_agree raw H).
Qed.

(* ================================================================= *)
(** ** Encode, decode, encode: the models that come back *)

Lemma stmtsOf_filter (k : string) (nodes : list Node) :
  map StmtNode (stmtsOf k nodes) = filter (isStmtOf k) nodes.
Proof.
  unfold stmtsOf. induction nodes as [|n nodes IH]; [reflexivity|].
  cbn [flat_map filter]. rewrite map_app, IH.
  destruct n as [s|t]; cbn [isStmtOf]; [|reflexivity].
  destruct (String.eqb (Keyword s) k); reflexivity.
Qed.

Lemma map_StmtNode_inj (l1 l2 : list Stmt) : map StmtNode l1 = map StmtNode l2 -> l1 = l2.
Proof.
  revert l2. induction l1 as [|a l1 IH]; intros [|b l2] H; try discriminate; [reflexivity|].
  cbn [map] in H. injection H as -> H. f_equal. now apply IH.
Qed.

Lemma stmtsOf_built {X : Type} (k : string) (nodes : list Node) (b : X -> Stmt) (items : list X) :
  filter (isStmtOf k) nodes = map (fun x => StmtNode (b x)) items ->
  stmtsOf k nodes = map b items.
Proof.
  intros H. apply map_StmtNode_inj. now rewrite stmtsOf_filter, H, map_map.
Qed.

Lemma stmtsOf_none (k : string) (nodes : list Node) :
  filter (isStmtOf k) nodes = [] -> stmtsOf k nodes = [].
Proof. intros H. apply map_StmtNode_inj. now rewrite stmtsOf_filter, H. Qed.

(** A document without a [logging] statement is decoded. *)
Lemma FromFile_without_logging (f : File) :
  stmtsOf "logging" (Nodes f) = [] -> exists cfg, FromFile f = Returns (cfg, None).
Proof.
  intros H. pose proof (FromFile_returns_or_panics f) as R.
  assert (E : channelFilesHaveFields f = true); [|now rewrite E in R].
  unfold channelFilesHaveFields, stmtsAll. apply forallb_forall. intros n Hn.
  destruct n as [s|t]; [|reflexivity].
  unfold topStmtOk, isKw. destruct (String.eqb (Keyword s) "logging") eqn:Ek; [|reflexivity].
  exfalso. assert (Hin : In s (stmtsOf "logging" (Nodes f))).
  { unfold stmtsOf. apply in_flat_map. exists (StmtNode s). split; [exact Hn|].
    rewrite Ek. now left. }
  rewrite H in Hin. destruct Hin.
Qed.

Section PlainModels.

Context {A : Adapter}.

Hypothesis simple_keyword :
  forall line, wellHeaded line = true -> Keyword (NewSimpleStmt line) = leadWord line.
Hypothesis block_keyword :
  forall head body, wellHeaded head = true -> Keyword (NewBlockStmt head body) = leadWord head.
Hypothesis block_head : forall head body, HeadRaw (NewBlockStmt head body) = head.
Hypothesis block_body : forall head body, Body (NewBlockStmt head body) = body.
Hypothesis simple_head : forall line, HeadRaw (NewSimpleStmt line) = line.

(** The statement built for what was decoded from a built statement is
    that statement again. *)
Lemma buildACL_again (a : ACL.t) :
  aclOk a = true -> buildACL (parseACL (buildACL a)) = buildACL a.
Proof.
  unfold aclOk. rewrite andb_true_iff. intros [Hn He].
  unfold parseACL. cbv zeta. unfold buildACL at 1. cbn [ACL.Name ACL.Elements].
  rewrite (built_head_name _ "acl" (ACL.Name a) "acl" eq_refl Hn)
    by (unfold buildACL; cbv zeta; now rewrite block_head).
  unfold parseMatchListFromBody. unfold buildACL at 1. cbv zeta. rewrite block_body.
  now rewrite (parseMatchListFromBodyRaw_serializeMatchList _ He).
Qed.

Lemma buildRemoteServers_again (rs : RemoteServers.t) :
  remoteServersOk rs = true ->
  buildRemoteServers (parseRemoteServers (buildRemoteServers rs)) = buildRemoteServers rs.
Proof.
  unfold remoteServersOk. rewrite andb_true_iff. intros [Hn Hs].
  assert (E : parseRemoteServers (buildRemoteServers rs)
              = RemoteServers.mk (RemoteServers.Name rs) (RemoteServers.Servers rs)
                  (Some (buildRemoteServers rs))); [|now rewrite E].
  unfold parseRemoteServers. cbv zeta. f_equal.
  - apply (built_head_name _ "remote-servers" (RemoteServers.Name rs) _ eq_refl Hn).
    unfold buildRemoteServers. now rewrite block_head.
  - unfold buildRemoteServers. rewrite block_body.
    exact (parseRemoteServers_loop simple_head _ [] Hs).
Qed.

Lemma buildTrustAnchors_again (t : TrustAnchors.t) :
  forallb anchorOk (TrustAnchors.Items t) = true ->
  buildTrustAnchors (parseTrustAnchors (buildTrustAnchors t)) = buildTrustAnchors t.
Proof.
  intros H.
  assert (E : parseTrustAnchors (buildTrustAnchors t)
              = TrustAnchors.mk (TrustAnchors.Items t) (Some (buildTrustAnchors t)));
    [|now rewrite E].
  unfold parseTrustAnchors. unfold buildTrustAnchors at 1. rewrite block_body.
  exact (parseTrustAnchors_built_loop simple_head _ [] _ H).
Qed.

Lemma map_again {X : Type} (b : X -> Stmt) (p : Stmt -> X) (ok : X -> bool) (items : list X) :
  (forall x, ok x = true -> b (p (b x)) = b x) ->
  forallb ok items = true ->
  map (fun x => StmtNode (b x)) (map p (map b items)) = map (fun x => StmtNode (b x)) items.
Proof.
  intros Hb Hok. rewrite !map_map. apply map_ext_in. intros x Hx. f_equal.
  apply Hb. rewrite forallb_forall in Hok. now apply Hok.
Qed.

(** What decode finds in the document written for a plain model, and what
    is built from it: the nodes of the first encode. *)
Lemma plain_freshNodes (M M' : Config.t) (f0 : File) (e : option error) :
  plainModel M = true ->
  FromFile (syncAll M f0) = Returns (M', e) ->
  freshNodes M' = freshNodes M.
Proof.
  intros Hp H. apply FromFile_loop in H.
  pose proof (fun k Hk => syncAll_keyword_nodes simple_keyword block_keyword M f0 k Hk) as Hf.
  unfold plainModel in Hp. rewrite !andb_true_iff in Hp.
  destruct Hp as ((((((((((((P1 & P2) & P3) & P4) & P5) & P6) & P7) & P8) & P9) & P10)
                    & Pa) & Pr) & Pt).
  pose proof (forStmtsM_appends _ _ _ step_Includes _ _ _ H) as E1.
  pose proof (forStmtsM_appends _ _ _ step_ACLs _ _ _ H) as E2.
  pose proof (forStmtsM_appends _ _ _ step_Keys _ _ _ H) as E3.
  pose proof (forStmtsM_appends _ _ _ step_KeyStores _ _ _ H) as E4.
  pose proof (forStmtsM_appends _ _ _ step_RemoteServers _ _ _ H) as E5.
  pose proof (forStmtsM_appends _ _ _ step_TLS _ _ _ H) as E6.
  pose proof (forStmtsM_appends _ _ _ step_HTTP _ _ _ H) as E7.
  pose proof (forStmtsM_sets _ _ _ step_Controls _ _ _ H) as E8.
  pose proof (forStmtsM_logging _ _ _ H) as E9.
  pose proof (forStmtsM_sets _ _ _ step_Options _ _ _ H) as E10.
  pose proof (forStmtsM_appends _ _ _ step_TrustAnchors _ _ _ H) as E11.
  pose proof (forStmtsM_appends _ _ _ step_Views _ _ _ H) as E12.
  pose proof (forStmtsM_appends _ _ _ step_Zones _ _ _ H) as E13.
  cbn [Config.Includes Config.ACLs Config.Keys Config.KeyStores Config.RemoteServers
       Config.TLS Config.HTTP Config.Controls Config.Logging Config.Options
       Config.TrustAnchors Config.Views Config.Zones Config.set_ast Config.zero app]
    in E1, E2, E3, E4, E5, E6, E7, E8, E9, E10, E11, E12, E13.
  unfold lastStmtOf in E8, E9, E10.
  pose proof (Hf "include" ltac:(cbn; tauto)) as F1.
  pose proof (Hf "acl" ltac:(cbn; tauto)) as F2.
  pose proof (Hf "key" ltac:(cbn; tauto)) as F3.
  pose proof (Hf "key-store" ltac:(cbn; tauto)) as F4.
  pose proof (Hf "remote-servers" ltac:(cbn; tauto)) as F5.
  pose proof (Hf "tls" ltac:(cbn; tauto)) as F6.
  pose proof (Hf "http" ltac:(cbn; tauto)) as F7.
  pose proof (Hf "controls" ltac:(cbn; tauto)) as F8.
  pose proof (Hf "logging" ltac:(cbn; tauto)) as F9.
  pose proof (Hf "options" ltac:(cbn; tauto)) as F10.
  pose proof (Hf "trust-anchors" ltac:(cbn; tauto)) as F11.
  pose proof (Hf "view" ltac:(cbn; tauto)) as F12.
  pose proof (Hf "zone" ltac:(cbn; tauto)) as F13.
  clear Hf H.
  unfold freshFor in F1, F2, F3, F4, F5, F6, F7, F8, F9, F10, F11, F12, F13.
  cbn [String.eqb Ascii.eqb Bool.eqb] in F1, F2, F3, F4, F5, F6, F7, F8, F9, F10, F11, F12, F13.
  destruct M as [inc acls keys ks rs tls http ctl lg op ta vs zs a].
  cbn [Config.Includes Config.ACLs Config.Keys Config.KeyStores Config.RemoteServers
       Config.TLS Config.HTTP Config.Controls Config.Logging Config.Options
       Config.TrustAnchors Config.Views Config.Zones] in *.
  destruct inc; [|discriminate P1]. destruct keys; [|discriminate P2].
  destruct ks; [|discriminate P3]. destruct tls; [|discriminate P4].
  destruct http; [|discriminate P5]. destruct ctl; [discriminate P6|].
  destruct lg; [discriminate P7|]. destruct op; [discriminate P8|].
  destruct vs; [|discriminate P9]. destruct zs; [|discriminate P10].
  cbn [map optNode] in F1, F3, F4, F6, F7, F8, F9, F10, F12, F13.
  rewrite (stmtsOf_none _ _ F1) in E1. rewrite (stmtsOf_none _ _ F3) in E3.
  rewrite (stmtsOf_none _ _ F4) in E4. rewrite (stmtsOf_none _ _ F6) in E6.
  rewrite (stmtsOf_none _ _ F7) in E7. rewrite (stmtsOf_none _ _ F8) in E8.
  rewrite (stmtsOf_none _ _ F9) in E9. rewrite (stmtsOf_none _ _ F10) in E10.
  rewrite (stmtsOf_none _ _ F12) in E12. rewrite (stmtsOf_none _ _ F13) in E13.
  rewrite (stmtsOf_built _ _ _ _ F2) in E2.
  rewrite (stmtsOf_built _ _ _ _ F5) in E5.
  rewrite (stmtsOf_built _ _ _ _ F11) in E11.
  cbn [map rev hd_error] in E1, E3, E4, E6, E7, E8, E9, E10, E12, E13.
  unfold freshNodes, modeledKeywords. cbn [flat_map]. unfold freshFor.
  cbn [String.eqb Ascii.eqb Bool.eqb].
  cbn [Config.Includes Config.ACLs Config.Keys Config.KeyStores Config.RemoteServers
       Config.TLS Config.HTTP Config.Controls Config.Logging Config.Options
       Config.TrustAnchors Config.Views Config.Zones].
  rewrite E1, E2, E3, E4, E5, E6, E7, E8, E9, E10, E11, E12, E13.
  rewrite (map_again buildACL parseACL aclOk acls buildACL_again Pa).
  rewrite (map_again buildRemoteServers parseRemoteServers remoteServersOk rs
             buildRemoteServers_again Pr).
  rewrite (map_again buildTrustAnchors parseTrustAnchors
             (fun t => forallb anchorOk (TrustAnchors.Items t)) ta buildTrustAnchors_again Pt).
  reflexivity.
Qed.

(** C3 (idempotence), for the models that come back.  Let the model hold
    only access lists with flat match lists, remote-servers blocks and
    trust-anchors blocks whose entries are classified as they were stored
    ([plainModel]), and let the statement constructors keep the header line
    and the body they are given.  Then, whatever the document, the document
    written by [Apply] is decoded by [FromFile], and [Apply] of the decoded
    model writes that same document again, node for node. *)
Theorem encode_decode_encode_is_idempotent_on_plain_models
  (M : Config.t) (arg : option File) (f0 : File) :
  plainModel M = true ->
  backing M arg = Some f0 ->
  exists M1 f1 M' M2 f2,
    Apply M arg = inl (M1, f1) /\
    FromFile f1 = Returns (M', None) /\
    Apply M' None = inl (M2, f2) /\
    f2 = f1 /\
    Nodes f2 = untouched (Nodes f0) ++ freshNodes M.
Proof.
  intros Hp Hb.
  assert (Hlog : stmtsOf "logging" (Nodes (syncAll M f0)) = []).
  { apply stmtsOf_none.
    rewrite (syncAll_keyword_nodes simple_keyword block_keyword M f0 "logging")
      by (cbn; tauto).
    unfold plainModel in Hp. rewrite !andb_true_iff in Hp.
    destruct Hp as ((((((((((((_ & _) & _) & _) & _) & _) & P7) & _) & _) & _) & _) & _) & _).
    unfold freshFor. cbn [String.eqb Ascii.eqb Bool.eqb].
    destruct (Config.Logging M); [discriminate P7 | reflexivity]. }
  destruct (FromFile_without_logging _ Hlog) as [M' HM'].
  assert (E : syncAll M' (syncAll M f0) = syncAll M f0).
  { apply File_eq.
    rewrite (syncAll_layout simple_keyword block_keyword M' (syncAll M f0)).
    rewrite (untouched_syncAll simple_keyword block_keyword M f0).
    rewrite (plain_freshNodes M M' f0 None Hp HM').
    symmetry. apply (syncAll_layout simple_keyword block_keyword). }
  exists (Config.set_ast (Some (syncAll M f0)) M), (syncAll M f0), M'.
  exists (Config.set_ast (Some (syncAll M f0)) M'), (syncAll M f0).
  split; [exact (Apply_backing M arg f0 Hb)|].
  split; [exact HM'|].
  split.
  - rewrite (Apply_backing M' None (syncAll M f0)) by exact (FromFile_ast _ _ _ HM').
    now rewrite E.
  - split; [reflexivity|]. apply (syncAll_layout simple_keyword block_keyword).
Qed.

End PlainModels.

(** C3 at the sample document and a model with an access list, a
    remote-servers block and a trust-anchors block, for the constructors
    that keep what they are given. *)
Lemma encode_decode_encode_is_idempotent_on_plain_models_witness :
  plainModel plainSampleModel = true /\
  backing plainSampleModel (Some sampleDocument) = Some sampleDocument /\
  exists M1 f1 M' M2 f2,
    Apply (A := refAdapter) plainSampleModel (Some sampleDocument) = inl (M1, f1) /\
    FromFile f1 = Returns (M', None) /\
    Apply (A := refAdapter) M' None = inl (M2, f2) /\
    f2 = f1 /\
    Nodes f2 = untouched (Nodes sampleDocument) ++ freshNodes (A := refAdapter) plainSampleModel.
Proof.
  split; [vm_compute; reflexivity|]. split; [reflexivity|].
  apply (@encode_decode_encode_is_idempotent_on_plain_models refAdapter
           (fun _ _ => eq_refl) (fun _ _ _ => eq_refl)
           (fun _ _ => eq_refl) (fun _ _ => eq_refl) (fun _ => eq_refl)
           plainSampleModel (Some sampleDocument) sampleDocument).
  - vm_compute. reflexivity.
  - reflexivity.
Defined.

(** A block left out of [plainModel]: under the same constructors a key
    does not come back.  It is written with the line
    [algorithm "hmac-sha256"], decoded with that whole line, less the
    closing quote, as its algorithm, and written again with the keyword
    twice; the same happens to its secret. *)
Lemma key_round_trip_differs :
  exists M1 f1 M' M2 f2,
    Apply (A := refAdapter) keyModel (Some emptyDocument) = inl (M1, f1) /\
    FromFile f1 = Returns (M', None) /\
    Apply (A := refAdapter) M' None = inl (M2, f2) /\
    Nodes f1 =
      [StmtNode (mkStmt "key" ("key " +++ quoted "rndc-key")
         [StmtNode (mkStmt "algorithm" ("algorithm " +++ quoted "hmac-sha256") []);
          StmtNode (mkStmt "secret" ("secret " +++ quoted "c2VjcmV0") [])])] /\
    Nodes f2 =
      [StmtNode (mkStmt "key" ("key " +++ quoted "rndc-key")
         [StmtNode (mkStmt "algorithm"
                      ("algorithm " +++ quoted ("algorithm " +++ dq +++ "hmac-sha256")) []);
          StmtNode (mkStmt "secret" ("secret " +++ quoted ("secret " +++ dq +++ "c2VjcmV0")) [])])] /\
    Nodes f2 <> Nodes f1.
Proof.
  do 5 eexists.
  (split; [reflexivity|]); (split; [vm_compute; reflexivity|]);
  (split; [reflexivity|]); (split; [vm_compute; reflexivity|]);
  (split; [vm_compute; reflexivity|]).
  vm_compute. discriminate.
Qed.
